(** * WalB block-level write-ahead log driver: hash table and IO core

    A shallow embedding of [module/hashtbl.c] and of the write pipeline of
    [module/io.c], with the properties of the design document stated and
    proved over it.

    Conventions.
    - C integers are [Z]; a [u32]/[u64] result is reduced with [wrap32] /
      [wrap64] where the C expression can wrap.
    - A function that mutates a structure through a pointer returns the new
      structure; a function that talks to a device, completes a bio or runs
      a helper returns the list of [event]s it performed, in program order.
    - Results of the outside world (an allocation, the completion status of
      a submitted bio, the clock) are arguments of the function that
      consumes them. *)

From Stdlib Require Import String Ascii.
From Stdlib Require Import Strings.Byte.
From Stdlib Require Import DecimalString.
From Stdlib Require Import ZArith List Bool Lia Sorting.Sorted Sorting.Permutation.
Import ListNotations.
Open Scope Z_scope.

Set Implicit Arguments.

(** ** Machine integers *)

Definition wrap32 (x : Z) : Z := x mod 2 ^ 32.
Definition wrap64 (x : Z) : Z := x mod 2 ^ 64.

(** Errno values of the kernel ([include/uapi/asm-generic/errno-base.h]). *)
Definition EPERM : Z := 1.
Definition EIO : Z := 5.
Definition ENOMEM : Z := 12.
Definition EINVAL : Z := 22.

(** ** Hash table ([module/hashtbl.c]) *)

Module Hashtbl.

(** [struct hash_cell]: the key is owned by the cell ([key_size] bytes). *)
Record hash_cell : Type := mk_hash_cell {
  key : list byte;
  key_size : Z;
  val : Z
}.

(** [struct hash_tbl]: [bucket] is the array of hlist heads; every bucket
    is kept as the list of its cells from the head on. *)
Record hash_tbl : Type := mk_hash_tbl {
  bucket_size : Z;
  n_bits : Z;
  bucket : list (list hash_cell)
}.

(** Outcome of the two [kmalloc] calls of [alloc_hash_cell]. *)
Record kmalloc_result : Type := mk_kmalloc {
  cell_allocated : bool;
  key_allocated : bool
}.

Definition byte_val (b : byte) : Z := Z.of_N (Byte.to_N b).

(** A [u32] load through a byte pointer on a little-endian machine; bytes
    past the end of the list
    read as zero, which is also what the [memcpy] into a zeroed [u32 buf]
    gives for the last [m] bytes. *)
Fixpoint load_le (bs : list byte) : Z :=
  match bs with
  | [] => 0
  | b :: tl => byte_val b + 256 * load_le tl
  end.

(** The loop of [get_sum] over the [n] whole words of [data]. *)
Fixpoint sum_words (n : nat) (data : list byte) : Z :=
  match n with
  | O => 0
  | S k => load_le (firstn 4 data) + sum_words k (skipn 4 data)
  end.

(** [get_sum]: only the first [size] bytes of [data] are read. *)
Definition get_sum (data : list byte) (size : Z) : Z :=
  let d := firstn (Z.to_nat size) data in
  let n := size / 4 in
  let m := size mod 4 in
  let words := sum_words (Z.to_nat n) d in
  let rest := if 0 <? m then load_le (skipn (Z.to_nat (4 * n)) d) else 0 in
  let sum := wrap64 (words + rest) in
  let folded := wrap32 (Z.shiftr sum 32 + Z.shiftr (wrap64 (Z.shiftl sum 32)) 32) in
  let ret := wrap32 ((2 ^ 32 - 1 - folded) + 1) in
  if ret =? 2 ^ 32 - 1 then 0 else ret.

(** [get_n_bits]; [None] is the [BUG()] after the loop. *)
Fixpoint get_n_bits_loop (fuel : nat) (i : Z) (v : Z) : option Z :=
  match fuel with
  | O => None
  | S k => if Z.shiftr v i =? 1 then Some (i + 1)
           else get_n_bits_loop k (i + 1) v
  end.

Definition get_n_bits (v : Z) : option Z :=
  if v =? 0 then Some 1 else get_n_bits_loop 31 1 v.

Section WithHash.

(** [hash_32] of [linux/hash.h] and the constant [HASHTBL_INVALID_VAL] of
    [hashtbl.h] come with the headers; the table code only relies on their
    being fixed. *)
Variable hash_32 : Z -> Z -> Z.
Variable HASHTBL_INVALID_VAL : Z.

Definition hashtbl_get_index (htbl : hash_tbl) (k : list byte) (ksize : Z) : Z :=
  hash_32 (get_sum k ksize) (n_bits htbl).

Definition list_eqb_byte (a b : list byte) : bool :=
  if list_eq_dec Byte.byte_eq_dec a b then true else false.

(** The test of [hashtbl_lookup_cell]:
    [cell->key_size == key_size && memcmp(cell->key, key, key_size) == 0]. *)
Definition cell_matches (k : list byte) (ksize : Z) (c : hash_cell) : bool :=
  (key_size c =? ksize) &&
  list_eqb_byte (firstn (Z.to_nat ksize) (key c)) (firstn (Z.to_nat ksize) k).

Definition hashtbl_lookup_cell (htbl : hash_tbl) (k : list byte) (ksize : Z)
  : option hash_cell :=
  let idx := hashtbl_get_index htbl k ksize in
  find (cell_matches k ksize) (nth (Z.to_nat idx) (bucket htbl) []).

Definition alloc_hash_cell (ksize : Z) (mem : kmalloc_result) : option hash_cell :=
  if ksize <=? 0 then None
  else if negb (cell_allocated mem) then None
  else if negb (key_allocated mem) then None
  else Some (mk_hash_cell [] ksize 0).

(** [memcpy(cell->key, key, cell->key_size)]. *)
Definition set_hash_cell_key (c : hash_cell) (k : list byte) : hash_cell :=
  mk_hash_cell (firstn (Z.to_nat (key_size c)) k) (key_size c) (val c).

Definition set_hash_cell_val (c : hash_cell) (v : Z) : hash_cell :=
  mk_hash_cell (key c) (key_size c) v.

Definition get_hash_cell_val (c : option hash_cell) : Z :=
  match c with
  | None => HASHTBL_INVALID_VAL
  | Some c => val c
  end.

Definition is_hashtbl_struct_valid (htbl : hash_tbl) : bool :=
  (0 <? bucket_size htbl) && (0 <? n_bits htbl).

(** [hlist_add_head(&cell->list, &htbl->bucket[idx])]. *)
Fixpoint bucket_add_head (i : nat) (c : hash_cell) (b : list (list hash_cell))
  : list (list hash_cell) :=
  match b, i with
  | [], _ => []
  | h :: t, O => (c :: h) :: t
  | h :: t, S j => h :: bucket_add_head j c t
  end.

(** [hashtbl_add]: the key argument is [None] for a NULL pointer; the
    return value is paired with the table after the call. *)
Definition hashtbl_add (htbl : hash_tbl) (k : option (list byte)) (ksize : Z)
           (v : Z) (mem : kmalloc_result) : Z * hash_tbl :=
  match k with
  | None => (- EINVAL, htbl)
  | Some kb =>
    if (ksize <=? 0) || (v =? HASHTBL_INVALID_VAL) then (- EINVAL, htbl)
    else
      match hashtbl_lookup_cell htbl kb ksize with
      | Some _ => (- EPERM, htbl)
      | None =>
        match alloc_hash_cell ksize mem with
        | None => (- ENOMEM, htbl)
        | Some cell =>
          let cell := set_hash_cell_val (set_hash_cell_key cell kb) v in
          let idx := hashtbl_get_index htbl kb ksize in
          (0, mk_hash_tbl (bucket_size htbl) (n_bits htbl)
                (bucket_add_head (Z.to_nat idx) cell (bucket htbl)))
        end
      end
  end.

Definition hashtbl_lookup (htbl : hash_tbl) (k : list byte) (ksize : Z) : Z :=
  get_hash_cell_val (hashtbl_lookup_cell htbl k ksize).

(** [hashtbl_create]: [None] when an allocation fails or [get_n_bits]
    hits its [BUG()]. *)
Definition hashtbl_create (bsize : Z) (allocated : bool) : option hash_tbl :=
  if negb allocated then None
  else match get_n_bits (wrap32 (bsize - 1)) with
       | None => None
       | Some nb => Some (mk_hash_tbl bsize nb (repeat [] (Z.to_nat bsize)))
       end.

(** The cells of the table, bucket after bucket. *)
Definition all_cells (htbl : hash_tbl) : list hash_cell := concat (bucket htbl).

(** An entry with an equal key: same [key_size] and same key bytes. *)
Definition has_equal_key (htbl : hash_tbl) (k : list byte) (ksize : Z) : Prop :=
  exists c, In c (all_cells htbl) /\ key_size c = ksize /\
            key c = firstn (Z.to_nat ksize) k.

(** What [ASSERT_HASHTBL], the [ASSERT(idx < htbl->bucket_size)] of
    [hashtbl_get_index] and [ASSERT_HASHCELL] state, together with the
    placement of every cell in the bucket of its own key. *)
Record htbl_ok (htbl : hash_tbl) : Prop := mk_htbl_ok {
  ok_struct : is_hashtbl_struct_valid htbl = true;
  ok_len : Z.of_nat (length (bucket htbl)) = bucket_size htbl;
  ok_index : forall k ksize, 0 <= hashtbl_get_index htbl k ksize < bucket_size htbl;
  ok_cells : forall i c, In c (nth i (bucket htbl) []) ->
      0 < key_size c /\ Z.of_nat (length (key c)) <= key_size c /\
      val c <> HASHTBL_INVALID_VAL /\
      Z.to_nat (hashtbl_get_index htbl (key c) (key_size c)) = i
}.

(** *** Deletion, emptying and counting *)

(** [hlist_empty]. *)
Definition hlist_empty (h : list hash_cell) : bool :=
  match h with [] => true | _ => false end.

(** [hlist_del] of the node [hashtbl_lookup_cell] returns: the first
    cell of the bucket, from the head on, that passes the test [f]. *)
Fixpoint hlist_del_first (f : hash_cell -> bool) (l : list hash_cell)
  : list hash_cell :=
  match l with
  | [] => []
  | c :: t => if f c then t else c :: hlist_del_first f t
  end.

(** The bucket array with the list of bucket [i] replaced by [g] of it. *)
Fixpoint bucket_update (i : nat) (g : list hash_cell -> list hash_cell)
         (b : list (list hash_cell)) : list (list hash_cell) :=
  match b, i with
  | [], _ => []
  | h :: t, O => g h :: t
  | h :: t, S j => h :: bucket_update j g t
  end.

(** [hashtbl_del]: the return value and the table after the call.
    [free_hash_cell] returns at once for NULL and otherwise unlinks the
    cell. *)
Definition hashtbl_del (htbl : hash_tbl) (k : list byte) (ksize : Z)
  : Z * hash_tbl :=
  let cell := hashtbl_lookup_cell htbl k ksize in
  let v := get_hash_cell_val cell in
  match cell with
  | None => (v, htbl)
  | Some _ =>
    let idx := hashtbl_get_index htbl k ksize in
    (v, mk_hash_tbl (bucket_size htbl) (n_bits htbl)
          (bucket_update (Z.to_nat idx) (hlist_del_first (cell_matches k ksize))
                         (bucket htbl)))
  end.

(** The loop of [hashtbl_empty] over the first [n] buckets. *)
Fixpoint empty_buckets (n : nat) (b : list (list hash_cell))
  : list (list hash_cell) :=
  match n, b with
  | S k, _ :: t => [] :: empty_buckets k t
  | _, _ => b
  end.

(** [hashtbl_empty]. *)
Definition hashtbl_empty (htbl : hash_tbl) : hash_tbl :=
  mk_hash_tbl (bucket_size htbl) (n_bits htbl)
    (empty_buckets (Z.to_nat (bucket_size htbl)) (bucket htbl)).

(** The loop of [hashtbl_is_empty] from bucket [i] on, [fuel] buckets
    being left. *)
Fixpoint is_empty_loop (fuel : nat) (htbl : hash_tbl) (i : nat) : Z :=
  match fuel with
  | O => 1
  | S k => if negb (hlist_empty (nth i (bucket htbl) [])) then 0
           else is_empty_loop k htbl (S i)
  end.

(** [hashtbl_is_empty]: 1 or 0. *)
Definition hashtbl_is_empty (htbl : hash_tbl) : Z :=
  is_empty_loop (Z.to_nat (bucket_size htbl)) htbl 0.

(** The loop of [hashtbl_n_items] from bucket [i] on with the count [n]
    so far; the statistics it logs are left out. *)
Fixpoint n_items_loop (fuel : nat) (htbl : hash_tbl) (i : nat) (n : Z) : Z :=
  match fuel with
  | O => n
  | S k => n_items_loop k htbl (S i)
             (n + Z.of_nat (length (nth i (bucket htbl) [])))
  end.

(** [hashtbl_n_items]; the count is an [int] that the source lets grow
    without a check, here it is not reduced. *)
Definition hashtbl_n_items (htbl : hash_tbl) : Z :=
  n_items_loop (Z.to_nat (bucket_size htbl)) htbl 0 0.

(** No two cells of a bucket carry the same key. *)
Definition keys_unique (htbl : hash_tbl) : Prop :=
  forall i, NoDup (map (fun c => (key_size c, key c)) (nth i (bucket htbl) [])).

(** *** Cursor *)

(** The states of a cursor ([hashtbl.h]). *)
Inductive cursor_state : Type :=
| HASHTBL_CURSOR_BEGIN
| HASHTBL_CURSOR_END
| HASHTBL_CURSOR_DATA
| HASHTBL_CURSOR_DELETED
| HASHTBL_CURSOR_INVALID.

(** [hashtbl_cursor_t]. The table the cursor points to is kept in the
    cursor, so that a deletion through the cursor shows in [htbl]. A
    pointer to an hlist head is the index of its bucket, NULL being
    [None]; a pointer to an hlist node is the chain that starts at the
    node (the node and the nodes after it in its bucket), NULL being the
    empty chain. *)
Record hashtbl_cursor_t : Type := mk_cursor {
  htbl : hash_tbl;
  state : cursor_state;
  bucket_idx : Z;
  curr_head : option Z;
  curr : list hash_cell;
  next_head : option Z;
  next : list hash_cell
}.

(** [hashtbl_cursor_init]. *)
Definition hashtbl_cursor_init (t : hash_tbl) : hashtbl_cursor_t :=
  mk_cursor t HASHTBL_CURSOR_INVALID 0 None [] None [].

(** [hashtbl_cursor_begin]. *)
Definition hashtbl_cursor_begin (cursor : hashtbl_cursor_t) : hashtbl_cursor_t :=
  mk_cursor (htbl cursor) HASHTBL_CURSOR_BEGIN 0 None [] None [].

(** The loop of [search_next_head_index] at index [i], [fuel] buckets
    being left. *)
Fixpoint search_loop (fuel : nat) (t : hash_tbl) (i : Z) : Z :=
  match fuel with
  | O => i
  | S k => if negb (hlist_empty (nth (Z.to_nat i) (bucket t) [])) then i
           else search_loop k t (i + 1)
  end.

(** [search_next_head_index]. *)
Definition search_next_head_index (t : hash_tbl) (start_idx : Z) : Z :=
  search_loop (Z.to_nat (bucket_size t - start_idx)) t start_idx.

(** Label [cursor_end] of [hashtbl_cursor_next]. *)
Definition cursor_end (cursor : hashtbl_cursor_t) : Z * hashtbl_cursor_t :=
  (0, mk_cursor (htbl cursor) HASHTBL_CURSOR_END (bucket_idx cursor)
                None [] None []).

(** The part of [hashtbl_cursor_next] after the switch ("get and set
    next"), entered with [curr_head], [curr] and [bucket_idx] set. *)
Definition cursor_set_next (cursor : hashtbl_cursor_t) : Z * hashtbl_cursor_t :=
  let t := htbl cursor in
  let nxt := tl (curr cursor) in
  match nxt with
  | _ :: _ =>
    (1, mk_cursor t HASHTBL_CURSOR_DATA (bucket_idx cursor)
                  (curr_head cursor) (curr cursor) (curr_head cursor) nxt)
  | [] =>
    let idx := search_next_head_index t (bucket_idx cursor + 1) in
    if idx =? bucket_size t then
      (1, mk_cursor t HASHTBL_CURSOR_DATA idx
                    (curr_head cursor) (curr cursor) None [])
    else
      (1, mk_cursor t HASHTBL_CURSOR_DATA idx
                    (curr_head cursor) (curr cursor) (Some idx)
                    (nth (Z.to_nat idx) (bucket t) []))
  end.

(** [hashtbl_cursor_next]: the return value and the cursor after the
    call. *)
Definition hashtbl_cursor_next (cursor : hashtbl_cursor_t)
  : Z * hashtbl_cursor_t :=
  let t := htbl cursor in
  match state cursor with
  | HASHTBL_CURSOR_END | HASHTBL_CURSOR_INVALID => (0, cursor)
  | HASHTBL_CURSOR_BEGIN =>
    let idx := search_next_head_index t 0 in
    if idx =? bucket_size t then cursor_end cursor
    else
      cursor_set_next
        (mk_cursor t (state cursor) idx (Some idx)
                   (nth (Z.to_nat idx) (bucket t) [])
                   (next_head cursor) (next cursor))
  | HASHTBL_CURSOR_DATA | HASHTBL_CURSOR_DELETED =>
    match next cursor with
    | [] => cursor_end cursor
    | _ :: _ =>
      cursor_set_next
        (mk_cursor t (state cursor) (bucket_idx cursor) (next_head cursor)
                   (next cursor) (next_head cursor) (next cursor))
    end
  end.

(** [hlist_del] of the node that heads [chain] in the bucket [b]. *)
Definition hlist_del_node (chain b : list hash_cell) : list hash_cell :=
  firstn (length b - length chain) b ++ tl chain.

(** [hashtbl_cursor_del]: the value and the cursor after the call. *)
Definition hashtbl_cursor_del (cursor : hashtbl_cursor_t)
  : Z * hashtbl_cursor_t :=
  match state cursor with
  | HASHTBL_CURSOR_DATA =>
    let t := htbl cursor in
    let v := get_hash_cell_val (hd_error (curr cursor)) in
    let b :=
      match curr_head cursor with
      | Some i => bucket_update (Z.to_nat i) (hlist_del_node (curr cursor))
                                (bucket t)
      | None => bucket t
      end in
    (v, mk_cursor (mk_hash_tbl (bucket_size t) (n_bits t) b)
                  HASHTBL_CURSOR_DELETED (bucket_idx cursor) None []
                  (next_head cursor) (next cursor))
  | _ => (HASHTBL_INVALID_VAL, cursor)
  end.

(** [hashtbl_cursor_is_begin], [hashtbl_cursor_is_end] and
    [hashtbl_cursor_is_valid]. *)
Definition hashtbl_cursor_is_begin (cursor : hashtbl_cursor_t) : bool :=
  match state cursor with HASHTBL_CURSOR_BEGIN => true | _ => false end.

Definition hashtbl_cursor_is_end (cursor : hashtbl_cursor_t) : bool :=
  match state cursor with HASHTBL_CURSOR_END => true | _ => false end.

Definition hashtbl_cursor_is_valid (cursor : hashtbl_cursor_t) : bool :=
  match state cursor with
  | HASHTBL_CURSOR_BEGIN | HASHTBL_CURSOR_END | HASHTBL_CURSOR_DATA => true
  | _ => false
  end.

(** [hashtbl_cursor_val], [hashtbl_cursor_key_size] and
    [hashtbl_cursor_key] of a cursor that is not NULL; the key pointer is
    [None] for NULL. *)
Definition hashtbl_cursor_val (cursor : hashtbl_cursor_t) : Z :=
  match state cursor with
  | HASHTBL_CURSOR_DATA => get_hash_cell_val (hd_error (curr cursor))
  | _ => HASHTBL_INVALID_VAL
  end.

Definition hashtbl_cursor_key_size (cursor : hashtbl_cursor_t) : Z :=
  match state cursor with
  | HASHTBL_CURSOR_DATA =>
    match hd_error (curr cursor) with Some c => key_size c | None => 0 end
  | _ => 0
  end.

Definition hashtbl_cursor_key (cursor : hashtbl_cursor_t) : option (list byte) :=
  match state cursor with
  | HASHTBL_CURSOR_DATA =>
    match hd_error (curr cursor) with Some c => Some (key c) | None => None end
  | _ => None
  end.

(** The loop [while (hashtbl_cursor_next(&curt)) ...] of the callers: at
    every cell the cursor stops on, the caller deletes it through the
    cursor when [del] holds of its value. The result is the list of the
    cells visited and the cursor the loop ends with; [fuel] bounds the
    number of calls of [hashtbl_cursor_next]. *)
Fixpoint cursor_loop (fuel : nat) (del : Z -> bool) (cursor : hashtbl_cursor_t)
  : list hash_cell * hashtbl_cursor_t :=
  match fuel with
  | O => ([], cursor)
  | S k =>
    let '(ret, c1) := hashtbl_cursor_next cursor in
    if ret =? 0 then ([], c1)
    else
      let seen := match hd_error (curr c1) with Some c => [c] | None => [] end in
      let c2 := if del (hashtbl_cursor_val c1)
                then snd (hashtbl_cursor_del c1) else c1 in
      let '(rest, c3) := cursor_loop k del c2 in
      (seen ++ rest, c3)
  end.

(** What the loop leaves in the table: the cells whose value [del]
    does not hold of. *)
Definition cursor_keeps (del : Z -> bool) (c : hash_cell) : bool :=
  negb (del (val c)).

(** Where the next bucket with a cell is, seen from bucket [i] of an
    array [B]: [idx], with the chain [nxt] and the head [nh] the cursor
    then holds. *)
Definition next_bucket (B : list (list hash_cell)) (i : nat) (idx : Z)
           (nh : option Z) (nxt : list hash_cell) : Prop :=
  Z.of_nat i < idx <= Z.of_nat (length B) /\
  (forall j, (i < j)%nat -> Z.of_nat j < idx -> nth j B [] = []) /\
  ((idx = Z.of_nat (length B) /\ nxt = [] /\ nh = None) \/
   (idx < Z.of_nat (length B) /\ nxt <> [] /\
    nxt = nth (Z.to_nat idx) B [] /\ nh = Some idx)).

(** The cursor between two calls of [hashtbl_cursor_next] of the loop,
    seen from the bucket array [B] the loop started with: the loop has
    gone through the buckets before bucket [i] and through the cells
    [pre] of bucket [i], whose other cells are [post]; the table holds
    what the loop kept of the cells it went through and all the others;
    the cursor's [next] is the first cell not gone through yet. *)
Record cursor_at (del : Z -> bool) (B : list (list hash_cell))
       (c : hashtbl_cursor_t) (i : nat) (pre post : list hash_cell) : Prop :=
  mk_cursor_at {
  at_state : state c = HASHTBL_CURSOR_DATA \/ state c = HASHTBL_CURSOR_DELETED;
  at_size : bucket_size (htbl c) = Z.of_nat (length B);
  at_len : length (bucket (htbl c)) = length B;
  at_i : (i < length B)%nat;
  at_split : nth i B [] = pre ++ post;
  at_before : forall j, (j < i)%nat ->
      nth j (bucket (htbl c)) [] = filter (cursor_keeps del) (nth j B []);
  at_here : nth i (bucket (htbl c)) [] = filter (cursor_keeps del) pre ++ post;
  at_after : forall j, (i < j)%nat -> nth j (bucket (htbl c)) [] = nth j B [];
  at_next :
    (post <> [] /\ next c = post /\ next_head c = Some (Z.of_nat i) /\
     bucket_idx c = Z.of_nat i) \/
    (post = [] /\ next_bucket B i (bucket_idx c) (next_head c) (next c))
}.

End WithHash.

End Hashtbl.

(** ** IO core ([module/io.c]) *)

Module Io.

(** *** Kernel constants and macros used by [io.c] *)

(** Request flag bits of [linux/blk_types.h]. *)
Definition REQ_WRITE : Z := 1.
Definition REQ_SYNC : Z := 2 ^ 4.
Definition REQ_DISCARD : Z := 2 ^ 7.
Definition REQ_NOIDLE : Z := 2 ^ 10.
Definition REQ_FUA : Z := 2 ^ 11.
Definition REQ_FLUSH : Z := 2 ^ 12.
Definition WRITE : Z := REQ_WRITE.
Definition WRITE_FLUSH : Z :=
  Z.lor (Z.lor REQ_WRITE REQ_SYNC) (Z.lor REQ_NOIDLE REQ_FLUSH).

(** [rw & flag] read as a C condition. *)
Definition has_flag (rw flag : Z) : bool := negb (Z.land rw flag =? 0).

(** [MAJOR] and [MINOR] of [linux/kdev_t.h]. *)
Definition MAJOR (devt : Z) : Z := Z.shiftr devt 20.
Definition MINOR (devt : Z) : Z := Z.land devt (2 ^ 20 - 1).

(** A [long] read from an [unsigned long] difference, as in the
    [time_after] family of [linux/jiffies.h]. *)
Definition signed64 (x : Z) : Z :=
  let y := wrap64 x in if y <? 2 ^ 63 then y else y - 2 ^ 64.

(** [time_is_after_jiffies(a)], with the clock reading [now]. *)
Definition time_is_after_jiffies (now a : Z) : bool := signed64 (now - a) <? 0.

(** [time_is_before_jiffies(a)], with the clock reading [now]. *)
Definition time_is_before_jiffies (now a : Z) : bool := signed64 (a - now) <? 0.

(** [snprintf(buf, 11, "%u", n)]. *)
Definition string_of_uint (n : Z) : string :=
  NilEmpty.string_of_uint (N.to_uint (Z.to_N (wrap32 n))).

(** *** Data *)

(** [struct bio], as far as the driver reads and writes it:
    [bi_sectors] is [bio_sectors(bio)], the size in 512-byte blocks. *)
Record bio : Type := mk_bio {
  bi_bdev : Z;
  bi_rw : Z;
  bi_sector : Z;
  bi_sectors : Z
}.

(** [struct bio_entry]: a submitted bio and the error its completion
    left. *)
Record bio_entry : Type := mk_bio_entry {
  bioe_bio : bio;
  bioe_error : Z
}.

(** [struct bio_wrapper]. The state bits are separate fields. *)
Record bio_wrapper : Type := mk_bio_wrapper {
  biow_bio : bio;
  pos : Z;
  len : Z;
  csum : Z;
  lsid : Z;
  error : Z;
  cloned_bioe : option bio_entry;
  cloned_bio_list : list bio;
  st_started : bool;
  st_prepared : bool;
  st_submitted : bool;
  st_completed : bool;
  st_delayed : bool;
  st_discard : bool;
  st_overwritten : bool
}.

(** [struct walb_log_record]; the three flag bits are separate fields. *)
Record walb_log_record : Type := mk_log_record {
  rec_exist : bool;
  rec_padding : bool;
  rec_discard : bool;
  rec_offset : Z;
  rec_io_size : Z;
  rec_lsid : Z;
  rec_lsid_local : Z;
  rec_checksum : Z
}.

(** A record slot of a zeroed header sector. *)
Definition zero_record : walb_log_record :=
  mk_log_record false false false 0 0 0 0 0.

(** [struct walb_logpack_header]; [record] lists the slots filled so far,
    the slots after them read as [zero_record]. *)
Record walb_logpack_header : Type := mk_logpack_header {
  logpack_lsid : Z;
  total_io_size : Z;
  n_records : Z;
  n_padding : Z;
  checksum : Z;
  record : list walb_log_record
}.

(** [struct pack]. *)
Record pack : Type := mk_pack {
  biow_list : list bio_wrapper;
  logpack_header_sector : walb_logpack_header;
  header_bioe : option bio_entry;
  is_zero_flush_only : bool;
  is_flush_contained : bool;
  is_flush_header : bool;
  is_logpack_failed : bool
}.

(** [struct lsid_set] of the device. *)
Record lsid_set : Type := mk_lsid_set {
  latest : Z;
  flush : Z;
  completed : Z;
  permanent : Z;
  written : Z;
  prev_written : Z;
  oldest : Z
}.

(** The bits of [iocored->flags]. *)
Record iocore_flags : Type := mk_iocore_flags {
  IOCORE_STATE_FAILURE : bool;
  IOCORE_STATE_READ_ONLY : bool;
  IOCORE_STATE_LOG_OVERFLOW : bool;
  IOCORE_STATE_SUBMIT_LOG_TASK_WORKING : bool;
  IOCORE_STATE_WAIT_LOG_TASK_WORKING : bool;
  IOCORE_STATE_SUBMIT_DATA_TASK_WORKING : bool;
  IOCORE_STATE_WAIT_DATA_TASK_WORKING : bool
}.

(** [struct iocore_data]. *)
Record iocore_data : Type := mk_iocore_data {
  flags : iocore_flags;
  n_stoppers : Z;
  logpack_submit_queue : list bio_wrapper;
  logpack_wait_queue : list pack;
  datapack_submit_queue : list bio_wrapper;
  datapack_wait_queue : list bio_wrapper;
  logpack_gc_queue : list pack;
  log_flush_jiffies : Z;
  pending_sectors : Z;
  queue_restart_jiffies : Z;
  is_under_throttling : bool
}.

(** The fields of [struct walb_dev] that are fixed once the device is
    set up. [flush_flags] is [wdev->queue->flush_flags]; [ddev_discard]
    is [blk_queue_discard(bdev_get_queue(wdev->ddev))]. *)
Record walb_params : Type := mk_walb_params {
  devt : Z;
  physical_bs : Z;
  ldev : Z;
  ddev : Z;
  ring_buffer_off : Z;
  ring_buffer_size : Z;
  max_logpack_pb : Z;
  log_flush_interval_pb : Z;
  log_flush_interval_jiffies : Z;
  max_pending_sectors : Z;
  min_pending_sectors : Z;
  queue_stop_timeout_jiffies : Z;
  n_io_bulk : Z;
  n_pack_bulk : Z;
  ldev_chunk_sectors : Z;
  ddev_chunk_sectors : Z;
  log_checksum_salt : Z;
  flush_flags : Z;
  ddev_discard : bool
}.

(** [struct walb_dev]: the fixed fields, the lsid set (guarded by
    [lsid_lock]) and the iocore data hanging off [private_data]. *)
Record walb_dev : Type := mk_walb_dev {
  par : walb_params;
  lsids : lsid_set;
  iocored : iocore_data
}.

(** The module parameters [io.c] reads. *)
Record module_params : Type := mk_module_params {
  is_sort_data_io_ : bool;
  exec_path_on_error_ : string;
  is_error_before_overflow_ : bool
}.

(** What the driver does to the outside, in program order. *)
Inductive event : Type :=
| Ev_generic_make_request (b : bio)
| Ev_bio_endio (b : bio) (err : Z)
| Ev_blkdev_issue_flush (dev : Z)
| Ev_call_usermodehelper (path : string) (argv : list string)
| Ev_sysfs_notify (attr : string)
| Ev_msleep (ms : Z)
| Ev_destroy_pack (lsid : Z)
| Ev_enqueue_submit_task.

(** Functions, macros and constants that [io.c] takes from headers and
    from sibling files that are not part of the sources at hand
    ([walb/block_size.h], [logpack.h], [bio_util.h], [kern.h]). *)
Record kern_iface : Type := mk_kern_iface {
  capacity_pb : Z -> Z -> Z;
  addr_lb : Z -> Z -> Z;
  walb_logpack_header_add_bio :
    walb_logpack_header -> bio -> Z -> Z -> bool * walb_logpack_header;
  split_bio_for_chunk : bio -> Z -> list bio;
  header_checksum : walb_logpack_header -> Z -> Z -> Z;
  bio_calc_checksum : bio -> Z -> Z;
  EXEC_PATH_ON_ERROR_LEN : Z
}.

(** *** Field updates *)

Definition set_latest (l : lsid_set) (v : Z) : lsid_set :=
  mk_lsid_set v (flush l) (completed l) (permanent l) (written l)
              (prev_written l) (oldest l).
Definition set_flush (l : lsid_set) (v : Z) : lsid_set :=
  mk_lsid_set (latest l) v (completed l) (permanent l) (written l)
              (prev_written l) (oldest l).
Definition set_completed (l : lsid_set) (v : Z) : lsid_set :=
  mk_lsid_set (latest l) (flush l) v (permanent l) (written l)
              (prev_written l) (oldest l).
Definition set_permanent (l : lsid_set) (v : Z) : lsid_set :=
  mk_lsid_set (latest l) (flush l) (completed l) v (written l)
              (prev_written l) (oldest l).
Definition set_written (l : lsid_set) (v : Z) : lsid_set :=
  mk_lsid_set (latest l) (flush l) (completed l) (permanent l) v
              (prev_written l) (oldest l).

Definition set_lsids (w : walb_dev) (l : lsid_set) : walb_dev :=
  mk_walb_dev (par w) l (iocored w).
Definition set_iocored (w : walb_dev) (d : iocore_data) : walb_dev :=
  mk_walb_dev (par w) (lsids w) d.

Definition set_flags (d : iocore_data) (f : iocore_flags) : iocore_data :=
  mk_iocore_data f (n_stoppers d) (logpack_submit_queue d)
    (logpack_wait_queue d) (datapack_submit_queue d) (datapack_wait_queue d)
    (logpack_gc_queue d) (log_flush_jiffies d) (pending_sectors d)
    (queue_restart_jiffies d) (is_under_throttling d).
Definition set_n_stoppers (d : iocore_data) (v : Z) : iocore_data :=
  mk_iocore_data (flags d) v (logpack_submit_queue d)
    (logpack_wait_queue d) (datapack_submit_queue d) (datapack_wait_queue d)
    (logpack_gc_queue d) (log_flush_jiffies d) (pending_sectors d)
    (queue_restart_jiffies d) (is_under_throttling d).
Definition set_logpack_submit_queue (d : iocore_data) (q : list bio_wrapper)
  : iocore_data :=
  mk_iocore_data (flags d) (n_stoppers d) q
    (logpack_wait_queue d) (datapack_submit_queue d) (datapack_wait_queue d)
    (logpack_gc_queue d) (log_flush_jiffies d) (pending_sectors d)
    (queue_restart_jiffies d) (is_under_throttling d).
Definition set_logpack_wait_queue (d : iocore_data) (q : list pack)
  : iocore_data :=
  mk_iocore_data (flags d) (n_stoppers d) (logpack_submit_queue d)
    q (datapack_submit_queue d) (datapack_wait_queue d)
    (logpack_gc_queue d) (log_flush_jiffies d) (pending_sectors d)
    (queue_restart_jiffies d) (is_under_throttling d).
Definition set_datapack_submit_queue (d : iocore_data) (q : list bio_wrapper)
  : iocore_data :=
  mk_iocore_data (flags d) (n_stoppers d) (logpack_submit_queue d)
    (logpack_wait_queue d) q (datapack_wait_queue d)
    (logpack_gc_queue d) (log_flush_jiffies d) (pending_sectors d)
    (queue_restart_jiffies d) (is_under_throttling d).
Definition set_datapack_wait_queue (d : iocore_data) (q : list bio_wrapper)
  : iocore_data :=
  mk_iocore_data (flags d) (n_stoppers d) (logpack_submit_queue d)
    (logpack_wait_queue d) (datapack_submit_queue d) q
    (logpack_gc_queue d) (log_flush_jiffies d) (pending_sectors d)
    (queue_restart_jiffies d) (is_under_throttling d).
Definition set_logpack_gc_queue (d : iocore_data) (q : list pack)
  : iocore_data :=
  mk_iocore_data (flags d) (n_stoppers d) (logpack_submit_queue d)
    (logpack_wait_queue d) (datapack_submit_queue d) (datapack_wait_queue d)
    q (log_flush_jiffies d) (pending_sectors d)
    (queue_restart_jiffies d) (is_under_throttling d).
Definition set_log_flush_jiffies (d : iocore_data) (v : Z) : iocore_data :=
  mk_iocore_data (flags d) (n_stoppers d) (logpack_submit_queue d)
    (logpack_wait_queue d) (datapack_submit_queue d) (datapack_wait_queue d)
    (logpack_gc_queue d) v (pending_sectors d)
    (queue_restart_jiffies d) (is_under_throttling d).
Definition set_pending_sectors (d : iocore_data) (v : Z) : iocore_data :=
  mk_iocore_data (flags d) (n_stoppers d) (logpack_submit_queue d)
    (logpack_wait_queue d) (datapack_submit_queue d) (datapack_wait_queue d)
    (logpack_gc_queue d) (log_flush_jiffies d) v
    (queue_restart_jiffies d) (is_under_throttling d).
Definition set_throttling (d : iocore_data) (restart : Z) (b : bool)
  : iocore_data :=
  mk_iocore_data (flags d) (n_stoppers d) (logpack_submit_queue d)
    (logpack_wait_queue d) (datapack_submit_queue d) (datapack_wait_queue d)
    (logpack_gc_queue d) (log_flush_jiffies d) (pending_sectors d)
    restart b.

(** [set_read_only_mode]. *)
Definition set_read_only_mode (d : iocore_data) : iocore_data :=
  let f := flags d in
  set_flags d
    (mk_iocore_flags (IOCORE_STATE_FAILURE f) true (IOCORE_STATE_LOG_OVERFLOW f)
       (IOCORE_STATE_SUBMIT_LOG_TASK_WORKING f)
       (IOCORE_STATE_WAIT_LOG_TASK_WORKING f)
       (IOCORE_STATE_SUBMIT_DATA_TASK_WORKING f)
       (IOCORE_STATE_WAIT_DATA_TASK_WORKING f)).

(** [is_read_only_mode]. *)
Definition is_read_only_mode (d : iocore_data) : bool :=
  IOCORE_STATE_READ_ONLY (flags d).

(** [set_bit(IOCORE_STATE_LOG_OVERFLOW, &iocored->flags)]. *)
Definition set_log_overflow (d : iocore_data) : iocore_data :=
  let f := flags d in
  set_flags d
    (mk_iocore_flags (IOCORE_STATE_FAILURE f) (IOCORE_STATE_READ_ONLY f) true
       (IOCORE_STATE_SUBMIT_LOG_TASK_WORKING f)
       (IOCORE_STATE_WAIT_LOG_TASK_WORKING f)
       (IOCORE_STATE_SUBMIT_DATA_TASK_WORKING f)
       (IOCORE_STATE_WAIT_DATA_TASK_WORKING f)).

(** The four task-working bits of [iocored->flags]. *)
Inductive working_bit : Type :=
| SUBMIT_LOG_TASK_WORKING
| WAIT_LOG_TASK_WORKING
| SUBMIT_DATA_TASK_WORKING
| WAIT_DATA_TASK_WORKING.

Definition set_working_bit (bit : working_bit) (v : bool) (f : iocore_flags)
  : iocore_flags :=
  match bit with
  | SUBMIT_LOG_TASK_WORKING =>
    mk_iocore_flags (IOCORE_STATE_FAILURE f) (IOCORE_STATE_READ_ONLY f)
      (IOCORE_STATE_LOG_OVERFLOW f) v
      (IOCORE_STATE_WAIT_LOG_TASK_WORKING f)
      (IOCORE_STATE_SUBMIT_DATA_TASK_WORKING f)
      (IOCORE_STATE_WAIT_DATA_TASK_WORKING f)
  | WAIT_LOG_TASK_WORKING =>
    mk_iocore_flags (IOCORE_STATE_FAILURE f) (IOCORE_STATE_READ_ONLY f)
      (IOCORE_STATE_LOG_OVERFLOW f)
      (IOCORE_STATE_SUBMIT_LOG_TASK_WORKING f) v
      (IOCORE_STATE_SUBMIT_DATA_TASK_WORKING f)
      (IOCORE_STATE_WAIT_DATA_TASK_WORKING f)
  | SUBMIT_DATA_TASK_WORKING =>
    mk_iocore_flags (IOCORE_STATE_FAILURE f) (IOCORE_STATE_READ_ONLY f)
      (IOCORE_STATE_LOG_OVERFLOW f)
      (IOCORE_STATE_SUBMIT_LOG_TASK_WORKING f)
      (IOCORE_STATE_WAIT_LOG_TASK_WORKING f) v
      (IOCORE_STATE_WAIT_DATA_TASK_WORKING f)
  | WAIT_DATA_TASK_WORKING =>
    mk_iocore_flags (IOCORE_STATE_FAILURE f) (IOCORE_STATE_READ_ONLY f)
      (IOCORE_STATE_LOG_OVERFLOW f)
      (IOCORE_STATE_SUBMIT_LOG_TASK_WORKING f)
      (IOCORE_STATE_WAIT_LOG_TASK_WORKING f)
      (IOCORE_STATE_SUBMIT_DATA_TASK_WORKING f) v
  end.

(** [clear_working_flag]: [test_and_clear_bit]. The assertion that the
    bit was set holds of a task queued by [enqueue_task_if_necessary]; a
    round is not asked here how it came to run. *)
Definition clear_working_flag (bit : working_bit) (d : iocore_data)
  : iocore_data :=
  set_flags d (set_working_bit bit false (flags d)).

(** Modelled from the spec: [enqueue_task_if_necessary] is missing. The
    task-working bit keeps at most one instance of a stage scheduled:
    the call sets the bit, and the task is queued when the bit was
    clear. The work queue of the kernel is outside the state; the calls
    for the submit task are recorded as [Ev_enqueue_submit_task] where
    they are made. *)
Definition enqueue_task_if_necessary (bit : working_bit) (d : iocore_data)
  : iocore_data :=
  set_flags d (set_working_bit bit true (flags d)).

(** [enqueue_submit_task_if_necessary] and its three siblings. *)
Definition enqueue_submit_task_if_necessary (d : iocore_data) : iocore_data :=
  enqueue_task_if_necessary SUBMIT_LOG_TASK_WORKING d.
Definition enqueue_wait_task_if_necessary (d : iocore_data) : iocore_data :=
  enqueue_task_if_necessary WAIT_LOG_TASK_WORKING d.
Definition enqueue_submit_data_task_if_necessary (d : iocore_data)
  : iocore_data :=
  enqueue_task_if_necessary SUBMIT_DATA_TASK_WORKING d.
Definition enqueue_wait_data_task_if_necessary (d : iocore_data)
  : iocore_data :=
  enqueue_task_if_necessary WAIT_DATA_TASK_WORKING d.

Definition set_biow_lsid (w : bio_wrapper) (v : Z) : bio_wrapper :=
  mk_bio_wrapper (biow_bio w) (pos w) (len w) (csum w) v (error w)
    (cloned_bioe w) (cloned_bio_list w) (st_started w) (st_prepared w)
    (st_submitted w) (st_completed w) (st_delayed w) (st_discard w)
    (st_overwritten w).
Definition set_biow_error (w : bio_wrapper) (v : Z) : bio_wrapper :=
  mk_bio_wrapper (biow_bio w) (pos w) (len w) (csum w) (lsid w) v
    (cloned_bioe w) (cloned_bio_list w) (st_started w) (st_prepared w)
    (st_submitted w) (st_completed w) (st_delayed w) (st_discard w)
    (st_overwritten w).
Definition set_cloned (w : bio_wrapper) (e : option bio_entry) (l : list bio)
  : bio_wrapper :=
  mk_bio_wrapper (biow_bio w) (pos w) (len w) (csum w) (lsid w) (error w)
    e l (st_started w) (st_prepared w)
    (st_submitted w) (st_completed w) (st_delayed w) (st_discard w)
    (st_overwritten w).
Definition set_biow_csum (w : bio_wrapper) (v : Z) : bio_wrapper :=
  mk_bio_wrapper (biow_bio w) (pos w) (len w) v (lsid w) (error w)
    (cloned_bioe w) (cloned_bio_list w) (st_started w) (st_prepared w)
    (st_submitted w) (st_completed w) (st_delayed w) (st_discard w)
    (st_overwritten w).
Definition bio_wrapper_state_set_started (w : bio_wrapper) : bio_wrapper :=
  mk_bio_wrapper (biow_bio w) (pos w) (len w) (csum w) (lsid w) (error w)
    (cloned_bioe w) (cloned_bio_list w) true (st_prepared w)
    (st_submitted w) (st_completed w) (st_delayed w) (st_discard w)
    (st_overwritten w).
Definition bio_wrapper_state_set_submitted (w : bio_wrapper) : bio_wrapper :=
  mk_bio_wrapper (biow_bio w) (pos w) (len w) (csum w) (lsid w) (error w)
    (cloned_bioe w) (cloned_bio_list w) (st_started w) (st_prepared w)
    true (st_completed w) (st_delayed w) (st_discard w)
    (st_overwritten w).
Definition bio_wrapper_state_set_prepared (w : bio_wrapper) : bio_wrapper :=
  mk_bio_wrapper (biow_bio w) (pos w) (len w) (csum w) (lsid w) (error w)
    (cloned_bioe w) (cloned_bio_list w) (st_started w) true
    (st_submitted w) (st_completed w) (st_delayed w) (st_discard w)
    (st_overwritten w).
Definition bio_wrapper_state_set_completed (w : bio_wrapper) : bio_wrapper :=
  mk_bio_wrapper (biow_bio w) (pos w) (len w) (csum w) (lsid w) (error w)
    (cloned_bioe w) (cloned_bio_list w) (st_started w) (st_prepared w)
    (st_submitted w) true (st_delayed w) (st_discard w)
    (st_overwritten w).
Definition bio_wrapper_state_set_delayed (w : bio_wrapper) : bio_wrapper :=
  mk_bio_wrapper (biow_bio w) (pos w) (len w) (csum w) (lsid w) (error w)
    (cloned_bioe w) (cloned_bio_list w) (st_started w) (st_prepared w)
    (st_submitted w) (st_completed w) true (st_discard w)
    (st_overwritten w).

Definition set_header (p : pack) (h : walb_logpack_header) : pack :=
  mk_pack (biow_list p) h (header_bioe p) (is_zero_flush_only p)
    (is_flush_contained p) (is_flush_header p) (is_logpack_failed p).
Definition set_biow_list (p : pack) (l : list bio_wrapper) : pack :=
  mk_pack l (logpack_header_sector p) (header_bioe p) (is_zero_flush_only p)
    (is_flush_contained p) (is_flush_header p) (is_logpack_failed p).
Definition set_header_bioe (p : pack) (e : option bio_entry) : pack :=
  mk_pack (biow_list p) (logpack_header_sector p) e (is_zero_flush_only p)
    (is_flush_contained p) (is_flush_header p) (is_logpack_failed p).
Definition set_is_zero_flush_only (p : pack) (b : bool) : pack :=
  mk_pack (biow_list p) (logpack_header_sector p) (header_bioe p) b
    (is_flush_contained p) (is_flush_header p) (is_logpack_failed p).
Definition set_is_flush_contained (p : pack) (b : bool) : pack :=
  mk_pack (biow_list p) (logpack_header_sector p) (header_bioe p)
    (is_zero_flush_only p) b (is_flush_header p) (is_logpack_failed p).
Definition set_is_flush_header (p : pack) (b : bool) : pack :=
  mk_pack (biow_list p) (logpack_header_sector p) (header_bioe p)
    (is_zero_flush_only p) (is_flush_contained p) b (is_logpack_failed p).

(** *** Helpers that are not part of the sources at hand *)

(** Modelled from the spec: [get_next_lsid_unsafe] of [walb/log_record.h]
    is missing. A pack is one header block followed by [total_io_size]
    physical blocks of payload, and a pack without records puts nothing
    on the log device, so the lsid after the pack is [logpack_lsid] for
    the latter and [logpack_lsid + 1 + total_io_size] otherwise. The
    checked variant [get_next_lsid] returns the same value. *)
Definition get_next_lsid_unsafe (lhead : walb_logpack_header) : Z :=
  if (total_io_size lhead =? 0) && (n_records lhead =? 0)
  then logpack_lsid lhead
  else logpack_lsid lhead + 1 + total_io_size lhead.

(** Modelled from the spec: [is_permanent_log_empty] of [kern.h] is
    missing. The [lsids] attribute raises its event on the transition of
    [permanent - oldest] from 0 to a positive value. *)
Definition is_permanent_log_empty (l : lsid_set) : bool :=
  permanent l =? oldest l.

(** Modelled from the spec: [init_bio_wrapper] of [bio_wrapper.c] is
    missing. The wrapper takes position and length from the bio and
    carries the discard state bit for a discard request. *)
Definition init_bio_wrapper (b : bio) : bio_wrapper :=
  mk_bio_wrapper b (bi_sector b) (bi_sectors b) 0 0 0 None []
    false false false false false (has_flag (bi_rw b) REQ_DISCARD) false.

(** [INVALID_LSID], the all-ones [u64]. *)
Definition INVALID_LSID : Z := 2 ^ 64 - 1.

(** *** Pack builder *)

(** The locals of [create_logpack_list] that [writepack_add_bio_wrapper]
    reads and writes through its pointer arguments. *)
Record builder : Type := mk_builder {
  wpack_list : list pack;
  wpackp : option pack;
  latest_lsidp : Z;
  flush_lsidp : Z;
  log_flush_jiffiesp : Z
}.

(** [create_writepack]; [allocated] tells whether [create_pack] and
    [sector_alloc] got their memory. *)
Definition create_writepack (allocated : bool) (pbs lsid0 : Z) : option pack :=
  if allocated
  then Some (mk_pack [] (mk_logpack_header lsid0 0 0 0 0 []) None
                     false false false false)
  else None.

Definition list_empty {A : Type} (l : list A) : bool :=
  match l with [] => true | _ => false end.

(** [is_zero_flush_only]. *)
Definition is_zero_flush_only_pack (p : pack) : bool :=
  (n_records (logpack_header_sector p) =? 0) && negb (list_empty (biow_list p)).

(** [writepack_check_and_set_flush]. *)
Definition writepack_check_and_set_flush (wpack : pack) : pack :=
  if n_records (logpack_header_sector wpack) =? 0
  then set_is_zero_flush_only wpack true
  else wpack.

(** The slot [lhead->record[i]]. *)
Definition record_at (lhead : walb_logpack_header) (i : Z) : walb_log_record :=
  nth (Z.to_nat i) (record lhead) zero_record.

(** [fail_and_destroy_bio_wrapper_list]. *)
Definition fail_and_destroy_bio_wrapper_list (l : list bio_wrapper) : list event :=
  map (fun w => Ev_bio_endio (biow_bio w) (- EIO)) l.

Section WithKernel.

Variable K : kern_iface.
Variable mp : module_params.

(** [is_pack_size_too_large]. *)
Definition is_pack_size_too_large (lhead : walb_logpack_header)
           (pbs max_pb : Z) (biow : bio_wrapper) : bool :=
  if max_pb =? 0 then false
  else
    let pb := wrap32 (capacity_pb K pbs (len biow)) in
    wrap32 (pb + total_io_size lhead) >? max_pb.

(** The block repeated after both calls of [walb_logpack_header_add_bio]:
    the wrapper takes the lsid of the record just filled. *)
Definition take_record_lsid (lhead : walb_logpack_header) (biow : bio_wrapper)
  : bio_wrapper :=
  if 0 <? n_records lhead
  then set_biow_lsid biow (rec_lsid (record_at lhead (n_records lhead - 1)))
  else biow.

(** Label [fin] of [writepack_add_bio_wrapper]. *)
Definition writepack_fin (b : builder) (p : pack) (biow : bio_wrapper)
           (wp : walb_params) (now : Z) : builder :=
  let lhead := logpack_header_sector p in
  let p1 := set_biow_list p (biow_list p ++ [biow]) in
  if has_flag (bi_rw (biow_bio biow)) REQ_FLUSH then
    let fl := if (0 <? n_records lhead) && negb (st_discard biow)
              then lsid biow else latest_lsidp b in
    mk_builder (wpack_list b) (Some (set_is_flush_contained p1 true))
               (latest_lsidp b) fl
               (wrap64 (now + log_flush_interval_jiffies wp))
  else
    mk_builder (wpack_list b) (Some p1) (latest_lsidp b) (flush_lsidp b)
               (log_flush_jiffiesp b).

(** Label [newpack] of [writepack_add_bio_wrapper]; [cur] is the current
    pack when there is one ([lhead] not NULL). When the allocation fails
    the current pack has already been put on the list. *)
Definition writepack_newpack (b : builder) (cur : option pack)
           (biow : bio_wrapper) (ring_size : Z) (wp : walb_params)
           (now : Z) (allocated : bool) : bool * builder :=
  let pbs := physical_bs wp in
  let b1 :=
    match cur with
    | Some p =>
      let p' := writepack_check_and_set_flush p in
      mk_builder (wpack_list b ++ [p']) (Some p')
                 (get_next_lsid_unsafe (logpack_header_sector p))
                 (flush_lsidp b) (log_flush_jiffiesp b)
    | None => b
    end in
  match create_writepack allocated pbs (latest_lsidp b1) with
  | None => (false, b1)
  | Some p =>
    let lhead := snd (walb_logpack_header_add_bio K (logpack_header_sector p)
                        (biow_bio biow) pbs ring_size) in
    (true, writepack_fin b1 (set_header p lhead)
                         (take_record_lsid lhead biow) wp now)
  end.

(** [writepack_add_bio_wrapper]. *)
Definition writepack_add_bio_wrapper (b : builder) (biow : bio_wrapper)
           (ring_size max_pb : Z) (wp : walb_params) (now : Z)
           (allocated : bool) : bool * builder :=
  let pbs := physical_bs wp in
  match wpackp b with
  | None => writepack_newpack b None biow ring_size wp now allocated
  | Some p =>
    let lhead := logpack_header_sector p in
    if is_zero_flush_only_pack p then
      writepack_newpack b (Some p) biow ring_size wp now allocated
    else if (0 <? n_records lhead) &&
            (has_flag (bi_rw (biow_bio biow)) REQ_FLUSH ||
             is_pack_size_too_large lhead pbs max_pb biow) then
      writepack_newpack b (Some p) biow ring_size wp now allocated
    else
      let r := walb_logpack_header_add_bio K lhead (biow_bio biow) pbs ring_size in
      let p' := set_header p (snd r) in
      if negb (fst r) then
        writepack_newpack b (Some p') biow ring_size wp now allocated
      else
        (true, writepack_fin b p' (take_record_lsid (snd r) biow) wp now)
  end.

(** [invoke_userland_exec]. *)
Definition invoke_userland_exec (wp : walb_params) (event_str : string)
  : list event :=
  let path := exec_path_on_error_ mp in
  let n := Z.min (Z.of_nat (String.length path)) (EXEC_PATH_ON_ERROR_LEN K) in
  if (n =? 0) || (n =? EXEC_PATH_ON_ERROR_LEN K) then []
  else
    let major_str := string_of_uint (MAJOR (devt wp)) in
    let minor_str := string_of_uint (MINOR (devt wp)) in
    [Ev_call_usermodehelper path [path; major_str; minor_str; event_str]].

(** The loop of [create_logpack_list] over the bio wrappers; the
    allocations of [create_writepack] succeed, so no attempt is
    repeated. *)
Definition pack_bio_wrappers (wp : walb_params) (now : Z)
           (l : list bio_wrapper) (b : builder) : builder :=
  fold_left
    (fun b biow =>
       snd (writepack_add_bio_wrapper b biow (ring_buffer_size wp)
              (max_logpack_pb wp) wp now true))
    l b.

(** The block [if (wpack) ...] of [create_logpack_list] that closes the
    last pack and decides on the flush header. *)
Definition close_last_pack (wp : walb_params) (now : Z) (b : builder) : builder :=
  match wpackp b with
  | None => b
  | Some wpack =>
    let logh := logpack_header_sector wpack in
    let wpack1 := writepack_check_and_set_flush wpack in
    let latest_lsid := get_next_lsid_unsafe logh in
    let is_flush_size :=
      (0 <? log_flush_interval_pb wp) &&
      (wrap64 (latest_lsid - flush_lsidp b) >? log_flush_interval_pb wp) in
    let is_flush_period :=
      (0 <? log_flush_interval_jiffies wp) && (log_flush_jiffiesp b <? now) in
    if is_flush_size || is_flush_period then
      mk_builder (wpack_list b ++ [set_is_flush_header wpack1 true])
                 (Some (set_is_flush_header wpack1 true))
                 latest_lsid (logpack_lsid logh) (log_flush_jiffiesp b)
    else
      mk_builder (wpack_list b ++ [wpack1]) (Some wpack1)
                 latest_lsid (flush_lsidp b) (log_flush_jiffiesp b)
  end.

(** The packs and the lsids [create_logpack_list] has in its locals when
    it reaches the overflow check. *)
Definition packed (wdev : walb_dev) (l : list bio_wrapper) (now : Z) : builder :=
  let b0 := mk_builder [] None (latest (lsids wdev)) (flush (lsids wdev))
                       (log_flush_jiffies (iocored wdev)) in
  close_last_pack (par wdev) now (pack_bio_wrappers (par wdev) now l b0).

(** [create_logpack_list]: the return value, the pack list, the device
    and the events. The rate-limited kernel messages are left out. *)
Definition create_logpack_list (wdev : walb_dev) (l : list bio_wrapper)
           (now : Z) : bool * list pack * walb_dev * list event :=
  let wp := par wdev in
  let oldest_lsid := oldest (lsids wdev) in
  let b := packed wdev l now in
  let latest_lsid := latest_lsidp b in
  let flush_lsid := flush_lsidp b in
  if is_error_before_overflow_ mp &&
     (ring_buffer_size wp <? wrap64 (latest_lsid - oldest_lsid)) then
    (false, [], wdev,
     flat_map (fun p => fail_and_destroy_bio_wrapper_list (biow_list p) ++
                        [Ev_destroy_pack (logpack_lsid (logpack_header_sector p))])
              (wpack_list b))
  else
    let l1 := set_latest (lsids wdev) latest_lsid in
    let wdev1 :=
      if flush l1 <? flush_lsid then
        set_iocored (set_lsids wdev (set_flush l1 flush_lsid))
          (set_log_flush_jiffies (iocored wdev)
             (wrap64 (now + log_flush_interval_jiffies wp)))
      else set_lsids wdev l1 in
    let '(wdev2, ev_overflow) :=
      if wrap64 (latest_lsid - oldest_lsid) >? ring_buffer_size wp then
        if IOCORE_STATE_LOG_OVERFLOW (flags (iocored wdev1)) then (wdev1, [])
        else
          (set_iocored wdev1 (set_log_overflow (iocored wdev1)),
           invoke_userland_exec wp "overflow")
      else (wdev1, []) in
    (true, wpack_list b, wdev2, ev_overflow).

(** *** Log submitter *)

(** [logh->record[i].checksum = biow->csum]; a slot beyond the filled
    ones is left alone. *)
Fixpoint set_record_checksum (i : nat) (c : Z) (l : list walb_log_record)
  : list walb_log_record :=
  match l, i with
  | [], _ => []
  | r :: t, O =>
    mk_log_record (rec_exist r) (rec_padding r) (rec_discard r) (rec_offset r)
                  (rec_io_size r) (rec_lsid r) (rec_lsid_local r) c :: t
  | r :: t, S j => r :: set_record_checksum j c t
  end.

(** The loop of [logpack_calc_checksum] over the bio wrappers. *)
Fixpoint calc_record_checksums (l : list bio_wrapper) (i : Z)
         (recs : list walb_log_record) : list walb_log_record :=
  match l with
  | [] => recs
  | biow :: tl =>
    let i1 := if rec_padding (nth (Z.to_nat i) recs zero_record) then i + 1 else i in
    if len biow =? 0 then calc_record_checksums tl i1 recs
    else calc_record_checksums tl (i1 + 1)
           (set_record_checksum (Z.to_nat i1) (csum biow) recs)
  end.

(** [logpack_calc_checksum]. *)
Definition logpack_calc_checksum (logh : walb_logpack_header) (pbs salt : Z)
           (l : list bio_wrapper) : walb_logpack_header :=
  let h := mk_logpack_header (logpack_lsid logh) (total_io_size logh)
             (n_records logh) (n_padding logh) (checksum logh)
             (calc_record_checksums l 0 (record logh)) in
  mk_logpack_header (logpack_lsid h) (total_io_size h) (n_records h)
    (n_padding h) (header_checksum K h pbs salt) (record h).

(** [logpack_submit_header]: the bio of the header block and the events. *)
Definition logpack_submit_header (lhead : walb_logpack_header) (pbs : Z)
           (is_flush : bool) (ldev0 ring_off ring_size : Z)
  : bio_entry * list event :=
  let off_pb := wrap64 (logpack_lsid lhead mod ring_size + ring_off) in
  let off_lb := addr_lb K pbs off_pb in
  let b := mk_bio ldev0 (if is_flush then WRITE_FLUSH else WRITE) off_lb
                  (Z.shiftr pbs 9) in
  (mk_bio_entry b 0, [Ev_generic_make_request b]).

(** [logpack_create_bio]. *)
Definition logpack_create_bio (b : bio) (pbs ldev0 ldev_off_pb bio_off_lb : Z)
  : bio :=
  let rw := if has_flag (bi_rw b) REQ_FUA then Z.lor (bi_rw b) REQ_FLUSH
            else bi_rw b in
  mk_bio ldev0 rw (wrap64 (addr_lb K pbs ldev_off_pb + bio_off_lb))
         (bi_sectors b).

(** [logpack_create_bio_entry], its allocations granted. *)
Definition logpack_create_bio_entry (b : bio) (pbs ldev0 ldev_off_pb bio_off_lb : Z)
  : bio_entry :=
  mk_bio_entry (logpack_create_bio b pbs ldev0 ldev_off_pb bio_off_lb) 0.

(** [logpack_submit_bio_wrapper_zero]. *)
Definition logpack_submit_bio_wrapper_zero (biow : bio_wrapper) (pbs ldev0 : Z)
  : bio_wrapper * list event :=
  let bioe := logpack_create_bio_entry (biow_bio biow) pbs ldev0 0 0 in
  (set_cloned biow (Some bioe) (cloned_bio_list biow),
   [Ev_generic_make_request (bioe_bio bioe)]).

(** [logpack_submit_bio_wrapper]. *)
Definition logpack_submit_bio_wrapper (biow : bio_wrapper) (lsid0 pbs ldev0
           ring_off ring_size chunk_sectors : Z) : bio_wrapper * list event :=
  let ldev_off_pb := wrap64 (lsid0 mod ring_size + ring_off) in
  let bioe := logpack_create_bio_entry (biow_bio biow) pbs ldev0 ldev_off_pb 0 in
  (set_cloned biow (Some bioe) (cloned_bio_list biow),
   map Ev_generic_make_request
       (split_bio_for_chunk K (bioe_bio bioe) chunk_sectors)).

(** The loop of [submit_logpack] over the bio wrappers, [i] being the
    index of the next record. *)
Fixpoint submit_logpack_loop (logh : walb_logpack_header)
         (l : list bio_wrapper) (i : Z) (pbs ldev0 ring_off ring_size
         chunk_sectors : Z) : list bio_wrapper * list event :=
  match l with
  | [] => ([], [])
  | biow :: tl =>
    let i1 := if rec_padding (record_at logh i) then i + 1 else i in
    let rec := record_at logh i1 in
    let '(biow', ev) :=
      if rec_discard rec then (biow, [])
      else if len biow =? 0 then logpack_submit_bio_wrapper_zero biow pbs ldev0
      else logpack_submit_bio_wrapper biow (rec_lsid rec) pbs ldev0
                                      ring_off ring_size chunk_sectors in
    let '(tl', ev') := submit_logpack_loop logh tl (i1 + 1) pbs ldev0 ring_off
                                           ring_size chunk_sectors in
    (biow' :: tl', ev ++ ev')
  end.

(** [submit_logpack]: the header bio entry, the wrappers with their
    clones, and the events. *)
Definition submit_logpack (logh : walb_logpack_header) (l : list bio_wrapper)
           (pbs : Z) (is_flush : bool) (ldev0 ring_off ring_size
           chunk_sectors : Z) : bio_entry * list bio_wrapper * list event :=
  let '(bioe, ev) := logpack_submit_header logh pbs is_flush ldev0 ring_off
                                           ring_size in
  let '(l', ev') := submit_logpack_loop logh l 0 pbs ldev0 ring_off ring_size
                                        chunk_sectors in
  (bioe, l', ev ++ ev').

(** [submit_flush], its allocations granted. *)
Definition submit_flush (bdev : Z) : bio_entry * list event :=
  let b := mk_bio bdev WRITE_FLUSH 0 0 in
  (mk_bio_entry b 0, [Ev_generic_make_request b]).

(** [logpack_submit_flush]. *)
Definition logpack_submit_flush (bdev : Z) (p : pack) : pack * list event :=
  let '(bioe, ev) := submit_flush bdev in
  (set_header_bioe p (Some bioe), ev).

(** The body of the loop of [submit_logpack_list] for one pack. *)
Definition submit_one_logpack (wp : walb_params) (wpack : pack)
  : pack * list event :=
  if is_zero_flush_only wpack then logpack_submit_flush (ldev wp) wpack
  else
    let logh := logpack_calc_checksum (logpack_header_sector wpack)
                  (physical_bs wp) (log_checksum_salt wp) (biow_list wpack) in
    let '(bioe, l, ev) :=
      submit_logpack logh (biow_list wpack) (physical_bs wp)
        (is_flush_header wpack) (ldev wp) (ring_buffer_off wp)
        (ring_buffer_size wp) (ldev_chunk_sectors wp) in
    (set_header_bioe (set_biow_list (set_header wpack logh) l) (Some bioe), ev).

(** [submit_logpack_list]. *)
Fixpoint submit_logpack_list (wp : walb_params) (l : list pack)
  : list pack * list event :=
  match l with
  | [] => ([], [])
  | wpack :: tl =>
    let '(p, ev) := submit_one_logpack wp wpack in
    let '(tl', ev') := submit_logpack_list wp tl in
    (p :: tl', ev ++ ev')
  end.

(** *** Throttling of the submit queue *)

(** [should_stop_queue]: the answer and the iocore data it leaves. *)
Definition should_stop_queue (wp : walb_params) (d : iocore_data)
           (biow : bio_wrapper) (now : Z) : bool * iocore_data :=
  if is_under_throttling d then (false, d)
  else
    let should_stop :=
      wrap32 (pending_sectors d + len biow) >? max_pending_sectors wp in
    if should_stop
    then (true, set_throttling d (wrap64 (now + queue_stop_timeout_jiffies wp)) true)
    else (false, d).

(** [should_start_queue]. *)
Definition should_start_queue (wp : walb_params) (d : iocore_data)
           (biow : bio_wrapper) (now : Z) : bool * iocore_data :=
  if negb (is_under_throttling d) then (false, d)
  else
    let is_size :=
      if pending_sectors d >=? len biow
      then wrap32 (pending_sectors d - len biow) <? min_pending_sectors wp
      else true in
    let is_timeout := time_is_before_jiffies now (queue_restart_jiffies d) in
    if is_size || is_timeout
    then (true, set_throttling d (queue_restart_jiffies d) false)
    else (false, d).

(** [iocore_melt]. *)
Definition iocore_melt (d : iocore_data) : iocore_data * list event :=
  let n := n_stoppers d - 1 in
  let d1 := set_n_stoppers d n in
  if n =? 0 then (enqueue_submit_task_if_necessary d1, [Ev_enqueue_submit_task])
  else (d1, []).

(** [iocore_freeze], up to the two waits that follow the increment. *)
Definition iocore_freeze (d : iocore_data) : iocore_data :=
  set_n_stoppers d (n_stoppers d + 1).

(** The block at label [retry_insert_pending] of
    [wait_for_logpack_and_submit_datapack]. The insertion into the
    pending index fails [n_fail] times before it succeeds; a discard is
    counted and not inserted. The result is the last value of
    [is_stop_queue] and the iocore data. *)
Fixpoint insert_pending (n_fail : nat) (wp : walb_params) (d : iocore_data)
         (biow : bio_wrapper) (now : Z) : bool * iocore_data :=
  let '(is_stop_queue, d1) := should_stop_queue wp d biow now in
  if st_discard biow then
    (is_stop_queue, set_pending_sectors d1 (wrap32 (pending_sectors d1 + 1)))
  else
    let d2 := set_pending_sectors d1 (wrap32 (pending_sectors d1 + len biow)) in
    match n_fail with
    | O => (is_stop_queue, d2)
    | S k =>
      insert_pending k wp
        (set_pending_sectors d2 (wrap32 (pending_sectors d2 - len biow)))
        biow now
    end.

(** *** Waiting for the log and handing the writes to the data stage *)

(** [wait_for_bio_wrapper(biow, false, is_delete)]; [done] gives the
    error with which a submitted bio completed. *)
Definition wait_for_bio_wrapper (done : bio -> Z) (biow : bio_wrapper)
           (is_delete : bool) : bio_wrapper :=
  let biow1 :=
    match cloned_bioe biow with
    | Some e => set_biow_error biow (done (bioe_bio e))
    | None => biow
    end in
  if is_delete then set_cloned biow1 None (cloned_bio_list biow1) else biow1.

(** [create_bio_entry_by_clone_never_giveup(biow->bio, wdev->ddev, ..., true)]
    followed by [split_bio_for_chunk_never_giveup]. *)
Definition clone_for_ddev (wp : walb_params) (biow : bio_wrapper) : bio_wrapper :=
  let b := biow_bio biow in
  let c := mk_bio (ddev wp) (bi_rw b) (bi_sector b) (bi_sectors b) in
  set_cloned biow (Some (mk_bio_entry c 0))
             (split_bio_for_chunk K c (ddev_chunk_sectors wp)).

(** What the loop of [wait_for_logpack_and_submit_datapack] carries from
    one bio wrapper to the next. *)
Record waitlog_state : Type := mk_waitlog_state {
  wl_dev : walb_dev;
  wl_failed : bool;
  wl_kept : list bio_wrapper;
  wl_events : list event
}.

(** The body of that loop for one bio wrapper. *)
Definition waitlog_one (done : bio -> Z) (n_fail : bio_wrapper -> nat)
           (now : Z) (st : waitlog_state) (biow0 : bio_wrapper)
  : waitlog_state :=
  let wdev := wl_dev st in
  let wp := par wdev in
  let biow := wait_for_bio_wrapper done biow0 true in
  if wl_failed st || negb (error biow =? 0) then
    mk_waitlog_state
      (set_iocored wdev (set_read_only_mode (iocored wdev))) true
      (wl_kept st)
      (wl_events st ++ [Ev_bio_endio (biow_bio biow) (- EIO)])
  else if len biow =? 0 then
    mk_waitlog_state wdev false (wl_kept st)
      (wl_events st ++ [Ev_bio_endio (biow_bio biow) 0])
  else
    let is_discard := st_discard biow in
    let biow1 := if negb is_discard || ddev_discard wp
                 then clone_for_ddev wp biow else biow in
    let '(is_stop_queue, d1) :=
      insert_pending (n_fail biow0) wp (iocored wdev) biow1 now in
    let d2 := if is_stop_queue then set_n_stoppers d1 (n_stoppers d1 + 1) else d1 in
    let biow2 := bio_wrapper_state_set_prepared biow1 in
    let d3 := set_datapack_submit_queue d2 (datapack_submit_queue d2 ++ [biow2]) in
    mk_waitlog_state (set_iocored wdev d3) false (wl_kept st ++ [biow2])
      (wl_events st ++ [Ev_bio_endio (biow_bio biow) 0]).

Definition notify_if (should_notice : bool) : list event :=
  if should_notice then [Ev_sysfs_notify "lsids"] else [].

(** [wait_for_logpack_and_submit_datapack]: the device, the pack as it
    goes on to the gc queue, and the events. The read-only test that
    opens the function is overwritten by the result of
    [wait_for_logpack_header] and so leaves no trace. *)
Definition wait_for_logpack_and_submit_datapack (done : bio -> Z)
           (n_fail : bio_wrapper -> nat) (now : Z) (wdev : walb_dev)
           (wpack : pack) : walb_dev * pack * list event :=
  let logh := logpack_header_sector wpack in
  (* wait_for_logpack_header *)
  let is_failed :=
    match header_bioe wpack with
    | Some e => negb (done (bioe_bio e) =? 0)
    | None => false
    end in
  (* update of permanent_lsid for a flush header *)
  let '(wdev1, ev1) :=
    if negb is_failed && is_flush_header wpack then
      if permanent (lsids wdev) <? logpack_lsid logh then
        (set_lsids wdev (set_permanent (lsids wdev) (logpack_lsid logh)),
         notify_if (is_permanent_log_empty (lsids wdev)))
      else (wdev, [])
    else (wdev, []) in
  let st := fold_left (waitlog_one done n_fail now) (biow_list wpack)
                      (mk_waitlog_state wdev1 is_failed [] ev1) in
  let wdev2 := wl_dev st in
  let wpack' := set_header_bioe (set_biow_list wpack (wl_kept st)) None in
  if wl_failed st then (wdev2, wpack', wl_events st)
  else
    let l0 := set_completed (lsids wdev2) (get_next_lsid_unsafe logh) in
    let '(l1, notice1) :=
      if is_flush_contained wpack && (permanent l0 <? logpack_lsid logh)
      then (set_permanent l0 (logpack_lsid logh), is_permanent_log_empty l0)
      else (l0, false) in
    let '(l2, notice2) :=
      if negb (has_flag (flush_flags (par wdev2)) REQ_FLUSH) then
        let lf := set_flush l1 (get_next_lsid_unsafe logh) in
        (set_permanent lf (flush lf), is_permanent_log_empty l1)
      else (l1, notice1) in
    (set_lsids wdev2 l2, wpack', wl_events st ++ notify_if notice2).

(** *** Waiting for the log to be permanent *)

(** The part of [wait_for_log_permanent] after the waiting loop: the
    forced flush of the log device; [flush_err] is what
    [blkdev_issue_flush] returns. *)
Definition force_log_flush (wdev : walb_dev) (now flush_err : Z)
  : walb_dev * list event :=
  let wp := par wdev in
  let latest_lsid := latest (lsids wdev) in
  let wdev1 :=
    if flush (lsids wdev) <? latest_lsid then
      set_iocored (set_lsids wdev (set_flush (lsids wdev) latest_lsid))
        (set_log_flush_jiffies (iocored wdev)
           (wrap64 (now + log_flush_interval_jiffies wp)))
    else wdev in
  let wdev2 :=
    if negb (flush_err =? 0)
    then set_iocored wdev1 (set_read_only_mode (iocored wdev1))
    else wdev1 in
  let '(wdev3, should_notice) :=
    if permanent (lsids wdev2) <? latest_lsid
    then (set_lsids wdev2 (set_permanent (lsids wdev2) latest_lsid),
          is_permanent_log_empty (lsids wdev2))
    else (wdev2, false) in
  (wdev3, Ev_blkdev_issue_flush (ldev wp) :: notify_if should_notice).

(** The loop at label [retry] of [wait_for_log_permanent]. Every
    [msleep(1)] lets the clock advance by [tick] jiffies; [fuel] bounds
    the number of rounds, and [None] means the bound was reached. *)
Fixpoint wait_for_log_permanent_loop (fuel : nat) (wdev : walb_dev)
         (lsid0 timeout_jiffies now tick flush_err : Z)
  : option (walb_dev * list event) :=
  match fuel with
  | O => None
  | S k =>
    let wp := par wdev in
    if lsid0 <? permanent (lsids wdev) then Some (wdev, [])
    else if time_is_after_jiffies now timeout_jiffies &&
            (lsid0 <? wrap64 (flush (lsids wdev) + log_flush_interval_pb wp)) &&
            time_is_after_jiffies now (log_flush_jiffies (iocored wdev)) then
      match wait_for_log_permanent_loop k wdev lsid0 timeout_jiffies
              (wrap64 (now + tick)) tick flush_err with
      | Some (w, ev) => Some (w, Ev_msleep 1 :: ev)
      | None => None
      end
    else Some (force_log_flush wdev now flush_err)
  end.

(** [wait_for_log_permanent]. *)
Definition wait_for_log_permanent (fuel : nat) (wdev : walb_dev)
           (lsid0 now tick flush_err : Z) : option (walb_dev * list event) :=
  if log_flush_interval_jiffies (par wdev) =? 0 then Some (wdev, [])
  else
    wait_for_log_permanent_loop fuel wdev lsid0
      (wrap64 (now + log_flush_interval_jiffies (par wdev))) now tick flush_err.

(** *** Completion of the data writes and garbage collection *)

(** Modelled from the spec: [overlapped_check_and_insert] and
    [overlapped_delete_and_notify] of [overlapped_io.c] are missing. A
    write that enters the data-submit stage is put into the overlap
    table and is marked delayed when a write still in flight intersects
    it; when a write completes, the delayed writes that it alone was
    holding back are handed over in a list to be submitted. The table
    itself is not part of the state here: what the two calls find in it
    comes from outside, [overlapped] telling whether the check finds a
    write in flight that intersects the wrapper, [released] giving the
    list that the removal of a completed wrapper hands over. An
    insertion that fails for want of memory changes nothing and is
    repeated. *)
Definition overlapped_check_and_insert (overlapped : bool)
           (biow : bio_wrapper) : bio_wrapper :=
  if overlapped then bio_wrapper_state_set_delayed biow else biow.

Definition overlapped_delete_and_notify
           (released : bio_wrapper -> list bio_wrapper) (biow : bio_wrapper)
  : list bio_wrapper :=
  released biow.

(** The loop of [task_submit_bio_wrapper_list] that makes the overlap
    check of the wrappers taken, from the [i]-th on; [delayed i] is what
    the table answers for the [i]-th of them. *)
Fixpoint overlapped_check_loop (delayed : nat -> bool) (i : nat)
         (l : list bio_wrapper) : list bio_wrapper :=
  match l with
  | [] => []
  | biow :: tl =>
    overlapped_check_and_insert (delayed i) biow ::
    overlapped_check_loop delayed (S i) tl
  end.

(** [submit_write_bio_wrapper]. *)
Definition submit_write_bio_wrapper (biow : bio_wrapper)
  : bio_wrapper * list event :=
  (bio_wrapper_state_set_submitted biow,
   map Ev_generic_make_request (cloned_bio_list biow)).

(** [wait_for_write_bio_wrapper] as built with
    [WALB_OVERLAPPED_SERIALIZE]: the wrappers that the removal from the
    overlap table hands over are submitted before the wrapper leaves the
    pending index. Those wrappers sit on the wait queue; the mark
    [submit_write_bio_wrapper] leaves on them is read by assertions
    only, and the queue keeps them as they were put there. *)
Definition wait_for_write_bio_wrapper (done : bio -> Z)
           (released : bio_wrapper -> list bio_wrapper) (now : Z)
           (wdev : walb_dev) (biow0 : bio_wrapper)
  : walb_dev * bio_wrapper * list event :=
  let wp := par wdev in
  let biow := bio_wrapper_state_set_completed
                (wait_for_bio_wrapper done biow0 false) in
  let should_submit_list := overlapped_delete_and_notify released biow in
  let ev_overlapped :=
    flat_map (fun biow_tmp => snd (submit_write_bio_wrapper biow_tmp))
             should_submit_list in
  let '(is_start_queue, d1) := should_start_queue wp (iocored wdev) biow now in
  let d2 :=
    if st_discard biow
    then set_pending_sectors d1 (wrap32 (pending_sectors d1 - 1))
    else set_pending_sectors d1 (wrap32 (pending_sectors d1 - len biow)) in
  let '(d3, ev) := if is_start_queue then iocore_melt d2 else (d2, []) in
  (set_iocored wdev d3, set_cloned biow None (cloned_bio_list biow),
   ev_overlapped ++ ev).

(** The loop of [gc_logpack_list] over the packs; [data_error] is the
    error the data stage left in a wrapper. *)
Fixpoint gc_logpack_loop (data_error : bio_wrapper -> Z) (d : iocore_data)
         (written_lsid : Z) (l : list pack) : iocore_data * Z * list event :=
  match l with
  | [] => (d, written_lsid, [])
  | wpack :: tl =>
    let d1 :=
      fold_left
        (fun d biow => if negb (data_error biow =? 0)
                       then set_read_only_mode d else d)
        (biow_list wpack) d in
    let '(d2, w, ev) :=
      gc_logpack_loop data_error d1
        (get_next_lsid_unsafe (logpack_header_sector wpack)) tl in
    (d2, w, Ev_destroy_pack (logpack_lsid (logpack_header_sector wpack)) :: ev)
  end.

(** [gc_logpack_list]. *)
Definition gc_logpack_list (data_error : bio_wrapper -> Z) (wdev : walb_dev)
           (l : list pack) : walb_dev * list event :=
  let '(d, written_lsid, ev) :=
    gc_logpack_loop data_error (iocored wdev) INVALID_LSID l in
  (set_lsids (set_iocored wdev d) (set_written (lsids wdev) written_lsid), ev).

(** *** The walblog device *)

(** [iocore_log_make_request]: the device after the call and the events. *)
Definition iocore_log_make_request (wdev : walb_dev) (b : bio)
  : walb_dev * list event :=
  if has_flag (bi_rw b) WRITE
  then (wdev, [Ev_bio_endio b (- EIO)])
  else (wdev, [Ev_generic_make_request
                 (mk_bio (ldev (par wdev)) (bi_rw b) (bi_sector b) (bi_sectors b))]).

(** *** Entry point and the rounds of the pipeline tasks *)

(** [iocore_make_request]. [allocated] is the outcome of
    [alloc_bio_wrapper_inc] and, for a read, of the clone, the split and
    the copy from the pending index in [submit_read_bio_wrapper]. *)
Definition iocore_make_request (wdev : walb_dev) (b : bio) (allocated : bool)
  : walb_dev * list event :=
  let d := iocored wdev in
  let is_write := has_flag (bi_rw b) REQ_WRITE in
  if IOCORE_STATE_FAILURE (flags d) || (is_write && is_read_only_mode d)
  then (wdev, [Ev_bio_endio b (- EIO)])
  else if negb allocated then (wdev, [Ev_bio_endio b (- ENOMEM)])
  else
    let biow := init_bio_wrapper b in
    if is_write then
      let biow1 := set_biow_csum biow
                     (bio_calc_checksum K b (log_checksum_salt (par wdev))) in
      let d1 := set_logpack_submit_queue d (logpack_submit_queue d ++ [biow1]) in
      if n_stoppers d =? 0
      then (set_iocored wdev (enqueue_submit_task_if_necessary d1),
            [Ev_enqueue_submit_task])
      else (set_iocored wdev d1, [])
    else
      (wdev,
       map Ev_generic_make_request
         (split_bio_for_chunk K
            (mk_bio (ddev (par wdev)) (bi_rw b) (bi_sector b) (bi_sectors b))
            (ddev_chunk_sectors (par wdev)))).

(** The dequeue loops of the tasks: entries move until the queue is empty
    or the counter reaches the bulk size, which is tested after the
    move. *)
Definition dequeue_bulk {A : Type} (bulk : Z) (q : list A) : list A * list A :=
  let n := Z.to_nat (Z.max 1 bulk) in (firstn n q, skipn n q).

(** One round of the loop of [task_submit_logpack_list]. *)
Definition task_submit_logpack_list (wdev : walb_dev) (now : Z)
  : walb_dev * list event :=
  let d := iocored wdev in
  match logpack_submit_queue d with
  | [] => (set_iocored wdev (clear_working_flag SUBMIT_LOG_TASK_WORKING d), [])
  | _ =>
    let '(taken, rest) := dequeue_bulk (n_io_bulk (par wdev)) (logpack_submit_queue d) in
    let biow_list := map bio_wrapper_state_set_started taken in
    let wdev1 := set_iocored wdev (set_logpack_submit_queue d rest) in
    if IOCORE_STATE_READ_ONLY (flags d) then
      (wdev1, fail_and_destroy_bio_wrapper_list biow_list)
    else
      let '(ret, wpack_list, wdev2, ev) := create_logpack_list wdev1 biow_list now in
      if negb ret then (wdev2, ev)
      else
        let '(packs, ev') := submit_logpack_list (par wdev2) wpack_list in
        let d2 := iocored wdev2 in
        (set_iocored wdev2
           (enqueue_wait_task_if_necessary
              (set_logpack_wait_queue d2 (logpack_wait_queue d2 ++ packs))),
         ev ++ ev')
  end.

(** The loop of [task_wait_for_logpack_list] over the packs it took. *)
Fixpoint wait_for_logpacks (done : bio -> Z) (n_fail : bio_wrapper -> nat)
         (now : Z) (wdev : walb_dev) (l : list pack)
  : walb_dev * list pack * list event :=
  match l with
  | [] => (wdev, [], [])
  | wpack :: tl =>
    let '(wdev1, p, ev) :=
      wait_for_logpack_and_submit_datapack done n_fail now wdev wpack in
    let '(wdev2, tl', ev') := wait_for_logpacks done n_fail now wdev1 tl in
    (wdev2, p :: tl', ev ++ ev')
  end.

(** One round of the loop of [task_wait_for_logpack_list]. *)
Definition task_wait_for_logpack_list (done : bio -> Z)
           (n_fail : bio_wrapper -> nat) (now : Z) (wdev : walb_dev)
  : walb_dev * list event :=
  let d := iocored wdev in
  match logpack_wait_queue d with
  | [] => (set_iocored wdev (clear_working_flag WAIT_LOG_TASK_WORKING d), [])
  | _ =>
    let '(taken, rest) :=
      dequeue_bulk (n_pack_bulk (par wdev)) (logpack_wait_queue d) in
    let wdev1 := set_iocored wdev (set_logpack_wait_queue d rest) in
    let '(wdev2, packs, ev) := wait_for_logpacks done n_fail now wdev1 taken in
    let d2 := enqueue_submit_data_task_if_necessary (iocored wdev2) in
    (set_iocored wdev2 (set_logpack_gc_queue d2 (logpack_gc_queue d2 ++ packs)), ev)
  end.

(** [insert_to_sorted_bio_wrapper_list_by_pos], on the list read from its
    tail. *)
Fixpoint insert_from_tail (biow : bio_wrapper) (r : list bio_wrapper)
  : list bio_wrapper :=
  match r with
  | [] => [biow]
  | tmp :: tl => if pos biow >? pos tmp then biow :: r
                 else tmp :: insert_from_tail biow tl
  end.

Definition insert_to_sorted_bio_wrapper_list_by_pos (biow : bio_wrapper)
           (l : list bio_wrapper) : list bio_wrapper :=
  rev (insert_from_tail biow (rev l)).

(** Modelled from the spec: [clear_flush_bit] of [bio_util.c] is missing.
    The data submitter strips flush semantics from the cloned data
    bios. *)
Definition clear_flush_bit (l : list bio) : list bio :=
  map (fun b => mk_bio (bi_bdev b) (Z.land (bi_rw b) (Z.lnot REQ_FLUSH))
                       (bi_sector b) (bi_sectors b)) l.

(** One round of the loop of [task_submit_bio_wrapper_list] as built
    with [WALB_OVERLAPPED_SERIALIZE]: [wait_for_log_permanent] is called
    with the lsid of the last wrapper taken, every wrapper goes through
    the overlap check, the wrappers that are not delayed are sorted and
    submitted, and all of them are queued for the wait task. With
    [delayed] false everywhere this is the build without the macro. *)
Definition task_submit_bio_wrapper_list (fuel : nat) (now tick flush_err : Z)
           (delayed : nat -> bool)
           (wdev : walb_dev) : option (walb_dev * list event) :=
  let d := iocored wdev in
  match datapack_submit_queue d with
  | [] =>
    Some (set_iocored wdev (clear_working_flag SUBMIT_DATA_TASK_WORKING d), [])
  | _ =>
    let '(biow_list, rest) :=
      dequeue_bulk (n_io_bulk (par wdev)) (datapack_submit_queue d) in
    let lsid0 := fold_left (fun _ biow => lsid biow) biow_list 0 in
    let wdev1 := set_iocored wdev (set_datapack_submit_queue d rest) in
    match wait_for_log_permanent fuel wdev1 lsid0 now tick flush_err with
    | None => None
    | Some (wdev2, ev) =>
      let checked := overlapped_check_loop delayed 0 biow_list in
      let cleared :=
        map (fun biow => set_cloned biow (cloned_bioe biow)
                           (clear_flush_bit (cloned_bio_list biow))) checked in
      let sorted :=
        fold_left
          (fun acc biow =>
             if st_delayed biow then acc
             else if is_sort_data_io_ mp
             then insert_to_sorted_bio_wrapper_list_by_pos biow acc
             else acc ++ [biow])
          cleared [] in
      let ev' := flat_map (fun biow => snd (submit_write_bio_wrapper biow)) sorted in
      let d2 := iocored wdev2 in
      Some (set_iocored wdev2
              (enqueue_wait_data_task_if_necessary
                 (set_datapack_wait_queue d2
                    (datapack_wait_queue d2 ++
                     map (fun biow => if st_delayed biow then biow
                                      else fst (submit_write_bio_wrapper biow))
                         cleared))),
            ev ++ ev')
    end
  end.

(** The loop of [task_wait_for_bio_wrapper_list] over the wrappers it
    took. *)
Fixpoint wait_for_write_bio_wrappers (done : bio -> Z)
         (released : bio_wrapper -> list bio_wrapper) (now : Z)
         (wdev : walb_dev) (l : list bio_wrapper) : walb_dev * list event :=
  match l with
  | [] => (wdev, [])
  | biow :: tl =>
    let '(wdev1, _, ev) := wait_for_write_bio_wrapper done released now wdev biow in
    let '(wdev2, ev') := wait_for_write_bio_wrappers done released now wdev1 tl in
    (wdev2, ev ++ ev')
  end.

(** One round of the loop of [task_wait_for_bio_wrapper_list]. *)
Definition task_wait_for_bio_wrapper_list (done : bio -> Z)
           (released : bio_wrapper -> list bio_wrapper) (now : Z)
           (wdev : walb_dev) : walb_dev * list event :=
  let d := iocored wdev in
  match datapack_wait_queue d with
  | [] => (set_iocored wdev (clear_working_flag WAIT_DATA_TASK_WORKING d), [])
  | _ =>
    let '(taken, rest) :=
      dequeue_bulk (n_io_bulk (par wdev)) (datapack_wait_queue d) in
    wait_for_write_bio_wrappers done released now
      (set_iocored wdev (set_datapack_wait_queue d rest)) taken
  end.

(** One round of the loop of [dequeue_and_gc_logpack_list]. *)
Definition dequeue_and_gc_logpack_list (data_error : bio_wrapper -> Z)
           (wdev : walb_dev) : walb_dev * list event :=
  let d := iocored wdev in
  match logpack_gc_queue d with
  | [] => (wdev, [])
  | _ =>
    let '(taken, rest) := dequeue_bulk (n_pack_bulk (par wdev)) (logpack_gc_queue d) in
    gc_logpack_list data_error
      (set_iocored wdev (set_logpack_gc_queue d rest)) taken
  end.

(** *** The pipeline as a transition system *)

(** One step of the write pipeline: a write bio enters, or one of the
    five workers runs one round of its loop. The workers run in any
    order; what the outside decides (clock, completion errors, failed
    insertions, what the overlap table answers) is arbitrary. *)
Inductive step : walb_dev -> walb_dev -> Prop :=
| step_make_request : forall wdev b allocated,
    has_flag (bi_rw b) REQ_WRITE = true ->
    step wdev (fst (iocore_make_request wdev b allocated))
| step_submit_log : forall wdev now,
    step wdev (fst (task_submit_logpack_list wdev now))
| step_wait_log : forall wdev done n_fail now,
    step wdev (fst (task_wait_for_logpack_list done n_fail now wdev))
| step_submit_data : forall wdev fuel now tick flush_err delayed wdev' ev,
    task_submit_bio_wrapper_list fuel now tick flush_err delayed wdev =
      Some (wdev', ev) ->
    step wdev wdev'
| step_wait_data : forall wdev done released now,
    step wdev (fst (task_wait_for_bio_wrapper_list done released now wdev))
| step_gc : forall wdev data_error,
    step wdev (fst (dequeue_and_gc_logpack_list data_error wdev)).

(** The states the pipeline reaches from [wdev0]. *)
Inductive reachable (wdev0 : walb_dev) : walb_dev -> Prop :=
| reach_init : reachable wdev0 wdev0
| reach_step : forall wdev wdev',
    reachable wdev0 wdev -> step wdev wdev' -> reachable wdev0 wdev'.

End WithKernel.

(** The chain of the lsid set the design states. *)
Definition lsid_chain (l : lsid_set) : Prop :=
  oldest l <= written l /\ written l <= permanent l /\
  permanent l <= completed l /\ completed l <= latest l.

(** A device that has just been started: the chain holds and the queues
    of the pipeline are empty. *)
Definition fresh_device (wdev : walb_dev) : Prop :=
  lsid_chain (lsids wdev) /\
  logpack_submit_queue (iocored wdev) = [] /\
  logpack_wait_queue (iocored wdev) = [] /\
  datapack_submit_queue (iocored wdev) = [] /\
  datapack_wait_queue (iocored wdev) = [] /\
  logpack_gc_queue (iocored wdev) = [].

(** *** Reading event lists *)

(** The bios completed, with their errors, in order. *)
Definition bio_endios (ev : list event) : list (bio * Z) :=
  flat_map (fun e => match e with Ev_bio_endio b err => [(b, err)] | _ => [] end) ev.

(** The packs destroyed, by logpack lsid, in order. *)
Definition destroyed_packs (ev : list event) : list Z :=
  flat_map (fun e => match e with Ev_destroy_pack l => [l] | _ => [] end) ev.

(** The bios submitted to a block device, in order. *)
Definition submitted_bios (ev : list event) : list bio :=
  flat_map (fun e => match e with Ev_generic_make_request b => [b] | _ => [] end) ev.

(** The userland helper invocations, in order. *)
Definition helper_calls (ev : list event) : list (string * list string) :=
  flat_map (fun e => match e with
                     | Ev_call_usermodehelper p a => [(p, a)]
                     | _ => []
                     end) ev.

(** The bios a builder holds: those of the sealed packs, then those of
    the current pack. *)
Definition builder_bios (b : builder) : list bio :=
  flat_map (fun p => map biow_bio (biow_list p)) (wpack_list b) ++
  match wpackp b with
  | Some p => map biow_bio (biow_list p)
  | None => []
  end.

(** *** Records and wrappers of a pack, side by side *)

(** The records of a header against the bio wrappers of its pack: every
    wrapper has one record of its own, which a padding record may
    precede. This is the layout [is_prepared_pack_valid] walks. *)
Inductive paired : list walb_log_record -> list bio_wrapper -> Prop :=
| paired_nil : paired [] []
| paired_plain : forall r recs w l,
    rec_padding r = false -> paired recs l -> paired (r :: recs) (w :: l)
| paired_padded : forall pad r recs w l,
    rec_padding pad = true -> rec_padding r = false -> paired recs l ->
    paired (pad :: r :: recs) (w :: l).

(** The records that stand for a write: all but the padding records. *)
Definition write_records (lhead : walb_logpack_header) : list walb_log_record :=
  filter (fun r => negb (rec_padding r)) (record lhead).

(** The position on the log device, in physical blocks, of the block
    with the given lsid. *)
Definition ring_position (ring_off ring_size lsid0 : Z) : Z :=
  wrap64 (lsid0 mod ring_size + ring_off).

(** The sector at which the log clone of a wrapper starts, if it has
    one. *)
Definition cloned_sector (w : bio_wrapper) : option Z :=
  match cloned_bioe w with
  | Some e => Some (bi_sector (bioe_bio e))
  | None => None
  end.

(** The log devices flushed through [blkdev_issue_flush], in order. *)
Definition issued_flushes (ev : list event) : list Z :=
  flat_map (fun e => match e with Ev_blkdev_issue_flush d => [d] | _ => [] end) ev.

(** *** What holds of the lsid set along every run *)

(** The lsid that follows a pack. *)
Definition next_of (p : pack) : Z := get_next_lsid_unsafe (logpack_header_sector p).

(** What the pack builder relies on in [walb_logpack_header_add_bio]:
    the call leaves the logpack lsid of the header alone and keeps
    [total_io_size], an unsigned field, from going below zero. *)
Record kern_laws (K : kern_iface) : Prop := mk_kern_laws {
  law_lsid : forall h b pbs rs,
    logpack_lsid (snd (walb_logpack_header_add_bio K h b pbs rs)) = logpack_lsid h;
  law_size : forall h b pbs rs,
    0 <= total_io_size h ->
    0 <= total_io_size (snd (walb_logpack_header_add_bio K h b pbs rs))
}.

(** The links between the watermarks that every step keeps. *)
Definition lsid_links (l : lsid_set) : Prop :=
  oldest l <= written l /\ written l <= latest l /\
  permanent l <= latest l /\ completed l <= latest l.

(** The lsid at which a pack starts and the lsid that follows it. *)
Definition lsid_span (p : pack) : Z * Z :=
  (logpack_lsid (logpack_header_sector p), next_of p).

(** A span between two lsids: it starts no later than it ends, and ends
    between [lo] and [hi]. *)
Definition span_within (lo hi : Z) (s : Z * Z) : Prop :=
  fst s <= snd s /\ lo <= snd s /\ snd s <= hi.

Definition pack_within (lo hi : Z) (p : pack) : Prop :=
  span_within lo hi (lsid_span p).

(** What holds of the locals of [create_logpack_list] between two bio
    wrappers, [lo] being the latest lsid of the device when the list was
    begun: the packs closed so far follow one another up to
    [latest_lsidp], where the current pack starts. *)
Record builder_inv (lo : Z) (b : builder) : Prop := mk_builder_inv {
  bld_lo : lo <= latest_lsidp b;
  bld_within : Forall (pack_within lo (latest_lsidp b)) (wpack_list b);
  bld_sorted : StronglySorted Z.le (map next_of (wpack_list b));
  bld_cur : forall p, wpackp b = Some p ->
    logpack_lsid (logpack_header_sector p) = latest_lsidp b /\
    0 <= total_io_size (logpack_header_sector p)
}.

(** Two states of the device that differ in nothing the watermarks and
    the packs in flight depend on. *)
Definition same_log_state (w w' : walb_dev) : Prop :=
  par w' = par w /\ lsids w' = lsids w /\
  logpack_gc_queue (iocored w') = logpack_gc_queue (iocored w) /\
  logpack_wait_queue (iocored w') = logpack_wait_queue (iocored w).

(** The invariant of the pipeline: the links, and the packs in flight in
    the order of their lsids, those waiting for the log no earlier than
    [completed], all of them between [written] and [latest]. *)
Record pipeline_inv (wdev : walb_dev) : Prop := mk_pipeline_inv {
  inv_links : lsid_links (lsids wdev);
  inv_sorted :
    StronglySorted Z.le
      (map next_of (logpack_gc_queue (iocored wdev) ++
                    logpack_wait_queue (iocored wdev)));
  inv_within :
    Forall (pack_within (written (lsids wdev)) (latest (lsids wdev)))
           (logpack_gc_queue (iocored wdev) ++ logpack_wait_queue (iocored wdev));
  inv_wait :
    Forall (fun p => completed (lsids wdev) <= next_of p)
           (logpack_wait_queue (iocored wdev))
}.

(** No watermark goes back from [a] to [b]; for [flush] and [permanent]
    this is asked when the queue of the device advertises flush
    support. *)
Definition lsids_advance (flush_capable : bool) (a b : lsid_set) : Prop :=
  latest a <= latest b /\ completed a <= completed b /\
  written a <= written b /\ oldest a <= oldest b /\
  (flush_capable = true -> flush a <= flush b /\ permanent a <= permanent b).

(** What a step from [wdev] to [wdev'] is shown to do: the parameters of
    the device stay, the invariant is kept and no watermark goes back. *)
Definition keeps_watermarks (wdev wdev' : walb_dev) : Prop :=
  par wdev' = par wdev /\ pipeline_inv wdev' /\
  lsids_advance (has_flag (flush_flags (par wdev)) REQ_FLUSH)
                (lsids wdev) (lsids wdev').

(** *** State switches of the IO core *)

(** [iocore_set_readonly] and [iocore_is_readonly]. *)
Definition iocore_set_readonly (wdev : walb_dev) : walb_dev :=
  set_iocored wdev (set_read_only_mode (iocored wdev)).

Definition iocore_is_readonly (wdev : walb_dev) : bool :=
  is_read_only_mode (iocored wdev).

(** [iocore_is_log_overflow]. *)
Definition iocore_is_log_overflow (wdev : walb_dev) : bool :=
  IOCORE_STATE_LOG_OVERFLOW (flags (iocored wdev)).

(** What a step may do to the state bits: [FAILURE] stays as it is, and
    [READ_ONLY] and [LOG_OVERFLOW] are not cleared. *)
Definition flags_kept (f f' : iocore_flags) : Prop :=
  IOCORE_STATE_FAILURE f' = IOCORE_STATE_FAILURE f /\
  (IOCORE_STATE_READ_ONLY f = true -> IOCORE_STATE_READ_ONLY f' = true) /\
  (IOCORE_STATE_LOG_OVERFLOW f = true -> IOCORE_STATE_LOG_OVERFLOW f' = true).

(** Packs that follow one another from [lo] to [hi]: each starts at the
    lsid the one before ends at. *)
Inductive tiles : Z -> Z -> list pack -> Prop :=
| tiles_nil : forall lo, tiles lo lo []
| tiles_cons : forall lo hi p l,
    logpack_lsid (logpack_header_sector p) = lo ->
    tiles (next_of p) hi l ->
    tiles lo hi (p :: l).

(** What a write adds to [pending_sectors]: one for a discard, its
    length otherwise. *)
Definition pending_weight (biow : bio_wrapper) : Z :=
  if st_discard biow then 1 else len biow.

(** The sectors the writes of a list account for in [pending_sectors]. *)
Definition pending_total (l : list bio_wrapper) : Z :=
  fold_right (fun w s => pending_weight w + s) 0 l.

(** [pending_sectors], an unsigned int, counts the writes whose log IO
    is done and whose data IO is not: those on the two queues of the
    data stage. *)
Definition pending_balanced (d : iocore_data) : Prop :=
  pending_sectors d =
  wrap32 (pending_total (datapack_submit_queue d ++ datapack_wait_queue d)).

(** The part of the iocore data the data stage accounts with. *)
Definition data_stage (d : iocore_data)
  : Z * list bio_wrapper * list bio_wrapper :=
  (pending_sectors d, datapack_submit_queue d, datapack_wait_queue d).

(** What holds of the locals of [create_logpack_list] between two bio
    wrappers as to the place of the packs in the log: the packs closed
    so far follow one another without a gap from [lo] to [latest_lsidp],
    where the current pack starts, and no pack is without a wrapper. *)
Record builder_tiles (lo : Z) (b : builder) : Prop := mk_builder_tiles {
  til_closed : tiles lo (latest_lsidp b) (wpack_list b);
  til_filled : Forall (fun p => biow_list p <> []) (wpack_list b);
  til_cur : forall p, wpackp b = Some p ->
    logpack_lsid (logpack_header_sector p) = latest_lsidp b /\ biow_list p <> []
}.

(** The task-working bits of the three stages that follow the log
    submitter. *)
Definition stage_bits (f : iocore_flags) : bool * bool * bool :=
  (IOCORE_STATE_WAIT_LOG_TASK_WORKING f,
   IOCORE_STATE_SUBMIT_DATA_TASK_WORKING f,
   IOCORE_STATE_WAIT_DATA_TASK_WORKING f).

(** What tells whether those stages have work and are scheduled: their
    queues and their bits. *)
Definition sched_view (d : iocore_data)
  : list pack * list bio_wrapper * list bio_wrapper * (bool * bool * bool) :=
  (logpack_wait_queue d, datapack_submit_queue d, datapack_wait_queue d,
   stage_bits (flags d)).

(** The same without the queue of the data submitter, which the log wait
    fills. *)
Definition sched_rest (d : iocore_data)
  : list pack * list bio_wrapper * (bool * bool * bool) :=
  (logpack_wait_queue d, datapack_wait_queue d, stage_bits (flags d)).

(** No stage after the log submitter has work on its queue while its
    task-working bit is clear. *)
Definition stages_scheduled (d : iocore_data) : Prop :=
  (logpack_wait_queue d <> [] ->
   IOCORE_STATE_WAIT_LOG_TASK_WORKING (flags d) = true) /\
  (datapack_submit_queue d <> [] ->
   IOCORE_STATE_SUBMIT_DATA_TASK_WORKING (flags d) = true) /\
  (datapack_wait_queue d <> [] ->
   IOCORE_STATE_WAIT_DATA_TASK_WORKING (flags d) = true).

End Io.

(** ** An instance of the kernel interface

    Modelled from the spec: the bodies behind [kern_iface] are not among
    the sources at hand. The instance below is the one at which examples
    are evaluated. A physical block holds [pbs / 512] logical blocks.
    Of the two ways of appending a write to a logpack header it takes
    the direct one (no padding record): a write of zero length adds no
    record, any other write adds one record whose lsid is
    [logpack_lsid + lsid_local], and the header is full when its records
    fill the block after the fixed part. Bios are not split and
    checksums are zero. *)

Module Example.
Import Io.

Definition n_lb_in_pb (pbs : Z) : Z := wrap32 pbs / 512.

Definition capacity_pb (pbs lb : Z) : Z :=
  (wrap32 lb + n_lb_in_pb pbs - 1) / n_lb_in_pb pbs.

Definition addr_lb (pbs pb : Z) : Z := pb * n_lb_in_pb pbs.

Definition max_n_log_record_in_sector (pbs : Z) : Z := (pbs - 24) / 32.

Definition add_bio (lhead : walb_logpack_header) (b : bio) (pbs ring_size : Z)
  : bool * walb_logpack_header :=
  if n_records lhead >=? max_n_log_record_in_sector pbs then (false, lhead)
  else if bi_sectors b =? 0 then (true, lhead)
  else
    let is_discard := has_flag (bi_rw b) REQ_DISCARD in
    let lsid_local := 1 + total_io_size lhead in
    let rec := mk_log_record true false is_discard (bi_sector b) (bi_sectors b)
                 (logpack_lsid lhead + lsid_local) lsid_local 0 in
    (true,
     mk_logpack_header (logpack_lsid lhead)
       (total_io_size lhead +
        (if is_discard then 0 else capacity_pb pbs (bi_sectors b)))
       (n_records lhead + 1) (n_padding lhead) (checksum lhead)
       (record lhead ++ [rec])).

Definition K : kern_iface :=
  mk_kern_iface capacity_pb addr_lb add_bio (fun b _ => [b])
                (fun _ _ _ => 0) (fun _ _ => 0) 256.

(** Module parameters as the driver loads by default, with an error
    hook configured. *)
Definition mp : module_params := mk_module_params true "/usr/sbin/walb_alert" false.

(** The same with [is_error_before_overflow] set. *)
Definition mp_strict : module_params :=
  mk_module_params true "/usr/sbin/walb_alert" true.

(** A device on 4 KiB physical blocks with a ring buffer of 1024 blocks
    behind a flush-capable queue; device number 253:0. *)
Definition params0 : walb_params :=
  mk_walb_params (253 * 2 ^ 20) 4096 1 2 8 1024 0 0 100 65536 32768 100
                 1024 128 0 0 0 (Z.lor REQ_FLUSH REQ_FUA) true.

Definition flags0 : iocore_flags :=
  mk_iocore_flags false false false false false false false.

Definition iocored0 : iocore_data :=
  mk_iocore_data flags0 0 [] [] [] [] [] 0 0 0 false.

Definition wdev0 : walb_dev :=
  mk_walb_dev params0 (mk_lsid_set 0 0 0 0 0 0 0) iocored0.

(** A write of eight sectors (one physical block) at sector [s]. *)
Definition write8 (s : Z) : bio := mk_bio 0 REQ_WRITE s 8.

(** A flush of zero length. *)
Definition zero_flush : bio := mk_bio 0 (Z.lor REQ_WRITE REQ_FLUSH) 0 0.

(** The builder before and after one eight-sector write has been packed,
    and the pack it then holds. *)
Definition builder0 : builder := mk_builder [] None 0 0 0.
Definition builder1 : builder :=
  snd (writepack_add_bio_wrapper K builder0 (init_bio_wrapper (write8 0))
         1024 0 params0 0 true).
Definition pack1 : pack :=
  match wpackp builder1 with
  | Some p => p
  | None => mk_pack [] (mk_logpack_header 0 0 0 0 0 []) None false false false false
  end.

(** A device whose log fills the ring buffer exactly. *)
Definition wdev_full : walb_dev :=
  mk_walb_dev params0 (mk_lsid_set 1024 1024 1024 1024 1024 1024 0) iocored0.



(** A run of the pipeline on the fresh device: a write enters, its pack
    is created and its log completes; a second write enters and its pack
    is created; then the data submitter takes the first write while the
    log of the second pack is still in flight. All completions are
    without error and the clock reads 0. *)
Definition run1 : walb_dev := fst (iocore_make_request K wdev0 (write8 0) true).
Definition run2 : walb_dev := fst (task_submit_logpack_list K mp run1 0).
Definition run3 : walb_dev :=
  fst (task_wait_for_logpack_list K (fun _ => 0) (fun _ => O) 0 run2).
Definition run4 : walb_dev := fst (iocore_make_request K run3 (write8 8) true).
Definition run5 : walb_dev := fst (task_submit_logpack_list K mp run4 0).
Definition run6 : walb_dev :=
  match task_submit_bio_wrapper_list mp 1 0 1 0 (fun _ => false) run5 with
  | Some (w, _) => w
  | None => run5
  end.

(** The device of [run1], with one write queued, after
    [iocore_set_readonly], and the state one round of the log submitter
    leaves. *)
Definition wdev_ro : walb_dev := iocore_set_readonly run1.
Definition wdev_ro1 : walb_dev := fst (task_submit_logpack_list K mp wdev_ro 0).

(** The pack of the first write as it waits for its log in [run2]. *)
Definition pack_waiting : pack := hd pack1 (logpack_wait_queue (iocored run2)).

(** A device with [pending_sectors] at [max_pending_sectors]. *)
Definition wdev_at_limit : walb_dev :=
  mk_walb_dev params0 (mk_lsid_set 0 0 0 0 0 0 0)
    (mk_iocore_data flags0 0 [] [] [] [] [] 0 65536 0 false).

End Example.

(** [hash_32] as [linux/hash.h] defines it for the kernels the driver
    builds against: multiply by [GOLDEN_RATIO_PRIME_32], keep the high
    [bits] bits. *)
Definition hash_32_linux (v bits : Z) : Z :=
  Z.shiftr (wrap32 (v * 2654404609)) (32 - bits).

(** The all-ones [unsigned long] used as [HASHTBL_INVALID_VAL]. *)
Definition invalid_val_linux : Z := 2 ^ 64 - 1.

(** A table of four buckets, as [hashtbl_create(4, gfp)] leaves it. *)
Definition tbl4 : Hashtbl.hash_tbl :=
  Hashtbl.mk_hash_tbl 4 2 [[]; []; []; []].

(** The same table after the keys "ab" and "cd" were added with the
    values 7 and 8. *)
Definition tbl4_two : Hashtbl.hash_tbl :=
  snd (Hashtbl.hashtbl_add hash_32_linux invalid_val_linux
         (snd (Hashtbl.hashtbl_add hash_32_linux invalid_val_linux tbl4
                 (Some ["a"%byte; "b"%byte]) 2 7 (Hashtbl.mk_kmalloc true true)))
         (Some ["c"%byte; "d"%byte]) 2 8 (Hashtbl.mk_kmalloc true true)).

(** ** Facts about the hash table *)

Module HashtblFacts.
Import Hashtbl.

Section WithHash.

Variable hash_32 : Z -> Z -> Z.
Variable HASHTBL_INVALID_VAL : Z.

Local Abbreviation get_index := (hashtbl_get_index hash_32).
Local Abbreviation lookup_cell := (hashtbl_lookup_cell hash_32).
Local Abbreviation ok := (htbl_ok hash_32 HASHTBL_INVALID_VAL).

Lemma list_eqb_byte_true (a b : list byte) : list_eqb_byte a b = true <-> a = b.
Proof.
  unfold list_eqb_byte. destruct (list_eq_dec byte_eq_dec a b); split; congruence.
Qed.

Lemma get_sum_firstn (k : list byte) (size : Z) :
  get_sum (firstn (Z.to_nat size) k) size = get_sum k size.
Proof.
  unfold get_sum. rewrite firstn_firstn, Nat.min_id. reflexivity.
Qed.

Lemma get_index_firstn (htbl : hash_tbl) (k : list byte) (size : Z) :
  get_index htbl (firstn (Z.to_nat size) k) size = get_index htbl k size.
Proof. unfold hashtbl_get_index. now rewrite get_sum_firstn. Qed.

Lemma bucket_add_head_length (i : nat) (c : hash_cell) (b : list (list hash_cell)) :
  length (bucket_add_head i c b) = length b.
Proof.
  revert i; induction b as [|h t IH]; intros [|j]; simpl; auto.
Qed.

Lemma bucket_add_head_same (i : nat) (c : hash_cell) (b : list (list hash_cell)) :
  (i < length b)%nat ->
  nth i (bucket_add_head i c b) [] = c :: nth i b [].
Proof.
  revert i; induction b as [|h t IH]; intros [|j] Hlt; simpl in *; try lia; auto.
  apply IH; lia.
Qed.

Lemma bucket_add_head_other (i j : nat) (c : hash_cell) (b : list (list hash_cell)) :
  i <> j ->
  nth j (bucket_add_head i c b) [] = nth j b [].
Proof.
  revert i j; induction b as [|h t IH]; intros [|i] [|j] Hne; simpl; auto; try congruence.
Qed.

Lemma in_all_cells (htbl : hash_tbl) (c : hash_cell) :
  In c (all_cells htbl) <-> exists i, In c (nth i (bucket htbl) []).
Proof.
  unfold all_cells. rewrite in_concat. split.
  - intros (l & Hl & Hc). apply (In_nth _ _ []) in Hl.
    destruct Hl as (i & _ & Hi). exists i. now rewrite Hi.
  - intros (i & Hi). exists (nth i (bucket htbl) []). split; auto.
    destruct (Nat.lt_ge_cases i (length (bucket htbl))) as [Hlt|Hge].
    + now apply nth_In.
    + rewrite nth_overflow in Hi by assumption. destruct Hi.
Qed.

Lemma cell_matches_spec (htbl : hash_tbl) (k : list byte) (ksize : Z) (c : hash_cell) :
  Z.of_nat (length (key c)) <= key_size c ->
  cell_matches k ksize c = true <->
  (key_size c = ksize /\ key c = firstn (Z.to_nat ksize) k).
Proof.
  intros Hlen. unfold cell_matches.
  rewrite andb_true_iff, Z.eqb_eq, list_eqb_byte_true. split.
  - intros [Hs Hk]. split; auto. rewrite <- Hk, firstn_all2; auto. lia.
  - intros [Hs Hk]. split; auto. rewrite Hk, firstn_firstn, Nat.min_id. reflexivity.
Qed.

(** The duplication check finds a cell exactly when the table holds an
    entry with an equal key. *)
Lemma lookup_cell_found (htbl : hash_tbl) (k : list byte) (ksize : Z) :
  ok htbl ->
  (exists c, lookup_cell htbl k ksize = Some c) <-> has_equal_key htbl k ksize.
Proof.
  intros Hok. unfold hashtbl_lookup_cell, has_equal_key. split.
  - intros (c & Hf). apply find_some in Hf. destruct Hf as [Hin Hm].
    destruct (ok_cells Hok _ _ Hin) as (_ & Hlen & _).
    apply (cell_matches_spec htbl) in Hm; auto. exists c. split; [|exact Hm].
    apply in_all_cells. eauto.
  - intros (c & Hin & Hs & Hk). apply in_all_cells in Hin. destruct Hin as (i & Hin).
    destruct (ok_cells Hok _ _ Hin) as (_ & Hlen & _ & Hidx).
    rewrite Hk, Hs, get_index_firstn in Hidx. rewrite Hidx.
    destruct (find (cell_matches k ksize) (nth i (bucket htbl) [])) eqn:Hf; eauto.
    exfalso. apply (find_none _ _ Hf) in Hin.
    assert (cell_matches k ksize c = true) by (apply (cell_matches_spec htbl); auto).
    congruence.
Qed.

Lemma lookup_cell_none (htbl : hash_tbl) (k : list byte) (ksize : Z) :
  ok htbl ->
  lookup_cell htbl k ksize = None <-> ~ has_equal_key htbl k ksize.
Proof.
  intros Hok. rewrite <- (lookup_cell_found k ksize Hok). split.
  - intros H (c & Hc). congruence.
  - intros H. destruct (lookup_cell htbl k ksize) eqn:E; auto. exfalso; eauto.
Qed.

Lemma index_in_range (htbl : hash_tbl) (k : list byte) (ksize : Z) :
  ok htbl -> (Z.to_nat (get_index htbl k ksize) < length (bucket htbl))%nat.
Proof.
  intros Hok. pose proof (ok_index Hok k ksize). pose proof (ok_len Hok). lia.
Qed.

Lemma add_result (htbl : hash_tbl) (k : option (list byte)) (ksize v : Z)
      (mem : kmalloc_result) :
  let r := hashtbl_add hash_32 HASHTBL_INVALID_VAL htbl k ksize v mem in
  (fst r = - EINVAL /\ snd r = htbl /\
     (k = None \/ ksize <= 0 \/ v = HASHTBL_INVALID_VAL)) \/
  (exists kb c, k = Some kb /\ 0 < ksize /\ v <> HASHTBL_INVALID_VAL /\
     lookup_cell htbl kb ksize = Some c /\ fst r = - EPERM /\ snd r = htbl) \/
  (exists kb, k = Some kb /\ 0 < ksize /\ v <> HASHTBL_INVALID_VAL /\
     lookup_cell htbl kb ksize = None /\
     (cell_allocated mem = false \/ key_allocated mem = false) /\
     fst r = - ENOMEM /\ snd r = htbl) \/
  (exists kb, k = Some kb /\ 0 < ksize /\ v <> HASHTBL_INVALID_VAL /\
     lookup_cell htbl kb ksize = None /\
     cell_allocated mem = true /\ key_allocated mem = true /\
     fst r = 0 /\
     snd r = mk_hash_tbl (bucket_size htbl) (n_bits htbl)
               (bucket_add_head (Z.to_nat (get_index htbl kb ksize))
                  (mk_hash_cell (firstn (Z.to_nat ksize) kb) ksize v)
                  (bucket htbl))).
Proof.
  unfold hashtbl_add. destruct k as [kb|]; [|left; simpl; auto].
  destruct (Z.leb_spec ksize 0) as [Hk|Hk]; simpl; [left; auto|].
  destruct (Z.eqb_spec v HASHTBL_INVALID_VAL) as [Hv|Hv]; simpl; [left; auto|].
  destruct (lookup_cell htbl kb ksize) as [c|] eqn:Hl.
  { right; left. exists kb, c. simpl. auto 10. }
  unfold alloc_hash_cell. destruct (Z.leb_spec ksize 0) as [Hk'|_]; [lia|].
  destruct (cell_allocated mem) eqn:Hc; simpl.
  2:{ right; right; left. exists kb. simpl; auto 10. }
  destruct (key_allocated mem) eqn:Hka; simpl.
  2:{ right; right; left. exists kb. simpl; auto 10. }
  right; right; right. exists kb. simpl. auto 10.
Qed.

(** A successful [hashtbl_add] keeps the table well formed. *)
Lemma hashtbl_add_ok (htbl : hash_tbl) (k : option (list byte)) (ksize v : Z)
      (mem : kmalloc_result) :
  ok htbl -> ok (snd (hashtbl_add hash_32 HASHTBL_INVALID_VAL htbl k ksize v mem)).
Proof.
  intros Hok.
  destruct (add_result htbl k ksize v mem)
    as [(_ & -> & _)|[(kb & c & _ & _ & _ & _ & _ & ->)|
        [(kb & _ & _ & _ & _ & _ & _ & ->)|
         (kb & -> & Hk & Hv & Hl & _ & _ & _ & ->)]]]; auto.
  constructor; simpl.
  - apply (ok_struct Hok).
  - rewrite bucket_add_head_length. apply (ok_len Hok).
  - intros k' ks'. apply (ok_index Hok k' ks').
  - intros i c Hin.
    change (hashtbl_get_index hash_32 ?t ?a ?b)
      with (hash_32 (get_sum a b) (n_bits htbl)) in *.
    destruct (Nat.eq_dec (Z.to_nat (hash_32 (get_sum kb ksize) (n_bits htbl))) i) as [He|Hne].
    + subst i. rewrite bucket_add_head_same in Hin by (apply (index_in_range kb ksize Hok)).
      destruct Hin as [<-|Hin]; simpl.
      * repeat split; auto.
        -- rewrite length_firstn. lia.
        -- now rewrite get_sum_firstn.
      * apply (ok_cells Hok _ _ Hin).
    + rewrite bucket_add_head_other in Hin by assumption.
      apply (ok_cells Hok _ _ Hin).
Qed.

(** C9. [hashtbl_add] returns [-EINVAL] for a NULL key, a key size that is
    not positive or the value [HASHTBL_INVALID_VAL]; otherwise [-EPERM]
    when the table already holds an entry with an equal key (same size,
    same bytes); otherwise [-ENOMEM] when an allocation of the cell
    fails; otherwise 0. Whenever the return value is not 0 the table is
    unchanged, and after a return of 0 [hashtbl_lookup] of that key gives
    the value just added. *)
Theorem hashtbl_add_spec (htbl : hash_tbl) (k : option (list byte)) (ksize v : Z)
        (mem : kmalloc_result) :
  ok htbl ->
  let r := hashtbl_add hash_32 HASHTBL_INVALID_VAL htbl k ksize v mem in
  let invalid := k = None \/ ksize <= 0 \/ v = HASHTBL_INVALID_VAL in
  let dup := exists kb, k = Some kb /\ has_equal_key htbl kb ksize in
  let nomem := cell_allocated mem = false \/ key_allocated mem = false in
  (invalid -> fst r = - EINVAL) /\
  (~ invalid -> dup -> fst r = - EPERM) /\
  (~ invalid -> ~ dup -> nomem -> fst r = - ENOMEM) /\
  (~ invalid -> ~ dup -> ~ nomem -> fst r = 0) /\
  (fst r <> 0 -> snd r = htbl) /\
  (fst r = 0 -> forall kb, k = Some kb ->
     hashtbl_lookup hash_32 HASHTBL_INVALID_VAL (snd r) kb ksize = v).
Proof.
  intros Hok r invalid dup nomem.
  assert (Hdup : forall kb, k = Some kb ->
            (lookup_cell htbl kb ksize = None <-> ~ dup)).
  { intros kb ->. rewrite (lookup_cell_none kb ksize Hok). unfold dup. split.
    - intros H (kb' & [= <-] & Hd). auto.
    - intros H Hd. apply H. eauto. }
  destruct (add_result htbl k ksize v mem)
    as [(Hr & Hs & Hinv)|[(kb & c & Hk & Hks & Hv & Hl & Hr & Hs)|
        [(kb & Hk & Hks & Hv & Hl & Hm & Hr & Hs)|
         (kb & Hk & Hks & Hv & Hl & Hc & Hka & Hr & Hs)]]];
    fold r in Hr, Hs; rewrite Hr, Hs; unfold EINVAL, EPERM, ENOMEM.
  - repeat split; auto; try (intros; contradiction); intros; lia.
  - assert (Hd : dup).
    { destruct (proj1 (lookup_cell_found kb ksize Hok)) as (c' & Hc'); eauto.
      exists kb; split; eauto. exists c'. exact Hc'. }
    assert (Hni : ~ invalid) by (unfold invalid; intros [H|[H|H]]; [congruence|lia|congruence]).
    repeat split; auto; try (intros; contradiction); intros; lia.
  - assert (Hd : ~ dup) by (apply (Hdup kb Hk); exact Hl).
    assert (Hni : ~ invalid) by (unfold invalid; intros [H|[H|H]]; [congruence|lia|congruence]).
    repeat split; auto; try (intros; contradiction); intros; lia.
  - assert (Hd : ~ dup) by (apply (Hdup kb Hk); exact Hl).
    assert (Hni : ~ invalid) by (unfold invalid; intros [H|[H|H]]; [congruence|lia|congruence]).
    assert (Hnm : ~ nomem) by (unfold nomem; intros [H|H]; congruence).
    repeat split; auto; try (intros; contradiction); try (intros; lia).
    intros _ kb' Hk'. rewrite Hk in Hk'. injection Hk' as <-.
    unfold hashtbl_lookup, hashtbl_lookup_cell, hashtbl_get_index. simpl.
    rewrite bucket_add_head_same by (apply (index_in_range kb ksize Hok)).
    simpl. unfold cell_matches at 1. simpl.
    rewrite Z.eqb_refl, firstn_firstn, Nat.min_id. simpl.
    replace (list_eqb_byte _ _) with true; [reflexivity|].
    symmetry. now apply list_eqb_byte_true.
Qed.

(** *** The bucket count and the number of bits *)

Lemma get_n_bits_loop_spec (v : Z) :
  forall (fuel : nat) (i : Z),
    1 <= i -> i + Z.of_nat fuel = 32 -> 2 ^ i <= v < 2 ^ 32 ->
    exists n, get_n_bits_loop fuel i v = Some n /\
              i < n <= 32 /\ 2 ^ (n - 1) <= v < 2 ^ n.
Proof.
  induction fuel as [|k IH]; intros i Hi Hf Hv.
  - replace i with 32 in Hv by lia. lia.
  - cbn [get_n_bits_loop].
    assert (Hsh : Z.shiftr v i = v / 2 ^ i) by (apply Z.shiftr_div_pow2; lia).
    assert (Hpos : 0 < 2 ^ i) by (apply Z.pow_pos_nonneg; lia).
    assert (Hpow : 2 ^ (i + 1) = 2 * 2 ^ i) by (rewrite Z.pow_add_r by lia; lia).
    destruct (Z.eqb_spec (Z.shiftr v i) 1) as [He|Hne].
    + exists (i + 1). split; [reflexivity|]. split; [lia|].
      replace (i + 1 - 1) with i by lia. rewrite Hpow. rewrite Hsh in He.
      split; [lia|].
      pose proof (Z.mul_succ_div_gt v (2 ^ i) Hpos). lia.
    + assert (Hge : 2 <= v / 2 ^ i).
      { assert (1 <= v / 2 ^ i) by (apply Z.div_le_lower_bound; lia).
        rewrite Hsh in Hne. lia. }
      assert (Hv' : 2 ^ (i + 1) <= v).
      { rewrite Hpow. pose proof (Z.mul_div_le v (2 ^ i) Hpos). nia. }
      destruct (IH (i + 1)) as (n & Hn & Hr & Hb); [lia|lia|lia|].
      exists n. split; [exact Hn|]. split; [lia|exact Hb].
Qed.

(** X1. [get_n_bits] on a [u32]: 1 for 0; for a value of 2 or more the
    number of bits of the value (the [n] with 2^(n-1) <= v < 2^n); for the
    value 1 no iteration of the loop matches and the [BUG()] after the
    loop is reached. *)
Theorem get_n_bits_spec (v : Z) :
  0 <= v < 2 ^ 32 ->
  (v = 0 -> get_n_bits v = Some 1) /\
  (v = 1 -> get_n_bits v = None) /\
  (2 <= v -> exists n, get_n_bits v = Some n /\ 2 <= n <= 32 /\
                       2 ^ (n - 1) <= v < 2 ^ n).
Proof.
  intros Hv. split; [intros ->; reflexivity|]. split; [intros ->; reflexivity|].
  intros H2. unfold get_n_bits.
  destruct (Z.eqb_spec v 0) as [H0|_]; [lia|].
  destruct (@get_n_bits_loop_spec v 31 1) as (n & Hn & Hr & Hb);
    [lia|reflexivity|change (2 ^ 1) with 2; lia|].
  exists n. split; [exact Hn|]. split; [lia|exact Hb].
Qed.

(** *** Counting and emptiness *)

Lemma skipn_cons_nth (A : Type) (d : A) :
  forall (i : nat) (l : list A) (h : A) (r : list A),
    skipn i l = h :: r -> nth i l d = h /\ skipn (S i) l = r.
Proof.
  induction i as [|i IH]; intros [|a l] h r H; simpl in *; try discriminate.
  - injection H as <- <-. auto.
  - apply IH. exact H.
Qed.

Lemma n_items_loop_count (t : hash_tbl) :
  forall (fuel i : nat) (n : Z),
    fuel = length (skipn i (bucket t)) ->
    n_items_loop fuel t i n =
    n + Z.of_nat (length (concat (skipn i (bucket t)))).
Proof.
  induction fuel as [|k IH]; intros i n Hf.
  - destruct (skipn i (bucket t)); [simpl; lia|discriminate].
  - destruct (skipn i (bucket t)) as [|h r] eqn:Hs; [discriminate|].
    destruct (skipn_cons_nth [] _ _ Hs) as [Hn Hr].
    cbn [n_items_loop]. rewrite Hn, IH by (rewrite Hr; simpl in Hf; lia).
    rewrite Hr. simpl. rewrite length_app. lia.
Qed.

(** On a table whose bucket array has [bucket_size] entries
    [hashtbl_n_items] counts the cells of the table. *)
Lemma n_items_all_cells (t : hash_tbl) :
  Z.of_nat (length (bucket t)) = bucket_size t ->
  hashtbl_n_items t = Z.of_nat (length (all_cells t)).
Proof.
  intros Hl. unfold hashtbl_n_items, all_cells.
  rewrite (@n_items_loop_count t _ O 0); simpl; lia.
Qed.

Lemma is_empty_loop_spec (t : hash_tbl) :
  forall (fuel i : nat),
    fuel = length (skipn i (bucket t)) ->
    (is_empty_loop fuel t i = 1 /\ concat (skipn i (bucket t)) = []) \/
    (is_empty_loop fuel t i = 0 /\ concat (skipn i (bucket t)) <> []).
Proof.
  induction fuel as [|k IH]; intros i Hf.
  - destruct (skipn i (bucket t)); [left; auto|discriminate].
  - destruct (skipn i (bucket t)) as [|h r] eqn:Hs; [discriminate|].
    destruct (skipn_cons_nth [] _ _ Hs) as [Hn Hr].
    cbn [is_empty_loop]. rewrite Hn.
    destruct h as [|c h]; cbn [hlist_empty negb].
    + destruct (IH (S i)) as [[H1 H2]|[H1 H2]];
        [rewrite Hr; simpl in Hf; lia| |]; rewrite Hr in H2; simpl; auto.
    + right. split; [reflexivity|]. simpl. discriminate.
Qed.

Lemma is_empty_all_cells (t : hash_tbl) :
  Z.of_nat (length (bucket t)) = bucket_size t ->
  (hashtbl_is_empty t = 1 /\ all_cells t = []) \/
  (hashtbl_is_empty t = 0 /\ all_cells t <> []).
Proof.
  intros Hl. unfold hashtbl_is_empty, all_cells.
  apply (@is_empty_loop_spec t _ O). simpl. lia.
Qed.

(** X2. On a table whose bucket array has [bucket_size] entries
    [hashtbl_n_items] is the number of cells of the table, and
    [hashtbl_is_empty] returns 1 when that number is 0 and 0 otherwise. *)
Theorem hashtbl_is_empty_n_items (t : hash_tbl) :
  Z.of_nat (length (bucket t)) = bucket_size t ->
  hashtbl_n_items t = Z.of_nat (length (all_cells t)) /\
  (hashtbl_n_items t = 0 -> hashtbl_is_empty t = 1) /\
  (hashtbl_n_items t <> 0 -> hashtbl_is_empty t = 0).
Proof.
  intros Hl. rewrite (n_items_all_cells t Hl).
  split; [reflexivity|].
  destruct (is_empty_all_cells t Hl) as [[H1 H2]|[H1 H2]]; rewrite H1.
  - split; [reflexivity|]. rewrite H2. simpl. lia.
  - split; [|reflexivity]. intros H0. exfalso. apply H2.
    destruct (all_cells t); [reflexivity|simpl in H0; lia].
Qed.

(** *** Lookup, deletion and emptying *)

Lemma bucket_update_length (i : nat) (g : list hash_cell -> list hash_cell)
      (b : list (list hash_cell)) :
  length (bucket_update i g b) = length b.
Proof.
  revert i; induction b as [|h t IH]; intros [|j]; simpl; auto.
Qed.

Lemma bucket_update_same (i : nat) (g : list hash_cell -> list hash_cell)
      (b : list (list hash_cell)) :
  (i < length b)%nat ->
  nth i (bucket_update i g b) [] = g (nth i b []).
Proof.
  revert i; induction b as [|h t IH]; intros [|j] Hlt; simpl in *; try lia; auto.
  apply IH; lia.
Qed.

Lemma bucket_update_other (i j : nat) (g : list hash_cell -> list hash_cell)
      (b : list (list hash_cell)) :
  i <> j -> nth j (bucket_update i g b) [] = nth j b [].
Proof.
  revert i j; induction b as [|h t IH]; intros [|i] [|j] Hne; simpl; auto;
    try congruence.
Qed.

Lemma bucket_update_add_head (i : nat) (g : list hash_cell -> list hash_cell)
      (c : hash_cell) (b : list (list hash_cell)) :
  (forall h, g (c :: h) = h) ->
  bucket_update i g (bucket_add_head i c b) = b.
Proof.
  intros Hg. revert i; induction b as [|h t IH]; intros [|j]; simpl; auto.
  - now rewrite Hg.
  - now rewrite IH.
Qed.

Lemma bucket_update_count (i : nat) (g : list hash_cell -> list hash_cell)
      (b : list (list hash_cell)) :
  (i < length b)%nat ->
  Z.of_nat (length (concat (bucket_update i g b))) =
  Z.of_nat (length (concat b)) - Z.of_nat (length (nth i b []))
  + Z.of_nat (length (g (nth i b []))).
Proof.
  revert i; induction b as [|h t IH]; intros [|j] Hlt; simpl in *; try lia.
  - rewrite !length_app. lia.
  - rewrite !length_app, !Nat2Z.inj_add, IH by lia. lia.
Qed.

Lemma bucket_add_head_count (i : nat) (c : hash_cell) (b : list (list hash_cell)) :
  (i < length b)%nat ->
  length (concat (bucket_add_head i c b)) = S (length (concat b)).
Proof.
  revert i; induction b as [|h t IH]; intros [|j] Hlt; simpl in *; try lia.
  rewrite !length_app, IH by lia. lia.
Qed.

Lemma hlist_del_first_in (f : hash_cell -> bool) (l : list hash_cell) (c : hash_cell) :
  In c (hlist_del_first f l) -> In c l.
Proof.
  induction l as [|a l IH]; simpl; [auto|].
  destruct (f a); simpl; intuition.
Qed.

Lemma hlist_del_first_length (f : hash_cell -> bool) (l : list hash_cell) :
  find f l <> None -> S (length (hlist_del_first f l)) = length l.
Proof.
  induction l as [|a l IH]; simpl; [congruence|].
  destruct (f a); simpl; [reflexivity|]. intros H. now rewrite IH.
Qed.

Lemma hlist_del_first_nodup (A : Type) (kf : hash_cell -> A)
      (f : hash_cell -> bool) (l : list hash_cell) :
  NoDup (map kf l) -> NoDup (map kf (hlist_del_first f l)).
Proof.
  induction l as [|a l IH]; simpl; [auto|]. intros Hn.
  inversion Hn as [|? ? Hni Hnd]; subst.
  destruct (f a); simpl; [exact Hnd|]. constructor; [|auto].
  intros Hin. apply Hni. apply in_map_iff in Hin.
  destruct Hin as (x & Hx & Hin). apply in_map_iff. exists x.
  split; [exact Hx|]. eapply hlist_del_first_in; eassumption.
Qed.

(** Once the first cell that passes [f] is unlinked no cell of the
    bucket passes [f], when all cells that pass [f] carry one key and
    keys are unique. *)
Lemma hlist_del_first_gone (A : Type) (kf : hash_cell -> A) (ky : A)
      (f : hash_cell -> bool) (l : list hash_cell) :
  NoDup (map kf l) ->
  (forall c, In c l -> f c = true -> kf c = ky) ->
  find f (hlist_del_first f l) = None.
Proof.
  induction l as [|a l IH]; simpl; [auto|]. intros Hn Hk.
  inversion Hn as [|? ? Hni Hnd]; subst.
  destruct (f a) eqn:Hfa.
  - destruct (find f l) as [c|] eqn:Hf; [|reflexivity]. exfalso.
    apply find_some in Hf. destruct Hf as [Hin Hfc].
    apply Hni. rewrite (Hk a (or_introl eq_refl) Hfa).
    rewrite <- (Hk c (or_intror Hin) Hfc). apply in_map. exact Hin.
  - simpl. rewrite Hfa. apply IH; [exact Hnd|]. intros c Hin. apply Hk. now right.
Qed.

(** Unlinking the first cell that passes [f] does not change what a
    search with a test [f'] finds, when no cell passes both. *)
Lemma hlist_del_first_other (f f' : hash_cell -> bool) (l : list hash_cell) :
  (forall c, In c l -> f c = true -> f' c = false) ->
  find f' (hlist_del_first f l) = find f' l.
Proof.
  induction l as [|a l IH]; simpl; [auto|]. intros Hx.
  destruct (f a) eqn:Hfa.
  - now rewrite (Hx a (or_introl eq_refl) Hfa).
  - simpl. destruct (f' a); [reflexivity|]. apply IH. intros c Hin. apply Hx. now right.
Qed.

Lemma keys_differ (htbl : hash_tbl) (k k' : list byte) (ksize ksize' : Z)
      (c : hash_cell) :
  Z.of_nat (length (key c)) <= key_size c ->
  ksize' <> ksize \/
  firstn (Z.to_nat ksize') k' <> firstn (Z.to_nat ksize) k ->
  cell_matches k ksize c = true -> cell_matches k' ksize' c = false.
Proof.
  intros Hlen Hd Hm. apply (cell_matches_spec htbl) in Hm; [|exact Hlen].
  destruct Hm as [Hs Hk].
  destruct (cell_matches k' ksize' c) eqn:Hm'; [|reflexivity]. exfalso.
  apply (cell_matches_spec htbl) in Hm'; [|exact Hlen].
  destruct Hm' as [Hs' Hk']. destruct Hd as [Hd|Hd]; [congruence|].
  apply Hd. congruence.
Qed.

Lemma tbl_eta (t : hash_tbl) :
  mk_hash_tbl (bucket_size t) (n_bits t) (bucket t) = t.
Proof. destruct t; reflexivity. Qed.

(** X3. On a well-formed table [hashtbl_lookup] returns the value of the
    entry with an equal key (same size, same bytes) when there is one,
    and that value is never [HASHTBL_INVALID_VAL]; when there is none it
    returns [HASHTBL_INVALID_VAL]. *)
Theorem hashtbl_lookup_spec (t : hash_tbl) (k : list byte) (ksize : Z) :
  ok t ->
  (has_equal_key t k ksize ->
   hashtbl_lookup hash_32 HASHTBL_INVALID_VAL t k ksize <> HASHTBL_INVALID_VAL /\
   exists c, In c (all_cells t) /\ key_size c = ksize /\
             key c = firstn (Z.to_nat ksize) k /\
             hashtbl_lookup hash_32 HASHTBL_INVALID_VAL t k ksize = val c) /\
  (~ has_equal_key t k ksize ->
   hashtbl_lookup hash_32 HASHTBL_INVALID_VAL t k ksize = HASHTBL_INVALID_VAL).
Proof.
  intros Hok. unfold hashtbl_lookup. split.
  - intros Hk. apply (lookup_cell_found k ksize Hok) in Hk.
    destruct Hk as (c & Hc). rewrite Hc. simpl.
    unfold hashtbl_lookup_cell in Hc. apply find_some in Hc.
    destruct Hc as [Hin Hm].
    destruct (ok_cells Hok _ _ Hin) as (_ & Hlen & Hv & _).
    apply (cell_matches_spec t) in Hm; [|exact Hlen]. destruct Hm as [Hs Hkey].
    split; [exact Hv|]. exists c. repeat split; auto.
    apply in_all_cells. eauto.
  - intros Hk. apply (lookup_cell_none k ksize Hok) in Hk. now rewrite Hk.
Qed.

(** X4. [hashtbl_add] of a key, whatever it returns, leaves the result
    of [hashtbl_lookup] for every other key (another size, or other bytes)
    as it was. *)
Theorem hashtbl_add_other_key (t : hash_tbl) (kb : list byte) (ksize v : Z)
        (mem : kmalloc_result) (k' : list byte) (ksize' : Z) :
  ok t ->
  ksize' <> ksize \/
  firstn (Z.to_nat ksize') k' <> firstn (Z.to_nat ksize) kb ->
  hashtbl_lookup hash_32 HASHTBL_INVALID_VAL
    (snd (hashtbl_add hash_32 HASHTBL_INVALID_VAL t (Some kb) ksize v mem))
    k' ksize' =
  hashtbl_lookup hash_32 HASHTBL_INVALID_VAL t k' ksize'.
Proof.
  intros Hok Hd.
  destruct (add_result t (Some kb) ksize v mem)
    as [(_ & -> & _)|[(kb0 & c & _ & _ & _ & _ & _ & ->)|
        [(kb0 & _ & _ & _ & _ & _ & _ & ->)|
         (kb0 & Hk & Hks & Hv & Hl & _ & _ & _ & ->)]]]; auto.
  injection Hk as <-.
  unfold hashtbl_lookup, hashtbl_lookup_cell, hashtbl_get_index. cbn [bucket n_bits].
  destruct (Nat.eq_dec (Z.to_nat (hash_32 (get_sum kb ksize) (n_bits t)))
                       (Z.to_nat (hash_32 (get_sum k' ksize') (n_bits t))))
    as [He|Hne].
  - rewrite <- He.
    rewrite bucket_add_head_same by (apply (index_in_range kb ksize Hok)).
    cbn [find].
    replace (cell_matches k' ksize'
               (mk_hash_cell (firstn (Z.to_nat ksize) kb) ksize v)) with false;
      [reflexivity|].
    symmetry. apply (@keys_differ t kb k' ksize ksize'); [| exact Hd |].
    + cbn [key key_size]. rewrite length_firstn. lia.
    + apply (cell_matches_spec t); cbn [key key_size].
      * rewrite length_firstn. lia.
      * auto.
  - rewrite bucket_add_head_other by assumption. reflexivity.
Qed.

(** X5. Round trip: after a [hashtbl_add] that returned 0, [hashtbl_del]
    of the same key returns the value that was added and leaves the
    table exactly as it was before the add. *)
Theorem hashtbl_add_del (t : hash_tbl) (kb : list byte) (ksize v : Z)
        (mem : kmalloc_result) :
  ok t ->
  fst (hashtbl_add hash_32 HASHTBL_INVALID_VAL t (Some kb) ksize v mem) = 0 ->
  hashtbl_del hash_32 HASHTBL_INVALID_VAL
    (snd (hashtbl_add hash_32 HASHTBL_INVALID_VAL t (Some kb) ksize v mem))
    kb ksize = (v, t).
Proof.
  intros Hok H0.
  destruct (add_result t (Some kb) ksize v mem)
    as [(Hr & _)|[(kb0 & c & _ & _ & _ & _ & Hr & _)|
        [(kb0 & _ & _ & _ & _ & _ & Hr & _)|
         (kb0 & Hk & Hks & Hv & Hl & _ & _ & _ & Hs)]]];
    try (rewrite Hr in H0; unfold EINVAL, EPERM, ENOMEM in H0; lia).
  injection Hk as <-. rewrite Hs.
  assert (Hm : cell_matches kb ksize
                 (mk_hash_cell (firstn (Z.to_nat ksize) kb) ksize v) = true).
  { apply (cell_matches_spec t); cbn [key key_size]; [|auto].
    rewrite length_firstn. lia. }
  unfold hashtbl_del, hashtbl_lookup_cell, hashtbl_get_index.
  cbn [bucket n_bits bucket_size].
  rewrite bucket_add_head_same by (apply (index_in_range kb ksize Hok)).
  cbn [find]. rewrite Hm. cbn [get_hash_cell_val val].
  rewrite bucket_update_add_head.
  - now rewrite tbl_eta.
  - intros h. cbn [hlist_del_first]. now rewrite Hm.
Qed.

Lemma del_result (t : hash_tbl) (k : list byte) (ksize : Z) :
  (lookup_cell t k ksize = None /\
   hashtbl_del hash_32 HASHTBL_INVALID_VAL t k ksize = (HASHTBL_INVALID_VAL, t)) \/
  (exists c, lookup_cell t k ksize = Some c /\
     hashtbl_del hash_32 HASHTBL_INVALID_VAL t k ksize =
     (val c,
      mk_hash_tbl (bucket_size t) (n_bits t)
        (bucket_update (Z.to_nat (get_index t k ksize))
           (hlist_del_first (cell_matches k ksize)) (bucket t)))).
Proof.
  unfold hashtbl_del. destruct (lookup_cell t k ksize) as [c|] eqn:Hl.
  - right. exists c. auto.
  - left. auto.
Qed.

Lemma matching_key (t : hash_tbl) (k : list byte) (ksize : Z) (i : nat) :
  ok t ->
  forall c, In c (nth i (bucket t) []) -> cell_matches k ksize c = true ->
            (key_size c, key c) = (ksize, firstn (Z.to_nat ksize) k).
Proof.
  intros Hok c Hin Hm.
  destruct (ok_cells Hok _ _ Hin) as (_ & Hlen & _).
  apply (cell_matches_spec t) in Hm; [|exact Hlen]. destruct Hm as [-> ->].
  reflexivity.
Qed.

(** Unlinking a cell keeps the table well formed and its keys unique. *)
Lemma del_keeps (t : hash_tbl) (i : nat) (f : hash_cell -> bool) :
  ok t -> keys_unique t ->
  let t' := mk_hash_tbl (bucket_size t) (n_bits t)
              (bucket_update i (hlist_del_first f) (bucket t)) in
  ok t' /\ keys_unique t'.
Proof.
  intros Hok Hu t'.
  assert (Hsub : forall j c, In c (nth j (bucket t') []) -> In c (nth j (bucket t) [])).
  { intros j c. unfold t'. cbn [bucket].
    destruct (Nat.eq_dec i j) as [<-|Hne].
    - destruct (Nat.lt_ge_cases i (length (bucket t))) as [Hlt|Hge].
      + rewrite bucket_update_same by assumption. apply hlist_del_first_in.
      + rewrite nth_overflow by (rewrite bucket_update_length; assumption).
        intros [].
    - now rewrite bucket_update_other by assumption. }
  split.
  - constructor.
    + apply (ok_struct Hok).
    + unfold t'. cbn [bucket bucket_size]. rewrite bucket_update_length.
      apply (ok_len Hok).
    + intros k ks. apply (ok_index Hok k ks).
    + intros j c Hin. apply (ok_cells Hok j c). apply Hsub. exact Hin.
  - intros j. unfold t'. cbn [bucket].
    destruct (Nat.eq_dec i j) as [<-|Hne].
    + destruct (Nat.lt_ge_cases i (length (bucket t))) as [Hlt|Hge].
      * rewrite bucket_update_same by assumption.
        apply hlist_del_first_nodup. apply Hu.
      * rewrite nth_overflow by (rewrite bucket_update_length; assumption).
        constructor.
    + rewrite bucket_update_other by assumption. apply Hu.
Qed.

(** X6. [hashtbl_del] on a well-formed table with unique keys returns
    what [hashtbl_lookup] returns for the key; when that is
    [HASHTBL_INVALID_VAL] the table is unchanged; afterwards the key is
    not found any more, every other key is found as before, the table
    is still well formed with unique keys, and it holds one cell less
    when a cell was found. *)
Theorem hashtbl_del_spec (t : hash_tbl) (k : list byte) (ksize : Z) :
  ok t -> keys_unique t ->
  let r := hashtbl_del hash_32 HASHTBL_INVALID_VAL t k ksize in
  fst r = hashtbl_lookup hash_32 HASHTBL_INVALID_VAL t k ksize /\
  (fst r = HASHTBL_INVALID_VAL -> snd r = t) /\
  hashtbl_lookup hash_32 HASHTBL_INVALID_VAL (snd r) k ksize = HASHTBL_INVALID_VAL /\
  (forall k' ksize',
     ksize' <> ksize \/
     firstn (Z.to_nat ksize') k' <> firstn (Z.to_nat ksize) k ->
     hashtbl_lookup hash_32 HASHTBL_INVALID_VAL (snd r) k' ksize' =
     hashtbl_lookup hash_32 HASHTBL_INVALID_VAL t k' ksize') /\
  ok (snd r) /\ keys_unique (snd r) /\
  (fst r <> HASHTBL_INVALID_VAL ->
   hashtbl_n_items (snd r) = hashtbl_n_items t - 1).
Proof.
  intros Hok Hu r. subst r.
  destruct (del_result t k ksize) as [[Hl ->]|(c & Hl & ->)]; cbn [fst snd].
  - unfold hashtbl_lookup. rewrite Hl. cbn [get_hash_cell_val].
    split; [reflexivity|]. split; [reflexivity|]. split; [reflexivity|].
    split; [reflexivity|]. split; [exact Hok|]. split; [exact Hu|].
    intros Hx. contradiction.
  - pose proof Hl as Hfind. unfold hashtbl_lookup_cell in Hfind.
    pose proof (find_some _ _ Hfind) as [Hin Hm].
    destruct (ok_cells Hok _ _ Hin) as (_ & Hlen & Hv & _).
    pose proof (index_in_range k ksize Hok) as Hrange.
    destruct (@del_keeps t (Z.to_nat (get_index t k ksize))
                (cell_matches k ksize) Hok Hu) as [Hok' Hu'].
    split; [unfold hashtbl_lookup; now rewrite Hl|].
    split; [intros Hx; contradiction|].
    split.
    { unfold hashtbl_lookup, hashtbl_lookup_cell, hashtbl_get_index.
      cbn [bucket n_bits].
      change (hash_32 (get_sum k ksize) (n_bits t)) with (get_index t k ksize).
      rewrite bucket_update_same by assumption.
      rewrite (@hlist_del_first_gone _ (fun c => (key_size c, key c))
                 (ksize, firstn (Z.to_nat ksize) k)).
      - reflexivity.
      - exact (Hu _).
      - intros c0 Hin0 Hm0. exact (@matching_key t k ksize _ Hok c0 Hin0 Hm0). }
    split.
    { intros k' ksize' Hd.
      unfold hashtbl_lookup, hashtbl_lookup_cell, hashtbl_get_index.
      cbn [bucket n_bits].
      change (hash_32 (get_sum k ksize) (n_bits t)) with (get_index t k ksize).
      change (hash_32 (get_sum k' ksize') (n_bits t)) with (get_index t k' ksize').
      destruct (Nat.eq_dec (Z.to_nat (get_index t k ksize))
                           (Z.to_nat (get_index t k' ksize'))) as [He|Hne].
      - rewrite <- He. rewrite bucket_update_same by assumption.
        rewrite hlist_del_first_other; [reflexivity|].
        intros c0 Hin0 Hm0.
        destruct (ok_cells Hok _ _ Hin0) as (_ & Hlen0 & _).
        eapply (@keys_differ t k k' ksize ksize'); eassumption.
      - now rewrite bucket_update_other by assumption. }
    split; [exact Hok'|]. split; [exact Hu'|].
    intros _.
    rewrite (n_items_all_cells _ (ok_len Hok')), (n_items_all_cells _ (ok_len Hok)).
    unfold all_cells. cbn [bucket].
    rewrite bucket_update_count by assumption.
    assert (Hne : find (cell_matches k ksize)
                       (nth (Z.to_nat (get_index t k ksize)) (bucket t) []) <> None)
      by (rewrite Hfind; discriminate).
    pose proof (hlist_del_first_length _ _ Hne). lia.
Qed.

(** X7. [hashtbl_add] keeps the keys of a well-formed table unique; the
    table holds one cell more after a return of 0 and as many as before
    after any other return. *)
Theorem hashtbl_add_unique (t : hash_tbl) (k : option (list byte)) (ksize v : Z)
        (mem : kmalloc_result) :
  ok t -> keys_unique t ->
  let r := hashtbl_add hash_32 HASHTBL_INVALID_VAL t k ksize v mem in
  keys_unique (snd r) /\
  (fst r = 0 -> hashtbl_n_items (snd r) = hashtbl_n_items t + 1) /\
  (fst r <> 0 -> hashtbl_n_items (snd r) = hashtbl_n_items t).
Proof.
  intros Hok Hu r.
  pose proof (hashtbl_add_ok k ksize v mem Hok) as Hok'. fold r in Hok'.
  destruct (add_result t k ksize v mem)
    as [(Hr & Hs & _)|[(kb & c & _ & _ & _ & _ & Hr & Hs)|
        [(kb & _ & _ & _ & _ & _ & Hr & Hs)|
         (kb & Hk & Hks & Hv & Hl & _ & _ & Hr & Hs)]]];
    fold r in Hr, Hs;
    try (rewrite Hs; split; [exact Hu|]; split; [|reflexivity];
         rewrite Hr; unfold EINVAL, EPERM, ENOMEM; lia).
  pose proof (index_in_range kb ksize Hok) as Hrange.
  split; [|split].
  - rewrite Hs. intros j. cbn [bucket].
    destruct (Nat.eq_dec (Z.to_nat (get_index t kb ksize)) j) as [<-|Hne].
    + rewrite bucket_add_head_same by assumption. cbn [map key key_size].
      constructor; [|apply Hu].
      intros Hin. apply in_map_iff in Hin. destruct Hin as (c & Hc & Hin).
      injection Hc as Hc1 Hc2.
      unfold hashtbl_lookup_cell in Hl.
      apply (find_none _ _ Hl) in Hin.
      assert (Hm : cell_matches kb ksize c = true).
      { unfold cell_matches. rewrite Hc1, Z.eqb_refl, Hc2, firstn_firstn, Nat.min_id.
        cbn [andb]. now apply list_eqb_byte_true. }
      congruence.
    + rewrite bucket_add_head_other by assumption. apply Hu.
  - intros _.
    rewrite (n_items_all_cells _ (ok_len Hok')), (n_items_all_cells _ (ok_len Hok)).
    rewrite Hs. unfold all_cells. cbn [bucket].
    rewrite bucket_add_head_count by assumption. lia.
  - rewrite Hr. intros Hx. contradiction.
Qed.

Lemma empty_buckets_all (b : list (list hash_cell)) :
  forall n, (length b <= n)%nat -> empty_buckets n b = repeat [] (length b).
Proof.
  induction b as [|h t IH]; intros [|n] Hn; simpl in *; try lia; auto.
  rewrite IH by lia. reflexivity.
Qed.

Lemma nth_repeat_nil (n i : nat) :
  nth i (repeat (@nil hash_cell) n) [] = [].
Proof.
  revert i; induction n as [|n IH]; intros [|i]; simpl; auto.
Qed.

Lemma concat_repeat_nil (n : nat) : concat (repeat (@nil hash_cell) n) = [].
Proof. induction n; simpl; auto. Qed.

(** A table all of whose buckets are empty. *)
Lemma empty_table_facts (t : hash_tbl) (n : nat) :
  bucket t = repeat [] n -> Z.of_nat n = bucket_size t ->
  keys_unique t /\ all_cells t = [] /\
  hashtbl_is_empty t = 1 /\ hashtbl_n_items t = 0 /\
  forall k ksize,
    hashtbl_lookup hash_32 HASHTBL_INVALID_VAL t k ksize = HASHTBL_INVALID_VAL.
Proof.
  intros Hb Hn.
  assert (Hl : Z.of_nat (length (bucket t)) = bucket_size t)
    by (rewrite Hb, repeat_length; exact Hn).
  assert (Hc : all_cells t = [])
    by (unfold all_cells; rewrite Hb; apply concat_repeat_nil).
  split; [intros i; rewrite Hb, nth_repeat_nil; constructor|].
  split; [exact Hc|]. split.
  - destruct (is_empty_all_cells t Hl) as [[H1 _]|[_ H2]]; [exact H1|contradiction].
  - split; [rewrite (n_items_all_cells t Hl), Hc; reflexivity|].
    intros k ksize. unfold hashtbl_lookup, hashtbl_lookup_cell.
    rewrite Hb, nth_repeat_nil. reflexivity.
Qed.

(** X8. [hashtbl_empty] on a well-formed table unlinks every cell: the
    table keeps its bucket count and number of bits, is well formed,
    [hashtbl_is_empty] returns 1 and [hashtbl_n_items] 0, no key is
    found, and a second [hashtbl_empty] changes nothing. *)
Theorem hashtbl_empty_spec (t : hash_tbl) :
  ok t ->
  let t' := hashtbl_empty t in
  bucket_size t' = bucket_size t /\ n_bits t' = n_bits t /\
  ok t' /\ keys_unique t' /\
  hashtbl_is_empty t' = 1 /\ hashtbl_n_items t' = 0 /\
  (forall k ksize,
     hashtbl_lookup hash_32 HASHTBL_INVALID_VAL t' k ksize = HASHTBL_INVALID_VAL) /\
  hashtbl_empty t' = t'.
Proof.
  intros Hok t'.
  pose proof (ok_len Hok) as Hl.
  assert (Hb : bucket t' = repeat [] (length (bucket t))).
  { unfold t', hashtbl_empty. cbn [bucket]. apply empty_buckets_all. lia. }
  destruct (@empty_table_facts t' (length (bucket t)) Hb Hl)
    as (E1 & E2 & E3 & E4 & E5).
  split; [reflexivity|]. split; [reflexivity|]. split.
  { constructor.
    - apply (ok_struct Hok).
    - rewrite Hb, repeat_length. exact Hl.
    - intros k ks. apply (ok_index Hok k ks).
    - intros i c. rewrite Hb, nth_repeat_nil. intros []. }
  split; [exact E1|]. split; [exact E3|]. split; [exact E4|]. split; [exact E5|].
  unfold hashtbl_empty at 1. rewrite Hb.
  rewrite empty_buckets_all by (rewrite repeat_length; cbn [bucket_size t' hashtbl_empty]; lia).
  rewrite repeat_length. unfold t', hashtbl_empty. cbn [bucket_size n_bits].
  f_equal. symmetry. rewrite <- Hb. reflexivity.
Qed.


End WithHash.

(** *** Cursor *)

Section Cursor.

Variable HASHTBL_INVALID_VAL : Z.

Lemma search_loop_spec (t : hash_tbl) :
  forall (fuel : nat) (s : Z),
    0 <= s -> s + Z.of_nat fuel = bucket_size t ->
    let idx := search_loop fuel t s in
    s <= idx <= bucket_size t /\
    (forall j, s <= Z.of_nat j < idx -> nth j (bucket t) [] = []) /\
    (idx < bucket_size t -> nth (Z.to_nat idx) (bucket t) [] <> []).
Proof.
  induction fuel as [|k IH]; intros s Hs Hf.
  - simpl. split; [lia|]. split; [intros; lia|lia].
  - cbn [search_loop].
    destruct (nth (Z.to_nat s) (bucket t) []) as [|c h] eqn:Hn; cbn [hlist_empty negb].
    + destruct (IH (s + 1)) as (I1 & I2 & I3); [lia|lia|].
      cbv zeta. split; [lia|]. split; [|exact I3].
      intros j Hj. destruct (Z.eq_dec (Z.of_nat j) s) as [He|Hne].
      * rewrite <- He, Nat2Z.id in Hn. exact Hn.
      * apply I2. lia.
    + cbv zeta. split; [lia|]. split; [intros; lia|].
      intros _. rewrite Hn. discriminate.
Qed.

Lemma search_next_head_index_spec (t : hash_tbl) (s : Z) :
  0 <= s <= bucket_size t ->
  let idx := search_next_head_index t s in
  s <= idx <= bucket_size t /\
  (forall j, s <= Z.of_nat j < idx -> nth j (bucket t) [] = []) /\
  (idx < bucket_size t -> nth (Z.to_nat idx) (bucket t) [] <> []).
Proof.
  intros Hs. unfold search_next_head_index. apply search_loop_spec; lia.
Qed.

Lemma concat_skipn_empty (B : list (list hash_cell)) :
  forall s : nat,
    (forall j, (s <= j)%nat -> (j < length B)%nat -> nth j B [] = []) ->
    concat (skipn s B) = [].
Proof.
  induction B as [|h B IH]; intros s Hs; [now rewrite skipn_nil|].
  destruct s as [|s]; simpl.
  - assert (Hh : h = []) by (apply (Hs O); simpl; lia). subst h. simpl.
    apply (IH O). intros j _ Hj. apply (Hs (S j)); simpl; lia.
  - apply IH. intros j H1 H2. apply (Hs (S j)); simpl; lia.
Qed.

Lemma concat_skipn_next (B : list (list hash_cell)) :
  forall s i : nat,
    (s <= i)%nat -> (i < length B)%nat ->
    (forall j, (s <= j)%nat -> (j < i)%nat -> nth j B [] = []) ->
    concat (skipn s B) = nth i B [] ++ concat (skipn (S i) B).
Proof.
  induction B as [|h B IH]; intros s i Hsi Hi Hs; [simpl in Hi; lia|].
  destruct s as [|s]; destruct i as [|i]; simpl in *; try lia.
  - reflexivity.
  - assert (Hh : h = []) by (apply (Hs O); lia). subst h. simpl.
    apply (IH O i); [lia|lia|]. intros j _ Hj. apply (Hs (S j)); lia.
  - apply (IH s i); [lia|lia|]. intros j H1 H2. apply (Hs (S j)); lia.
Qed.

Lemma hlist_del_node_here (a post : list hash_cell) (y : hash_cell) :
  hlist_del_node (y :: post) (a ++ y :: post) = a ++ post.
Proof.
  unfold hlist_del_node. rewrite length_app. cbn [length tl].
  replace (length a + S (length post) - S (length post))%nat with (length a) by lia.
  rewrite firstn_app, firstn_all, Nat.sub_diag. simpl. now rewrite app_nil_r.
Qed.

(** The cursor arrives at the cell [y]: [hashtbl_cursor_next] has set
    [curr_head], [curr] and [bucket_idx] and goes on to set [next]; the
    caller then deletes the cell or not. *)
Lemma cursor_arrives (del : Z -> bool) (B : list (list hash_cell))
      (c0 : hashtbl_cursor_t) (i : nat) (pre0 post : list hash_cell)
      (y : hash_cell) :
  bucket_size (htbl c0) = Z.of_nat (length B) ->
  length (bucket (htbl c0)) = length B ->
  (i < length B)%nat ->
  nth i B [] = pre0 ++ y :: post ->
  (forall j, (j < i)%nat ->
     nth j (bucket (htbl c0)) [] = filter (cursor_keeps del) (nth j B [])) ->
  nth i (bucket (htbl c0)) [] = filter (cursor_keeps del) pre0 ++ y :: post ->
  (forall j, (i < j)%nat -> nth j (bucket (htbl c0)) [] = nth j B []) ->
  curr c0 = y :: post -> curr_head c0 = Some (Z.of_nat i) ->
  bucket_idx c0 = Z.of_nat i ->
  let c1 := snd (cursor_set_next c0) in
  let c2 := if del (hashtbl_cursor_val HASHTBL_INVALID_VAL c1)
            then snd (hashtbl_cursor_del HASHTBL_INVALID_VAL c1) else c1 in
  fst (cursor_set_next c0) = 1 /\ hd_error (curr c1) = Some y /\
  n_bits (htbl c2) = n_bits (htbl c0) /\
  cursor_at del B c2 i (pre0 ++ [y]) post.
Proof.
  intros Hsz Hlen Hi Hsplit Hbefore Hhere Hafter Hcurr Hhead Hidx.
  (* the cursor after "get and set next" *)
  assert (H1 : fst (cursor_set_next c0) = 1 /\
               htbl (snd (cursor_set_next c0)) = htbl c0 /\
               state (snd (cursor_set_next c0)) = HASHTBL_CURSOR_DATA /\
               curr (snd (cursor_set_next c0)) = y :: post /\
               curr_head (snd (cursor_set_next c0)) = Some (Z.of_nat i) /\
               ((post <> [] /\ next (snd (cursor_set_next c0)) = post /\
                 next_head (snd (cursor_set_next c0)) = Some (Z.of_nat i) /\
                 bucket_idx (snd (cursor_set_next c0)) = Z.of_nat i) \/
                (post = [] /\
                 next_bucket B i (bucket_idx (snd (cursor_set_next c0)))
                             (next_head (snd (cursor_set_next c0)))
                             (next (snd (cursor_set_next c0)))))).
  { unfold cursor_set_next. cbv zeta. rewrite Hcurr. cbn [tl].
    destruct post as [|z post'].
    - destruct (@search_next_head_index_spec (htbl c0) (bucket_idx c0 + 1))
        as (S1 & S2 & S3); [lia|]. cbv zeta in S1, S2, S3.
      set (idx := search_next_head_index (htbl c0) (bucket_idx c0 + 1)) in *.
      assert (Hempty : forall j, (i < j)%nat -> Z.of_nat j < idx -> nth j B [] = []).
      { intros j H1 H2. rewrite <- (Hafter j H1). apply S2. lia. }
      destruct (Z.eqb_spec idx (bucket_size (htbl c0))) as [He|Hne];
        cbn [fst snd htbl state curr curr_head next next_head bucket_idx];
        (split; [reflexivity|]); (split; [reflexivity|]);
        (split; [reflexivity|]); (split; [reflexivity|]);
        (split; [exact Hhead|]); right; (split; [reflexivity|]);
        unfold next_bucket; (split; [lia|]); (split; [exact Hempty|]).
      + left. repeat split; auto. lia.
      + right. split; [lia|].
        assert (Hn : nth (Z.to_nat idx) (bucket (htbl c0)) [] =
                     nth (Z.to_nat idx) B []) by (apply Hafter; lia).
        rewrite Hn. split; [rewrite <- Hn; apply S3; lia|]. auto.
    - cbn [fst snd htbl state curr curr_head next next_head bucket_idx].
      split; [reflexivity|]. split; [reflexivity|]. split; [reflexivity|].
      split; [reflexivity|]. split; [exact Hhead|]. left.
      split; [discriminate|]. auto. }
  destruct H1 as (R1 & R2 & R3 & R4 & R5 & R6).
  cbv zeta. split; [exact R1|]. split; [rewrite R4; reflexivity|].
  set (c1 := snd (cursor_set_next c0)) in *.
  assert (Hval : hashtbl_cursor_val HASHTBL_INVALID_VAL c1 = val y)
    by (unfold hashtbl_cursor_val; rewrite R3, R4; reflexivity).
  rewrite Hval.
  assert (Hfil : filter (cursor_keeps del) (pre0 ++ [y]) =
                 filter (cursor_keeps del) pre0 ++
                 (if del (val y) then [] else [y])).
  { rewrite filter_app. cbn [filter]. unfold cursor_keeps at 2.
    destruct (del (val y)); reflexivity. }
  destruct (del (val y)) eqn:Hd.
  - (* the caller deletes the cell through the cursor *)
    unfold hashtbl_cursor_del. rewrite R3, R5, R4, R2. cbn [snd htbl n_bits].
    split; [reflexivity|].
    assert (Hi' : (i < length (bucket (htbl c0)))%nat) by lia.
    constructor; cbn [htbl state bucket bucket_size next next_head bucket_idx].
    + now right.
    + exact Hsz.
    + rewrite bucket_update_length. exact Hlen.
    + exact Hi.
    + rewrite Hsplit, <- app_assoc. reflexivity.
    + intros j Hj. rewrite Nat2Z.id, bucket_update_other by lia. now apply Hbefore.
    + rewrite Nat2Z.id, bucket_update_same by assumption.
      rewrite Hhere, hlist_del_node_here, Hfil, app_nil_r. reflexivity.
    + intros j Hj. rewrite Nat2Z.id, bucket_update_other by lia. now apply Hafter.
    + exact R6.
  - split; [now rewrite R2|].
    constructor; rewrite ?R2.
    + now left.
    + exact Hsz.
    + exact Hlen.
    + exact Hi.
    + rewrite Hsplit, <- app_assoc. reflexivity.
    + exact Hbefore.
    + rewrite Hhere, Hfil, <- app_assoc. reflexivity.
    + exact Hafter.
    + exact R6.
Qed.

Lemma nth_map_filter (f : hash_cell -> bool) (B : list (list hash_cell)) (j : nat) :
  nth j (map (filter f) B) [] = filter f (nth j B []).
Proof. exact (map_nth (filter f) B [] j). Qed.

(** When the loop has gone through the last cell the table holds what
    was kept of every bucket. *)
Lemma cursor_at_end (del : Z -> bool) (B : list (list hash_cell))
      (c : hashtbl_cursor_t) (i : nat) (pre : list hash_cell) :
  cursor_at del B c i pre [] ->
  (forall j, (i < j)%nat -> (j < length B)%nat -> nth j B [] = []) ->
  bucket (htbl c) = map (filter (cursor_keeps del)) B.
Proof.
  intros Hat Hempty.
  apply (nth_ext _ _ [] []); [rewrite length_map; apply (at_len Hat)|].
  intros j Hj. rewrite (at_len Hat) in Hj. rewrite nth_map_filter.
  destruct (Nat.lt_trichotomy j i) as [Hlt|[->|Hgt]].
  - now apply (at_before Hat).
  - rewrite (at_here Hat), (at_split Hat), !app_nil_r. reflexivity.
  - rewrite (at_after Hat) by assumption. rewrite (Hempty j Hgt Hj). reflexivity.
Qed.

Lemma cursor_next_in_data (c : hashtbl_cursor_t) :
  state c = HASHTBL_CURSOR_DATA \/ state c = HASHTBL_CURSOR_DELETED ->
  hashtbl_cursor_next c =
  match next c with
  | [] => cursor_end c
  | _ :: _ =>
    cursor_set_next
      (mk_cursor (htbl c) (state c) (bucket_idx c) (next_head c) (next c)
                 (next_head c) (next c))
  end.
Proof. unfold hashtbl_cursor_next. intros [-> | ->]; reflexivity. Qed.

(** One round of the loop that arrives at a cell. *)
Lemma cursor_loop_step (del : Z -> bool) (k : nat) (c c0 : hashtbl_cursor_t)
      (y : hash_cell) :
  hashtbl_cursor_next c = cursor_set_next c0 ->
  fst (cursor_set_next c0) = 1 ->
  hd_error (curr (snd (cursor_set_next c0))) = Some y ->
  let c1 := snd (cursor_set_next c0) in
  let c2 := if del (hashtbl_cursor_val HASHTBL_INVALID_VAL c1)
            then snd (hashtbl_cursor_del HASHTBL_INVALID_VAL c1) else c1 in
  cursor_loop HASHTBL_INVALID_VAL (S k) del c =
  (y :: fst (cursor_loop HASHTBL_INVALID_VAL k del c2),
   snd (cursor_loop HASHTBL_INVALID_VAL k del c2)).
Proof.
  intros Hn H1 Hy. cbn [cursor_loop]. rewrite Hn.
  destruct (cursor_set_next c0) as [ret c1]. cbn [fst snd] in *. subst ret.
  cbn [Z.eqb]. rewrite Hy.
  destruct (cursor_loop HASHTBL_INVALID_VAL k del _) as [rest c3]. reflexivity.
Qed.

Lemma cursor_loop_from (del : Z -> bool) (B : list (list hash_cell)) :
  forall (fuel : nat) (c : hashtbl_cursor_t) (i : nat) (pre post : list hash_cell),
    cursor_at del B c i pre post ->
    (length (post ++ concat (skipn (S i) B)) < fuel)%nat ->
    let r := cursor_loop HASHTBL_INVALID_VAL fuel del c in
    fst r = post ++ concat (skipn (S i) B) /\
    state (snd r) = HASHTBL_CURSOR_END /\
    bucket (htbl (snd r)) = map (filter (cursor_keeps del)) B /\
    bucket_size (htbl (snd r)) = Z.of_nat (length B) /\
    n_bits (htbl (snd r)) = n_bits (htbl c).
Proof.
  induction fuel as [|k IH]; intros c i pre post Hat Hfuel; [lia|].
  pose proof (cursor_next_in_data c (at_state Hat)) as Hnext.
  destruct (at_next Hat) as [(Hp & Hn & Hh & Hb)|(Hp & Hr & Hempty & Hcase)].
  - (* the next cell is in the same bucket *)
    destruct post as [|y post']; [contradiction|].
    rewrite Hn in Hnext.
    set (c0 := mk_cursor (htbl c) (state c) (bucket_idx c) (next_head c)
                         (y :: post') (next_head c) (y :: post')) in *.
    destruct (@cursor_arrives del B c0 i pre post' y)
      as (A1 & A2 & A3 & A4); unfold c0; cbn [htbl curr curr_head bucket_idx];
      try assumption; try reflexivity;
      [apply (at_size Hat)|apply (at_len Hat)|apply (at_i Hat)|apply (at_split Hat)
      |apply (at_before Hat)|apply (at_here Hat)|apply (at_after Hat)|].
    fold c0 in A1, A2, A3, A4.
    cbv zeta. rewrite (@cursor_loop_step del k c c0 y Hnext A1 A2). cbn [fst snd].
    cbn [app length] in Hfuel.
    destruct (IH _ i (pre ++ [y]) post' A4) as (I1 & I2 & I3 & I4 & I5); [lia|].
    cbv zeta in I1, I2, I3, I4, I5.
    rewrite I1. split; [reflexivity|]. split; [exact I2|]. split; [exact I3|].
    split; [exact I4|]. rewrite I5. exact A3.
  - subst post. cbn [app] in Hfuel |- *.
    destruct Hcase as [(He & Hnx & Hnh)|(Hlt & Hne & Hnx & Hnh)].
    + (* no cell is left *)
      rewrite Hnx in Hnext. cbv zeta. cbn [cursor_loop]. rewrite Hnext.
      cbn [cursor_end Z.eqb fst snd htbl state].
      assert (Hall : forall j, (i < j)%nat -> (j < length B)%nat -> nth j B [] = [])
        by (intros j H1 H2; apply Hempty; lia).
      split; [symmetry; apply concat_skipn_empty; intros j H1 H2; apply Hall; lia|].
      split; [reflexivity|]. split; [apply (cursor_at_end Hat Hall)|].
      split; [apply (at_size Hat)|reflexivity].
    + (* the next cell heads a later bucket *)
      destruct (next c) as [|y post'] eqn:Hnc; [contradiction|].
      set (i' := Z.to_nat (bucket_idx c)).
      assert (Hi' : (i < i')%nat /\ (i' < length B)%nat) by (unfold i'; lia).
      assert (Hbi : bucket_idx c = Z.of_nat i') by (unfold i'; lia).
      fold i' in Hnx.
      set (c0 := mk_cursor (htbl c) (state c) (bucket_idx c) (next_head c)
                           (y :: post') (next_head c) (y :: post')) in *.
      destruct (@cursor_arrives del B c0 i' [] post' y)
        as (A1 & A2 & A3 & A4); unfold c0; cbn [htbl curr curr_head bucket_idx];
        try reflexivity;
        [apply (at_size Hat)|apply (at_len Hat)|tauto|now rewrite <- Hnx
        | | | |rewrite Hnh; f_equal; exact Hbi|exact Hbi|].
      * intros j Hj. destruct (Nat.lt_trichotomy j i) as [H1|[->|H1]].
        -- now apply (at_before Hat).
        -- rewrite (at_here Hat), (at_split Hat), !app_nil_r. reflexivity.
        -- rewrite (at_after Hat) by assumption.
           rewrite (Hempty j H1) by lia. reflexivity.
      * rewrite (at_after Hat) by tauto. now rewrite <- Hnx.
      * intros j Hj. apply (at_after Hat). lia.
      * fold c0 in A1, A2, A3, A4.
        cbv zeta. rewrite (@cursor_loop_step del k c c0 y Hnext A1 A2).
        cbn [fst snd].
        assert (Hcat : concat (skipn (S i) B) =
                       (y :: post') ++ concat (skipn (S i') B)).
        { rewrite Hnx. apply concat_skipn_next; [lia|tauto|].
          intros j H1 H2. apply Hempty; lia. }
        rewrite Hcat in Hfuel |- *. cbn [app length] in Hfuel.
        destruct (IH _ i' ([] ++ [y]) post' A4) as (I1 & I2 & I3 & I4 & I5); [lia|].
        cbv zeta in I1, I2, I3, I4, I5.
        rewrite I1. split; [reflexivity|]. split; [exact I2|]. split; [exact I3|].
        split; [exact I4|]. rewrite I5. exact A3.
Qed.

Lemma map_filter_empty (f : hash_cell -> bool) (B : list (list hash_cell)) :
  (forall j, (j < length B)%nat -> nth j B [] = []) ->
  map (filter f) B = B.
Proof.
  intros He. apply (nth_ext _ _ [] []); [apply length_map|].
  intros j Hj. rewrite length_map in Hj.
  rewrite nth_map_filter, (He j Hj). reflexivity.
Qed.

(** The loop from [hashtbl_cursor_begin] on. *)
Lemma cursor_loop_result (t : hash_tbl) (del : Z -> bool) (fuel : nat) :
  Z.of_nat (length (bucket t)) = bucket_size t ->
  (length (all_cells t) < fuel)%nat ->
  let r := cursor_loop HASHTBL_INVALID_VAL fuel del
             (hashtbl_cursor_begin (hashtbl_cursor_init t)) in
  fst r = all_cells t /\
  state (snd r) = HASHTBL_CURSOR_END /\
  htbl (snd r) =
  mk_hash_tbl (bucket_size t) (n_bits t)
              (map (filter (cursor_keeps del)) (bucket t)).
Proof.
  intros Hlen Hfuel. destruct fuel as [|k]; [lia|].
  set (c := hashtbl_cursor_begin (hashtbl_cursor_init t)).
  destruct (@search_next_head_index_spec t 0) as (S1 & S2 & S3); [lia|].
  cbv zeta in S1, S2, S3.
  set (idx := search_next_head_index t 0) in *.
  assert (Hnext : hashtbl_cursor_next c =
                  if idx =? bucket_size t then cursor_end c
                  else cursor_set_next
                         (mk_cursor t HASHTBL_CURSOR_BEGIN idx (Some idx)
                                    (nth (Z.to_nat idx) (bucket t) []) None []))
    by reflexivity.
  destruct (Z.eqb_spec idx (bucket_size t)) as [He|Hne].
  - (* every bucket is empty *)
    assert (Hall : forall j, (j < length (bucket t))%nat -> nth j (bucket t) [] = [])
      by (intros j Hj; apply S2; lia).
    cbv zeta. cbn [cursor_loop]. rewrite Hnext.
    cbn [cursor_end Z.eqb fst snd htbl state].
    split; [symmetry; apply (@concat_skipn_empty (bucket t) O); intros j _; apply Hall|].
    split; [reflexivity|].
    rewrite map_filter_empty by exact Hall. symmetry. apply tbl_eta.
  - set (i := Z.to_nat idx).
    assert (Hi : (i < length (bucket t))%nat) by (unfold i; lia).
    assert (Hidx : idx = Z.of_nat i) by (unfold i; lia).
    destruct (nth i (bucket t) []) as [|y post] eqn:Hn;
      [exfalso; apply S3; [lia|exact Hn]|].
    fold i in Hnext. rewrite Hn in Hnext.
    set (c0 := mk_cursor t HASHTBL_CURSOR_BEGIN idx (Some idx) (y :: post) None [])
      in *.
    assert (Hbefore : forall j, (j < i)%nat -> nth j (bucket t) [] = [])
      by (intros j Hj; apply S2; lia).
    destruct (@cursor_arrives del (bucket t) c0 i [] post y)
      as (A1 & A2 & A3 & A4); unfold c0; cbn [htbl curr curr_head bucket_idx];
      try reflexivity; try assumption;
      [lia| |now rewrite Hidx|].
    { intros j Hj. rewrite (Hbefore j Hj). reflexivity. }
    fold c0 in A1, A2, A3, A4.
    cbv zeta. rewrite (@cursor_loop_step del k c c0 y Hnext A1 A2). cbn [fst snd].
    assert (Hcat : all_cells t = (y :: post) ++ concat (skipn (S i) (bucket t))).
    { unfold all_cells. rewrite <- Hn.
      apply (@concat_skipn_next (bucket t) O i); [lia|exact Hi|].
      intros j _ Hj. now apply Hbefore. }
    rewrite Hcat in Hfuel |- *. cbn [app length] in Hfuel.
    destruct (@cursor_loop_from del (bucket t) k _ i ([] ++ [y]) post A4)
      as (I1 & I2 & I3 & I4 & I5); [lia|].
    cbv zeta in I1, I2, I3, I4, I5.
    rewrite I1. split; [reflexivity|]. split; [exact I2|].
    rewrite A3 in I5. cbn [htbl c0 n_bits] in I5.
    destruct (htbl (snd (cursor_loop HASHTBL_INVALID_VAL k del _))) as [bs nb b].
    cbn [bucket bucket_size n_bits] in *. subst. f_equal. lia.
Qed.

(** X10. The loop [while (hashtbl_cursor_next(&curt))] started at
    [hashtbl_cursor_begin], in which the caller deletes through the
    cursor the cells [del] holds of, stops on every cell of the table
    exactly once, bucket after bucket and in each bucket from the head
    on; it ends with the cursor in state END, and the table then holds
    exactly the cells [del] does not hold of, in their places. When
    nothing is deleted the table is as it was. *)
Theorem cursor_loop_spec (t : hash_tbl) (del : Z -> bool) (fuel : nat) :
  Z.of_nat (length (bucket t)) = bucket_size t ->
  (length (all_cells t) < fuel)%nat ->
  let r := cursor_loop HASHTBL_INVALID_VAL fuel del
             (hashtbl_cursor_begin (hashtbl_cursor_init t)) in
  fst r = all_cells t /\
  hashtbl_cursor_is_end (snd r) = true /\
  htbl (snd r) =
  mk_hash_tbl (bucket_size t) (n_bits t)
              (map (filter (cursor_keeps del)) (bucket t)) /\
  ((forall c, In c (all_cells t) -> del (val c) = false) -> htbl (snd r) = t).
Proof.
  intros Hlen Hfuel.
  destruct (cursor_loop_result t del Hlen Hfuel) as (R1 & R2 & R3).
  cbv zeta in *. split; [exact R1|].
  split; [unfold hashtbl_cursor_is_end; now rewrite R2|].
  split; [exact R3|].
  intros Hno. rewrite R3. rewrite <- (tbl_eta t) at 4. f_equal.
  apply (nth_ext _ _ [] []); [apply length_map|].
  intros j Hj. rewrite nth_map_filter.
  apply forallb_filter_id. apply forallb_forall. intros c Hc.
  unfold cursor_keeps. rewrite Hno; [reflexivity|].
  apply in_all_cells. eauto.
Qed.

Lemma cursor_set_next_ret (c : hashtbl_cursor_t) : fst (cursor_set_next c) = 1.
Proof.
  unfold cursor_set_next. cbv zeta. destruct (tl (curr c)); [|reflexivity].
  destruct (_ =? _); reflexivity.
Qed.

(** X11. Once [hashtbl_cursor_next] has returned 0 the cursor is at END
    or not valid, and nothing moves it: every further
    [hashtbl_cursor_next] returns 0, [hashtbl_cursor_del] returns
    [HASHTBL_INVALID_VAL], both leave cursor and table as they are, and
    the value, key size and key of the cursor read as
    [HASHTBL_INVALID_VAL], 0 and NULL. *)
Theorem cursor_end_absorbs (c : hashtbl_cursor_t) :
  fst (hashtbl_cursor_next c) = 0 ->
  let c' := snd (hashtbl_cursor_next c) in
  htbl c' = htbl c /\
  (state c' = HASHTBL_CURSOR_END \/ state c' = HASHTBL_CURSOR_INVALID) /\
  hashtbl_cursor_next c' = (0, c') /\
  hashtbl_cursor_del HASHTBL_INVALID_VAL c' = (HASHTBL_INVALID_VAL, c') /\
  hashtbl_cursor_val HASHTBL_INVALID_VAL c' = HASHTBL_INVALID_VAL /\
  hashtbl_cursor_key_size c' = 0 /\ hashtbl_cursor_key c' = None.
Proof.
  unfold hashtbl_cursor_next. cbv zeta.
  destruct (state c) eqn:Hs.
  - destruct (_ =? _).
    + intros _. cbn. auto 10.
    + rewrite cursor_set_next_ret. discriminate.
  - intros _. cbn [snd]. unfold hashtbl_cursor_del, hashtbl_cursor_val,
      hashtbl_cursor_key_size, hashtbl_cursor_key. rewrite Hs. auto 10.
  - destruct (next c).
    + intros _. cbn. auto 10.
    + rewrite cursor_set_next_ret. discriminate.
  - destruct (next c).
    + intros _. cbn. auto 10.
    + rewrite cursor_set_next_ret. discriminate.
  - intros _. cbn [snd]. unfold hashtbl_cursor_del, hashtbl_cursor_val,
      hashtbl_cursor_key_size, hashtbl_cursor_key. rewrite Hs. auto 10.
Qed.

End Cursor.

Lemma hash_32_linux_range (v bits : Z) :
  0 < bits <= 32 -> 0 <= hash_32_linux v bits < 2 ^ bits.
Proof.
  intros Hb. unfold hash_32_linux, wrap32.
  rewrite Z.shiftr_div_pow2 by lia.
  pose proof (Z.mod_pos_bound (v * 2654404609) (2 ^ 32) ltac:(lia)) as Hm.
  assert (Hp : 0 < 2 ^ (32 - bits)) by (apply Z.pow_pos_nonneg; lia).
  split.
  - apply Z.div_pos; lia.
  - apply Z.div_lt_upper_bound; auto.
    rewrite <- Z.pow_add_r by lia. replace (32 - bits + bits) with 32 by lia. lia.
Qed.

(** A table made by [hashtbl_create] whose bucket count is the power of
    two its [n_bits] stands for is well formed. *)
Lemma hashtbl_create_ok (bsize : Z) (t : hash_tbl) :
  hashtbl_create bsize true = Some t ->
  0 < n_bits t <= 32 -> 2 ^ n_bits t = bsize ->
  htbl_ok hash_32_linux invalid_val_linux t.
Proof.
  unfold hashtbl_create. simpl. destruct (get_n_bits (wrap32 (bsize - 1))) as [nb|]; [|discriminate].
  intros [= <-]. simpl. intros Hnb Hp. constructor; simpl.
  - unfold is_hashtbl_struct_valid. simpl.
    assert (0 < bsize) by (rewrite <- Hp; apply Z.pow_pos_nonneg; lia).
    apply andb_true_iff. split; apply Z.ltb_lt; lia.
  - rewrite repeat_length.
    assert (0 < bsize) by (rewrite <- Hp; apply Z.pow_pos_nonneg; lia). lia.
  - intros k ks. unfold hashtbl_get_index. simpl. rewrite <- Hp.
    now apply hash_32_linux_range.
  - intros i c Hin. exfalso.
    destruct (Nat.lt_ge_cases i (Z.to_nat bsize)).
    + rewrite nth_repeat_lt in Hin by assumption. destruct Hin.
    + rewrite nth_overflow in Hin by (rewrite repeat_length; assumption). destruct Hin.
Qed.

Lemma tbl4_ok : htbl_ok hash_32_linux invalid_val_linux tbl4.
Proof.
  apply (@hashtbl_create_ok 4); [reflexivity | simpl; lia | reflexivity].
Qed.

Lemma hashtbl_add_spec_witness :
  htbl_ok hash_32_linux invalid_val_linux tbl4 /\
  let k := Some ["a"%byte; "b"%byte] in
  let mem := mk_kmalloc true true in
  let r := hashtbl_add hash_32_linux invalid_val_linux tbl4 k 2 7 mem in
  let invalid := k = None \/ 2 <= 0 \/ 7 = invalid_val_linux in
  let dup := exists kb, k = Some kb /\ has_equal_key tbl4 kb 2 in
  let nomem := cell_allocated mem = false \/ key_allocated mem = false in
  (invalid -> fst r = - EINVAL) /\
  (~ invalid -> dup -> fst r = - EPERM) /\
  (~ invalid -> ~ dup -> nomem -> fst r = - ENOMEM) /\
  (~ invalid -> ~ dup -> ~ nomem -> fst r = 0) /\
  (fst r <> 0 -> snd r = tbl4) /\
  (fst r = 0 -> forall kb, k = Some kb ->
     hashtbl_lookup hash_32_linux invalid_val_linux (snd r) kb 2 = 7).
Proof.
  split; [exact tbl4_ok|].
  exact (@hashtbl_add_spec hash_32_linux invalid_val_linux tbl4
           (Some ["a"%byte; "b"%byte]) 2 7 (mk_kmalloc true true) tbl4_ok).
Defined.

(** *** The facts at concrete tables *)

Lemma tbl4_two_ok : htbl_ok hash_32_linux invalid_val_linux tbl4_two.
Proof. unfold tbl4_two. do 2 apply hashtbl_add_ok. exact tbl4_ok. Qed.

Lemma tbl4_two_unique : keys_unique tbl4_two.
Proof.
  intros i.
  do 4 (destruct i as [|i];
        [vm_compute; repeat constructor; simpl; intuition discriminate|]).
  replace (nth (S (S (S (S i)))) (bucket tbl4_two) []) with (@nil hash_cell)
    by (destruct i; reflexivity).
  constructor.
Qed.

Lemma get_n_bits_spec_witness :
  0 <= 5 < 2 ^ 32 /\
  (5 = 0 -> get_n_bits 5 = Some 1) /\
  (5 = 1 -> get_n_bits 5 = None) /\
  (2 <= 5 -> exists n, get_n_bits 5 = Some n /\ 2 <= n <= 32 /\
                       2 ^ (n - 1) <= 5 < 2 ^ n).
Proof.
  assert (H : 0 <= 5 < 2 ^ 32) by lia.
  split; [exact H|]. exact (get_n_bits_spec H).
Defined.

Lemma hashtbl_is_empty_n_items_witness :
  Z.of_nat (length (bucket tbl4_two)) = bucket_size tbl4_two /\
  hashtbl_n_items tbl4_two = Z.of_nat (length (all_cells tbl4_two)) /\
  (hashtbl_n_items tbl4_two = 0 -> hashtbl_is_empty tbl4_two = 1) /\
  (hashtbl_n_items tbl4_two <> 0 -> hashtbl_is_empty tbl4_two = 0).
Proof.
  assert (H : Z.of_nat (length (bucket tbl4_two)) = bucket_size tbl4_two)
    by reflexivity.
  split; [exact H|]. exact (hashtbl_is_empty_n_items tbl4_two H).
Defined.

Lemma hashtbl_lookup_spec_witness :
  htbl_ok hash_32_linux invalid_val_linux tbl4_two /\
  (has_equal_key tbl4_two ["a"%byte; "b"%byte] 2 ->
   hashtbl_lookup hash_32_linux invalid_val_linux tbl4_two ["a"%byte; "b"%byte] 2
     <> invalid_val_linux /\
   exists c, In c (all_cells tbl4_two) /\ key_size c = 2 /\
             key c = firstn (Z.to_nat 2) ["a"%byte; "b"%byte] /\
             hashtbl_lookup hash_32_linux invalid_val_linux tbl4_two
               ["a"%byte; "b"%byte] 2 = val c) /\
  (~ has_equal_key tbl4_two ["a"%byte; "b"%byte] 2 ->
   hashtbl_lookup hash_32_linux invalid_val_linux tbl4_two ["a"%byte; "b"%byte] 2
     = invalid_val_linux).
Proof.
  split; [exact tbl4_two_ok|].
  exact (@hashtbl_lookup_spec hash_32_linux invalid_val_linux tbl4_two
           ["a"%byte; "b"%byte] 2 tbl4_two_ok).
Defined.

Lemma hashtbl_add_other_key_witness :
  htbl_ok hash_32_linux invalid_val_linux tbl4_two /\
  (2 <> 2 \/
   firstn (Z.to_nat 2) ["a"%byte; "b"%byte] <>
   firstn (Z.to_nat 2) ["e"%byte; "f"%byte]) /\
  hashtbl_lookup hash_32_linux invalid_val_linux
    (snd (hashtbl_add hash_32_linux invalid_val_linux tbl4_two
            (Some ["e"%byte; "f"%byte]) 2 9 (mk_kmalloc true true)))
    ["a"%byte; "b"%byte] 2 =
  hashtbl_lookup hash_32_linux invalid_val_linux tbl4_two ["a"%byte; "b"%byte] 2.
Proof.
  assert (H : 2 <> 2 \/
              firstn (Z.to_nat 2) ["a"%byte; "b"%byte] <>
              firstn (Z.to_nat 2) ["e"%byte; "f"%byte])
    by (right; simpl; discriminate).
  split; [exact tbl4_two_ok|]. split; [exact H|].
  exact (@hashtbl_add_other_key hash_32_linux invalid_val_linux tbl4_two
           ["e"%byte; "f"%byte] 2 9 (mk_kmalloc true true)
           ["a"%byte; "b"%byte] 2 tbl4_two_ok H).
Defined.

Lemma hashtbl_add_del_witness :
  htbl_ok hash_32_linux invalid_val_linux tbl4_two /\
  fst (hashtbl_add hash_32_linux invalid_val_linux tbl4_two
         (Some ["e"%byte; "f"%byte]) 2 9 (mk_kmalloc true true)) = 0 /\
  hashtbl_del hash_32_linux invalid_val_linux
    (snd (hashtbl_add hash_32_linux invalid_val_linux tbl4_two
            (Some ["e"%byte; "f"%byte]) 2 9 (mk_kmalloc true true)))
    ["e"%byte; "f"%byte] 2 = (9, tbl4_two).
Proof.
  assert (H : fst (hashtbl_add hash_32_linux invalid_val_linux tbl4_two
                     (Some ["e"%byte; "f"%byte]) 2 9 (mk_kmalloc true true)) = 0)
    by (vm_compute; reflexivity).
  split; [exact tbl4_two_ok|]. split; [exact H|].
  exact (@hashtbl_add_del hash_32_linux invalid_val_linux tbl4_two
           ["e"%byte; "f"%byte] 2 9 (mk_kmalloc true true) tbl4_two_ok H).
Defined.

Lemma hashtbl_del_spec_witness :
  htbl_ok hash_32_linux invalid_val_linux tbl4_two /\ keys_unique tbl4_two /\
  let r := hashtbl_del hash_32_linux invalid_val_linux tbl4_two
             ["a"%byte; "b"%byte] 2 in
  fst r = hashtbl_lookup hash_32_linux invalid_val_linux tbl4_two
            ["a"%byte; "b"%byte] 2 /\
  (fst r = invalid_val_linux -> snd r = tbl4_two) /\
  hashtbl_lookup hash_32_linux invalid_val_linux (snd r) ["a"%byte; "b"%byte] 2
    = invalid_val_linux /\
  (forall k' ksize',
     ksize' <> 2 \/
     firstn (Z.to_nat ksize') k' <> firstn (Z.to_nat 2) ["a"%byte; "b"%byte] ->
     hashtbl_lookup hash_32_linux invalid_val_linux (snd r) k' ksize' =
     hashtbl_lookup hash_32_linux invalid_val_linux tbl4_two k' ksize') /\
  htbl_ok hash_32_linux invalid_val_linux (snd r) /\ keys_unique (snd r) /\
  (fst r <> invalid_val_linux ->
   hashtbl_n_items (snd r) = hashtbl_n_items tbl4_two - 1).
Proof.
  split; [exact tbl4_two_ok|]. split; [exact tbl4_two_unique|].
  exact (@hashtbl_del_spec hash_32_linux invalid_val_linux tbl4_two
           ["a"%byte; "b"%byte] 2 tbl4_two_ok tbl4_two_unique).
Defined.

Lemma hashtbl_add_unique_witness :
  htbl_ok hash_32_linux invalid_val_linux tbl4_two /\ keys_unique tbl4_two /\
  let r := hashtbl_add hash_32_linux invalid_val_linux tbl4_two
             (Some ["e"%byte; "f"%byte]) 2 9 (mk_kmalloc true true) in
  keys_unique (snd r) /\
  (fst r = 0 -> hashtbl_n_items (snd r) = hashtbl_n_items tbl4_two + 1) /\
  (fst r <> 0 -> hashtbl_n_items (snd r) = hashtbl_n_items tbl4_two).
Proof.
  split; [exact tbl4_two_ok|]. split; [exact tbl4_two_unique|].
  exact (@hashtbl_add_unique hash_32_linux invalid_val_linux tbl4_two
           (Some ["e"%byte; "f"%byte]) 2 9 (mk_kmalloc true true)
           tbl4_two_ok tbl4_two_unique).
Defined.

Lemma hashtbl_empty_spec_witness :
  htbl_ok hash_32_linux invalid_val_linux tbl4_two /\
  let t' := hashtbl_empty tbl4_two in
  bucket_size t' = bucket_size tbl4_two /\ n_bits t' = n_bits tbl4_two /\
  htbl_ok hash_32_linux invalid_val_linux t' /\ keys_unique t' /\
  hashtbl_is_empty t' = 1 /\ hashtbl_n_items t' = 0 /\
  (forall k ksize,
     hashtbl_lookup hash_32_linux invalid_val_linux t' k ksize = invalid_val_linux) /\
  hashtbl_empty t' = t'.
Proof.
  split; [exact tbl4_two_ok|].
  exact (@hashtbl_empty_spec hash_32_linux invalid_val_linux tbl4_two tbl4_two_ok).
Defined.


Lemma cursor_loop_spec_witness :
  Z.of_nat (length (bucket tbl4_two)) = bucket_size tbl4_two /\
  (length (all_cells tbl4_two) < 3)%nat /\
  let r := cursor_loop invalid_val_linux 3 (fun v => v =? 7)
             (hashtbl_cursor_begin (hashtbl_cursor_init tbl4_two)) in
  fst r = all_cells tbl4_two /\
  hashtbl_cursor_is_end (snd r) = true /\
  htbl (snd r) =
  mk_hash_tbl (bucket_size tbl4_two) (n_bits tbl4_two)
              (map (filter (cursor_keeps (fun v => v =? 7))) (bucket tbl4_two)) /\
  ((forall c, In c (all_cells tbl4_two) -> (val c =? 7) = false) ->
   htbl (snd r) = tbl4_two).
Proof.
  assert (H1 : Z.of_nat (length (bucket tbl4_two)) = bucket_size tbl4_two)
    by reflexivity.
  assert (H2 : (length (all_cells tbl4_two) < 3)%nat) by (vm_compute; lia).
  split; [exact H1|]. split; [exact H2|].
  exact (@cursor_loop_spec invalid_val_linux tbl4_two (fun v => v =? 7) 3 H1 H2).

Defined.

Lemma cursor_end_absorbs_witness :
  let c := hashtbl_cursor_begin (hashtbl_cursor_init tbl4) in
  fst (hashtbl_cursor_next c) = 0 /\
  let c' := snd (hashtbl_cursor_next c) in
  htbl c' = htbl c /\
  (state c' = HASHTBL_CURSOR_END \/ state c' = HASHTBL_CURSOR_INVALID) /\
  hashtbl_cursor_next c' = (0, c') /\
  hashtbl_cursor_del invalid_val_linux c' = (invalid_val_linux, c') /\
  hashtbl_cursor_val invalid_val_linux c' = invalid_val_linux /\
  hashtbl_cursor_key_size c' = 0 /\ hashtbl_cursor_key c' = None.
Proof.
  assert (H : fst (hashtbl_cursor_next
                     (hashtbl_cursor_begin (hashtbl_cursor_init tbl4))) = 0)
    by reflexivity.
  split; [exact H|].
  exact (@cursor_end_absorbs invalid_val_linux
           (hashtbl_cursor_begin (hashtbl_cursor_init tbl4)) H).
Defined.

End HashtblFacts.

(** ** Facts about the IO core *)

Module IoFacts.
Import Io.

(** *** The walblog device *)

(** C10. A write bio given to the walblog device is completed at once
    with [-EIO] and the device is left as it was; a read bio is sent on
    to the underlying log device with nothing but its target device
    changed. *)
Theorem iocore_log_make_request_spec (wdev : walb_dev) (b : bio) :
  fst (iocore_log_make_request wdev b) = wdev /\
  (has_flag (bi_rw b) WRITE = true ->
   snd (iocore_log_make_request wdev b) = [Ev_bio_endio b (- EIO)]) /\
  (has_flag (bi_rw b) WRITE = false ->
   exists b', snd (iocore_log_make_request wdev b) = [Ev_generic_make_request b'] /\
              bi_bdev b' = ldev (par wdev) /\ bi_rw b' = bi_rw b /\
              bi_sector b' = bi_sector b /\ bi_sectors b' = bi_sectors b).
Proof.
  unfold iocore_log_make_request.
  destruct (has_flag (bi_rw b) WRITE); simpl; repeat split; try discriminate; auto.
  intros _. eexists. split; [reflexivity|]. simpl. auto.
Qed.

Section WithKernel.

Variable K : kern_iface.
Variable mp : module_params.

(** *** Userland hook *)

(** With a hook path configured, [invoke_userland_exec] runs the hook
    with three arguments after the path: major id, minor id, event. *)
Lemma invoke_userland_exec_argv (wp : walb_params) (event_str : string) :
  let n := Z.of_nat (String.length (exec_path_on_error_ mp)) in
  0 < n < EXEC_PATH_ON_ERROR_LEN K ->
  invoke_userland_exec K mp wp event_str =
  [Ev_call_usermodehelper (exec_path_on_error_ mp)
     [exec_path_on_error_ mp; string_of_uint (MAJOR (devt wp));
      string_of_uint (MINOR (devt wp)); event_str]].
Proof.
  intros n Hn. unfold invoke_userland_exec. fold n.
  rewrite Z.min_l by lia.
  destruct (Z.eqb_spec n 0); [lia|].
  destruct (Z.eqb_spec n (EXEC_PATH_ON_ERROR_LEN K)); [lia|]. reflexivity.
Qed.

(** *** Pack builder *)

Lemma create_writepack_true (pbs lsid0 : Z) :
  create_writepack true pbs lsid0 =
  Some (mk_pack [] (mk_logpack_header lsid0 0 0 0 0 []) None false false false false).
Proof. reflexivity. Qed.

Lemma writepack_fin_wpack_list (b : builder) (p : pack) (biow : bio_wrapper)
      (wp : walb_params) (now : Z) :
  wpack_list (writepack_fin b p biow wp now) = wpack_list b.
Proof. unfold writepack_fin. destruct (has_flag _ _); reflexivity. Qed.

Lemma writepack_fin_latest (b : builder) (p : pack) (biow : bio_wrapper)
      (wp : walb_params) (now : Z) :
  latest_lsidp (writepack_fin b p biow wp now) = latest_lsidp b.
Proof. unfold writepack_fin. destruct (has_flag _ _); reflexivity. Qed.

Lemma writepack_fin_wpackp (b : builder) (p : pack) (biow : bio_wrapper)
      (wp : walb_params) (now : Z) :
  exists p', wpackp (writepack_fin b p biow wp now) = Some p' /\
             biow_list p' = biow_list p ++ [biow] /\
             logpack_header_sector p' = logpack_header_sector p /\
             is_zero_flush_only p' = is_zero_flush_only p /\
             is_flush_header p' = is_flush_header p /\
             header_bioe p' = header_bioe p /\
             is_flush_contained p' =
               (is_flush_contained p || has_flag (bi_rw (biow_bio biow)) REQ_FLUSH).
Proof.
  unfold writepack_fin. destruct (has_flag _ _); eexists; (split; [reflexivity|]); simpl;
    repeat split; auto using orb_true_r, orb_false_r.
Qed.

Lemma take_record_lsid_bio (lhead : walb_logpack_header) (biow : bio_wrapper) :
  biow_bio (take_record_lsid lhead biow) = biow_bio biow /\
  len (take_record_lsid lhead biow) = len biow /\
  st_discard (take_record_lsid lhead biow) = st_discard biow /\
  cloned_bioe (take_record_lsid lhead biow) = cloned_bioe biow /\
  error (take_record_lsid lhead biow) = error biow.
Proof. unfold take_record_lsid. destruct (0 <? _); simpl; auto. Qed.

Lemma check_and_set_flush_fields (p : pack) :
  biow_list (writepack_check_and_set_flush p) = biow_list p /\
  logpack_header_sector (writepack_check_and_set_flush p) = logpack_header_sector p /\
  is_flush_contained (writepack_check_and_set_flush p) = is_flush_contained p /\
  is_flush_header (writepack_check_and_set_flush p) = is_flush_header p /\
  header_bioe (writepack_check_and_set_flush p) = header_bioe p /\
  is_zero_flush_only (writepack_check_and_set_flush p) =
    (is_zero_flush_only p || (n_records (logpack_header_sector p) =? 0)).
Proof.
  unfold writepack_check_and_set_flush.
  destruct (n_records (logpack_header_sector p) =? 0); simpl;
    repeat split; auto using orb_true_r. now rewrite orb_false_r.
Qed.

(** What label [newpack] leaves when the allocation succeeds. *)
Lemma writepack_newpack_ok (b : builder) (cur : option pack) (biow : bio_wrapper)
      (ring_size : Z) (wp : walb_params) (now : Z) :
  let b1_list := match cur with
                 | Some p => wpack_list b ++ [writepack_check_and_set_flush p]
                 | None => wpack_list b
                 end in
  let lsid0 := match cur with
               | Some p => get_next_lsid_unsafe (logpack_header_sector p)
               | None => latest_lsidp b
               end in
  let r := writepack_newpack K b cur biow ring_size wp now true in
  fst r = true /\
  wpack_list (snd r) = b1_list /\
  latest_lsidp (snd r) = lsid0 /\
  exists fresh, wpackp (snd r) = Some fresh /\
    logpack_header_sector fresh =
      snd (walb_logpack_header_add_bio K (mk_logpack_header lsid0 0 0 0 0 [])
             (biow_bio biow) (physical_bs wp) ring_size) /\
    biow_list fresh = [take_record_lsid (logpack_header_sector fresh) biow] /\
    is_zero_flush_only fresh = false /\ is_flush_header fresh = false /\
    header_bioe fresh = None /\
    is_flush_contained fresh = has_flag (bi_rw (biow_bio biow)) REQ_FLUSH.
Proof.
  unfold writepack_newpack. simpl.
  destruct cur as [p|]; simpl;
    rewrite writepack_fin_wpack_list, writepack_fin_latest; simpl;
    (split; [reflexivity|]); (split; [reflexivity|]); (split; [reflexivity|]).
  - match goal with |- context [writepack_fin ?b ?p ?w ?wp ?n] =>
      destruct (writepack_fin_wpackp b p w wp n)
        as (p' & -> & Hl & Hh & Hz & Hf & He & Hc) end.
    exists p'. simpl in *. rewrite Hh. repeat split; auto.
    rewrite Hc. now destruct (take_record_lsid_bio
      (snd (walb_logpack_header_add_bio K
              (mk_logpack_header (get_next_lsid_unsafe (logpack_header_sector p)) 0 0 0 0 [])
              (biow_bio biow) (physical_bs wp) ring_size)) biow) as [-> _].
  - match goal with |- context [writepack_fin ?b ?p ?w ?wp ?n] =>
      destruct (writepack_fin_wpackp b p w wp n)
        as (p' & -> & Hl & Hh & Hz & Hf & He & Hc) end.
    exists p'. simpl in *. rewrite Hh. repeat split; auto.
    rewrite Hc. now destruct (take_record_lsid_bio
      (snd (walb_logpack_header_add_bio K
              (mk_logpack_header (latest_lsidp b) 0 0 0 0 [])
              (biow_bio biow) (physical_bs wp) ring_size)) biow) as [-> _].
Qed.

(** [is_pack_size_too_large] written out: with a limit that is not 0, the
    physical blocks of the write plus [total_io_size], added as unsigned
    ints, exceed the limit. *)
Lemma is_pack_size_too_large_spec (lhead : walb_logpack_header)
      (pbs max_pb : Z) (biow : bio_wrapper) :
  is_pack_size_too_large K lhead pbs max_pb biow = true <->
  max_pb <> 0 /\
  wrap32 (wrap32 (capacity_pb K pbs (len biow)) + total_io_size lhead) > max_pb.
Proof.
  unfold is_pack_size_too_large.
  destruct (Z.eqb_spec max_pb 0) as [->|Hne].
  - split; [discriminate|]. intros [H _]. now elim H.
  - cbv zeta. rewrite Z.gtb_ltb, Z.ltb_lt. split; [intros H|intros [_ H]]; [split|]; lia.
Qed.

(** C3. With a current pack, [writepack_add_bio_wrapper] appends the write
    to it unless the current pack is zero-flush-only, or it has records
    and the write carries a flush, or [max_logpack_pb] is not 0 and the
    physical blocks of the write added to [total_io_size] (in unsigned
    int arithmetic) exceed it, or [walb_logpack_header_add_bio] finds no
    room in the header; in each of these cases, and in no other, the
    current pack is sealed onto the pack list and a new pack is opened at
    the lsid that follows the sealed one, holding the write. *)
Theorem writepack_add_bio_wrapper_seals (b : builder) (p : pack)
        (biow : bio_wrapper) (ring_size max_pb : Z) (wp : walb_params) (now : Z) :
  wpackp b = Some p -> biow_list p <> [] ->
  0 <= n_records (logpack_header_sector p) ->
  let lhead := logpack_header_sector p in
  let pbs := physical_bs wp in
  let added := walb_logpack_header_add_bio K lhead (biow_bio biow) pbs ring_size in
  let zero_flush := is_zero_flush_only_pack p = true in
  let flush_after_records :=
    0 < n_records lhead /\ has_flag (bi_rw (biow_bio biow)) REQ_FLUSH = true in
  let too_large :=
    max_pb <> 0 /\
    wrap32 (wrap32 (capacity_pb K pbs (len biow)) + total_io_size lhead) > max_pb in
  let header_full := fst added = false in
  let r := writepack_add_bio_wrapper K b biow ring_size max_pb wp now true in
  fst r = true /\
  (zero_flush \/ flush_after_records \/ too_large \/ header_full ->
   exists sealed fresh,
     wpack_list (snd r) = wpack_list b ++ [sealed] /\
     biow_list sealed = biow_list p /\
     (logpack_header_sector sealed = lhead \/
      logpack_header_sector sealed = snd added) /\
     latest_lsidp (snd r) = get_next_lsid_unsafe (logpack_header_sector sealed) /\
     wpackp (snd r) = Some fresh /\
     logpack_header_sector fresh =
       snd (walb_logpack_header_add_bio K
              (mk_logpack_header (get_next_lsid_unsafe (logpack_header_sector sealed))
                                 0 0 0 0 [])
              (biow_bio biow) pbs ring_size) /\
     map biow_bio (biow_list fresh) = [biow_bio biow]) /\
  (~ (zero_flush \/ flush_after_records \/ too_large \/ header_full) ->
   wpack_list (snd r) = wpack_list b /\
   latest_lsidp (snd r) = latest_lsidp b /\
   exists p', wpackp (snd r) = Some p' /\
     logpack_header_sector p' = snd added /\
     map biow_bio (biow_list p') = map biow_bio (biow_list p) ++ [biow_bio biow]).
Proof.
  intros Hp Hne Hrange lhead pbs added zero_flush flush_after_records too_large header_full r.
  assert (Hseal : forall cur : pack,
            biow_list cur = biow_list p ->
            (logpack_header_sector cur = lhead \/ logpack_header_sector cur = snd added) ->
            let r' := writepack_newpack K b (Some cur) biow ring_size wp now true in
            fst r' = true /\
            exists sealed fresh,
              wpack_list (snd r') = wpack_list b ++ [sealed] /\
              biow_list sealed = biow_list p /\
              (logpack_header_sector sealed = lhead \/
               logpack_header_sector sealed = snd added) /\
              latest_lsidp (snd r') = get_next_lsid_unsafe (logpack_header_sector sealed) /\
              wpackp (snd r') = Some fresh /\
              logpack_header_sector fresh =
                snd (walb_logpack_header_add_bio K
                       (mk_logpack_header
                          (get_next_lsid_unsafe (logpack_header_sector sealed)) 0 0 0 0 [])
                       (biow_bio biow) pbs ring_size) /\
              map biow_bio (biow_list fresh) = [biow_bio biow]).
  { intros cur Hl Hh r'.
    destruct (writepack_newpack_ok b (Some cur) biow ring_size wp now)
      as (Hr & Hw & Hla & fresh & Hf & Hfh & Hfl & _).
    split; [exact Hr|].
    destruct (check_and_set_flush_fields cur) as (Hcl & Hch & _).
    exists (writepack_check_and_set_flush cur), fresh.
    rewrite Hcl, Hch. repeat split; auto.
    rewrite Hfl. simpl.
    now destruct (take_record_lsid_bio (logpack_header_sector fresh) biow) as [-> _]. }
  assert (Hnz : is_zero_flush_only_pack p = false -> n_records lhead <> 0).
  { unfold is_zero_flush_only_pack. fold lhead. destruct (biow_list p); [congruence|]. simpl.
    rewrite andb_true_r. intros Hx. apply Z.eqb_neq in Hx. exact Hx. }
  pose proof (is_pack_size_too_large_spec lhead pbs max_pb biow) as Htoo.
  unfold zero_flush, flush_after_records, too_large, header_full.
  subst r. unfold writepack_add_bio_wrapper. rewrite Hp. fold lhead pbs added.
  destruct (is_zero_flush_only_pack p) eqn:Hz.
  { destruct (Hseal p eq_refl (or_introl eq_refl)) as [Hr Hs].
    split; [exact Hr|]. split; [intros _; exact Hs|].
    intros Hx. exfalso. apply Hx. auto. }
  specialize (Hnz eq_refl).
  destruct (Z.ltb_spec 0 (n_records lhead)) as [Hn|Hn]; simpl.
  - destruct (has_flag (bi_rw (biow_bio biow)) REQ_FLUSH) eqn:Hfl; simpl.
    { destruct (Hseal p eq_refl (or_introl eq_refl)) as [Hr Hs].
      split; [exact Hr|]. split; [intros _; exact Hs|].
      intros Hx. exfalso. apply Hx. auto. }
    destruct (is_pack_size_too_large K lhead pbs max_pb biow) eqn:Htl; simpl.
    { destruct (Hseal p eq_refl (or_introl eq_refl)) as [Hr Hs].
      split; [exact Hr|]. split; [intros _; exact Hs|].
      intros Hx. exfalso. apply Hx. right. right. left.
      apply Htoo. reflexivity. }
    assert (Hnot : ~ (max_pb <> 0 /\
                      wrap32 (wrap32 (capacity_pb K pbs (len biow)) +
                              total_io_size lhead) > max_pb))
      by (intros Hx; apply Htoo in Hx; discriminate).
    destruct (fst added) eqn:Hadd; simpl.
    + split; [reflexivity|]. split.
      * intros [H|[[_ H]|[H|H]]]; try discriminate. contradiction.
      * intros _. rewrite writepack_fin_wpack_list, writepack_fin_latest.
        repeat split; auto.
        destruct (writepack_fin_wpackp b (set_header p (snd added))
                    (take_record_lsid (snd added) biow) wp now)
          as (p' & -> & Hl & Hh & _).
        exists p'. repeat split; auto.
        rewrite Hl, map_app. simpl.
        now destruct (take_record_lsid_bio (snd added) biow) as [-> _].
    + destruct (Hseal (set_header p (snd added)) eq_refl (or_intror eq_refl)) as [Hr Hs].
      split; [exact Hr|]. split; [intros _; exact Hs|].
      intros Hx. exfalso. apply Hx. auto.
  - unfold lhead in *. lia.
Qed.

Lemma flat_map_snoc {A B : Type} (f : A -> list B) (l : list A) (x : A) :
  flat_map f (l ++ [x]) = flat_map f l ++ f x.
Proof. rewrite flat_map_app. simpl. now rewrite app_nil_r. Qed.

(** Every call of [writepack_add_bio_wrapper] whose allocation succeeds
    adds the bio of the wrapper at the end of what the builder holds. *)
Lemma writepack_add_bio_wrapper_bios (b : builder) (biow : bio_wrapper)
      (ring_size max_pb : Z) (wp : walb_params) (now : Z) :
  builder_bios (snd (writepack_add_bio_wrapper K b biow ring_size max_pb wp now true)) =
  builder_bios b ++ [biow_bio biow].
Proof.
  assert (Hnew : forall cur : option pack,
            (forall p, cur = Some p -> exists p0, wpackp b = Some p0 /\
                                                  biow_list p = biow_list p0) ->
            (cur = None -> wpackp b = None) ->
            builder_bios (snd (writepack_newpack K b cur biow ring_size wp now true)) =
            builder_bios b ++ [biow_bio biow]).
  { intros cur Hsome Hnone.
    destruct (writepack_newpack_ok b cur biow ring_size wp now)
      as (_ & Hw & _ & fresh & Hf & _ & Hfl & _).
    unfold builder_bios. rewrite Hw, Hf, Hfl. simpl.
    destruct (take_record_lsid_bio (logpack_header_sector fresh) biow) as [-> _].
    destruct cur as [p|].
    - destruct (Hsome p eq_refl) as (p0 & -> & Hl).
      rewrite flat_map_snoc.
      destruct (check_and_set_flush_fields p) as (-> & _). now rewrite Hl.
    - rewrite (Hnone eq_refl). now rewrite app_nil_r. }
  unfold writepack_add_bio_wrapper.
  destruct (wpackp b) as [p|] eqn:Hp.
  2:{ apply Hnew; [discriminate|reflexivity]. }
  destruct (is_zero_flush_only_pack p).
  { apply Hnew; [intros ? [= <-]; eauto|discriminate]. }
  destruct (_ && _).
  { apply Hnew; [intros ? [= <-]; eauto|discriminate]. }
  destruct (negb _).
  { apply Hnew; [intros ? [= <-]; eauto|discriminate]. }
  simpl. unfold builder_bios at 1. rewrite writepack_fin_wpack_list.
  match goal with |- context [writepack_fin ?b ?p ?w ?wp ?n] =>
    destruct (writepack_fin_wpackp b p w wp n) as (p' & -> & Hl & _) end.
  rewrite Hl, map_app. simpl.
  match goal with |- context [take_record_lsid ?h ?w] =>
    destruct (take_record_lsid_bio h w) as [-> _] end.
  unfold builder_bios. rewrite Hp. now rewrite app_assoc.
Qed.

Lemma pack_bio_wrappers_bios (wp : walb_params) (now : Z) (l : list bio_wrapper)
      (b : builder) :
  builder_bios (pack_bio_wrappers K wp now l b) = builder_bios b ++ map biow_bio l.
Proof.
  revert b. induction l as [|w l IH]; intros b; simpl.
  - now rewrite app_nil_r.
  - unfold pack_bio_wrappers in *. simpl. rewrite IH.
    rewrite writepack_add_bio_wrapper_bios. now rewrite <- app_assoc.
Qed.

Lemma close_last_pack_bios (wp : walb_params) (now : Z) (b : builder) :
  flat_map (fun p => map biow_bio (biow_list p)) (wpack_list (close_last_pack wp now b)) =
  builder_bios b.
Proof.
  unfold close_last_pack, builder_bios. destruct (wpackp b) as [p|].
  - destruct (check_and_set_flush_fields p) as (Hl & _).
    destruct (_ || _); simpl; rewrite flat_map_snoc; simpl; now rewrite Hl.
  - now rewrite app_nil_r.
Qed.

(** The packs [create_logpack_list] builds hold the bios of the batch, in
    the order of the batch. *)
Lemma packed_bios (wdev : walb_dev) (l : list bio_wrapper) (now : Z) :
  flat_map (fun p => map biow_bio (biow_list p)) (wpack_list (packed K wdev l now)) =
  map biow_bio l.
Proof.
  unfold packed. rewrite close_last_pack_bios, pack_bio_wrappers_bios. reflexivity.
Qed.

Lemma bio_endios_app (a b : list event) :
  bio_endios (a ++ b) = bio_endios a ++ bio_endios b.
Proof. apply flat_map_app. Qed.

Lemma destroyed_packs_app (a b : list event) :
  destroyed_packs (a ++ b) = destroyed_packs a ++ destroyed_packs b.
Proof. apply flat_map_app. Qed.

Lemma helper_calls_app (a b : list event) :
  helper_calls (a ++ b) = helper_calls a ++ helper_calls b.
Proof. apply flat_map_app. Qed.

Lemma fail_and_destroy_observed (l : list bio_wrapper) :
  bio_endios (fail_and_destroy_bio_wrapper_list l) =
    map (fun b => (b, - EIO)) (map biow_bio l) /\
  destroyed_packs (fail_and_destroy_bio_wrapper_list l) = [] /\
  helper_calls (fail_and_destroy_bio_wrapper_list l) = [].
Proof.
  unfold fail_and_destroy_bio_wrapper_list, bio_endios, destroyed_packs, helper_calls.
  induction l as [|w l (IH1 & IH2 & IH3)]; [simpl; auto|].
  cbn [map flat_map app]. repeat split; auto. f_equal. exact IH1.
Qed.

(** C4 (as the code has it). With [is_error_before_overflow] set, when the
    batch just packed would make [latest - oldest] exceed the ring
    buffer size, [create_logpack_list] returns false with an empty pack
    list, completes every bio of the batch with [-EIO], destroys every
    pack it built, and leaves the lsid set and the state flags,
    [LOG_OVERFLOW] among them, as they were; the userland helper is not
    run. *)
Theorem create_logpack_list_error_before_overflow (wdev : walb_dev)
        (l : list bio_wrapper) (now : Z) :
  is_error_before_overflow_ mp = true ->
  ring_buffer_size (par wdev) <
    wrap64 (latest_lsidp (packed K wdev l now) - oldest (lsids wdev)) ->
  let '(ret, packs, wdev', ev) := create_logpack_list K mp wdev l now in
  ret = false /\ packs = [] /\
  lsids wdev' = lsids wdev /\
  flags (iocored wdev') = flags (iocored wdev) /\
  bio_endios ev = map (fun w => (biow_bio w, - EIO)) l /\
  destroyed_packs ev =
    map (fun p => logpack_lsid (logpack_header_sector p))
        (wpack_list (packed K wdev l now)) /\
  helper_calls ev = [].
Proof.
  intros Hflag Hover. unfold create_logpack_list. rewrite Hflag.
  apply Z.ltb_lt in Hover. rewrite Hover. simpl.
  repeat (split; [reflexivity|]).
  pose proof (packed_bios wdev l now) as Hb.
  clear Hover Hflag.
  remember (wpack_list (packed K wdev l now)) as packs eqn:Hpk. clear Hpk.
  revert l Hb. induction packs as [|p packs IH]; intros l Hb; simpl in *.
  - symmetry in Hb. apply map_eq_nil in Hb. subst l. auto.
  - rewrite !bio_endios_app, !destroyed_packs_app, !helper_calls_app.
    destruct (fail_and_destroy_observed (biow_list p)) as (-> & -> & ->). simpl.
    assert (Hsplit : exists l1 l2, l = l1 ++ l2 /\
              map biow_bio l1 = map biow_bio (biow_list p) /\
              map biow_bio l2 =
                flat_map (fun p => map biow_bio (biow_list p)) packs).
    { symmetry in Hb. apply map_eq_app in Hb. destruct Hb as (l1 & l2 & -> & H1 & H2).
      exists l1, l2. auto. }
    destruct Hsplit as (l1 & l2 & -> & H1 & H2).
    destruct (IH l2 (eq_sym H2)) as (IHa & IHb & IHc).
    rewrite IHa, IHb, IHc. repeat split; auto.
    rewrite map_app, app_nil_r. f_equal. rewrite <- H1. rewrite !map_map. reflexivity.
Qed.

Lemma check_and_set_flush_exactly (q : pack) :
  is_zero_flush_only q = false ->
  (is_zero_flush_only (writepack_check_and_set_flush q) = true <->
   n_records (logpack_header_sector q) = 0).
Proof.
  intros Hq. destruct (check_and_set_flush_fields q) as (_ & _ & _ & _ & _ & ->).
  rewrite Hq. simpl. apply Z.eqb_eq.
Qed.

(** A zero-flush-only pack goes to the log device as one bare flush. *)
Lemma submit_zero_flush_pack (wp : walb_params) (z : pack) :
  is_zero_flush_only z = true ->
  submit_one_logpack K wp z =
  (set_header_bioe z (Some (mk_bio_entry (mk_bio (ldev wp) WRITE_FLUSH 0 0) 0)),
   [Ev_generic_make_request (mk_bio (ldev wp) WRITE_FLUSH 0 0)]).
Proof. intros Hz. unfold submit_one_logpack. rewrite Hz. reflexivity. Qed.

(** What waiting for a submitted zero-flush-only pack does when its
    flush completed without error. *)
Lemma wait_zero_flush_pack (done : bio -> Z) (n_fail : bio_wrapper -> nat)
      (now : Z) (wdev : walb_dev) (z : pack) (biow : bio_wrapper) (fl : bio) :
  biow_list z = [biow] -> len biow = 0 -> cloned_bioe biow = None ->
  error biow = 0 -> is_flush_contained z = true ->
  n_records (logpack_header_sector z) = 0 ->
  total_io_size (logpack_header_sector z) = 0 ->
  header_bioe z = Some (mk_bio_entry fl 0) -> done fl = 0 ->
  let '(wdev', z', ev) :=
    wait_for_logpack_and_submit_datapack K done n_fail now wdev z in
  bio_endios ev = [(biow_bio biow, 0)] /\
  submitted_bios ev = [] /\
  biow_list z' = [] /\
  datapack_submit_queue (iocored wdev') = datapack_submit_queue (iocored wdev) /\
  logpack_lsid (logpack_header_sector z) <= permanent (lsids wdev') /\
  (has_flag (flush_flags (par wdev)) REQ_FLUSH = true ->
   permanent (lsids wdev') =
   Z.max (permanent (lsids wdev)) (logpack_lsid (logpack_header_sector z))).
Proof.
  intros Hl Hlen Hcl Herr Hfc Hn Ht Hh Hd.
  unfold wait_for_logpack_and_submit_datapack.
  rewrite Hl, Hh, Hfc. simpl. rewrite Hd. simpl.
  set (lsid0 := logpack_lsid (logpack_header_sector z)).
  assert (Hnext : get_next_lsid_unsafe (logpack_header_sector z) = lsid0).
  { unfold get_next_lsid_unsafe. rewrite Hn, Ht. reflexivity. }
  rewrite Hnext.
  unfold waitlog_one, wait_for_bio_wrapper. rewrite Hcl. simpl.
  rewrite Herr, Hlen. simpl.
  destruct (is_flush_header z);
    destruct (Z.ltb_spec (permanent (lsids wdev)) lsid0) as [Hp|Hp]; simpl;
    try rewrite Z.ltb_irrefl;
    try (destruct (Z.ltb_spec (permanent (lsids wdev)) lsid0) as [Hp'|Hp']; [|lia]);
    try (destruct (Z.ltb_spec (permanent (lsids wdev)) lsid0) as [Hp'|Hp']; [lia|]);
    destruct (has_flag (flush_flags (par wdev)) REQ_FLUSH); simpl;
    repeat match goal with
           | |- context [is_permanent_log_empty ?x] =>
             destruct (is_permanent_log_empty x)
           end;
    simpl; repeat split; try reflexivity; try lia; try discriminate.
Qed.

(** A write of zero length that carries a flush always opens a pack of
    its own. *)
Lemma zero_flush_opens_pack (b : builder) (biow : bio_wrapper)
      (ring_size max_pb : Z) (wp : walb_params) (now : Z) :
  (forall lsid0 bio0, bi_sectors bio0 = 0 ->
     walb_logpack_header_add_bio K (mk_logpack_header lsid0 0 0 0 0 []) bio0
       (physical_bs wp) ring_size =
     (true, mk_logpack_header lsid0 0 0 0 0 [])) ->
  (forall p0, wpackp b = Some p0 ->
     biow_list p0 <> [] /\ 0 <= n_records (logpack_header_sector p0)) ->
  bi_sectors (biow_bio biow) = 0 ->
  has_flag (bi_rw (biow_bio biow)) REQ_FLUSH = true ->
  let b1 := snd (writepack_add_bio_wrapper K b biow ring_size max_pb wp now true) in
  wpackp b1 =
  Some (mk_pack [biow] (mk_logpack_header (latest_lsidp b1) 0 0 0 0 []) None
                false true false false).
Proof.
  intros Hlaw Hcur Hsz Hfl b1.
  assert (Hnew : forall cur,
            wpackp (snd (writepack_newpack K b cur biow ring_size wp now true)) =
            Some (mk_pack [biow]
                    (mk_logpack_header
                       (latest_lsidp (snd (writepack_newpack K b cur biow ring_size wp now true)))
                       0 0 0 0 []) None false true false false)).
  { intros cur. unfold writepack_newpack. simpl.
    rewrite (Hlaw _ _ Hsz). simpl.
    unfold writepack_fin, take_record_lsid. simpl. rewrite Hfl. simpl.
    destruct cur; reflexivity. }
  subst b1. unfold writepack_add_bio_wrapper.
  destruct (wpackp b) as [p0|] eqn:Hp; [|apply Hnew].
  destruct (Hcur p0 eq_refl) as [Hne Hn].
  destruct (is_zero_flush_only_pack p0) eqn:Hz; [apply Hnew|].
  assert (Hpos : 0 < n_records (logpack_header_sector p0)).
  { unfold is_zero_flush_only_pack in Hz. destruct (biow_list p0); [congruence|].
    simpl in Hz. rewrite andb_true_r in Hz. apply Z.eqb_neq in Hz. lia. }
  apply Z.ltb_lt in Hpos. rewrite Hpos, Hfl. cbn [andb orb]. apply Hnew.
Qed.

(** C5. A write of zero length that carries a flush is put alone at the
    head of a new pack and adds no record to its header; whatever write
    follows goes to another pack, so the pack is closed with no record,
    and [is_zero_flush_only] is set exactly for the packs that close so.
    Such a pack is submitted to the log device as one bare flush,
    without header or payload. When that flush has completed without
    error, the bio of the write is completed with success, nothing is
    queued for the data stage or submitted to the data device, and
    [permanent] is raised to the lsid of the pack. *)
Theorem zero_flush_pack_lifecycle (b : builder) (biow : bio_wrapper)
        (wdev : walb_dev) (now : Z) (done : bio -> Z) (n_fail : bio_wrapper -> nat) :
  (forall lsid0 bio0, bi_sectors bio0 = 0 ->
     walb_logpack_header_add_bio K (mk_logpack_header lsid0 0 0 0 0 []) bio0
       (physical_bs (par wdev)) (ring_buffer_size (par wdev)) =
     (true, mk_logpack_header lsid0 0 0 0 0 [])) ->
  (forall p0, wpackp b = Some p0 ->
     biow_list p0 <> [] /\ 0 <= n_records (logpack_header_sector p0)) ->
  bi_sectors (biow_bio biow) = 0 -> len biow = 0 ->
  has_flag (bi_rw (biow_bio biow)) REQ_FLUSH = true ->
  cloned_bioe biow = None -> error biow = 0 ->
  done (mk_bio (ldev (par wdev)) WRITE_FLUSH 0 0) = 0 ->
  let wp := par wdev in
  let b1 := snd (writepack_add_bio_wrapper K b biow (ring_buffer_size wp)
                   (max_logpack_pb wp) wp now true) in
  let p := mk_pack [biow] (mk_logpack_header (latest_lsidp b1) 0 0 0 0 []) None
                   false true false false in
  let sealed := set_is_zero_flush_only p true in
  (* packing *)
  wpackp b1 = Some p /\
  (forall biow2 now2,
     wpack_list (snd (writepack_add_bio_wrapper K b1 biow2 (ring_buffer_size wp)
                        (max_logpack_pb wp) wp now2 true)) =
     wpack_list b1 ++ [sealed]) /\
  (exists last, wpack_list (close_last_pack wp now b1) = wpack_list b1 ++ [last] /\
                biow_list last = [biow] /\ is_zero_flush_only last = true /\
                logpack_header_sector last = logpack_header_sector p) /\
  (forall q, is_zero_flush_only q = false ->
     (is_zero_flush_only (writepack_check_and_set_flush q) = true <->
      n_records (logpack_header_sector q) = 0)) /\
  (* submission and completion *)
  (forall z, biow_list z = [biow] ->
     logpack_header_sector z = logpack_header_sector p ->
     is_zero_flush_only z = true -> is_flush_contained z = true ->
     let '(z1, ev1) := submit_one_logpack K wp z in
     ev1 = [Ev_generic_make_request (mk_bio (ldev wp) WRITE_FLUSH 0 0)] /\
     let '(wdev', z2, ev2) :=
       wait_for_logpack_and_submit_datapack K done n_fail now wdev z1 in
     bio_endios ev2 = [(biow_bio biow, 0)] /\
     submitted_bios ev2 = [] /\
     biow_list z2 = [] /\
     datapack_submit_queue (iocored wdev') = datapack_submit_queue (iocored wdev) /\
     logpack_lsid (logpack_header_sector z) <= permanent (lsids wdev') /\
     (has_flag (flush_flags wp) REQ_FLUSH = true ->
      permanent (lsids wdev') =
      Z.max (permanent (lsids wdev)) (logpack_lsid (logpack_header_sector z)))).
Proof.
  intros Hlaw Hcur Hsz Hlen Hfl Hcl Herr Hd wp b1 p sealed.
  assert (Hp : wpackp b1 = Some p).
  { apply (zero_flush_opens_pack b biow (ring_buffer_size wp) (max_logpack_pb wp) wp now);
      assumption. }
  split; [exact Hp|]. split; [|split; [|split]].
  - intros biow2 now2. unfold writepack_add_bio_wrapper. rewrite Hp.
    change (is_zero_flush_only_pack p) with true. cbv iota.
    destruct (writepack_newpack_ok b1 (Some p) biow2 (ring_buffer_size wp) wp now2)
      as (_ & -> & _). reflexivity.
  - unfold close_last_pack. rewrite Hp. simpl.
    destruct (_ || _); simpl; eexists; (split; [reflexivity|]); simpl; auto.
  - apply check_and_set_flush_exactly.
  - intros z Hzl Hzh Hzz Hzc.
    rewrite (submit_zero_flush_pack wp z Hzz). split; [reflexivity|].
    pose proof (@wait_zero_flush_pack done n_fail now wdev
                  (set_header_bioe z (Some (mk_bio_entry (mk_bio (ldev wp) WRITE_FLUSH 0 0) 0)))
                  biow (mk_bio (ldev wp) WRITE_FLUSH 0 0)) as Hw.
    simpl in Hw. rewrite Hzh in Hw. simpl in Hw.
    specialize (Hw Hzl Hlen Hcl Herr Hzc eq_refl eq_refl eq_refl Hd).
    rewrite Hzh. simpl. exact Hw.
Qed.


(** *** Log submitter *)

Lemma record_at_app (h : walb_logpack_header) (pre rest : list walb_log_record) :
  record h = pre ++ rest ->
  record_at h (Z.of_nat (length pre)) = hd zero_record rest.
Proof.
  intros Hr. unfold record_at. rewrite Hr, Nat2Z.id.
  rewrite app_nth2 by lia. rewrite Nat.sub_diag. destruct rest; reflexivity.
Qed.

Lemma submitted_bios_map (l : list bio) :
  submitted_bios (map Ev_generic_make_request l) = l.
Proof. unfold submitted_bios. induction l; simpl; congruence. Qed.

Lemma submitted_bios_app (a b : list event) :
  submitted_bios (a ++ b) = submitted_bios a ++ submitted_bios b.
Proof. apply flat_map_app. Qed.

(** The step of the loop of [submit_logpack] for a wrapper whose record
    is [r]. *)
Lemma submit_logpack_step (biow : bio_wrapper) (r : walb_log_record)
      (pbs ldev0 ring_off ring_size chunk_sectors : Z) :
  len biow <> 0 -> cloned_bioe biow = None ->
  let '(biow', ev) :=
    if rec_discard r then (biow, [])
    else if len biow =? 0 then logpack_submit_bio_wrapper_zero K biow pbs ldev0
    else logpack_submit_bio_wrapper K biow (rec_lsid r) pbs ldev0 ring_off ring_size
                                    chunk_sectors in
  cloned_sector biow' =
    (if rec_discard r then None
     else Some (wrap64 (addr_lb K pbs (ring_position ring_off ring_size (rec_lsid r)) + 0))) /\
  submitted_bios ev =
    match cloned_bioe biow' with
    | Some e => split_bio_for_chunk K (bioe_bio e) chunk_sectors
    | None => []
    end /\
  match cloned_bioe biow' with
  | Some e => bi_bdev (bioe_bio e) = ldev0
  | None => True
  end.
Proof.
  intros Hlen Hcl. destruct (rec_discard r).
  - unfold cloned_sector. rewrite Hcl. auto.
  - destruct (Z.eqb_spec (len biow) 0) as [|_]; [contradiction|].
    unfold logpack_submit_bio_wrapper, cloned_sector. simpl.
    rewrite submitted_bios_map. auto.
Qed.

Lemma submit_logpack_loop_positions (logh : walb_logpack_header)
      (pbs ldev0 ring_off ring_size chunk_sectors : Z)
      (rest : list walb_log_record) (l : list bio_wrapper) :
  paired rest l ->
  Forall (fun w => len w <> 0 /\ cloned_bioe w = None) l ->
  forall pre, record logh = pre ++ rest ->
  let '(l', ev) := submit_logpack_loop K logh l (Z.of_nat (length pre)) pbs ldev0
                     ring_off ring_size chunk_sectors in
  map cloned_sector l' =
    map (fun r => if rec_discard r then None
                  else Some (wrap64 (addr_lb K pbs
                               (ring_position ring_off ring_size (rec_lsid r)) + 0)))
        (filter (fun r => negb (rec_padding r)) rest) /\
  submitted_bios ev =
    flat_map (fun w => match cloned_bioe w with
                       | Some e => split_bio_for_chunk K (bioe_bio e) chunk_sectors
                       | None => []
                       end) l' /\
  Forall (fun w => match cloned_bioe w with
                   | Some e => bi_bdev (bioe_bio e) = ldev0
                   | None => True
                   end) l'.
Proof.
  induction 1 as [|r recs w l Hr Hp IH|pad r recs w l Hpad Hr Hp IH];
    intros Hall pre Hrec.
  - simpl. auto.
  - inversion Hall as [|? ? [Hlen Hcl] Hall']; subst.
    cbn [submit_logpack_loop].
    rewrite (record_at_app logh pre (r :: recs) Hrec). cbn [hd]. rewrite Hr.
    rewrite (record_at_app logh pre (r :: recs) Hrec). cbn [hd].
    pose proof (submit_logpack_step w r pbs ldev0 ring_off ring_size chunk_sectors
                  Hlen Hcl) as Hstep.
    destruct (if rec_discard r then _ else _) as [biow' ev].
    specialize (IH Hall' (pre ++ [r])).
    rewrite length_app, Nat2Z.inj_add in IH. simpl in IH.
    rewrite <- app_assoc in IH. specialize (IH Hrec).
    destruct (submit_logpack_loop K logh l (Z.of_nat (length pre) + 1) pbs ldev0
                ring_off ring_size chunk_sectors) as [tl' ev'].
    destruct Hstep as (Hs1 & Hs2 & Hs3). destruct IH as (IH1 & IH2 & IH3).
    cbn [filter]. rewrite Hr. cbn [negb map flat_map].
    rewrite submitted_bios_app, Hs1, Hs2, IH1, IH2. auto.
  - inversion Hall as [|? ? [Hlen Hcl] Hall']; subst.
    cbn [submit_logpack_loop].
    rewrite (record_at_app logh pre (pad :: r :: recs) Hrec). cbn [hd]. rewrite Hpad.
    assert (Hrec' : record logh = (pre ++ [pad]) ++ r :: recs)
      by (now rewrite <- app_assoc).
    pose proof (record_at_app logh (pre ++ [pad]) (r :: recs) Hrec') as Hat.
    rewrite length_app, Nat2Z.inj_add in Hat. simpl in Hat. rewrite Hat. cbn [hd].
    pose proof (submit_logpack_step w r pbs ldev0 ring_off ring_size chunk_sectors
                  Hlen Hcl) as Hstep.
    destruct (if rec_discard r then _ else _) as [biow' ev].
    specialize (IH Hall' (pre ++ [pad; r])).
    rewrite length_app, Nat2Z.inj_add in IH. simpl in IH.
    rewrite <- app_assoc in IH. specialize (IH Hrec).
    replace (Z.of_nat (length pre) + 1 + 1) with (Z.of_nat (length pre) + 2) by lia.
    destruct (submit_logpack_loop K logh l (Z.of_nat (length pre) + 2) pbs ldev0
                ring_off ring_size chunk_sectors) as [tl' ev'].
    destruct Hstep as (Hs1 & Hs2 & Hs3). destruct IH as (IH1 & IH2 & IH3).
    cbn [filter]. rewrite Hpad, Hr. cbn [negb map flat_map].
    rewrite submitted_bios_app, Hs1, Hs2, IH1, IH2. auto.
Qed.

(** C7 (as the code has it). For a pack with records, [submit_logpack]
    writes the header block at the physical block
    [logpack_lsid mod ring_buffer_size + ring_buffer_off] of the log
    device, and the payload of every record that is neither padding nor
    discard at the physical block
    [lsid mod ring_buffer_size + ring_buffer_off] taken at the lsid of
    that record; all the bios it submits are the header bio followed by
    the pieces of these clones. *)
Theorem submit_logpack_positions (logh : walb_logpack_header)
        (l : list bio_wrapper) (pbs : Z) (is_flush : bool)
        (ldev0 ring_off ring_size chunk_sectors : Z) :
  paired (record logh) l ->
  Forall (fun w => len w <> 0 /\ cloned_bioe w = None) l ->
  let '(bioe, l', ev) :=
    submit_logpack K logh l pbs is_flush ldev0 ring_off ring_size chunk_sectors in
  bi_bdev (bioe_bio bioe) = ldev0 /\
  bi_sector (bioe_bio bioe) =
    addr_lb K pbs (ring_position ring_off ring_size (logpack_lsid logh)) /\
  map cloned_sector l' =
    map (fun r => if rec_discard r then None
                  else Some (wrap64 (addr_lb K pbs
                               (ring_position ring_off ring_size (rec_lsid r)))))
        (write_records logh) /\
  Forall (fun w => match cloned_bioe w with
                   | Some e => bi_bdev (bioe_bio e) = ldev0
                   | None => True
                   end) l' /\
  submitted_bios ev =
    bioe_bio bioe ::
    flat_map (fun w => match cloned_bioe w with
                       | Some e => split_bio_for_chunk K (bioe_bio e) chunk_sectors
                       | None => []
                       end) l'.
Proof.
  intros Hp Hall. unfold submit_logpack, logpack_submit_header.
  pose proof (@submit_logpack_loop_positions logh pbs ldev0 ring_off ring_size
                chunk_sectors (record logh) l Hp Hall [] eq_refl) as H.
  simpl in H.
  destruct (submit_logpack_loop K logh l 0 pbs ldev0 ring_off ring_size chunk_sectors)
    as [l' ev'].
  destruct H as (H1 & H2 & H3). simpl.
  repeat split; auto.
  - rewrite H1. unfold write_records. apply map_ext. intros r.
    now rewrite Z.add_0_r.
  - unfold submitted_bios in *. simpl. now rewrite H2.
Qed.

(** *** Waiting for the log to be permanent *)

Lemma signed64_congr (x y : Z) : wrap64 x = wrap64 y -> signed64 x = signed64 y.
Proof. unfold signed64. now intros ->. Qed.

Lemma signed64_small (x : Z) : - 2 ^ 63 <= x < 2 ^ 63 -> signed64 x = x.
Proof.
  intros Hx. unfold signed64, wrap64.
  destruct (Z_lt_le_dec x 0) as [Hneg|Hpos].
  - replace (x mod 2 ^ 64) with (x + 2 ^ 64).
    + destruct (Z.ltb_spec (x + 2 ^ 64) (2 ^ 63)); lia.
    + apply Z.mod_unique with (q := -1); lia.
  - rewrite Z.mod_small by lia. destruct (Z.ltb_spec x (2 ^ 63)); lia.
Qed.

(** The clock test of the waiting loop, [d] jiffies after
    [wait_for_log_permanent] was entered with the interval [itv]. *)
Lemma time_is_after_timeout (now now_k d itv : Z) :
  wrap64 now_k = wrap64 (now + d) ->
  - 2 ^ 63 <= d - itv < 2 ^ 63 ->
  time_is_after_jiffies now_k (wrap64 (now + itv)) = (d <? itv).
Proof.
  intros Hk Hd. unfold time_is_after_jiffies.
  rewrite (@signed64_congr _ (d - itv)).
  - rewrite signed64_small by assumption.
    destruct (Z.ltb_spec (d - itv) 0), (Z.ltb_spec d itv); auto; lia.
  - unfold wrap64 in *. rewrite Zminus_mod_idemp_r.
    rewrite Zminus_mod, Hk, <- Zminus_mod. f_equal. lia.
Qed.

(** What the forced flush leaves. *)
Lemma force_log_flush_result (wdev : walb_dev) (now flush_err : Z) :
  let r := force_log_flush wdev now flush_err in
  par (fst r) = par wdev /\
  latest (lsids (fst r)) = latest (lsids wdev) /\
  flush (lsids (fst r)) = Z.max (flush (lsids wdev)) (latest (lsids wdev)) /\
  permanent (lsids (fst r)) = Z.max (permanent (lsids wdev)) (latest (lsids wdev)) /\
  completed (lsids (fst r)) = completed (lsids wdev) /\
  written (lsids (fst r)) = written (lsids wdev) /\
  oldest (lsids (fst r)) = oldest (lsids wdev) /\
  IOCORE_STATE_READ_ONLY (flags (iocored (fst r))) =
    (IOCORE_STATE_READ_ONLY (flags (iocored wdev)) || negb (flush_err =? 0)) /\
  issued_flushes (snd r) = [ldev (par wdev)] /\
  bio_endios (snd r) = [] /\ submitted_bios (snd r) = [].
Proof.
  unfold force_log_flush.
  destruct (Z.ltb_spec (flush (lsids wdev)) (latest (lsids wdev))) as [Hf|Hf];
    destruct (flush_err =? 0); simpl;
    destruct (Z.ltb_spec (permanent (lsids wdev)) (latest (lsids wdev))) as [Hp|Hp];
    simpl;
    repeat match goal with
           | |- context [is_permanent_log_empty ?x] =>
             destruct (is_permanent_log_empty x)
           end;
    simpl; repeat split; try reflexivity; try lia;
    try (now rewrite orb_true_r); try (now rewrite orb_false_r).
Qed.

Lemma issued_flushes_sleeps (k : nat) (ev : list event) :
  issued_flushes (repeat (Ev_msleep 1) k ++ ev) = issued_flushes ev /\
  bio_endios (repeat (Ev_msleep 1) k ++ ev) = bio_endios ev /\
  submitted_bios (repeat (Ev_msleep 1) k ++ ev) = submitted_bios ev.
Proof. induction k; simpl; auto. Qed.

(** The waiting loop ends: once the interval has passed on the clock the
    flush is forced, whatever the other two tests say. *)
Lemma wait_loop_forces (wdev : walb_dev) (lsid0 now tick flush_err itv : Z) :
  0 < tick < 2 ^ 63 -> 0 <= itv < 2 ^ 63 ->
  permanent (lsids wdev) <= lsid0 ->
  forall (n : nat) (now_k d : Z),
    wrap64 now_k = wrap64 (now + d) -> 0 <= d -> d - itv < tick ->
    itv - d <= Z.of_nat n * tick ->
    exists k now',
      wait_for_log_permanent_loop (S n) wdev lsid0 (wrap64 (now + itv)) now_k tick
                                  flush_err =
      Some (fst (force_log_flush wdev now' flush_err),
            repeat (Ev_msleep 1) k ++ snd (force_log_flush wdev now' flush_err)).
Proof.
  intros Htick Hitv Hperm. induction n as [|n IH]; intros now_k d Hk Hd0 Hd1 Hd2.
  - cbn [wait_for_log_permanent_loop].
    destruct (Z.ltb_spec lsid0 (permanent (lsids wdev))); [lia|].
    rewrite (@time_is_after_timeout now now_k d itv Hk) by lia.
    destruct (Z.ltb_spec d itv); [lia|]. cbn [andb].
    exists O, now_k. simpl. now destruct (force_log_flush wdev now_k flush_err).
  - remember (S n) as m eqn:Hm. cbn [wait_for_log_permanent_loop].
    destruct (Z.ltb_spec lsid0 (permanent (lsids wdev))); [lia|].
    rewrite (@time_is_after_timeout now now_k d itv Hk) by lia.
    destruct (Z.ltb_spec d itv) as [Hlt|Hge].
    + destruct (_ && _ && _).
      * subst m.
        destruct (IH (wrap64 (now_k + tick)) (d + tick)) as (k & now' & ->); try lia.
        { unfold wrap64 in *. rewrite Z.mod_mod by lia.
          rewrite Zplus_mod, Hk, <- Zplus_mod. f_equal. lia. }
        exists (S k), now'. reflexivity.
      * exists O, now_k. simpl. now destruct (force_log_flush wdev now_k flush_err).
    + cbn [andb]. exists O, now_k. simpl.
      now destruct (force_log_flush wdev now_k flush_err).
Qed.

(** C2. With [log_flush_interval_jiffies] zero [wait_for_log_permanent]
    returns at once and changes nothing. Otherwise it returns, and then
    either the lsid was already below [permanent] and nothing was done, or
    the call has raised [flush] to [latest], issued one flush of the log device and
    raised [permanent] to [latest]; if that flush reported an error the
    device is in read-only mode afterwards. *)
Theorem wait_for_log_permanent_spec (fuel : nat) (wdev : walb_dev)
        (lsid0 now tick flush_err : Z) :
  let itv := log_flush_interval_jiffies (par wdev) in
  0 <= itv < 2 ^ 63 -> 0 < tick < 2 ^ 63 -> itv < Z.of_nat fuel ->
  exists wdev' ev,
    wait_for_log_permanent fuel wdev lsid0 now tick flush_err = Some (wdev', ev) /\
    (itv = 0 -> wdev' = wdev /\ ev = []) /\
    (itv <> 0 ->
     (lsid0 < permanent (lsids wdev) /\ wdev' = wdev /\ ev = []) \/
     (permanent (lsids wdev) <= lsid0 /\
      latest (lsids wdev') = latest (lsids wdev) /\
      flush (lsids wdev') = Z.max (flush (lsids wdev)) (latest (lsids wdev)) /\
      permanent (lsids wdev') = Z.max (permanent (lsids wdev)) (latest (lsids wdev)) /\
      (flush (lsids wdev) <= latest (lsids wdev) ->
       flush (lsids wdev') = latest (lsids wdev)) /\
      (permanent (lsids wdev) <= latest (lsids wdev) ->
       permanent (lsids wdev') = latest (lsids wdev)) /\
      issued_flushes ev = [ldev (par wdev)] /\
      (flush_err <> 0 -> IOCORE_STATE_READ_ONLY (flags (iocored wdev')) = true) /\
      (flush_err = 0 -> IOCORE_STATE_READ_ONLY (flags (iocored wdev')) =
                        IOCORE_STATE_READ_ONLY (flags (iocored wdev))))).
Proof.
  intros itv Hitv Htick Hfuel. unfold wait_for_log_permanent. fold itv.
  destruct (Z.eqb_spec itv 0) as [H0|H0].
  { exists wdev, []. repeat split; auto. contradiction. }
  destruct fuel as [|n]; [simpl in Hfuel; lia|].
  destruct (Z_lt_le_dec lsid0 (permanent (lsids wdev))) as [Hlt|Hge].
  - exists wdev, []. cbn [wait_for_log_permanent_loop].
    destruct (Z.ltb_spec lsid0 (permanent (lsids wdev))); [|lia].
    split; [reflexivity|]. split; [contradiction|]. intros _. left. auto.
  - destruct (@wait_loop_forces wdev lsid0 now tick flush_err itv Htick Hitv Hge
                n now 0) as (k & now' & ->); try lia.
    { f_equal. lia. }
    { nia. }
    eexists _, _. split; [reflexivity|]. split; [contradiction|]. intros _. right.
    destruct (force_log_flush_result wdev now' flush_err)
      as (_ & Hl & Hf & Hp & _ & _ & _ & Hro & Hfl & _).
    destruct (issued_flushes_sleeps k (snd (force_log_flush wdev now' flush_err)))
      as (Hi & _).
    rewrite Hi, Hl, Hf, Hp, Hro, Hfl.
    split; [exact Hge|]. split; [reflexivity|]. split; [reflexivity|].
    split; [reflexivity|]. split; [intros Hx; lia|]. split; [intros Hx; lia|].
    split; [reflexivity|]. split.
    + intros Hne. apply Z.eqb_neq in Hne. rewrite Hne. apply orb_true_r.
    + intros ->. simpl. apply orb_false_r.
Qed.

(** *** Throttling *)

Lemma wait_for_bio_wrapper_fields (done : bio -> Z) (biow : bio_wrapper) (del : bool) :
  len (wait_for_bio_wrapper done biow del) = len biow /\
  st_discard (wait_for_bio_wrapper done biow del) = st_discard biow /\
  biow_bio (wait_for_bio_wrapper done biow del) = biow_bio biow.
Proof.
  unfold wait_for_bio_wrapper. destruct (cloned_bioe biow), del; simpl; auto.
Qed.



Lemma clone_for_ddev_fields (wp : walb_params) (biow : bio_wrapper) :
  len (clone_for_ddev K wp biow) = len biow /\
  st_discard (clone_for_ddev K wp biow) = st_discard biow.
Proof. unfold clone_for_ddev. simpl. auto. Qed.






(** *** The watermarks along the pipeline *)

Lemma next_lsid_ge (h : walb_logpack_header) :
  0 <= total_io_size h -> logpack_lsid h <= get_next_lsid_unsafe h.
Proof.
  intros Hs. unfold get_next_lsid_unsafe.
  destruct ((total_io_size h =? 0) && (n_records h =? 0)); lia.
Qed.

Lemma sorted_snoc (l : list Z) (x : Z) :
  StronglySorted Z.le l -> Forall (fun y => y <= x) l ->
  StronglySorted Z.le (l ++ [x]).
Proof.
  induction 1 as [|a l Hs IH Ha]; intros Hx; simpl.
  - repeat constructor.
  - inversion Hx; subst. constructor; [auto|].
    apply Forall_app. split; [exact Ha|]. repeat constructor. assumption.
Qed.

Lemma sorted_app (l1 l2 : list Z) (m : Z) :
  StronglySorted Z.le l1 -> StronglySorted Z.le l2 ->
  Forall (fun y => y <= m) l1 -> Forall (fun y => m <= y) l2 ->
  StronglySorted Z.le (l1 ++ l2).
Proof.
  induction 1 as [|a l Hs IH Ha]; intros H2 Hx Hy; simpl; [exact H2|].
  inversion Hx; subst. constructor; [auto|].
  apply Forall_app. split; [exact Ha|].
  eapply Forall_impl; [|exact Hy]. simpl. intros; lia.
Qed.

Lemma sorted_app_inv (l1 l2 : list Z) :
  StronglySorted Z.le (l1 ++ l2) ->
  StronglySorted Z.le l1 /\ StronglySorted Z.le l2 /\
  Forall (fun x => Forall (fun y => x <= y) l2) l1.
Proof.
  induction l1 as [|a l1 IH]; simpl; intros Hs.
  - repeat split; [constructor|exact Hs|constructor].
  - inversion Hs as [|? ? Hs' Ha]; subst.
    destruct (IH Hs') as (H1 & H2 & H3).
    apply Forall_app in Ha. destruct Ha as [Ha1 Ha2].
    repeat split; [constructor; assumption|assumption|constructor; assumption].
Qed.

Lemma span_within_weaken (lo hi lo' hi' : Z) (s : Z * Z) :
  lo' <= lo -> hi <= hi' -> span_within lo hi s -> span_within lo' hi' s.
Proof. unfold span_within. intros; lia. Qed.

Lemma pack_within_weaken (lo hi lo' hi' : Z) (l : list pack) :
  lo' <= lo -> hi <= hi' ->
  Forall (pack_within lo hi) l -> Forall (pack_within lo' hi') l.
Proof.
  intros H1 H2. apply Forall_impl. intros p.
  apply span_within_weaken; assumption.
Qed.

Lemma pack_within_spans (lo hi : Z) (l : list pack) :
  Forall (pack_within lo hi) l <-> Forall (span_within lo hi) (map lsid_span l).
Proof. symmetry. apply Forall_map. Qed.

Lemma next_of_spans (l : list pack) :
  map next_of l = map snd (map lsid_span l).
Proof. rewrite map_map. reflexivity. Qed.


(** **** The pack builder *)

Section BuilderInv.

Hypothesis laws : kern_laws K.

Lemma writepack_fin_inv (lo : Z) (b : builder) (p : pack) (biow : bio_wrapper)
      (wp : walb_params) (now : Z) :
  lo <= latest_lsidp b ->
  Forall (pack_within lo (latest_lsidp b)) (wpack_list b) ->
  StronglySorted Z.le (map next_of (wpack_list b)) ->
  logpack_lsid (logpack_header_sector p) = latest_lsidp b ->
  0 <= total_io_size (logpack_header_sector p) ->
  builder_inv lo (writepack_fin b p biow wp now).
Proof.
  intros H1 H2 H3 Hl Hs. unfold writepack_fin.
  destruct (has_flag (bi_rw (biow_bio biow)) REQ_FLUSH);
    (constructor; simpl; [assumption|assumption|assumption|]);
    intros q Hq; injection Hq as <-; simpl; auto.
Qed.

Lemma seal_inv (lo : Z) (b : builder) (p : pack) :
  builder_inv lo b ->
  logpack_lsid (logpack_header_sector p) = latest_lsidp b ->
  0 <= total_io_size (logpack_header_sector p) ->
  forall (p' : pack),
    logpack_header_sector p' = logpack_header_sector p ->
    lo <= get_next_lsid_unsafe (logpack_header_sector p) /\
    Forall (pack_within lo (get_next_lsid_unsafe (logpack_header_sector p)))
           (wpack_list b ++ [p']) /\
    StronglySorted Z.le (map next_of (wpack_list b ++ [p'])).
Proof.
  intros [H1 H2 H3 H4] Hl Hs p' Hh.
  pose proof (next_lsid_ge _ Hs) as Hn.
  assert (Hp' : next_of p' = get_next_lsid_unsafe (logpack_header_sector p))
    by (unfold next_of; rewrite Hh; reflexivity).
  split; [lia|]. split.
  - apply Forall_app. split.
    + eapply pack_within_weaken; [| |exact H2]; lia.
    + repeat constructor; unfold lsid_span; rewrite Hp', Hh; simpl; lia.
  - rewrite map_app. simpl. apply sorted_snoc; [exact H3|].
    rewrite Forall_map. eapply Forall_impl; [|exact H2].
    intros q (_ & _ & Hq). simpl in Hq. unfold lsid_span in Hq. simpl in Hq. lia.
Qed.

Lemma check_and_set_flush_header (p : pack) :
  logpack_header_sector (writepack_check_and_set_flush p) = logpack_header_sector p.
Proof.
  unfold writepack_check_and_set_flush.
  destruct (n_records (logpack_header_sector p) =? 0); reflexivity.
Qed.

Lemma writepack_newpack_inv (lo : Z) (b : builder) (cur : option pack)
      (biow : bio_wrapper) (ring_size : Z) (wp : walb_params) (now : Z) :
  builder_inv lo b ->
  (forall p, cur = Some p ->
     logpack_lsid (logpack_header_sector p) = latest_lsidp b /\
     0 <= total_io_size (logpack_header_sector p)) ->
  builder_inv lo (snd (writepack_newpack K b cur biow ring_size wp now true)).
Proof.
  intros Hb Hcur. unfold writepack_newpack. cbv zeta.
  cbn [create_writepack]. cbn [snd].
  destruct cur as [p|].
  - destruct (Hcur p eq_refl) as [Hl Hs].
    destruct (@seal_inv lo b p Hb Hl Hs (writepack_check_and_set_flush p)
                (check_and_set_flush_header p)) as (S1 & S2 & S3).
    apply writepack_fin_inv; cbn [latest_lsidp wpack_list]; try assumption.
    + cbn [set_header logpack_header_sector]. apply (law_lsid laws).
    + cbn [set_header logpack_header_sector]. apply (law_size laws). simpl. lia.
  - destruct Hb as [H1 H2 H3 H4].
    apply writepack_fin_inv; try assumption.
    + cbn [set_header logpack_header_sector]. apply (law_lsid laws).
    + cbn [set_header logpack_header_sector]. apply (law_size laws). simpl. lia.
Qed.

Lemma writepack_add_bio_wrapper_inv (lo : Z) (b : builder) (biow : bio_wrapper)
      (ring_size max_pb : Z) (wp : walb_params) (now : Z) :
  builder_inv lo b ->
  builder_inv lo
    (snd (writepack_add_bio_wrapper K b biow ring_size max_pb wp now true)).
Proof.
  intros Hb. unfold writepack_add_bio_wrapper. cbv zeta.
  destruct (wpackp b) as [p|] eqn:Hp.
  - destruct (bld_cur Hb Hp) as [Hl Hs].
    assert (Hcur : forall q, Some p = Some q ->
              logpack_lsid (logpack_header_sector q) = latest_lsidp b /\
              0 <= total_io_size (logpack_header_sector q))
      by (intros q Hq; injection Hq as <-; auto).
    destruct (is_zero_flush_only_pack p);
      [apply writepack_newpack_inv; assumption|].
    destruct ((0 <? n_records (logpack_header_sector p)) &&
              (has_flag (bi_rw (biow_bio biow)) REQ_FLUSH ||
               is_pack_size_too_large K (logpack_header_sector p)
                 (physical_bs wp) max_pb biow));
      [apply writepack_newpack_inv; assumption|].
    pose proof (law_lsid laws (logpack_header_sector p) (biow_bio biow)
                  (physical_bs wp) ring_size) as Ll.
    pose proof (law_size laws (logpack_header_sector p) (biow_bio biow)
                  (physical_bs wp) ring_size Hs) as Ls.
    destruct (negb (fst (walb_logpack_header_add_bio K (logpack_header_sector p)
                           (biow_bio biow) (physical_bs wp) ring_size))).
    + apply writepack_newpack_inv; [assumption|].
      intros q Hq. injection Hq as <-. simpl. rewrite Ll. auto.
    + cbn [snd]. destruct Hb as [H1 H2 H3 H4].
      apply writepack_fin_inv; try assumption; simpl; try rewrite Ll; assumption.
  - apply writepack_newpack_inv; [assumption|]. intros q Hq. discriminate.
Qed.

Lemma pack_bio_wrappers_inv (lo : Z) (wp : walb_params) (now : Z)
      (l : list bio_wrapper) :
  forall b, builder_inv lo b -> builder_inv lo (pack_bio_wrappers K wp now l b).
Proof.
  unfold pack_bio_wrappers. induction l as [|w l IH]; simpl; intros b Hb; [exact Hb|].
  apply IH. apply writepack_add_bio_wrapper_inv. exact Hb.
Qed.

(** When [create_logpack_list] reaches its overflow check the packs it
    built follow one another from the latest lsid of the device to the
    new one. *)
Lemma packed_spans (wdev : walb_dev) (l : list bio_wrapper) (now : Z) :
  let b := packed K wdev l now in
  latest (lsids wdev) <= latest_lsidp b /\
  Forall (pack_within (latest (lsids wdev)) (latest_lsidp b)) (wpack_list b) /\
  StronglySorted Z.le (map next_of (wpack_list b)).
Proof.
  unfold packed.
  set (b0 := mk_builder [] None (latest (lsids wdev)) (flush (lsids wdev))
                        (log_flush_jiffies (iocored wdev))).
  assert (H0 : builder_inv (latest (lsids wdev)) b0).
  { constructor; simpl; [lia|constructor|constructor|discriminate]. }
  pose proof (pack_bio_wrappers_inv (par wdev) now l H0) as Hb.
  set (b1 := pack_bio_wrappers K (par wdev) now l b0) in *.
  unfold close_last_pack.
  destruct (wpackp b1) as [p|] eqn:Hp.
  - destruct (bld_cur Hb Hp) as [Hl Hs].
    destruct (@seal_inv _ b1 p Hb Hl Hs (writepack_check_and_set_flush p)
                (check_and_set_flush_header p)) as (S1 & S2 & S3).
    destruct (@seal_inv _ b1 p Hb Hl Hs
                (set_is_flush_header (writepack_check_and_set_flush p) true)
                (check_and_set_flush_header p)) as (_ & T2 & T3).
    cbv zeta.
    match goal with |- context [if ?c then _ else _] => destruct c end;
      simpl; auto.
  - destruct Hb as [H1 H2 H3 H4]. simpl. auto.
Qed.

End BuilderInv.

(** **** Submission of the log *)

Lemma submit_one_logpack_span (wp : walb_params) (p : pack) :
  lsid_span (fst (submit_one_logpack K wp p)) = lsid_span p.
Proof.
  unfold submit_one_logpack.
  destruct (is_zero_flush_only p); [reflexivity|].
  destruct (submit_logpack K _ _ _ _ _ _ _ _) as [[bioe l] ev]. reflexivity.
Qed.

Lemma submit_logpack_list_spans (wp : walb_params) (l : list pack) :
  map lsid_span (fst (submit_logpack_list K wp l)) = map lsid_span l.
Proof.
  induction l as [|p l IH]; [reflexivity|]. simpl.
  pose proof (submit_one_logpack_span wp p) as Hp.
  destruct (submit_one_logpack K wp p) as [p' ev].
  destruct (submit_logpack_list K wp l) as [l' ev']. simpl in *.
  now rewrite Hp, IH.
Qed.

Lemma create_logpack_list_lsids (wdev : walb_dev) (l : list bio_wrapper) (now : Z) :
  kern_laws K ->
  let r := create_logpack_list K mp wdev l now in
  let wdev' := snd (fst r) in
  let packs := snd (fst (fst r)) in
  par wdev' = par wdev /\
  logpack_gc_queue (iocored wdev') = logpack_gc_queue (iocored wdev) /\
  logpack_wait_queue (iocored wdev') = logpack_wait_queue (iocored wdev) /\
  latest (lsids wdev) <= latest (lsids wdev') /\
  flush (lsids wdev) <= flush (lsids wdev') /\
  permanent (lsids wdev') = permanent (lsids wdev) /\
  completed (lsids wdev') = completed (lsids wdev) /\
  written (lsids wdev') = written (lsids wdev) /\
  oldest (lsids wdev') = oldest (lsids wdev) /\
  Forall (pack_within (latest (lsids wdev)) (latest (lsids wdev'))) packs /\
  StronglySorted Z.le (map next_of packs).
Proof.
  intros laws. destruct (packed_spans laws wdev l now) as (P1 & P2 & P3).
  unfold create_logpack_list. cbv zeta.
  set (b := packed K wdev l now) in *.
  destruct (is_error_before_overflow_ mp &&
            (ring_buffer_size (par wdev) <?
             wrap64 (latest_lsidp b - oldest (lsids wdev)))).
  { simpl. repeat split; try lia; constructor. }
  destruct (Z.ltb_spec (flush (set_latest (lsids wdev) (latest_lsidp b)))
                       (flush_lsidp b)) as [Hf|Hf];
    destruct (wrap64 (latest_lsidp b - oldest (lsids wdev)) >?
              ring_buffer_size (par wdev));
    simpl in *;
    try destruct (IOCORE_STATE_LOG_OVERFLOW (flags (iocored wdev)));
    simpl; repeat split; try lia; assumption.
Qed.

Lemma lsids_advance_refl (fc : bool) (l : lsid_set) : lsids_advance fc l l.
Proof. unfold lsids_advance. repeat split; lia. Qed.

Lemma same_log_state_keeps (w w' : walb_dev) :
  same_log_state w w' -> pipeline_inv w -> keeps_watermarks w w'.
Proof.
  intros (Hp & Hl & Hg & Hw) [I1 I2 I3 I4]. split; [exact Hp|]. split.
  - constructor; rewrite ?Hl, ?Hg, ?Hw; assumption.
  - rewrite Hl. apply lsids_advance_refl.
Qed.

Lemma within_next_le (lo hi : Z) (l : list pack) :
  Forall (pack_within lo hi) l -> Forall (fun y => y <= hi) (map next_of l).
Proof.
  intros H. rewrite Forall_map. eapply Forall_impl; [|exact H].
  intros p (_ & _ & Hp). exact Hp.
Qed.

Lemma within_next_ge (lo hi : Z) (l : list pack) :
  Forall (pack_within lo hi) l -> Forall (fun y => lo <= y) (map next_of l).
Proof.
  intros H. rewrite Forall_map. eapply Forall_impl; [|exact H].
  intros p (_ & Hp & _). exact Hp.
Qed.

(** One round of the log submitter. *)
Lemma task_submit_logpack_list_keeps (wdev : walb_dev) (now : Z) :
  kern_laws K -> pipeline_inv wdev ->
  keeps_watermarks wdev (fst (task_submit_logpack_list K mp wdev now)).
Proof.
  intros laws Hinv. unfold task_submit_logpack_list. cbv zeta.
  destruct (logpack_submit_queue (iocored wdev)) as [|w0 q] eqn:Hq.
  { apply same_log_state_keeps; [repeat split|exact Hinv]. }
  destruct (dequeue_bulk (n_io_bulk (par wdev)) (w0 :: q)) as [taken rest].
  set (wdev1 := set_iocored wdev (set_logpack_submit_queue (iocored wdev) rest)).
  assert (H1 : same_log_state wdev wdev1) by (repeat split).
  destruct (IOCORE_STATE_READ_ONLY (flags (iocored wdev))).
  { apply same_log_state_keeps; assumption. }
  pose proof (create_logpack_list_lsids wdev1
                (map bio_wrapper_state_set_started taken) now laws) as Hc.
  destruct (create_logpack_list K mp wdev1
              (map bio_wrapper_state_set_started taken) now)
    as [[[ret packs] wdev2] ev].
  cbv zeta in Hc. cbn [fst snd] in Hc.
  destruct Hc as (C1 & C2 & C3 & C4 & C5 & C6 & C7 & C8 & C9 & C10 & C11).
  destruct Hinv as [(L1 & L2 & L3 & L4) I2 I3 I4].
  change (lsids wdev1) with (lsids wdev) in *.
  change (par wdev1) with (par wdev) in *.
  change (logpack_gc_queue (iocored wdev1))
    with (logpack_gc_queue (iocored wdev)) in *.
  change (logpack_wait_queue (iocored wdev1))
    with (logpack_wait_queue (iocored wdev)) in *.
  assert (Hadv : lsids_advance (has_flag (flush_flags (par wdev)) REQ_FLUSH)
                               (lsids wdev) (lsids wdev2))
    by (unfold lsids_advance; repeat split; lia).
  assert (Hlinks : lsid_links (lsids wdev2))
    by (unfold lsid_links; repeat split; lia).
  destruct ret; cbn [negb].
  - pose proof (submit_logpack_list_spans (par wdev2) packs) as Hs.
    destruct (submit_logpack_list K (par wdev2) packs) as [packs' ev'].
    cbn [fst] in *.
    split; [exact C1|]. split; [|exact Hadv].
    constructor; cbn [lsids iocored set_iocored set_logpack_wait_queue
                      logpack_gc_queue logpack_wait_queue set_flags
                      enqueue_wait_task_if_necessary enqueue_task_if_necessary];
      rewrite ?C2, ?C3.
    + exact Hlinks.
    + rewrite app_assoc, map_app.
      apply sorted_app with (m := latest (lsids wdev)).
      * exact I2.
      * rewrite next_of_spans, Hs, <- next_of_spans. exact C11.
      * apply (within_next_le I3).
      * rewrite next_of_spans, Hs, <- next_of_spans. apply (within_next_ge C10).
    + rewrite app_assoc. apply Forall_app. split.
      * eapply pack_within_weaken; [| |exact I3]; lia.
      * apply pack_within_spans. rewrite Hs. apply pack_within_spans.
        eapply pack_within_weaken; [| |exact C10]; lia.
    + apply Forall_app. split.
      * rewrite C7. exact I4.
      * apply (Forall_map next_of (fun y => completed (lsids wdev2) <= y)).
        rewrite next_of_spans, Hs, <- next_of_spans.
        eapply Forall_impl; [|exact (within_next_ge C10)].
        simpl. intros; lia.
  - cbn [fst]. split; [exact C1|]. split; [|exact Hadv].
    constructor; rewrite ?C2, ?C3.
    + exact Hlinks.
    + exact I2.
    + eapply pack_within_weaken; [| |exact I3]; lia.
    + rewrite C7. exact I4.
Qed.

(** **** Completion of the log *)

Lemma insert_pending_queues (n_fail : nat) (wp : walb_params) (biow : bio_wrapper)
      (now : Z) :
  forall d,
    logpack_gc_queue (snd (insert_pending n_fail wp d biow now)) = logpack_gc_queue d /\
    logpack_wait_queue (snd (insert_pending n_fail wp d biow now)) = logpack_wait_queue d.
Proof.
  assert (Hs : forall d,
             logpack_gc_queue (snd (should_stop_queue wp d biow now)) =
               logpack_gc_queue d /\
             logpack_wait_queue (snd (should_stop_queue wp d biow now)) =
               logpack_wait_queue d).
  { intros d. unfold should_stop_queue.
    destruct (is_under_throttling d); [auto|].
    destruct (wrap32 (pending_sectors d + len biow) >? max_pending_sectors wp);
      simpl; auto. }
  induction n_fail as [|k IH]; intros d; simpl;
    destruct (Hs d) as [H1 H2];
    destruct (should_stop_queue wp d biow now) as [st d1];
    simpl in H1, H2; destruct (st_discard biow); simpl; auto.
  match goal with |- context [insert_pending k wp ?d' biow now] =>
    destruct (IH d') as [J1 J2] end.
  rewrite J1, J2. simpl. auto.
Qed.

Lemma waitlog_one_same (done : bio -> Z) (n_fail : bio_wrapper -> nat) (now : Z)
      (st : waitlog_state) (biow : bio_wrapper) :
  same_log_state (wl_dev st) (wl_dev (waitlog_one K done n_fail now st biow)).
Proof.
  unfold waitlog_one. cbv zeta.
  destruct (wl_failed st || negb (error (wait_for_bio_wrapper done biow true) =? 0));
    [repeat split|].
  destruct (len (wait_for_bio_wrapper done biow true) =? 0); [repeat split|].
  match goal with |- context [insert_pending ?n ?wp ?d ?b ?t] =>
    destruct (insert_pending_queues n wp b t d) as [J1 J2];
    destruct (insert_pending n wp d b t) as [stop d1] end.
  simpl in J1, J2.
  destruct stop; repeat split; simpl; assumption.
Qed.

Lemma same_log_state_trans (a b c : walb_dev) :
  same_log_state a b -> same_log_state b c -> same_log_state a c.
Proof.
  unfold same_log_state. intros (A1 & A2 & A3 & A4) (B1 & B2 & B3 & B4).
  repeat split; congruence.
Qed.

Lemma waitlog_fold_same (done : bio -> Z) (n_fail : bio_wrapper -> nat) (now : Z)
      (l : list bio_wrapper) :
  forall st,
    same_log_state (wl_dev st)
      (wl_dev (fold_left (waitlog_one K done n_fail now) l st)).
Proof.
  induction l as [|w l IH]; intros st; simpl; [repeat split|].
  eapply same_log_state_trans; [apply waitlog_one_same|apply IH].
Qed.

(** What [wait_for_logpack_and_submit_datapack] does to the watermarks
    for a pack that ends between [completed] and [latest]. *)
Lemma wait_for_logpack_lsids (done : bio -> Z) (n_fail : bio_wrapper -> nat)
      (now : Z) (wdev : walb_dev) (p : pack) (lo : Z) :
  lsid_links (lsids wdev) ->
  pack_within lo (latest (lsids wdev)) p ->
  completed (lsids wdev) <= next_of p ->
  let r := wait_for_logpack_and_submit_datapack K done n_fail now wdev p in
  let wdev' := fst (fst r) in
  par wdev' = par wdev /\
  logpack_gc_queue (iocored wdev') = logpack_gc_queue (iocored wdev) /\
  logpack_wait_queue (iocored wdev') = logpack_wait_queue (iocored wdev) /\
  lsid_span (snd (fst r)) = lsid_span p /\
  latest (lsids wdev') = latest (lsids wdev) /\
  written (lsids wdev') = written (lsids wdev) /\
  oldest (lsids wdev') = oldest (lsids wdev) /\
  permanent (lsids wdev') <= latest (lsids wdev) /\
  completed (lsids wdev) <= completed (lsids wdev') <= next_of p /\
  (has_flag (flush_flags (par wdev)) REQ_FLUSH = true ->
   flush (lsids wdev) <= flush (lsids wdev') /\
   permanent (lsids wdev) <= permanent (lsids wdev')).
Proof.
  intros (L1 & L2 & L3 & L4) (W1 & W2 & W3) Hc.
  unfold lsid_span in W1, W2, W3. cbn [fst snd] in W1, W2, W3.
  unfold next_of in *.
  unfold wait_for_logpack_and_submit_datapack. cbv zeta.
  match goal with |- context [match ?x with (_, _) => _ end] => set (r1 := x) end.
  assert (R : par (fst r1) = par wdev /\ iocored (fst r1) = iocored wdev /\
              latest (lsids (fst r1)) = latest (lsids wdev) /\
              flush (lsids (fst r1)) = flush (lsids wdev) /\
              completed (lsids (fst r1)) = completed (lsids wdev) /\
              written (lsids (fst r1)) = written (lsids wdev) /\
              oldest (lsids (fst r1)) = oldest (lsids wdev) /\
              permanent (lsids wdev) <= permanent (lsids (fst r1)) <=
                latest (lsids wdev)).
  { subst r1.
    destruct (negb _ && is_flush_header p); [|simpl; repeat split; lia].
    destruct (Z.ltb_spec (permanent (lsids wdev))
                         (logpack_lsid (logpack_header_sector p)));
      simpl; repeat split; lia. }
  clearbody r1. destruct r1 as [wdev1 ev1]. cbn [fst] in R.
  destruct R as (R1 & R2 & R3 & R4 & R5 & R6 & R7 & R8).
  match goal with |- context [fold_left ?f ?l ?s] =>
    pose proof (waitlog_fold_same done n_fail now l s) as Hs;
    set (st := fold_left f l s) in * end.
  cbn [wl_dev] in Hs. destruct Hs as (S1 & S2 & S3 & S4).
  clearbody st.
  destruct (wl_failed st).
  { cbn [fst snd]. rewrite S1, S2, S3, S4, R1, R2, R3, R4, R5, R6, R7.
    repeat split; try reflexivity; lia. }
  rewrite S1, R1.
  assert (P0 : permanent (set_completed (lsids (wl_dev st))
                 (get_next_lsid_unsafe (logpack_header_sector p))) =
               permanent (lsids wdev1)) by (rewrite S2; reflexivity).
  rewrite P0.
  destruct (is_flush_contained p);
    destruct (Z.ltb_spec (permanent (lsids wdev1))
                         (logpack_lsid (logpack_header_sector p))) as [Hlt|Hge];
    destruct (has_flag (flush_flags (par wdev)) REQ_FLUSH);
    cbn [andb negb fst snd par lsids iocored set_lsids set_completed
         set_permanent set_flush latest flush completed permanent written
         oldest logpack_header_sector set_header_bioe set_biow_list lsid_span
         next_of];
    rewrite ?S2, ?S3, ?S4, ?R2, ?R3, ?R4, ?R5, ?R6, ?R7;
    unfold lsid_span, next_of; cbn [logpack_header_sector];
    repeat split; try reflexivity; try discriminate; try lia;
    try (intros _; split; lia); congruence.
Qed.

Lemma wait_for_logpacks_lsids (done : bio -> Z) (n_fail : bio_wrapper -> nat)
      (now lo : Z) :
  forall (l : list pack) (wdev : walb_dev),
    lsid_links (lsids wdev) ->
    Forall (pack_within lo (latest (lsids wdev))) l ->
    StronglySorted Z.le (map next_of l) ->
    Forall (fun p => completed (lsids wdev) <= next_of p) l ->
    let r := wait_for_logpacks K done n_fail now wdev l in
    let wdev' := fst (fst r) in
    par wdev' = par wdev /\
    logpack_gc_queue (iocored wdev') = logpack_gc_queue (iocored wdev) /\
    logpack_wait_queue (iocored wdev') = logpack_wait_queue (iocored wdev) /\
    map lsid_span (snd (fst r)) = map lsid_span l /\
    latest (lsids wdev') = latest (lsids wdev) /\
    written (lsids wdev') = written (lsids wdev) /\
    oldest (lsids wdev') = oldest (lsids wdev) /\
    permanent (lsids wdev') <= latest (lsids wdev) /\
    completed (lsids wdev) <= completed (lsids wdev') /\
    (forall m, completed (lsids wdev) <= m ->
               Forall (fun p => next_of p <= m) l ->
               completed (lsids wdev') <= m) /\
    (has_flag (flush_flags (par wdev)) REQ_FLUSH = true ->
     flush (lsids wdev) <= flush (lsids wdev') /\
     permanent (lsids wdev) <= permanent (lsids wdev')).
Proof.
  induction l as [|p l IH]; intros wdev Hl Hw Hs Hc.
  { simpl. destruct Hl as (L1 & L2 & L3 & L4).
    repeat split; try reflexivity; try lia; auto. }
  inversion Hw as [|? ? Hwp Hwl]; subst.
  inversion Hc as [|? ? Hcp Hcl]; subst.
  simpl in Hs. inversion Hs as [|? ? Hsl Hsp]; subst.
  pose proof (@wait_for_logpack_lsids done n_fail now wdev p lo Hl Hwp Hcp) as H1.
  simpl.
  destruct (wait_for_logpack_and_submit_datapack K done n_fail now wdev p)
    as [[wdev1 p'] ev].
  cbv zeta in H1. cbn [fst snd] in H1.
  destruct H1 as (A1 & A2 & A3 & A4 & A5 & A6 & A7 & A8 & A9 & A10).
  destruct Hl as (L1 & L2 & L3 & L4).
  destruct Hwp as (_ & _ & Hp3). unfold lsid_span in Hp3. cbn [snd] in Hp3.
  assert (Hl1 : lsid_links (lsids wdev1))
    by (unfold lsid_links; repeat split; lia).
  assert (Hw1 : Forall (pack_within lo (latest (lsids wdev1))) l)
    by (rewrite A5; exact Hwl).
  assert (Hc1 : Forall (fun q => completed (lsids wdev1) <= next_of q) l).
  { rewrite Forall_map in Hsp. eapply Forall_impl; [|exact Hsp].
    simpl. intros; lia. }
  pose proof (IH wdev1 Hl1 Hw1 Hsl Hc1) as H2.
  destruct (wait_for_logpacks K done n_fail now wdev1 l) as [[wdev2 l'] ev'].
  cbv zeta in H2. cbn [fst snd] in *.
  destruct H2 as (B1 & B2 & B3 & B4 & B5 & B6 & B7 & B8 & B9 & B10 & B11).
  rewrite A1 in B11.
  split; [congruence|]. split; [congruence|]. split; [congruence|].
  split; [simpl; congruence|]. split; [congruence|]. split; [congruence|].
  split; [congruence|]. split; [lia|]. split; [lia|]. split.
  - intros m Hm Hall. inversion Hall; subst. apply B10; [lia|assumption].
  - intros Hf. destruct (A10 Hf), (B11 Hf). split; lia.
Qed.

(** One round of the worker that waits for the log. *)
Lemma task_wait_for_logpack_list_keeps (done : bio -> Z)
      (n_fail : bio_wrapper -> nat) (now : Z) (wdev : walb_dev) :
  pipeline_inv wdev ->
  keeps_watermarks wdev (fst (task_wait_for_logpack_list K done n_fail now wdev)).
Proof.
  intros Hinv. unfold task_wait_for_logpack_list. cbv zeta.
  destruct (logpack_wait_queue (iocored wdev)) as [|p0 q0] eqn:Hq0.
  { apply same_log_state_keeps; [repeat split; symmetry; exact Hq0|exact Hinv]. }
  rewrite <- Hq0. clear p0 q0 Hq0. destruct Hinv as [Hl I2 I3 I4].
  unfold dequeue_bulk. cbv zeta.
  set (n := Z.to_nat (Z.max 1 (n_pack_bulk (par wdev)))).
  set (taken := firstn n (logpack_wait_queue (iocored wdev))).
  set (rest := skipn n (logpack_wait_queue (iocored wdev))).
  assert (Hq : logpack_wait_queue (iocored wdev) = taken ++ rest)
    by (symmetry; apply firstn_skipn).
  rewrite Hq in I2, I3, I4.
  set (wdev1 := set_iocored wdev (set_logpack_wait_queue (iocored wdev) rest)).
  apply Forall_app in I4. destruct I4 as [I4t I4r].
  apply Forall_app in I3. destruct I3 as [I3g I3w].
  apply Forall_app in I3w. destruct I3w as [I3t I3r].
  assert (Hst : StronglySorted Z.le (map next_of taken)).
  { rewrite map_app in I2. apply sorted_app_inv in I2.
    destruct I2 as (_ & I2 & _). rewrite map_app in I2.
    apply sorted_app_inv in I2. tauto. }
  pose proof (@wait_for_logpacks_lsids done n_fail now (written (lsids wdev))
                taken wdev1 Hl I3t Hst I4t) as H1.
  destruct (wait_for_logpacks K done n_fail now wdev1 taken) as [[wdev2 packs] ev].
  cbv zeta in H1. cbn [fst snd] in *.
  change (lsids wdev1) with (lsids wdev) in *.
  change (par wdev1) with (par wdev) in *.
  change (logpack_gc_queue (iocored wdev1))
    with (logpack_gc_queue (iocored wdev)) in *.
  change (logpack_wait_queue (iocored wdev1)) with rest in *.
  destruct H1 as (B1 & B2 & B3 & B4 & B5 & B6 & B7 & B8 & B9 & B10 & B11).
  destruct Hl as (L1 & L2 & L3 & L4).
  split; [exact B1|]. split.
  - constructor; cbn [lsids iocored set_iocored set_logpack_gc_queue
                      logpack_gc_queue logpack_wait_queue set_flags
                      enqueue_submit_data_task_if_necessary
                      enqueue_task_if_necessary];
      rewrite ?B2, ?B3.
    + unfold lsid_links. rewrite B5, B6, B7. repeat split; try lia.
      apply B10; [lia|]. eapply Forall_impl; [|exact I3t].
      intros q (_ & _ & Hq3). exact Hq3.
    + rewrite <- app_assoc, !map_app.
      rewrite (next_of_spans packs), B4, <- next_of_spans.
      rewrite <- !map_app. exact I2.
    + rewrite B5, B6. rewrite <- app_assoc.
      apply Forall_app. split; [exact I3g|]. apply Forall_app. split; [|exact I3r].
      apply pack_within_spans. rewrite B4. apply pack_within_spans. exact I3t.
    + rewrite map_app in I2. apply sorted_app_inv in I2.
      destruct I2 as (_ & I2 & _). rewrite map_app in I2.
      apply sorted_app_inv in I2. destruct I2 as (_ & _ & Hcross).
      (* every pack left in the queue ends no earlier than those taken *)
      apply Forall_forall. intros q Hin.
      apply B10.
      * rewrite Forall_forall in I4r. apply I4r. exact Hin.
      * apply Forall_forall. intros t Ht.
        rewrite Forall_forall in Hcross.
        specialize (Hcross (next_of t) (in_map next_of _ _ Ht)).
        rewrite Forall_forall in Hcross.
        apply Hcross. apply in_map. exact Hin.
  - unfold lsids_advance. cbn [lsids set_iocored].
    rewrite B5, B6, B7. repeat split; try lia; apply B11; assumption.
Qed.

(** **** Entry, data stage and garbage collection *)

Lemma iocore_make_request_same (wdev : walb_dev) (b : bio) (allocated : bool) :
  same_log_state wdev (fst (iocore_make_request K wdev b allocated)).
Proof.
  unfold iocore_make_request. cbv zeta.
  destruct (IOCORE_STATE_FAILURE (flags (iocored wdev)) ||
            (has_flag (bi_rw b) REQ_WRITE && is_read_only_mode (iocored wdev)));
    [repeat split|].
  destruct allocated; [|repeat split].
  destruct (has_flag (bi_rw b) REQ_WRITE); [|repeat split].
  destruct (n_stoppers (iocored wdev) =? 0); repeat split.
Qed.

Lemma force_log_flush_keeps (wdev : walb_dev) (now flush_err : Z) :
  pipeline_inv wdev ->
  keeps_watermarks wdev (fst (force_log_flush wdev now flush_err)).
Proof.
  intros [(L1 & L2 & L3 & L4) I2 I3 I4].
  destruct (force_log_flush_result wdev now flush_err)
    as (F1 & F2 & F3 & F4 & F5 & F6 & F7 & _).
  assert (Hq : logpack_gc_queue (iocored (fst (force_log_flush wdev now flush_err))) =
               logpack_gc_queue (iocored wdev) /\
               logpack_wait_queue (iocored (fst (force_log_flush wdev now flush_err))) =
               logpack_wait_queue (iocored wdev)).
  { unfold force_log_flush. cbv zeta.
    destruct (flush (lsids wdev) <? latest (lsids wdev));
      destruct (negb (flush_err =? 0)); cbn [lsids set_iocored set_lsids];
      match goal with |- context [permanent ?l <? ?x] =>
        destruct (permanent l <? x) end; split; reflexivity. }
  destruct Hq as [Q1 Q2]. cbv zeta in *.
  split; [exact F1|]. split.
  - constructor; rewrite ?Q1, ?Q2, ?F2, ?F5, ?F6.
    + unfold lsid_links. rewrite F2, F4, F5, F6, F7. repeat split; lia.
    + exact I2.
    + exact I3.
    + exact I4.
  - unfold lsids_advance. rewrite F2, F3, F4, F5, F6, F7. repeat split; lia.
Qed.

Lemma wait_loop_result (fuel : nat) (wdev : walb_dev)
      (lsid0 timeout_jiffies tick flush_err : Z) :
  forall (now : Z) (w : walb_dev) (ev : list event),
    wait_for_log_permanent_loop fuel wdev lsid0 timeout_jiffies now tick flush_err =
      Some (w, ev) ->
    w = wdev \/ exists now', w = fst (force_log_flush wdev now' flush_err).
Proof.
  induction fuel as [|k IH]; intros now w ev; simpl; [discriminate|].
  destruct (lsid0 <? permanent (lsids wdev)).
  { intros Hx. injection Hx as <- _. now left. }
  destruct (time_is_after_jiffies now timeout_jiffies &&
            (lsid0 <? wrap64 (flush (lsids wdev) + log_flush_interval_pb (par wdev))) &&
            time_is_after_jiffies now (log_flush_jiffies (iocored wdev))).
  - destruct (wait_for_log_permanent_loop k wdev lsid0 timeout_jiffies
                (wrap64 (now + tick)) tick flush_err) as [[w1 ev1]|] eqn:Hr;
      [|discriminate].
    intros Hx. injection Hx as <- _. eapply IH; eassumption.
  - intros Hx. right. exists now. injection Hx as Hx. rewrite Hx. reflexivity.
Qed.

Lemma same_log_state_inv (w w' : walb_dev) :
  same_log_state w w' -> pipeline_inv w -> pipeline_inv w'.
Proof. intros Hs Hi. exact (proj1 (proj2 (same_log_state_keeps Hs Hi))). Qed.

Lemma keeps_watermarks_frame (w w1 w2 w3 : walb_dev) :
  same_log_state w w1 -> keeps_watermarks w1 w2 -> same_log_state w2 w3 ->
  keeps_watermarks w w3.
Proof.
  intros (A1 & A2 & A3 & A4) (K1 & K2 & K3) (B1 & B2 & B3 & B4).
  rewrite A1, A2 in K3. split; [congruence|]. split.
  - apply (@same_log_state_inv w2 w3); [repeat split; assumption|exact K2].
  - rewrite B2. exact K3.
Qed.

(** One round of the data submitter, when the wait for permanence
    returns. *)
Lemma task_submit_bio_wrapper_list_keeps (fuel : nat) (now tick flush_err : Z)
      (delayed : nat -> bool)
      (wdev wdev' : walb_dev) (ev : list event) :
  pipeline_inv wdev ->
  task_submit_bio_wrapper_list mp fuel now tick flush_err delayed wdev = Some (wdev', ev) ->
  keeps_watermarks wdev wdev'.
Proof.
  intros Hinv. unfold task_submit_bio_wrapper_list. cbv zeta.
  destruct (datapack_submit_queue (iocored wdev)) as [|w0 q].
  { intros Hx. injection Hx as <- _.
    apply same_log_state_keeps; [repeat split|exact Hinv]. }
  destruct (dequeue_bulk (n_io_bulk (par wdev)) (w0 :: q)) as [taken rest].
  set (wdev1 := set_iocored wdev (set_datapack_submit_queue (iocored wdev) rest)).
  assert (H1 : same_log_state wdev wdev1) by (repeat split).
  pose proof (same_log_state_inv H1 Hinv) as Hinv1.
  destruct (wait_for_log_permanent fuel wdev1 _ now tick flush_err)
    as [[wdev2 ev2]|] eqn:Hw; [|discriminate].
  intros Hx. injection Hx as <- _.
  assert (H2 : keeps_watermarks wdev1 wdev2).
  { unfold wait_for_log_permanent in Hw.
    destruct (log_flush_interval_jiffies (par wdev1) =? 0).
    - injection Hw as <- _.
      apply same_log_state_keeps; [repeat split|exact Hinv1].
    - apply wait_loop_result in Hw. destruct Hw as [->|[now' ->]].
      + apply same_log_state_keeps; [repeat split|exact Hinv1].
      + apply force_log_flush_keeps. exact Hinv1. }
  eapply keeps_watermarks_frame; [exact H1|exact H2|repeat split].
Qed.

Lemma wait_for_write_bio_wrapper_same (done : bio -> Z)
      (released : bio_wrapper -> list bio_wrapper) (now : Z)
      (wdev : walb_dev) (biow : bio_wrapper) :
  same_log_state wdev (fst (fst (wait_for_write_bio_wrapper done released now wdev biow))).
Proof.
  unfold wait_for_write_bio_wrapper, should_start_queue, iocore_melt. cbv zeta.
  destruct (negb (is_under_throttling (iocored wdev))).
  - destruct (st_discard _); repeat split.
  - match goal with |- context [if ?c || ?c' then _ else _] =>
      destruct (c || c') end;
      destruct (st_discard _);
      try match goal with |- context [?c =? 0] => destruct (c =? 0) end;
      repeat split.
Qed.

Lemma wait_for_write_bio_wrappers_same (done : bio -> Z)
      (released : bio_wrapper -> list bio_wrapper) (now : Z)
      (l : list bio_wrapper) :
  forall wdev,
    same_log_state wdev (fst (wait_for_write_bio_wrappers done released now wdev l)).
Proof.
  induction l as [|w l IH]; intros wdev; simpl; [repeat split|].
  pose proof (wait_for_write_bio_wrapper_same done released now wdev w) as H1.
  destruct (wait_for_write_bio_wrapper done released now wdev w) as [[wdev1 w'] ev].
  pose proof (IH wdev1) as H2.
  destruct (wait_for_write_bio_wrappers done released now wdev1 l) as [wdev2 ev'].
  simpl in *. eapply same_log_state_trans; eassumption.
Qed.

Lemma task_wait_for_bio_wrapper_list_same (done : bio -> Z)
      (released : bio_wrapper -> list bio_wrapper) (now : Z)
      (wdev : walb_dev) :
  same_log_state wdev (fst (task_wait_for_bio_wrapper_list done released now wdev)).
Proof.
  unfold task_wait_for_bio_wrapper_list. cbv zeta.
  destruct (datapack_wait_queue (iocored wdev)) as [|w0 q]; [repeat split|].
  destruct (dequeue_bulk _ _) as [taken rest].
  eapply same_log_state_trans; [|apply wait_for_write_bio_wrappers_same].
  repeat split.
Qed.

Lemma read_only_fold_queues (data_error : bio_wrapper -> Z) (l : list bio_wrapper) :
  forall d,
    let d' := fold_left (fun d biow => if negb (data_error biow =? 0)
                                       then set_read_only_mode d else d) l d in
    logpack_gc_queue d' = logpack_gc_queue d /\
    logpack_wait_queue d' = logpack_wait_queue d.
Proof.
  induction l as [|w l IH]; intros d; simpl; [auto|].
  destruct (IH (if negb (data_error w =? 0) then set_read_only_mode d else d))
    as [H1 H2].
  rewrite H1, H2. destruct (negb (data_error w =? 0)); auto.
Qed.

Lemma last_cons_default (l : list Z) :
  forall a d, last (a :: l) d = last l a.
Proof.
  induction l as [|b l IH]; intros a d; [reflexivity|].
  change (last (a :: b :: l) d) with (last (b :: l) d).
  rewrite (IH b d), (IH b a). reflexivity.
Qed.

Lemma gc_logpack_loop_result (data_error : bio_wrapper -> Z) (l : list pack) :
  forall d w,
    let r := gc_logpack_loop data_error d w l in
    logpack_gc_queue (fst (fst r)) = logpack_gc_queue d /\
    logpack_wait_queue (fst (fst r)) = logpack_wait_queue d /\
    snd (fst r) = last (map next_of l) w.
Proof.
  induction l as [|p l IH]; intros d w; [simpl; auto|].
  cbn [gc_logpack_loop].
  match goal with |- context [gc_logpack_loop data_error ?d1 ?w1 l] =>
    pose proof (IH d1 w1) as H1;
    destruct (gc_logpack_loop data_error d1 w1 l) as [[d2 w2] ev] end.
  cbv zeta in *. cbn [fst snd] in *.
  destruct H1 as (A1 & A2 & A3).
  destruct (read_only_fold_queues data_error (biow_list p) d) as [B1 B2].
  cbv zeta in B1, B2.
  split; [congruence|]. split; [congruence|].
  rewrite A3. cbn [map]. fold (next_of p). symmetry. apply last_cons_default.
Qed.

(** One round of the garbage collector. *)
Lemma dequeue_and_gc_logpack_list_keeps (data_error : bio_wrapper -> Z)
      (wdev : walb_dev) :
  pipeline_inv wdev ->
  keeps_watermarks wdev (fst (dequeue_and_gc_logpack_list data_error wdev)).
Proof.
  intros Hinv. unfold dequeue_and_gc_logpack_list, dequeue_bulk. cbv zeta.
  destruct (logpack_gc_queue (iocored wdev)) as [|p0 q] eqn:Hq.
  { apply same_log_state_keeps; [repeat split|exact Hinv]. }
  destruct Hinv as [(L1 & L2 & L3 & L4) I2 I3 I4]. rewrite Hq in I2, I3.
  set (n := Z.to_nat (Z.max 1 (n_pack_bulk (par wdev)))).
  assert (Hn : exists k, n = S k) by (exists (pred n); subst n; lia).
  destruct Hn as [k Hn]. rewrite Hn.
  set (taken := firstn (S k) (p0 :: q)).
  set (rest := skipn (S k) (p0 :: q)).
  assert (Hsplit : p0 :: q = taken ++ rest) by (symmetry; apply firstn_skipn).
  assert (Hne : taken <> []) by (subst taken; simpl; discriminate).
  destruct (exists_last Hne) as (pre & x & Hx).
  rewrite Hsplit, Hx in I2, I3.
  unfold gc_logpack_list.
  set (wdev1 := set_iocored wdev (set_logpack_gc_queue (iocored wdev) rest)).
  pose proof (gc_logpack_loop_result data_error taken (iocored wdev1) INVALID_LSID)
    as Hr.
  destruct (gc_logpack_loop data_error (iocored wdev1) INVALID_LSID taken)
    as [[d w] ev].
  cbv zeta in Hr. cbn [fst snd] in *.
  destruct Hr as (G1 & G2 & G3).
  assert (Hw : w = next_of x).
  { rewrite G3, Hx, map_app. cbn [map]. apply last_last. }
  change (logpack_gc_queue (iocored wdev1)) with rest in G1.
  change (logpack_wait_queue (iocored wdev1))
    with (logpack_wait_queue (iocored wdev)) in G2.
  (* the packs: pre, x, then rest and the wait queue *)
  rewrite <- !app_assoc in I2, I3. cbn [app] in I2, I3.
  apply Forall_app in I3. destruct I3 as [I3p I3x].
  inversion I3x as [|? ? (X1 & X2 & X3) I3r]; subst x0 l.
  unfold lsid_span in X1, X2, X3. cbn [fst snd] in X1, X2, X3.
  rewrite map_app in I2. apply sorted_app_inv in I2.
  destruct I2 as (_ & I2 & _). cbn [map] in I2.
  inversion I2 as [|? ? I2r I2x]; subst.
  subst wdev1. rewrite Hw.
  split; [reflexivity|]. split.
  - constructor; cbn [lsids iocored set_lsids set_iocored set_written
                      written latest completed permanent oldest];
      rewrite ?G1, ?G2.
    + unfold lsid_links, set_written.
      cbn [written latest completed permanent oldest].
      repeat split; lia.
    + exact I2r.
    + rewrite Forall_map in I2x.
      apply Forall_forall. intros y Hy.
      rewrite Forall_forall in I3r, I2x.
      destruct (I3r y Hy) as (Y1 & Y2 & Y3). specialize (I2x y Hy).
      repeat split; [exact Y1|exact I2x|exact Y3].
    + exact I4.
  - unfold lsids_advance, set_written.
    cbn [lsids set_lsids set_iocored written latest completed permanent
         oldest flush].
    repeat split; lia.
Qed.

(** **** Every step and every reachable state *)

Lemma step_keeps (wdev wdev' : walb_dev) :
  kern_laws K -> pipeline_inv wdev -> step K mp wdev wdev' ->
  keeps_watermarks wdev wdev'.
Proof.
  intros laws Hinv Hstep.
  destruct Hstep as [wdev b allocated Hb|wdev now|wdev done n_fail now
                    |wdev fuel now tick flush_err delayed wdev' ev Hr|wdev done released now
                    |wdev data_error].
  - apply same_log_state_keeps; [apply iocore_make_request_same|exact Hinv].
  - apply task_submit_logpack_list_keeps; assumption.
  - apply task_wait_for_logpack_list_keeps; assumption.
  - eapply task_submit_bio_wrapper_list_keeps; eassumption.
  - apply same_log_state_keeps;
      [apply task_wait_for_bio_wrapper_list_same|exact Hinv].
  - apply dequeue_and_gc_logpack_list_keeps; assumption.
Qed.

Lemma fresh_device_inv (wdev : walb_dev) :
  fresh_device wdev -> pipeline_inv wdev.
Proof.
  intros ((C1 & C2 & C3 & C4) & _ & Hw & _ & _ & Hg).
  constructor; rewrite ?Hw, ?Hg; simpl; try (now constructor).
  unfold lsid_links. repeat split; lia.
Qed.

Lemma reachable_inv (wdev0 wdev : walb_dev) :
  kern_laws K -> fresh_device wdev0 -> reachable K mp wdev0 wdev ->
  pipeline_inv wdev /\ par wdev = par wdev0.
Proof.
  intros laws H0 Hr. induction Hr as [|wdev wdev' Hr [IH1 IH2] Hs].
  - split; [apply fresh_device_inv; exact H0|reflexivity].
  - destruct (step_keeps laws IH1 Hs) as (S1 & S2 & _).
    split; [exact S2|congruence].
Qed.

(** X24. At every state the write pipeline reaches from a freshly
    started device the watermarks satisfy oldest <= written <= latest,
    permanent <= latest and completed <= latest; and across every step
    of the pipeline (a write entering, pack creation, log completion, the
    forced flush of the wait for permanence, garbage collection advancing
    written) none of latest, completed, written and oldest goes back, nor
    do flush and permanent when the queue of the device advertises
    REQ_FLUSH. What [walb_logpack_header_add_bio] is relied on for is in
    [kern_laws]. *)
Theorem watermarks_along_pipeline (wdev0 wdev : walb_dev) :
  kern_laws K -> fresh_device wdev0 -> reachable K mp wdev0 wdev ->
  (oldest (lsids wdev) <= written (lsids wdev) /\
   written (lsids wdev) <= latest (lsids wdev) /\
   permanent (lsids wdev) <= latest (lsids wdev) /\
   completed (lsids wdev) <= latest (lsids wdev)) /\
  forall wdev',
    step K mp wdev wdev' ->
    latest (lsids wdev) <= latest (lsids wdev') /\
    completed (lsids wdev) <= completed (lsids wdev') /\
    written (lsids wdev) <= written (lsids wdev') /\
    oldest (lsids wdev) <= oldest (lsids wdev') /\
    (has_flag (flush_flags (par wdev0)) REQ_FLUSH = true ->
     flush (lsids wdev) <= flush (lsids wdev') /\
     permanent (lsids wdev) <= permanent (lsids wdev')).
Proof.
  intros laws H0 Hr. destruct (reachable_inv laws H0 Hr) as [Hinv Hp].
  split; [exact (inv_links Hinv)|].
  intros wdev' Hs. destruct (step_keeps laws Hinv Hs) as (_ & _ & Hadv).
  rewrite Hp in Hadv. exact Hadv.
Qed.

(** *** The state bits along the pipeline *)

Lemma flags_kept_refl (f : iocore_flags) : flags_kept f f.
Proof. unfold flags_kept. auto. Qed.

Lemma flags_kept_trans (a b c : iocore_flags) :
  flags_kept a b -> flags_kept b c -> flags_kept a c.
Proof.
  unfold flags_kept. intros (A1 & A2 & A3) (B1 & B2 & B3).
  split; [congruence|]. split; auto.
Qed.

Lemma flags_kept_read_only (d : iocore_data) :
  flags_kept (flags d) (flags (set_read_only_mode d)).
Proof. unfold flags_kept. simpl. auto. Qed.

(** The task-working bits are apart from the three state bits. *)
Lemma flags_kept_working (bit : working_bit) (v : bool) (f : iocore_flags) :
  flags_kept f (set_working_bit bit v f).
Proof. destruct bit; unfold flags_kept; simpl; auto. Qed.

Lemma insert_pending_flags (n_fail : nat) (wp : walb_params) (biow : bio_wrapper)
      (now : Z) :
  forall d, flags (snd (insert_pending n_fail wp d biow now)) = flags d.
Proof.
  assert (Hs : forall d, flags (snd (should_stop_queue wp d biow now)) = flags d).
  { intros d. unfold should_stop_queue.
    destruct (is_under_throttling d); [reflexivity|].
    destruct (wrap32 (pending_sectors d + len biow) >? max_pending_sectors wp);
      reflexivity. }
  induction n_fail as [|k IH]; intros d; simpl;
    pose proof (Hs d) as H1;
    destruct (should_stop_queue wp d biow now) as [st d1];
    simpl in H1; destruct (st_discard biow); simpl; auto.
  rewrite IH. simpl. exact H1.
Qed.

Lemma waitlog_one_flags (done : bio -> Z) (n_fail : bio_wrapper -> nat) (now : Z)
      (st : waitlog_state) (biow : bio_wrapper) :
  flags_kept (flags (iocored (wl_dev st)))
             (flags (iocored (wl_dev (waitlog_one K done n_fail now st biow)))).
Proof.
  unfold waitlog_one. cbv zeta.
  destruct (wl_failed st || negb (error (wait_for_bio_wrapper done biow true) =? 0));
    [apply flags_kept_read_only|].
  destruct (len (wait_for_bio_wrapper done biow true) =? 0);
    [apply flags_kept_refl|].
  match goal with |- context [insert_pending ?n ?wp ?d ?b ?t] =>
    pose proof (insert_pending_flags n wp b t d) as J;
    destruct (insert_pending n wp d b t) as [stop d1] end.
  simpl in J. destruct stop; simpl; rewrite J; apply flags_kept_refl.
Qed.

Lemma waitlog_fold_flags (done : bio -> Z) (n_fail : bio_wrapper -> nat) (now : Z)
      (l : list bio_wrapper) :
  forall st,
    flags_kept (flags (iocored (wl_dev st)))
      (flags (iocored (wl_dev (fold_left (waitlog_one K done n_fail now) l st)))).
Proof.
  induction l as [|w l IH]; intros st; simpl; [apply flags_kept_refl|].
  eapply flags_kept_trans; [apply waitlog_one_flags|apply IH].
Qed.

Lemma wait_for_logpack_flags (done : bio -> Z) (n_fail : bio_wrapper -> nat)
      (now : Z) (wdev : walb_dev) (p : pack) :
  let r := wait_for_logpack_and_submit_datapack K done n_fail now wdev p in
  flags_kept (flags (iocored wdev)) (flags (iocored (fst (fst r)))) /\
  latest (lsids (fst (fst r))) = latest (lsids wdev).
Proof.
  unfold wait_for_logpack_and_submit_datapack. cbv zeta.
  match goal with |- context [match ?x with (_, _) => _ end] => set (r1 := x) end.
  assert (R : iocored (fst r1) = iocored wdev /\
              latest (lsids (fst r1)) = latest (lsids wdev)).
  { subst r1. destruct (negb _ && is_flush_header p); [|auto].
    destruct (permanent (lsids wdev) <? logpack_lsid (logpack_header_sector p));
      auto. }
  clearbody r1. destruct r1 as [wdev1 ev1]. cbn [fst] in R. destruct R as [R1 R2].
  match goal with |- context [fold_left ?f ?l ?s] =>
    pose proof (waitlog_fold_flags done n_fail now l s) as Hf;
    pose proof (waitlog_fold_same done n_fail now l s) as Hs;
    set (st := fold_left f l s) in * end.
  cbn [wl_dev] in Hf, Hs. rewrite R1 in Hf. destruct Hs as (_ & S2 & _).
  clearbody st.
  destruct (wl_failed st); [cbn [fst]; rewrite S2; auto|].
  destruct (is_flush_contained p && _);
    destruct (negb (has_flag (flush_flags (par (wl_dev st))) REQ_FLUSH));
    cbn [fst snd set_lsids iocored lsids]; unfold set_permanent, set_flush,
      set_completed; cbn [latest]; rewrite S2; auto.
Qed.

Lemma wait_for_logpacks_flags (done : bio -> Z) (n_fail : bio_wrapper -> nat)
      (now : Z) (l : list pack) :
  forall wdev,
    let r := wait_for_logpacks K done n_fail now wdev l in
    flags_kept (flags (iocored wdev)) (flags (iocored (fst (fst r)))) /\
    latest (lsids (fst (fst r))) = latest (lsids wdev).
Proof.
  induction l as [|p l IH]; intros wdev; simpl; [split; [apply flags_kept_refl|auto]|].
  pose proof (wait_for_logpack_flags done n_fail now wdev p) as H1.
  destruct (wait_for_logpack_and_submit_datapack K done n_fail now wdev p)
    as [[wdev1 p'] ev].
  pose proof (IH wdev1) as H2.
  destruct (wait_for_logpacks K done n_fail now wdev1 l) as [[wdev2 l'] ev'].
  cbv zeta in *. cbn [fst snd] in *. destruct H1 as [A1 A2], H2 as [B1 B2].
  split; [eapply flags_kept_trans; eassumption|congruence].
Qed.

Lemma create_logpack_list_flags (wdev : walb_dev) (l : list bio_wrapper) (now : Z) :
  flags_kept (flags (iocored wdev))
             (flags (iocored (snd (fst (create_logpack_list K mp wdev l now))))).
Proof.
  unfold create_logpack_list. cbv zeta.
  destruct (is_error_before_overflow_ mp && _); [apply flags_kept_refl|].
  destruct (flush (set_latest (lsids wdev) _) <? _);
    destruct (wrap64 _ >? ring_buffer_size (par wdev));
    cbn [iocored set_iocored set_lsids flags set_log_flush_jiffies];
    try destruct (IOCORE_STATE_LOG_OVERFLOW (flags (iocored wdev))) eqn:Ho;
    cbn [fst snd iocored set_iocored set_lsids flags set_log_flush_jiffies
         set_log_overflow set_flags];
    unfold flags_kept; cbn; auto.
Qed.

Lemma task_submit_logpack_list_flags (wdev : walb_dev) (now : Z) :
  let r := task_submit_logpack_list K mp wdev now in
  flags_kept (flags (iocored wdev)) (flags (iocored (fst r))) /\
  (IOCORE_STATE_READ_ONLY (flags (iocored wdev)) = true ->
   lsids (fst r) = lsids wdev).
Proof.
  unfold task_submit_logpack_list. cbv zeta.
  destruct (logpack_submit_queue (iocored wdev)) as [|w0 q];
    [split; [apply flags_kept_working|auto]|].
  destruct (dequeue_bulk (n_io_bulk (par wdev)) (w0 :: q)) as [taken rest].
  destruct (IOCORE_STATE_READ_ONLY (flags (iocored wdev))) eqn:Hro;
    [split; [apply flags_kept_refl|auto]|].
  split; [|discriminate].
  match goal with |- context [create_logpack_list K mp ?w ?l now] =>
    pose proof (create_logpack_list_flags w l now) as Hc;
    destruct (create_logpack_list K mp w l now) as [[[ret packs] wdev2] ev] end.
  cbn [fst snd iocored set_iocored flags set_logpack_submit_queue] in Hc.
  destruct ret; cbn [negb fst]; [|exact Hc].
  destruct (submit_logpack_list K (par wdev2) packs) as [packs' ev'].
  eapply flags_kept_trans; [exact Hc|apply flags_kept_working].
Qed.

Lemma task_wait_for_logpack_list_flags (done : bio -> Z)
      (n_fail : bio_wrapper -> nat) (now : Z) (wdev : walb_dev) :
  let r := task_wait_for_logpack_list K done n_fail now wdev in
  flags_kept (flags (iocored wdev)) (flags (iocored (fst r))) /\
  latest (lsids (fst r)) = latest (lsids wdev).
Proof.
  unfold task_wait_for_logpack_list. cbv zeta.
  destruct (logpack_wait_queue (iocored wdev)) as [|p0 q0];
    [split; [apply flags_kept_working|auto]|].
  destruct (dequeue_bulk _ _) as [taken rest].
  match goal with |- context [wait_for_logpacks K done n_fail now ?w ?l] =>
    pose proof (wait_for_logpacks_flags done n_fail now l w) as H1;
    destruct (wait_for_logpacks K done n_fail now w l) as [[wdev2 packs] ev] end.
  cbv zeta in H1. cbn [fst snd] in *. destruct H1 as [H1 H2].
  split; [|exact H2].
  eapply flags_kept_trans; [exact H1|apply flags_kept_working].
Qed.

Lemma force_log_flush_flags (wdev : walb_dev) (now flush_err : Z) :
  flags_kept (flags (iocored wdev))
             (flags (iocored (fst (force_log_flush wdev now flush_err)))).
Proof.
  unfold force_log_flush. cbv zeta.
  destruct (flush (lsids wdev) <? latest (lsids wdev));
    destruct (negb (flush_err =? 0)); cbn [lsids set_iocored set_lsids];
    match goal with |- context [permanent ?l <? ?x] =>
      destruct (permanent l <? x) end;
    unfold flags_kept; cbn; auto.
Qed.

Lemma task_submit_bio_wrapper_list_flags (fuel : nat) (now tick flush_err : Z)
      (delayed : nat -> bool)
      (wdev wdev' : walb_dev) (ev : list event) :
  task_submit_bio_wrapper_list mp fuel now tick flush_err delayed wdev = Some (wdev', ev) ->
  flags_kept (flags (iocored wdev)) (flags (iocored wdev')) /\
  latest (lsids wdev') = latest (lsids wdev).
Proof.
  unfold task_submit_bio_wrapper_list. cbv zeta.
  destruct (datapack_submit_queue (iocored wdev)) as [|w0 q].
  { intros Hx. injection Hx as <- _. split; [apply flags_kept_working|auto]. }
  destruct (dequeue_bulk (n_io_bulk (par wdev)) (w0 :: q)) as [taken rest].
  set (wdev1 := set_iocored wdev (set_datapack_submit_queue (iocored wdev) rest)).
  destruct (wait_for_log_permanent fuel wdev1 _ now tick flush_err)
    as [[wdev2 ev2]|] eqn:Hw; [|discriminate].
  intros Hx. injection Hx as <- _.
  cbn [iocored set_iocored flags set_datapack_wait_queue lsids set_flags
       enqueue_wait_data_task_if_necessary enqueue_task_if_necessary].
  assert (H2 : flags_kept (flags (iocored wdev1)) (flags (iocored wdev2)) /\
               latest (lsids wdev2) = latest (lsids wdev1)).
  { unfold wait_for_log_permanent in Hw.
    destruct (log_flush_interval_jiffies (par wdev1) =? 0).
    - injection Hw as <- _. split; [apply flags_kept_refl|auto].
    - apply wait_loop_result in Hw. destruct Hw as [->|[now' ->]].
      + split; [apply flags_kept_refl|auto].
      + split; [apply force_log_flush_flags|].
        apply (force_log_flush_result wdev1 now' flush_err). }
  destruct H2 as [H2 H3]. split; [|exact H3].
  eapply flags_kept_trans; [exact H2|apply flags_kept_working].
Qed.

Lemma wait_for_write_bio_wrapper_flags (done : bio -> Z)
      (released : bio_wrapper -> list bio_wrapper) (now : Z)
      (wdev : walb_dev) (biow : bio_wrapper) :
  flags_kept (flags (iocored wdev))
    (flags (iocored (fst (fst (wait_for_write_bio_wrapper done released now wdev biow))))).
Proof.
  unfold wait_for_write_bio_wrapper, should_start_queue, iocore_melt. cbv zeta.
  destruct (negb (is_under_throttling (iocored wdev))).
  - destruct (st_discard _); apply flags_kept_refl.
  - match goal with |- context [if ?c || ?c' then _ else _] =>
      destruct (c || c') end;
      destruct (st_discard _);
      try match goal with |- context [?c =? 0] => destruct (c =? 0) end;
      try apply flags_kept_refl;
      apply (flags_kept_working SUBMIT_LOG_TASK_WORKING true).
Qed.

Lemma wait_for_write_bio_wrappers_flags (done : bio -> Z)
      (released : bio_wrapper -> list bio_wrapper) (now : Z)
      (l : list bio_wrapper) :
  forall wdev,
    flags_kept (flags (iocored wdev))
      (flags (iocored (fst (wait_for_write_bio_wrappers done released now wdev l)))).
Proof.
  induction l as [|w l IH]; intros wdev; simpl; [apply flags_kept_refl|].
  pose proof (wait_for_write_bio_wrapper_flags done released now wdev w) as H1.
  destruct (wait_for_write_bio_wrapper done released now wdev w) as [[wdev1 w'] ev].
  pose proof (IH wdev1) as H2.
  destruct (wait_for_write_bio_wrappers done released now wdev1 l) as [wdev2 ev'].
  simpl in *. eapply flags_kept_trans; eassumption.
Qed.

Lemma read_only_fold_flags (data_error : bio_wrapper -> Z) (l : list bio_wrapper) :
  forall d,
    flags_kept (flags d)
      (flags (fold_left (fun d biow => if negb (data_error biow =? 0)
                                       then set_read_only_mode d else d) l d)).
Proof.
  induction l as [|w l IH]; intros d; simpl; [apply flags_kept_refl|].
  eapply flags_kept_trans; [|apply IH].
  destruct (negb (data_error w =? 0));
    [apply flags_kept_read_only|apply flags_kept_refl].
Qed.

Lemma gc_logpack_loop_flags (data_error : bio_wrapper -> Z) (l : list pack) :
  forall d w,
    flags_kept (flags d) (flags (fst (fst (gc_logpack_loop data_error d w l)))).
Proof.
  induction l as [|p l IH]; intros d w; [apply flags_kept_refl|].
  cbn [gc_logpack_loop].
  match goal with |- context [gc_logpack_loop data_error ?d1 ?w1 l] =>
    pose proof (IH d1 w1) as H1;
    destruct (gc_logpack_loop data_error d1 w1 l) as [[d2 w2] ev] end.
  cbn [fst snd] in *.
  eapply flags_kept_trans; [apply read_only_fold_flags|exact H1].
Qed.

(** No step of the pipeline changes [FAILURE] or clears [READ_ONLY] or
    [LOG_OVERFLOW], and no step of a read-only device moves [latest]. *)
Lemma step_flags_kept (wdev wdev' : walb_dev) :
  step K mp wdev wdev' ->
  flags_kept (flags (iocored wdev)) (flags (iocored wdev')) /\
  (IOCORE_STATE_READ_ONLY (flags (iocored wdev)) = true ->
   latest (lsids wdev') = latest (lsids wdev)).
Proof.
  intros Hstep.
  destruct Hstep as [wdev b allocated Hb|wdev now|wdev done n_fail now
                    |wdev fuel now tick flush_err delayed wdev' ev Hr|wdev done released now
                    |wdev data_error].
  - unfold iocore_make_request. cbv zeta. rewrite Hb.
    destruct (IOCORE_STATE_FAILURE _ || _); [split; [apply flags_kept_refl|auto]|].
    destruct allocated; [|split; [apply flags_kept_refl|auto]].
    destruct (n_stoppers (iocored wdev) =? 0);
      (split; [|auto]); [|apply flags_kept_refl].
    apply (flags_kept_working SUBMIT_LOG_TASK_WORKING true).
  - destruct (task_submit_logpack_list_flags wdev now) as [H1 H2].
    split; [exact H1|]. intros Hro. now rewrite (H2 Hro).
  - destruct (task_wait_for_logpack_list_flags done n_fail now wdev) as [H1 H2].
    auto.
  - destruct (task_submit_bio_wrapper_list_flags _ _ _ _ _ _ Hr) as [H1 H2]. auto.
  - unfold task_wait_for_bio_wrapper_list. cbv zeta.
    destruct (datapack_wait_queue (iocored wdev)) as [|w0 q];
      [split; [apply flags_kept_working|auto]|].
    destruct (dequeue_bulk _ _) as [taken rest].
    split; [apply (wait_for_write_bio_wrappers_flags done released now taken
                     (set_iocored wdev
                        (set_datapack_wait_queue (iocored wdev) rest)))|].
    intros _.
    match goal with |- context [wait_for_write_bio_wrappers done released now ?w ?l] =>
      destruct (wait_for_write_bio_wrappers_same done released now l w) as (_ & S2 & _) end.
    now rewrite S2.
  - unfold dequeue_and_gc_logpack_list. cbv zeta.
    destruct (logpack_gc_queue (iocored wdev)) as [|p0 q];
      [split; [apply flags_kept_refl|auto]|].
    destruct (dequeue_bulk _ _) as [taken rest]. unfold gc_logpack_list.
    match goal with |- context [gc_logpack_loop data_error ?d ?w ?l] =>
      pose proof (gc_logpack_loop_flags data_error l d w) as H1;
      destruct (gc_logpack_loop data_error d w l) as [[d2 w2] ev] end.
    cbn [fst snd iocored set_iocored set_lsids lsids flags set_logpack_gc_queue] in *.
    split; [exact H1|]. intros _. reflexivity.
Qed.

Lemma reachable_flags_kept (wdev wdev' : walb_dev) :
  reachable K mp wdev wdev' ->
  flags_kept (flags (iocored wdev)) (flags (iocored wdev')) /\
  (IOCORE_STATE_READ_ONLY (flags (iocored wdev)) = true ->
   latest (lsids wdev') = latest (lsids wdev)).
Proof.
  induction 1 as [|w1 w2 Hr [IH1 IH2] Hs].
  - split; [apply flags_kept_refl|auto].
  - destruct (step_flags_kept Hs) as [S1 S2].
    split; [eapply flags_kept_trans; eassumption|].
    intros Hro. rewrite S2; [auto|]. apply IH1. exact Hro.
Qed.

(** X12. The pipeline never leaves read-only or failure mode. From a
    state in which the [FAILURE] bit is set, at every state the pipeline
    reaches [iocore_make_request] completes any bio with [-EIO] and
    changes nothing; from a state in read-only mode, at every state the
    pipeline reaches the device is read-only, [latest] has not moved,
    and [iocore_make_request] completes any write bio with [-EIO] and
    changes nothing. [LOG_OVERFLOW] is not cleared by the pipeline
    either. *)
Theorem read_only_is_permanent (wdev wdev' : walb_dev) :
  reachable K mp wdev wdev' ->
  (IOCORE_STATE_FAILURE (flags (iocored wdev)) = true ->
   forall b allocated,
     iocore_make_request K wdev' b allocated = (wdev', [Ev_bio_endio b (- EIO)])) /\
  (iocore_is_readonly wdev = true ->
   iocore_is_readonly wdev' = true /\
   latest (lsids wdev') = latest (lsids wdev) /\
   forall b allocated,
     has_flag (bi_rw b) REQ_WRITE = true ->
     iocore_make_request K wdev' b allocated = (wdev', [Ev_bio_endio b (- EIO)])) /\
  (iocore_is_log_overflow wdev = true -> iocore_is_log_overflow wdev' = true).
Proof.
  intros Hr. destruct (reachable_flags_kept Hr) as [(F1 & F2 & F3) Hl].
  unfold iocore_is_readonly, is_read_only_mode, iocore_is_log_overflow.
  split; [|split].
  - intros Hf b allocated. unfold iocore_make_request. cbv zeta.
    rewrite F1, Hf. reflexivity.
  - intros Hro. split; [auto|]. split; [auto|].
    intros b allocated Hw. unfold iocore_make_request, is_read_only_mode. cbv zeta.
    rewrite Hw, (F2 Hro), orb_true_r. reflexivity.
  - exact F3.
Qed.

(** *** Failing and acknowledging writes *)

Lemma fail_and_destroy_quiet (l : list bio_wrapper) :
  submitted_bios (fail_and_destroy_bio_wrapper_list l) = [].
Proof.
  unfold fail_and_destroy_bio_wrapper_list, submitted_bios.
  induction l as [|w l IH]; [reflexivity|]. cbn [map flat_map app]. exact IH.
Qed.

(** X13. One round of the log submitter on a read-only device: the bio
    wrappers it takes from the submit queue (at most [n_io_bulk], at
    least one) are all completed with [-EIO], in queue order; nothing is
    sent to a device, no pack is queued, the helper is not run and the
    lsid set stays as it is. *)
Theorem task_submit_logpack_list_read_only (wdev : walb_dev) (now : Z) :
  iocore_is_readonly wdev = true ->
  let q := logpack_submit_queue (iocored wdev) in
  let n := Z.to_nat (Z.max 1 (n_io_bulk (par wdev))) in
  let r := task_submit_logpack_list K mp wdev now in
  bio_endios (snd r) = map (fun w => (biow_bio w, - EIO)) (firstn n q) /\
  submitted_bios (snd r) = [] /\ helper_calls (snd r) = [] /\
  logpack_submit_queue (iocored (fst r)) = skipn n q /\
  logpack_wait_queue (iocored (fst r)) = logpack_wait_queue (iocored wdev) /\
  lsids (fst r) = lsids wdev.
Proof.
  unfold iocore_is_readonly, is_read_only_mode. intros Hro.
  unfold task_submit_logpack_list, dequeue_bulk. cbv zeta.
  destruct (logpack_submit_queue (iocored wdev)) as [|w0 q] eqn:Hq.
  { rewrite firstn_nil, skipn_nil.
    cbn [fst snd iocored set_iocored clear_working_flag set_flags
         logpack_submit_queue logpack_wait_queue lsids].
    rewrite Hq. auto 10. }
  rewrite Hro. cbn [fst snd iocored set_iocored logpack_submit_queue
                    set_logpack_submit_queue logpack_wait_queue lsids].
  destruct (fail_and_destroy_observed
              (map bio_wrapper_state_set_started
                   (firstn (Z.to_nat (Z.max 1 (n_io_bulk (par wdev)))) (w0 :: q))))
    as (E1 & _ & E3).
  rewrite E1, E3, fail_and_destroy_quiet, !map_map.
  repeat split; reflexivity.
Qed.

Lemma insert_pending_frame (n_fail : nat) (wp : walb_params) (biow : bio_wrapper)
      (now : Z) :
  forall d,
    datapack_submit_queue (snd (insert_pending n_fail wp d biow now)) =
    datapack_submit_queue d.
Proof.
  assert (Hs : forall d, datapack_submit_queue (snd (should_stop_queue wp d biow now)) =
                         datapack_submit_queue d).
  { intros d. unfold should_stop_queue.
    destruct (is_under_throttling d); [reflexivity|].
    destruct (wrap32 (pending_sectors d + len biow) >? max_pending_sectors wp);
      reflexivity. }
  induction n_fail as [|k IH]; intros d; simpl;
    pose proof (Hs d) as H1;
    destruct (should_stop_queue wp d biow now) as [st d1];
    simpl in H1; destruct (st_discard biow); simpl; auto.
  rewrite IH. simpl. exact H1.
Qed.

(** Once the log of a pack has failed every bio wrapper that follows is
    failed. *)
Lemma waitlog_fold_failed (done : bio -> Z) (n_fail : bio_wrapper -> nat) (now : Z)
      (l : list bio_wrapper) :
  forall st,
    wl_failed st = true ->
    let st' := fold_left (waitlog_one K done n_fail now) l st in
    wl_failed st' = true /\ wl_kept st' = wl_kept st /\
    wl_events st' =
      wl_events st ++ map (fun w => Ev_bio_endio (biow_bio w) (- EIO)) l /\
    datapack_submit_queue (iocored (wl_dev st')) =
      datapack_submit_queue (iocored (wl_dev st)) /\
    pending_sectors (iocored (wl_dev st')) = pending_sectors (iocored (wl_dev st)) /\
    n_stoppers (iocored (wl_dev st')) = n_stoppers (iocored (wl_dev st)) /\
    (l <> [] -> IOCORE_STATE_READ_ONLY (flags (iocored (wl_dev st'))) = true).
Proof.
  induction l as [|w l IH]; intros st Hf.
  - simpl. rewrite app_nil_r. repeat split; auto; congruence.
  - cbn [fold_left].
    assert (H1 : waitlog_one K done n_fail now st w =
                 mk_waitlog_state
                   (set_iocored (wl_dev st) (set_read_only_mode (iocored (wl_dev st))))
                   true (wl_kept st)
                   (wl_events st ++ [Ev_bio_endio (biow_bio w) (- EIO)])).
    { unfold waitlog_one. cbv zeta. rewrite Hf. cbn [orb].
      destruct (wait_for_bio_wrapper_fields done w true) as (_ & _ & Hb).
      now rewrite Hb. }
    rewrite H1.
    destruct (IH (mk_waitlog_state
                    (set_iocored (wl_dev st) (set_read_only_mode (iocored (wl_dev st))))
                    true (wl_kept st)
                    (wl_events st ++ [Ev_bio_endio (biow_bio w) (- EIO)])) eq_refl)
      as (I1 & I2 & I3 & I4 & I5 & I6 & I7).
    cbv zeta in *. cbn [wl_dev wl_kept wl_events] in *.
    split; [exact I1|]. split; [exact I2|].
    split; [rewrite I3, <- app_assoc; reflexivity|].
    split; [rewrite I4; reflexivity|]. split; [rewrite I5; reflexivity|].
    split; [rewrite I6; reflexivity|]. intros _.
    destruct l as [|w' l']; [reflexivity|]. apply I7. discriminate.
Qed.

(** X14. When the header bio (or the flush) of a pack completed with an
    error, [wait_for_logpack_and_submit_datapack] completes every bio of
    the pack with [-EIO], in pack order, and puts the device in
    read-only mode; no wrapper goes on to the data stage, the counters
    of the throttle are untouched, and the lsid set is left as it was:
    [completed] does not pass the failed pack. *)
Theorem logpack_header_failure (done : bio -> Z) (n_fail : bio_wrapper -> nat)
        (now : Z) (wdev : walb_dev) (wpack : pack) (e : bio_entry) :
  header_bioe wpack = Some e -> done (bioe_bio e) <> 0 ->
  let r := wait_for_logpack_and_submit_datapack K done n_fail now wdev wpack in
  let wdev' := fst (fst r) in
  bio_endios (snd r) = map (fun w => (biow_bio w, - EIO)) (biow_list wpack) /\
  submitted_bios (snd r) = [] /\
  lsids wdev' = lsids wdev /\
  datapack_submit_queue (iocored wdev') = datapack_submit_queue (iocored wdev) /\
  pending_sectors (iocored wdev') = pending_sectors (iocored wdev) /\
  n_stoppers (iocored wdev') = n_stoppers (iocored wdev) /\
  biow_list (snd (fst r)) = [] /\
  (biow_list wpack <> [] -> iocore_is_readonly wdev' = true).
Proof.
  intros He Hd. unfold wait_for_logpack_and_submit_datapack. cbv zeta.
  rewrite He. apply Z.eqb_neq in Hd. rewrite Hd. cbn [negb andb].
  destruct (@waitlog_fold_failed done n_fail now (biow_list wpack)
              (mk_waitlog_state wdev true [] []) eq_refl)
    as (I1 & I2 & I3 & I4 & I5 & I6 & I7).
  destruct (waitlog_fold_same done n_fail now (biow_list wpack)
              (mk_waitlog_state wdev true [] [])) as (_ & S2 & _).
  cbv zeta in *. cbn [wl_dev wl_kept wl_events app] in *.
  rewrite I1. cbn [fst snd biow_list set_header_bioe set_biow_list].
  rewrite I3, I2.
  split.
  { unfold bio_endios. clear. induction (biow_list wpack) as [|w l IH];
      [reflexivity|]. cbn [map flat_map app]. now rewrite IH. }
  split.
  { unfold submitted_bios. clear. induction (biow_list wpack) as [|w l IH];
      [reflexivity|]. cbn [map flat_map app]. exact IH. }
  repeat split; auto.
Qed.

(** The loop over the bio wrappers of a pack whose log IO all
    succeeded. *)
Lemma waitlog_fold_ok (done : bio -> Z) (n_fail : bio_wrapper -> nat) (now : Z)
      (l : list bio_wrapper) :
  forall st,
    wl_failed st = false ->
    Forall (fun w => error (wait_for_bio_wrapper done w true) = 0) l ->
    let st' := fold_left (waitlog_one K done n_fail now) l st in
    wl_failed st' = false /\
    wl_events st' = wl_events st ++ map (fun w => Ev_bio_endio (biow_bio w) 0) l /\
    flags (iocored (wl_dev st')) = flags (iocored (wl_dev st)) /\
    exists kept,
      wl_kept st' = wl_kept st ++ kept /\
      datapack_submit_queue (iocored (wl_dev st')) =
        datapack_submit_queue (iocored (wl_dev st)) ++ kept /\
      map biow_bio kept =
        map biow_bio (filter (fun w => negb (len w =? 0)) l) /\
      Forall (fun w => st_prepared w = true) kept.
Proof.
  induction l as [|w l IH]; intros st Hf Hall.
  - simpl. rewrite app_nil_r. repeat split; auto.
    exists []. rewrite !app_nil_r. repeat split; auto.
  - inversion Hall as [|? ? Hw Hl]; subst. cbn [fold_left].
    destruct (wait_for_bio_wrapper_fields done w true) as (Hlen & Hdis & Hbio).
    set (st1 := waitlog_one K done n_fail now st w).
    assert (H1 : wl_failed st1 = false /\
                 wl_events st1 = wl_events st ++ [Ev_bio_endio (biow_bio w) 0] /\
                 flags (iocored (wl_dev st1)) = flags (iocored (wl_dev st)) /\
                 exists k1,
                   wl_kept st1 = wl_kept st ++ k1 /\
                   datapack_submit_queue (iocored (wl_dev st1)) =
                     datapack_submit_queue (iocored (wl_dev st)) ++ k1 /\
                   map biow_bio k1 =
                     map biow_bio (if negb (len w =? 0) then [w] else []) /\
                   Forall (fun w => st_prepared w = true) k1).
    { unfold st1, waitlog_one. cbv zeta. rewrite Hf, Hw, Hlen, Hbio. cbn [orb negb Z.eqb].
      destruct (len w =? 0); cbn [negb].
      - cbn [wl_failed wl_events wl_dev wl_kept].
        repeat split. exists []. rewrite !app_nil_r. repeat split; auto.
      - match goal with |- context [insert_pending ?n ?wp ?d ?b ?t] =>
          pose proof (insert_pending_flags n wp b t d) as J1;
          pose proof (insert_pending_frame n wp b t d) as J2;
          destruct (insert_pending n wp d b t) as [stop d1] end.
        cbn [snd] in J1, J2.
        cbn [wl_failed wl_events wl_dev wl_kept iocored set_iocored].
        split; [reflexivity|]. split; [reflexivity|].
        split; [destruct stop; cbn; exact J1|].
        eexists. split; [reflexivity|].
        split; [destruct stop; cbn; rewrite J2; reflexivity|].
        split; [|repeat constructor].
        cbn [map]. unfold bio_wrapper_state_set_prepared. cbn [biow_bio].
        destruct (negb (st_discard (wait_for_bio_wrapper done w true)) ||
                  ddev_discard (par (wl_dev st)));
          unfold clone_for_ddev, set_cloned; cbn [biow_bio]; now rewrite Hbio. }
    destruct H1 as (A1 & A2 & A3 & k1 & A4 & A5 & A6 & A7).
    destruct (IH st1 A1 Hl) as (I1 & I2 & I3 & k2 & I4 & I5 & I6 & I7).
    cbv zeta in *.
    split; [exact I1|]. split; [rewrite I2, A2, <- app_assoc; reflexivity|].
    split; [congruence|].
    exists (k1 ++ k2). split; [rewrite I4, A4, app_assoc; reflexivity|].
    split; [rewrite I5, A5, app_assoc; reflexivity|].
    split; [|apply Forall_app; auto].
    rewrite map_app, A6, I6. cbn [filter].
    destruct (negb (len w =? 0)); reflexivity.
Qed.

(** X15. When the header bio of a pack and the log bios of all its bio
    wrappers completed without error,
    [wait_for_logpack_and_submit_datapack] acknowledges every bio of the
    pack with 0, in pack order and before any data IO is sent; the
    wrappers that carry data (length not zero) are marked prepared and
    appended, in order, to the submit queue of the data stage, and are
    the ones the pack keeps for the garbage collector; [completed]
    becomes the lsid that follows the pack, [latest] stays, and the state
    bits are unchanged. *)
Theorem logpack_success (done : bio -> Z) (n_fail : bio_wrapper -> nat)
        (now : Z) (wdev : walb_dev) (wpack : pack) :
  match header_bioe wpack with
  | Some e => done (bioe_bio e) = 0
  | None => True
  end ->
  Forall (fun w => error (wait_for_bio_wrapper done w true) = 0) (biow_list wpack) ->
  let r := wait_for_logpack_and_submit_datapack K done n_fail now wdev wpack in
  let wdev' := fst (fst r) in
  let kept := biow_list (snd (fst r)) in
  bio_endios (snd r) = map (fun w => (biow_bio w, 0)) (biow_list wpack) /\
  submitted_bios (snd r) = [] /\
  datapack_submit_queue (iocored wdev') =
    datapack_submit_queue (iocored wdev) ++ kept /\
  map biow_bio kept =
    map biow_bio (filter (fun w => negb (len w =? 0)) (biow_list wpack)) /\
  Forall (fun w => st_prepared w = true) kept /\
  completed (lsids wdev') = get_next_lsid_unsafe (logpack_header_sector wpack) /\
  latest (lsids wdev') = latest (lsids wdev) /\
  flags (iocored wdev') = flags (iocored wdev).
Proof.
  intros Hh Hall. unfold wait_for_logpack_and_submit_datapack. cbv zeta.
  assert (Hfail : match header_bioe wpack with
                  | Some e => negb (done (bioe_bio e) =? 0)
                  | None => false
                  end = false).
  { destruct (header_bioe wpack); [|reflexivity]. now rewrite Hh. }
  rewrite Hfail. cbn [negb andb].
  match goal with |- context [match ?x with (_, _) => _ end] => set (r1 := x) end.
  assert (R : iocored (fst r1) = iocored wdev /\
              latest (lsids (fst r1)) = latest (lsids wdev) /\
              bio_endios (snd r1) = [] /\ submitted_bios (snd r1) = []).
  { subst r1. destruct (is_flush_header wpack); [|auto].
    destruct (permanent (lsids wdev) <? logpack_lsid (logpack_header_sector wpack));
      [|auto].
    cbn [fst snd iocored set_lsids lsids]. unfold set_permanent. cbn [latest].
    unfold notify_if. destruct (is_permanent_log_empty (lsids wdev)); auto. }
  clearbody r1. destruct r1 as [wdev1 ev1]. cbn [fst snd] in R.
  destruct R as (R1 & R2 & R3 & R4).
  destruct (@waitlog_fold_ok done n_fail now (biow_list wpack)
              (mk_waitlog_state wdev1 false [] ev1) eq_refl Hall)
    as (I1 & I2 & I3 & kept & I4 & I5 & I6 & I7).
  destruct (waitlog_fold_same done n_fail now (biow_list wpack)
              (mk_waitlog_state wdev1 false [] ev1)) as (_ & S2 & _).
  cbv zeta in *. cbn [wl_dev wl_kept wl_events app] in *.
  set (st := fold_left (waitlog_one K done n_fail now) (biow_list wpack)
                       (mk_waitlog_state wdev1 false [] ev1)) in *.
  clearbody st. rewrite I1.
  assert (Hev : forall extra,
            bio_endios extra = [] -> submitted_bios extra = [] ->
            bio_endios (wl_events st ++ extra) =
              map (fun w => (biow_bio w, 0)) (biow_list wpack) /\
            submitted_bios (wl_events st ++ extra) = []).
  { intros extra E1 E2. rewrite bio_endios_app, submitted_bios_app, E1, E2, I2.
    rewrite bio_endios_app, submitted_bios_app, R3, R4, !app_nil_r. cbn [app].
    split.
    - unfold bio_endios. clear. induction (biow_list wpack) as [|w l IH];
        [reflexivity|]. cbn [map flat_map app]. now rewrite IH.
    - unfold submitted_bios. clear. induction (biow_list wpack) as [|w l IH];
        [reflexivity|]. cbn [map flat_map app]. exact IH. }
  assert (Hnote : forall b, bio_endios (notify_if b) = [] /\
                            submitted_bios (notify_if b) = [])
    by (intros [|]; split; reflexivity).
  destruct (is_flush_contained wpack && _);
    destruct (negb (has_flag (flush_flags (par (wl_dev st))) REQ_FLUSH));
    cbn [fst snd set_lsids iocored lsids biow_list set_header_bioe set_biow_list];
    unfold set_permanent, set_flush, set_completed; cbn [latest completed];
    rewrite I4, I5, I3, S2, R1, R2;
    match goal with |- context [notify_if ?b] =>
      destruct (Hev (notify_if b) (proj1 (Hnote b)) (proj2 (Hnote b))) as [E1 E2]
    end;
    rewrite E1, E2; repeat split; auto.
Qed.

(** *** The count of pending sectors *)

Lemma pending_total_app (a b : list bio_wrapper) :
  pending_total (a ++ b) = pending_total a + pending_total b.
Proof.
  induction a as [|w a IH]; simpl; [reflexivity|]. rewrite IH. lia.
Qed.

Lemma pending_total_map (f : bio_wrapper -> bio_wrapper) (l : list bio_wrapper) :
  (forall w, pending_weight (f w) = pending_weight w) ->
  pending_total (map f l) = pending_total l.
Proof.
  intros Hf. induction l as [|w l IH]; simpl; [reflexivity|].
  now rewrite Hf, IH.
Qed.

Lemma wrap32_add_l (a b : Z) : wrap32 (wrap32 a + b) = wrap32 (a + b).
Proof. unfold wrap32. apply Zplus_mod_idemp_l. Qed.

Lemma wrap32_sub_l (a b : Z) : wrap32 (wrap32 a - b) = wrap32 (a - b).
Proof. unfold wrap32. apply Zminus_mod_idemp_l. Qed.

Lemma wrap32_sub_l_raw (a b : Z) : (a mod 2 ^ 32 - b) mod 2 ^ 32 = (a - b) mod 2 ^ 32.
Proof. apply Zminus_mod_idemp_l. Qed.

Lemma should_stop_queue_data (wp : walb_params) (d : iocore_data)
      (biow : bio_wrapper) (now : Z) :
  data_stage (snd (should_stop_queue wp d biow now)) = data_stage d.
Proof.
  unfold should_stop_queue. destruct (is_under_throttling d); [reflexivity|].
  destruct (wrap32 (pending_sectors d + len biow) >? max_pending_sectors wp);
    reflexivity.
Qed.

(** Whatever the number of failed insertions, the wrapper is counted
    once. *)
Lemma insert_pending_data (n_fail : nat) (wp : walb_params) (biow : bio_wrapper)
      (now : Z) :
  forall d,
    data_stage (snd (insert_pending n_fail wp d biow now)) =
    (wrap32 (pending_sectors d + pending_weight biow),
     datapack_submit_queue d, datapack_wait_queue d).
Proof.
  unfold pending_weight.
  induction n_fail as [|k IH]; intros d; cbn [insert_pending];
    pose proof (should_stop_queue_data wp d biow now) as H1;
    destruct (should_stop_queue wp d biow now) as [st d1];
    cbn [snd] in H1; unfold data_stage in H1; injection H1 as P1 P2 P3;
    destruct (st_discard biow) eqn:Hd; cbn [snd];
    try (unfold data_stage;
         cbn [pending_sectors datapack_submit_queue datapack_wait_queue
              set_pending_sectors]; rewrite P1, P2, P3; reflexivity).
  rewrite IH. cbn [pending_sectors datapack_submit_queue datapack_wait_queue
                   set_pending_sectors].
  rewrite P1, P2, P3. f_equal. f_equal.
  rewrite wrap32_sub_l, wrap32_add_l. f_equal. lia.
Qed.

Lemma pending_balanced_frame (d d' : iocore_data) :
  data_stage d' = data_stage d -> pending_balanced d -> pending_balanced d'.
Proof.
  unfold data_stage, pending_balanced. intros H. injection H as -> -> ->. auto.
Qed.

Lemma prepared_weight (wp : walb_params) (done : bio -> Z) (biow : bio_wrapper) :
  let w := wait_for_bio_wrapper done biow true in
  pending_weight
    (bio_wrapper_state_set_prepared
       (if negb (st_discard w) || ddev_discard wp
        then clone_for_ddev K wp w else w)) = pending_weight biow.
Proof.
  cbv zeta. destruct (wait_for_bio_wrapper_fields done biow true) as (Hl & Hd & _).
  destruct (clone_for_ddev_fields wp (wait_for_bio_wrapper done biow true))
    as (Cl & Cd).
  unfold pending_weight, bio_wrapper_state_set_prepared.
  destruct (negb _ || _); cbn [st_discard len]; try rewrite Cl, Cd; rewrite Hl, Hd;
    reflexivity.
Qed.

Lemma waitlog_one_pending (done : bio -> Z) (n_fail : bio_wrapper -> nat) (now : Z)
      (st : waitlog_state) (biow : bio_wrapper) :
  pending_balanced (iocored (wl_dev st)) ->
  pending_balanced (iocored (wl_dev (waitlog_one K done n_fail now st biow))).
Proof.
  intros Hb. unfold waitlog_one. cbv zeta.
  destruct (wl_failed st || negb (error (wait_for_bio_wrapper done biow true) =? 0));
    [exact Hb|].
  destruct (len (wait_for_bio_wrapper done biow true) =? 0); [exact Hb|].
  pose proof (prepared_weight (par (wl_dev st)) done biow) as Hw. cbv zeta in Hw.
  assert (Hw' : forall b, pending_weight (bio_wrapper_state_set_prepared b) =
                          pending_weight b) by reflexivity.
  rewrite Hw' in Hw.
  set (w := wait_for_bio_wrapper done biow true) in *.
  set (b1 := if negb (st_discard w) || ddev_discard (par (wl_dev st))
             then clone_for_ddev K (par (wl_dev st)) w else w) in *.
  clearbody b1. clearbody w.
  pose proof (insert_pending_data (n_fail biow) (par (wl_dev st)) b1 now
                (iocored (wl_dev st))) as J.
  destruct (insert_pending (n_fail biow) (par (wl_dev st)) (iocored (wl_dev st))
              b1 now) as [stop d1].
  change (snd (stop, d1)) with d1 in J.
  unfold data_stage in J. injection J as J1 J2 J3.
  unfold pending_balanced in *.
  destruct stop;
    cbn [wl_dev iocored set_iocored pending_sectors datapack_submit_queue
         datapack_wait_queue set_datapack_submit_queue set_n_stoppers];
    rewrite J1, J2, J3, Hb, wrap32_add_l, !pending_total_app;
    cbn [pending_total fold_right];
    rewrite Hw', Hw; f_equal; lia.
Qed.

Lemma waitlog_fold_pending (done : bio -> Z) (n_fail : bio_wrapper -> nat) (now : Z)
      (l : list bio_wrapper) :
  forall st,
    pending_balanced (iocored (wl_dev st)) ->
    pending_balanced
      (iocored (wl_dev (fold_left (waitlog_one K done n_fail now) l st))).
Proof.
  induction l as [|w l IH]; intros st Hb; simpl; [exact Hb|].
  apply IH. apply waitlog_one_pending. exact Hb.
Qed.

Lemma wait_for_logpack_pending (done : bio -> Z) (n_fail : bio_wrapper -> nat)
      (now : Z) (wdev : walb_dev) (p : pack) :
  pending_balanced (iocored wdev) ->
  pending_balanced
    (iocored (fst (fst (wait_for_logpack_and_submit_datapack K done n_fail now
                          wdev p)))).
Proof.
  intros Hb. unfold wait_for_logpack_and_submit_datapack. cbv zeta.
  match goal with |- context [match ?x with (_, _) => _ end] => set (r1 := x) end.
  assert (R : iocored (fst r1) = iocored wdev).
  { subst r1. destruct (negb _ && is_flush_header p); [|auto].
    destruct (permanent (lsids wdev) <? logpack_lsid (logpack_header_sector p));
      auto. }
  clearbody r1. destruct r1 as [wdev1 ev1]. cbn [fst] in R.
  match goal with |- context [fold_left ?f ?l ?s] =>
    pose proof (@waitlog_fold_pending done n_fail now l s) as Hf;
    set (st := fold_left f l s) in * end.
  cbn [wl_dev] in Hf. rewrite R in Hf. specialize (Hf Hb). clearbody st.
  destruct (wl_failed st); [exact Hf|].
  destruct (is_flush_contained p && _);
    destruct (negb (has_flag (flush_flags (par (wl_dev st))) REQ_FLUSH));
    exact Hf.
Qed.

Lemma wait_for_logpacks_pending (done : bio -> Z) (n_fail : bio_wrapper -> nat)
      (now : Z) (l : list pack) :
  forall wdev,
    pending_balanced (iocored wdev) ->
    pending_balanced (iocored (fst (fst (wait_for_logpacks K done n_fail now wdev l)))).
Proof.
  induction l as [|p l IH]; intros wdev Hb; simpl; [exact Hb|].
  pose proof (@wait_for_logpack_pending done n_fail now wdev p Hb) as H1.
  destruct (wait_for_logpack_and_submit_datapack K done n_fail now wdev p)
    as [[wdev1 p'] ev].
  pose proof (IH wdev1 H1) as H2.
  destruct (wait_for_logpacks K done n_fail now wdev1 l) as [[wdev2 l'] ev'].
  exact H2.
Qed.

Lemma create_logpack_list_data (wdev : walb_dev) (l : list bio_wrapper) (now : Z) :
  data_stage (iocored (snd (fst (create_logpack_list K mp wdev l now)))) =
  data_stage (iocored wdev).
Proof.
  unfold create_logpack_list. cbv zeta.
  destruct (is_error_before_overflow_ mp && _); [reflexivity|].
  destruct (flush (set_latest (lsids wdev) _) <? _);
    destruct (wrap64 _ >? ring_buffer_size (par wdev));
    cbn [iocored set_iocored set_lsids flags set_log_flush_jiffies];
    try destruct (IOCORE_STATE_LOG_OVERFLOW (flags (iocored wdev))) eqn:Ho;
    reflexivity.
Qed.

Lemma task_submit_logpack_list_data (wdev : walb_dev) (now : Z) :
  data_stage (iocored (fst (task_submit_logpack_list K mp wdev now))) =
  data_stage (iocored wdev).
Proof.
  unfold task_submit_logpack_list. cbv zeta.
  destruct (logpack_submit_queue (iocored wdev)) as [|w0 q]; [reflexivity|].
  destruct (dequeue_bulk (n_io_bulk (par wdev)) (w0 :: q)) as [taken rest].
  destruct (IOCORE_STATE_READ_ONLY (flags (iocored wdev))); [reflexivity|].
  match goal with |- context [create_logpack_list K mp ?w ?l now] =>
    pose proof (create_logpack_list_data w l now) as Hc;
    destruct (create_logpack_list K mp w l now) as [[[ret packs] wdev2] ev] end.
  cbn [fst snd] in Hc.
  destruct ret; cbn [negb fst]; [|exact Hc].
  destruct (submit_logpack_list K (par wdev2) packs) as [packs' ev'].
  exact Hc.
Qed.

Lemma force_log_flush_data (wdev : walb_dev) (now flush_err : Z) :
  data_stage (iocored (fst (force_log_flush wdev now flush_err))) =
  data_stage (iocored wdev).
Proof.
  unfold force_log_flush. cbv zeta.
  destruct (flush (lsids wdev) <? latest (lsids wdev));
    destruct (negb (flush_err =? 0)); cbn [lsids set_iocored set_lsids];
    match goal with |- context [permanent ?l <? ?x] =>
      destruct (permanent l <? x) end;
    reflexivity.
Qed.

Lemma wait_for_log_permanent_data (fuel : nat) (wdev wdev' : walb_dev)
      (lsid0 now tick flush_err : Z) (ev : list event) :
  wait_for_log_permanent fuel wdev lsid0 now tick flush_err = Some (wdev', ev) ->
  data_stage (iocored wdev') = data_stage (iocored wdev).
Proof.
  unfold wait_for_log_permanent. intros Hw.
  destruct (log_flush_interval_jiffies (par wdev) =? 0).
  - injection Hw as <- _. reflexivity.
  - apply wait_loop_result in Hw. destruct Hw as [-> | [now' ->]];
      [reflexivity|apply force_log_flush_data].
Qed.

(** The overlap check leaves what a wrapper weighs in [pending_sectors]. *)
Lemma pending_total_checked (delayed : nat -> bool) (l : list bio_wrapper) :
  forall i, pending_total (overlapped_check_loop delayed i l) = pending_total l.
Proof.
  induction l as [|w l IH]; intros i; [reflexivity|].
  cbn [overlapped_check_loop].
  change (pending_total (overlapped_check_and_insert (delayed i) w ::
                         overlapped_check_loop delayed (S i) l))
    with (pending_weight (overlapped_check_and_insert (delayed i) w) +
          pending_total (overlapped_check_loop delayed (S i) l)).
  change (pending_total (w :: l)) with (pending_weight w + pending_total l).
  rewrite IH. f_equal.
  unfold overlapped_check_and_insert. destruct (delayed i); reflexivity.
Qed.

Lemma task_submit_bio_wrapper_list_pending (fuel : nat) (now tick flush_err : Z)
      (delayed : nat -> bool)
      (wdev wdev' : walb_dev) (ev : list event) :
  task_submit_bio_wrapper_list mp fuel now tick flush_err delayed wdev = Some (wdev', ev) ->
  pending_balanced (iocored wdev) -> pending_balanced (iocored wdev').
Proof.
  unfold task_submit_bio_wrapper_list. cbv zeta.
  destruct (datapack_submit_queue (iocored wdev)) as [|w0 q] eqn:Hq.
  { intros Hx. injection Hx as <- _. auto. }
  unfold dequeue_bulk. cbv zeta.
  pose proof (firstn_skipn (Z.to_nat (Z.max 1 (n_io_bulk (par wdev)))) (w0 :: q))
    as Hsplit.
  set (taken := firstn _ (w0 :: q)) in *. set (rest := skipn _ (w0 :: q)) in *.
  clearbody taken rest.
  set (wdev1 := set_iocored wdev (set_datapack_submit_queue (iocored wdev) rest)).
  destruct (wait_for_log_permanent fuel wdev1 _ now tick flush_err)
    as [[wdev2 ev2]|] eqn:Hw; [|discriminate].
  apply wait_for_log_permanent_data in Hw.
  unfold data_stage in Hw. injection Hw as W1 W2 W3.
  intros Hx Hb. injection Hx as <- _.
  unfold pending_balanced in *.
  cbn [iocored set_iocored pending_sectors datapack_submit_queue
       datapack_wait_queue set_datapack_wait_queue set_flags
       enqueue_wait_data_task_if_necessary enqueue_task_if_necessary].
  rewrite W1, W2, W3. subst wdev1.
  cbn [iocored set_iocored pending_sectors datapack_submit_queue
       datapack_wait_queue set_datapack_submit_queue].
  rewrite Hb, Hq, <- Hsplit, !pending_total_app.
  rewrite !pending_total_map
    by (intros w; try destruct (st_delayed w); reflexivity).
  rewrite pending_total_checked. f_equal. lia.
Qed.

Lemma wait_for_write_bio_wrapper_data (done : bio -> Z)
      (released : bio_wrapper -> list bio_wrapper) (now : Z)
      (wdev : walb_dev) (biow : bio_wrapper) :
  data_stage (iocored (fst (fst (wait_for_write_bio_wrapper done released now wdev biow)))) =
  (wrap32 (pending_sectors (iocored wdev) - pending_weight biow),
   datapack_submit_queue (iocored wdev), datapack_wait_queue (iocored wdev)).
Proof.
  destruct (wait_for_bio_wrapper_fields done biow false) as (Hl & Hd & _).
  unfold wait_for_write_bio_wrapper, should_start_queue, pending_weight,
    iocore_melt. cbv zeta.
  unfold bio_wrapper_state_set_completed. cbn [st_discard len].
  rewrite Hl, Hd.
  destruct (negb (is_under_throttling (iocored wdev))).
  - destruct (st_discard biow); reflexivity.
  - match goal with |- context [if ?c || ?c' then _ else _] =>
      destruct (c || c') end;
      destruct (st_discard biow);
      try match goal with |- context [?c =? 0] => destruct (c =? 0) end;
      reflexivity.
Qed.

Lemma wait_for_write_bio_wrappers_data (done : bio -> Z)
      (released : bio_wrapper -> list bio_wrapper) (now : Z)
      (l : list bio_wrapper) :
  forall wdev x,
    pending_sectors (iocored wdev) = wrap32 x ->
    data_stage (iocored (fst (wait_for_write_bio_wrappers done released now wdev l))) =
    (wrap32 (x - pending_total l),
     datapack_submit_queue (iocored wdev), datapack_wait_queue (iocored wdev)).
Proof.
  induction l as [|w l IH]; intros wdev x Hx.
  - cbn [wait_for_write_bio_wrappers pending_total fold_right fst].
    unfold data_stage. now rewrite Z.sub_0_r, Hx.
  - cbn [wait_for_write_bio_wrappers].
    pose proof (wait_for_write_bio_wrapper_data done released now wdev w) as H1.
    destruct (wait_for_write_bio_wrapper done released now wdev w) as [[wdev1 w'] ev].
    cbn [fst] in H1. unfold data_stage in H1. injection H1 as P1 P2 P3.
    rewrite Hx, wrap32_sub_l in P1.
    pose proof (IH wdev1 _ P1) as H2.
    destruct (wait_for_write_bio_wrappers done released now wdev1 l) as [wdev2 ev'].
    cbn [fst snd] in *. rewrite H2, P2, P3.
    change (pending_total (w :: l)) with (pending_weight w + pending_total l).
    now replace (x - (pending_weight w + pending_total l))
      with (x - pending_weight w - pending_total l) by lia.
Qed.

Lemma read_only_fold_data (data_error : bio_wrapper -> Z) (l : list bio_wrapper) :
  forall d,
    data_stage (fold_left (fun d biow => if negb (data_error biow =? 0)
                                         then set_read_only_mode d else d) l d) =
    data_stage d.
Proof.
  induction l as [|w l IH]; intros d; simpl; [reflexivity|].
  rewrite IH. destruct (negb (data_error w =? 0)); reflexivity.
Qed.

Lemma gc_logpack_loop_data (data_error : bio_wrapper -> Z) (l : list pack) :
  forall d w,
    data_stage (fst (fst (gc_logpack_loop data_error d w l))) = data_stage d.
Proof.
  induction l as [|p l IH]; intros d w; [reflexivity|].
  cbn [gc_logpack_loop].
  match goal with |- context [gc_logpack_loop data_error ?d1 ?w1 l] =>
    pose proof (IH d1 w1) as H1;
    destruct (gc_logpack_loop data_error d1 w1 l) as [[d2 w2] ev] end.
  cbn [fst snd] in *. rewrite H1. apply read_only_fold_data.
Qed.

Lemma step_pending_balanced (wdev wdev' : walb_dev) :
  step K mp wdev wdev' ->
  pending_balanced (iocored wdev) -> pending_balanced (iocored wdev').
Proof.
  intros Hstep Hb.
  destruct Hstep as [wdev b allocated Hw|wdev now|wdev done n_fail now
                    |wdev fuel now tick flush_err delayed wdev' ev Hr|wdev done released now
                    |wdev data_error].
  - unfold iocore_make_request. cbv zeta. rewrite Hw.
    destruct (IOCORE_STATE_FAILURE _ || _); [exact Hb|].
    destruct allocated; [|exact Hb].
    destruct (n_stoppers (iocored wdev) =? 0); exact Hb.
  - eapply pending_balanced_frame; [apply task_submit_logpack_list_data|exact Hb].
  - unfold task_wait_for_logpack_list. cbv zeta.
    destruct (logpack_wait_queue (iocored wdev)) as [|p0 q0]; [exact Hb|].
    destruct (dequeue_bulk _ _) as [taken rest].
    match goal with |- context [wait_for_logpacks K done n_fail now ?w ?l] =>
      pose proof (@wait_for_logpacks_pending done n_fail now l w Hb) as H1;
      destruct (wait_for_logpacks K done n_fail now w l) as [[wdev2 packs] ev] end.
    exact H1.
  - eapply task_submit_bio_wrapper_list_pending; eassumption.
  - unfold task_wait_for_bio_wrapper_list. cbv zeta.
    destruct (datapack_wait_queue (iocored wdev)) as [|w0 q0] eqn:Hq0;
      [exact Hb|].
    rewrite <- Hq0. clear w0 q0 Hq0. unfold dequeue_bulk. cbv zeta.
    pose proof (firstn_skipn (Z.to_nat (Z.max 1 (n_io_bulk (par wdev))))
                  (datapack_wait_queue (iocored wdev))) as Hsplit.
    set (taken := firstn _ _) in *. set (rest := skipn _ _) in *.
    clearbody taken rest.
    unfold pending_balanced in Hb.
    match goal with |- context [wait_for_write_bio_wrappers done released now ?w ?l] =>
      pose proof (@wait_for_write_bio_wrappers_data done released now l w _ Hb) as H1 end.
    unfold data_stage in H1. injection H1 as P1 P2 P3.
    unfold pending_balanced. rewrite P1, P2, P3.
    cbn [iocored set_iocored datapack_submit_queue datapack_wait_queue
         set_datapack_wait_queue].
    rewrite <- Hsplit, !pending_total_app. f_equal. lia.
  - unfold dequeue_and_gc_logpack_list. cbv zeta.
    destruct (logpack_gc_queue (iocored wdev)) as [|p0 q]; [exact Hb|].
    destruct (dequeue_bulk _ _) as [taken rest]. unfold gc_logpack_list.
    match goal with |- context [gc_logpack_loop data_error ?d ?w ?l] =>
      pose proof (gc_logpack_loop_data data_error l d w) as H1;
      destruct (gc_logpack_loop data_error d w l) as [[d2 w2] ev] end.
    cbn [fst snd iocored set_iocored set_lsids] in *.
    eapply pending_balanced_frame; [exact H1|exact Hb].
Qed.

(** X16. [pending_sectors] is an exact account of the writes in the data
    stage. If it equals, as an unsigned 32-bit number, the sum over the
    wrappers on the submit queue and the wait queue of the data stage of
    one sector for a discard and of the length otherwise, then it does so
    at every state the pipeline reaches: every write is counted once when
    its log IO has completed, however often the insertion into the
    pending index had to be repeated, and is taken off the count once
    when its data IO has completed. *)
Theorem pending_sectors_account (wdev wdev' : walb_dev) :
  reachable K mp wdev wdev' ->
  pending_balanced (iocored wdev) -> pending_balanced (iocored wdev').
Proof.
  induction 1 as [|w1 w2 Hr IH Hs]; intros Hb; [exact Hb|].
  eapply step_pending_balanced; [exact Hs|]. apply IH. exact Hb.
Qed.

(** *** The order of the data IO *)

(** Where [insert_from_tail] puts a wrapper in the list read from its
    tail: behind the entries of no smaller [pos], in front of the first
    entry of smaller [pos]. *)
Lemma insert_from_tail_split (biow : bio_wrapper) (r : list bio_wrapper) :
  exists r2 r1,
    r = r2 ++ r1 /\ insert_from_tail biow r = r2 ++ biow :: r1 /\
    Forall (fun w => pos biow <= pos w) r2 /\
    match r1 with [] => True | tmp :: _ => pos tmp < pos biow end.
Proof.
  induction r as [|tmp r IH]; cbn [insert_from_tail].
  - exists [], []. repeat split; auto.
  - destruct (Z.gtb_spec (pos biow) (pos tmp)) as [Hgt|Hle].
    + exists [], (tmp :: r). repeat split; auto.
    + destruct IH as (r2 & r1 & E1 & E2 & F & H1).
      exists (tmp :: r2), r1. rewrite E2. subst r.
      repeat split; auto.
Qed.

Lemma insert_by_pos_split (biow : bio_wrapper) (l : list bio_wrapper) :
  StronglySorted Z.le (map pos l) ->
  exists l1 l2,
    l = l1 ++ l2 /\
    insert_to_sorted_bio_wrapper_list_by_pos biow l = l1 ++ biow :: l2 /\
    Forall (fun w => pos w < pos biow) l1 /\
    Forall (fun w => pos biow <= pos w) l2.
Proof.
  intros Hs. unfold insert_to_sorted_bio_wrapper_list_by_pos.
  destruct (insert_from_tail_split biow (rev l)) as (r2 & r1 & E1 & E2 & F & H1).
  exists (rev r1), (rev r2).
  assert (El : l = rev r1 ++ rev r2).
  { rewrite <- rev_app_distr, <- E1. symmetry. apply rev_involutive. }
  split; [exact El|]. split.
  { rewrite E2, rev_app_distr. cbn [rev]. now rewrite <- app_assoc. }
  split; [|apply Forall_rev; exact F].
  destruct r1 as [|tmp r1]; [constructor|].
  rewrite El, map_app in Hs. cbn [rev] in Hs. rewrite map_app in Hs.
  apply sorted_app_inv in Hs. destruct Hs as (Hs1 & _ & _).
  apply sorted_app_inv in Hs1. destruct Hs1 as (_ & _ & Hs1).
  cbn [rev]. apply Forall_app. split; [|repeat constructor; exact H1].
  rewrite Forall_map in Hs1. eapply Forall_impl; [|exact Hs1].
  intros w Hw. cbn [map] in Hw. inversion Hw; subst. lia.
Qed.

Lemma insert_by_pos_sorted (biow : bio_wrapper) (l : list bio_wrapper) :
  StronglySorted Z.le (map pos l) ->
  StronglySorted Z.le (map pos (insert_to_sorted_bio_wrapper_list_by_pos biow l)) /\
  Permutation (l ++ [biow]) (insert_to_sorted_bio_wrapper_list_by_pos biow l).
Proof.
  intros Hs. destruct (@insert_by_pos_split biow l Hs) as (l1 & l2 & E1 & E2 & F1 & F2).
  rewrite E2. split.
  - rewrite E1, map_app in Hs. apply sorted_app_inv in Hs.
    destruct Hs as (S1 & S2 & _).
    rewrite map_app. cbn [map].
    apply (@sorted_app _ _ (pos biow)); [exact S1| | |].
    + constructor; [exact S2|]. rewrite Forall_map. exact F2.
    + rewrite Forall_map. eapply Forall_impl; [|exact F1]. cbn. intros; lia.
    + constructor; [lia|]. rewrite Forall_map. exact F2.
  - rewrite E1, <- app_assoc. apply Permutation_app_head.
    symmetry. apply Permutation_cons_append.
Qed.

(** X17. [insert_to_sorted_bio_wrapper_list_by_pos] keeps a list sorted
    by [pos] sorted: the new wrapper goes behind every entry of smaller
    [pos] and in front of every entry of equal or larger [pos], and the
    entries that were there keep their order. *)
Theorem insert_to_sorted_by_pos_spec (biow : bio_wrapper) (l : list bio_wrapper) :
  StronglySorted Z.le (map pos l) ->
  let l' := insert_to_sorted_bio_wrapper_list_by_pos biow l in
  StronglySorted Z.le (map pos l') /\
  exists l1 l2,
    l = l1 ++ l2 /\ l' = l1 ++ biow :: l2 /\
    Forall (fun w => pos w < pos biow) l1 /\
    Forall (fun w => pos biow <= pos w) l2.
Proof.
  intros Hs. split; [apply (@insert_by_pos_sorted biow l Hs)|].
  apply (@insert_by_pos_split biow l Hs).
Qed.

Lemma sort_fold_sorted (l : list bio_wrapper) :
  forall acc,
    StronglySorted Z.le (map pos acc) ->
    let s := fold_left (fun acc biow =>
                          insert_to_sorted_bio_wrapper_list_by_pos biow acc) l acc in
    StronglySorted Z.le (map pos s) /\ Permutation (acc ++ l) s.
Proof.
  induction l as [|w l IH]; intros acc Hs; cbn [fold_left].
  - rewrite app_nil_r. split; [exact Hs|apply Permutation_refl].
  - destruct (@insert_by_pos_sorted w acc Hs) as [H1 H2].
    destruct (IH _ H1) as [I1 I2]. split; [exact I1|].
    eapply Permutation_trans; [|exact I2].
    change (w :: l) with ([w] ++ l). rewrite app_assoc.
    apply Permutation_app_tail. exact H2.
Qed.

Lemma append_fold (A : Type) (l : list A) :
  forall acc, fold_left (fun acc x => acc ++ [x]) l acc = acc ++ l.
Proof.
  induction l as [|x l IH]; intros acc; cbn [fold_left];
    [now rewrite app_nil_r|].
  rewrite IH, <- app_assoc. reflexivity.
Qed.

Lemma wait_for_log_permanent_quiet (fuel : nat) (wdev wdev' : walb_dev)
      (lsid0 now tick flush_err : Z) (ev : list event) :
  wait_for_log_permanent fuel wdev lsid0 now tick flush_err = Some (wdev', ev) ->
  submitted_bios ev = [] /\ bio_endios ev = [].
Proof.
  unfold wait_for_log_permanent.
  destruct (log_flush_interval_jiffies (par wdev) =? 0).
  { intros Hx. injection Hx as _ <-. auto. }
  generalize (wrap64 (now + log_flush_interval_jiffies (par wdev))) as timeout.
  intros timeout. revert now ev wdev'.
  induction fuel as [|k IH]; intros now ev wdev'; cbn [wait_for_log_permanent_loop];
    [discriminate|].
  destruct (lsid0 <? permanent (lsids wdev)).
  { intros Hx. injection Hx as _ <-. auto. }
  destruct (_ && _ && _).
  - destruct (wait_for_log_permanent_loop k wdev lsid0 timeout (wrap64 (now + tick))
                tick flush_err) as [[w ev1]|] eqn:Hl; [|discriminate].
    intros Hx. injection Hx as _ <-. apply IH in Hl. exact Hl.
  - intros Hx. injection Hx as Hx. apply (f_equal snd) in Hx. cbn [snd] in Hx.
    subst ev.
    destruct (force_log_flush_result wdev now flush_err)
      as (_ & _ & _ & _ & _ & _ & _ & _ & _ & H1 & H2). auto.
Qed.

Lemma submitted_bios_flat (l : list bio_wrapper) :
  submitted_bios (flat_map (fun biow => snd (submit_write_bio_wrapper biow)) l) =
  flat_map cloned_bio_list l.
Proof.
  induction l as [|w l IH]; cbn [flat_map]; [reflexivity|].
  rewrite submitted_bios_app, IH. f_equal.
  unfold submit_write_bio_wrapper. cbn [snd].
  induction (cloned_bio_list w) as [|b bl IHb]; [reflexivity|].
  cbn. f_equal. exact IHb.
Qed.

(** The wait for the log to be permanent returns when the fuel exceeds
    the flush interval. *)
Lemma wait_for_log_permanent_returns (fuel : nat) (wdev : walb_dev)
      (lsid0 now tick flush_err : Z) :
  0 <= log_flush_interval_jiffies (par wdev) < 2 ^ 63 -> 0 < tick < 2 ^ 63 ->
  log_flush_interval_jiffies (par wdev) < Z.of_nat fuel ->
  exists wdev' ev,
    wait_for_log_permanent fuel wdev lsid0 now tick flush_err = Some (wdev', ev).
Proof.
  intros Hitv Htick Hfuel. unfold wait_for_log_permanent.
  destruct (log_flush_interval_jiffies (par wdev) =? 0); [eauto|].
  destruct fuel as [|n]; [simpl in Hfuel; lia|].
  destruct (Z_lt_le_dec lsid0 (permanent (lsids wdev))) as [Hlt|Hge].
  - exists wdev, []. cbn [wait_for_log_permanent_loop].
    destruct (Z.ltb_spec lsid0 (permanent (lsids wdev))); [reflexivity|lia].
  - destruct (@wait_loop_forces wdev lsid0 now tick flush_err
                (log_flush_interval_jiffies (par wdev)) Htick Hitv Hge
                n now 0) as (k & now' & ->); try lia.
    { f_equal. lia. }
    { nia. }
    eauto.
Qed.

(** The wrappers marked delayed are passed over when the list to submit
    is built. *)
Lemma skip_delayed_fold (f : list bio_wrapper -> bio_wrapper -> list bio_wrapper)
      (l : list bio_wrapper) :
  forall acc,
    fold_left (fun acc biow => if st_delayed biow then acc else f acc biow) l acc =
    fold_left f (filter (fun biow => negb (st_delayed biow)) l) acc.
Proof.
  induction l as [|w l IH]; intros acc; cbn [fold_left filter]; [reflexivity|].
  destruct (st_delayed w); cbn [negb fold_left]; apply IH.
Qed.

(** X18. One round of [task_submit_bio_wrapper_list] returns when the
    fuel exceeds the flush interval. It submits the data bios of every
    wrapper it took that the overlap check did not mark delayed, each
    once: in ascending order of [pos] with [is_sort_data_io_] set, in the
    order of the queue otherwise. It submits nothing of a delayed
    wrapper and completes no bio. All wrappers taken, delayed or not,
    go on to the wait queue in the order of the queue, those submitted
    marked so. *)
Theorem task_submit_bio_wrapper_list_order (fuel : nat) (now tick flush_err : Z)
        (delayed : nat -> bool) (wdev : walb_dev) :
  0 <= log_flush_interval_jiffies (par wdev) < 2 ^ 63 -> 0 < tick < 2 ^ 63 ->
  log_flush_interval_jiffies (par wdev) < Z.of_nat fuel ->
  let n := Z.to_nat (Z.max 1 (n_io_bulk (par wdev))) in
  let taken := firstn n (datapack_submit_queue (iocored wdev)) in
  let cleared :=
    map (fun biow => set_cloned biow (cloned_bioe biow)
                       (clear_flush_bit (cloned_bio_list biow)))
        (overlapped_check_loop delayed 0 taken) in
  let ready := filter (fun biow => negb (st_delayed biow)) cleared in
  exists wdev' ev sorted,
    task_submit_bio_wrapper_list mp fuel now tick flush_err delayed wdev =
      Some (wdev', ev) /\
    Permutation ready sorted /\
    (if is_sort_data_io_ mp then StronglySorted Z.le (map pos sorted)
     else sorted = ready) /\
    submitted_bios ev = flat_map cloned_bio_list sorted /\
    bio_endios ev = [] /\
    datapack_submit_queue (iocored wdev') =
      skipn n (datapack_submit_queue (iocored wdev)) /\
    datapack_wait_queue (iocored wdev') =
      datapack_wait_queue (iocored wdev) ++
      map (fun biow => if st_delayed biow then biow
                       else bio_wrapper_state_set_submitted biow) cleared.
Proof.
  intros Hitv Htick Hfuel. cbv zeta.
  unfold task_submit_bio_wrapper_list. cbv zeta.
  destruct (datapack_submit_queue (iocored wdev)) as [|w0 q] eqn:Hq.
  { eexists _, [], []. rewrite firstn_nil, skipn_nil.
    split; [reflexivity|].
    cbn [map filter overlapped_check_loop iocored set_iocored clear_working_flag
         set_flags datapack_submit_queue datapack_wait_queue].
    rewrite Hq, app_nil_r.
    repeat split; auto. destruct (is_sort_data_io_ mp); [constructor|reflexivity]. }
  unfold dequeue_bulk. cbv zeta.
  set (n := Z.to_nat (Z.max 1 (n_io_bulk (par wdev)))).
  set (taken := firstn n (w0 :: q)). set (rest := skipn n (w0 :: q)).
  set (wdev1 := set_iocored wdev (set_datapack_submit_queue (iocored wdev) rest)).
  set (lsid0 := fold_left (fun _ biow => lsid biow) taken 0).
  destruct (@wait_for_log_permanent_returns fuel wdev1 lsid0 now tick flush_err
              Hitv Htick Hfuel) as (wdev2 & ev2 & Hw).
  rewrite Hw.
  pose proof (wait_for_log_permanent_data _ _ _ _ _ _ Hw) as Hd.
  apply wait_for_log_permanent_quiet in Hw. destruct Hw as [Q1 Q2].
  unfold data_stage in Hd. injection Hd as _ D2 D3.
  set (cleared := map (fun biow => set_cloned biow (cloned_bioe biow)
                         (clear_flush_bit (cloned_bio_list biow)))
                      (overlapped_check_loop delayed 0 taken)).
  set (ready := filter (fun biow => negb (st_delayed biow)) cleared).
  match goal with |- context [flat_map _ ?s] => set (sorted := s) end.
  eexists _, _, sorted. split; [reflexivity|].
  assert (Hsorted : Permutation ready sorted /\
                    (if is_sort_data_io_ mp then StronglySorted Z.le (map pos sorted)
                     else sorted = ready)).
  { subst sorted.
    rewrite (skip_delayed_fold
               (fun acc biow => if is_sort_data_io_ mp
                                then insert_to_sorted_bio_wrapper_list_by_pos biow acc
                                else acc ++ [biow]) cleared []).
    fold ready. destruct (is_sort_data_io_ mp).
    - destruct (@sort_fold_sorted ready [] (SSorted_nil _)) as [S1 S2].
      split; [exact S2|exact S1].
    - rewrite append_fold. split; [apply Permutation_refl|reflexivity]. }
  destruct Hsorted as [S1 S2].
  split; [exact S1|]. split; [exact S2|].
  rewrite submitted_bios_app, bio_endios_app, Q1, Q2, submitted_bios_flat.
  cbn [app iocored set_iocored datapack_submit_queue datapack_wait_queue
       set_datapack_wait_queue set_flags enqueue_wait_data_task_if_necessary
       enqueue_task_if_necessary].
  rewrite D2, D3. subst wdev1.
  cbn [iocored set_iocored datapack_submit_queue datapack_wait_queue
       set_datapack_submit_queue].
  split; [reflexivity|]. split.
  - clear. induction sorted as [|w l IH]; [reflexivity|].
    cbn [flat_map]. rewrite bio_endios_app, IH, app_nil_r.
    unfold submit_write_bio_wrapper. cbn [snd].
    induction (cloned_bio_list w) as [|b bl IHb]; [reflexivity|exact IHb].
  - split; reflexivity.
Qed.

(** *** The garbage collector *)

Lemma read_only_fold_spec (data_error : bio_wrapper -> Z) (l : list bio_wrapper) :
  forall d,
    is_read_only_mode
      (fold_left (fun d biow => if negb (data_error biow =? 0)
                                then set_read_only_mode d else d) l d) =
    is_read_only_mode d || existsb (fun biow => negb (data_error biow =? 0)) l.
Proof.
  induction l as [|w l IH]; intros d; cbn [fold_left existsb];
    [now rewrite orb_false_r|].
  rewrite IH. destruct (negb (data_error w =? 0)); cbn [orb].
  - unfold is_read_only_mode. cbn. now rewrite orb_true_r.
  - reflexivity.
Qed.

Lemma gc_logpack_loop_spec (data_error : bio_wrapper -> Z) (l : list pack) :
  forall d w,
    let r := gc_logpack_loop data_error d w l in
    is_read_only_mode (fst (fst r)) =
      is_read_only_mode d ||
      existsb (fun p => existsb (fun biow => negb (data_error biow =? 0))
                                (biow_list p)) l /\
    snd r = map (fun p => Ev_destroy_pack (logpack_lsid (logpack_header_sector p))) l.
Proof.
  induction l as [|p l IH]; intros d w.
  - cbn. now rewrite orb_false_r.
  - cbn [gc_logpack_loop].
    match goal with |- context [gc_logpack_loop data_error ?d1 ?w1 l] =>
      pose proof (IH d1 w1) as H1;
      destruct (gc_logpack_loop data_error d1 w1 l) as [[d2 w2] ev] end.
    cbv zeta in *. cbn [fst snd existsb map] in *. destruct H1 as [A1 A2].
    rewrite A1, A2, read_only_fold_spec, orb_assoc. auto.
Qed.

(** X19. [gc_logpack_list] moves [written] to the lsid that follows the
    last pack of the list, whether or not the data IO of the packs
    succeeded, and touches no other watermark; it destroys the packs in
    the order of the list and nothing else happens; afterwards the device
    is read-only exactly when it was before or the data IO of some
    wrapper of some pack ended in an error. *)
Theorem gc_logpack_list_spec (data_error : bio_wrapper -> Z) (wdev : walb_dev)
        (l : list pack) (p : pack) :
  let r := gc_logpack_list data_error wdev (l ++ [p]) in
  written (lsids (fst r)) = get_next_lsid_unsafe (logpack_header_sector p) /\
  (latest (lsids (fst r)) = latest (lsids wdev) /\
   flush (lsids (fst r)) = flush (lsids wdev) /\
   completed (lsids (fst r)) = completed (lsids wdev) /\
   permanent (lsids (fst r)) = permanent (lsids wdev) /\
   oldest (lsids (fst r)) = oldest (lsids wdev)) /\
  snd r = map (fun q => Ev_destroy_pack (logpack_lsid (logpack_header_sector q)))
              (l ++ [p]) /\
  iocore_is_readonly (fst r) =
    iocore_is_readonly wdev ||
    existsb (fun q => existsb (fun biow => negb (data_error biow =? 0))
                              (biow_list q)) (l ++ [p]).
Proof.
  unfold gc_logpack_list. cbv zeta.
  pose proof (gc_logpack_loop_result data_error (l ++ [p]) (iocored wdev)
                INVALID_LSID) as (_ & _ & H1).
  pose proof (gc_logpack_loop_spec data_error (l ++ [p]) (iocored wdev)
                INVALID_LSID) as (H2 & H3).
  destruct (gc_logpack_loop data_error (iocored wdev) INVALID_LSID (l ++ [p]))
    as [[d w] ev].
  cbv zeta in *. cbn [fst snd] in *.
  unfold iocore_is_readonly.
  cbn [lsids set_lsids set_iocored iocored].
  unfold set_written. cbn [written latest flush completed permanent oldest].
  rewrite H1, H2, H3, (map_app next_of). cbn [map]. rewrite last_last.
  repeat split; reflexivity.
Qed.

(** *** The place of the packs in the log *)

Lemma tiles_snoc (lo mid : Z) (l : list pack) (p : pack) :
  tiles lo mid l -> logpack_lsid (logpack_header_sector p) = mid ->
  tiles lo (next_of p) (l ++ [p]).
Proof.
  induction 1 as [lo|lo hi q l Hq Ht IH]; intros Hp; cbn [app].
  - constructor; [exact Hp|constructor].
  - constructor; [exact Hq|]. apply IH. exact Hp.
Qed.

Section BuilderTiles.

Hypothesis law :
  forall h b pbs rs,
    logpack_lsid (snd (walb_logpack_header_add_bio K h b pbs rs)) = logpack_lsid h.

Lemma writepack_newpack_tiles (lo : Z) (b : builder) (cur : option pack)
      (biow : bio_wrapper) (ring_size : Z) (wp : walb_params) (now : Z) :
  builder_tiles lo b ->
  (forall p, cur = Some p ->
     logpack_lsid (logpack_header_sector p) = latest_lsidp b /\ biow_list p <> []) ->
  builder_tiles lo (snd (writepack_newpack K b cur biow ring_size wp now true)).
Proof.
  intros [T1 T2 T3] Hcur.
  destruct (writepack_newpack_ok b cur biow ring_size wp now)
    as (_ & Hl & Hla & fresh & Hf & Hh & Hb & _).
  cbv zeta in *. constructor.
  - rewrite Hl, Hla. destruct cur as [p|]; [|exact T1].
    destruct (Hcur p eq_refl) as [Hp _].
    destruct (check_and_set_flush_fields p) as (_ & Hc & _).
    replace (get_next_lsid_unsafe (logpack_header_sector p))
      with (next_of (writepack_check_and_set_flush p))
      by (unfold next_of; now rewrite Hc).
    apply tiles_snoc with (mid := latest_lsidp b); [exact T1|].
    now rewrite Hc.
  - rewrite Hl. destruct cur as [p|]; [|exact T2].
    apply Forall_app. split; [exact T2|]. repeat constructor.
    destruct (check_and_set_flush_fields p) as (-> & _).
    apply (Hcur p eq_refl).
  - intros q Hq. rewrite Hf in Hq. injection Hq as <-.
    rewrite Hh, law, Hla, Hb. split; [reflexivity|discriminate].
Qed.

Lemma writepack_fin_tiles (lo : Z) (b : builder) (p : pack) (biow : bio_wrapper)
      (wp : walb_params) (now : Z) :
  tiles lo (latest_lsidp b) (wpack_list b) ->
  Forall (fun p => biow_list p <> []) (wpack_list b) ->
  logpack_lsid (logpack_header_sector p) = latest_lsidp b ->
  builder_tiles lo (writepack_fin b p biow wp now).
Proof.
  intros T1 T2 Hp.
  destruct (writepack_fin_wpackp b p biow wp now) as (p' & Hw & Hl & Hh & _).
  constructor; rewrite ?writepack_fin_wpack_list, ?writepack_fin_latest; auto.
  intros q Hq. rewrite Hw in Hq. injection Hq as <-.
  rewrite Hh, Hl. split; [exact Hp|]. intros Hx. now apply app_eq_nil in Hx.
Qed.

Lemma writepack_add_bio_wrapper_tiles (lo : Z) (b : builder) (biow : bio_wrapper)
      (ring_size max_pb : Z) (wp : walb_params) (now : Z) :
  builder_tiles lo b ->
  builder_tiles lo
    (snd (writepack_add_bio_wrapper K b biow ring_size max_pb wp now true)).
Proof.
  intros Hb. unfold writepack_add_bio_wrapper. cbv zeta.
  destruct (wpackp b) as [p|] eqn:Hp.
  - destruct (til_cur Hb Hp) as [Hl Hne].
    assert (Hcur : forall q, Some p = Some q ->
              logpack_lsid (logpack_header_sector q) = latest_lsidp b /\
              biow_list q <> [])
      by (intros q Hq; injection Hq as <-; auto).
    destruct (is_zero_flush_only_pack p);
      [apply writepack_newpack_tiles; assumption|].
    destruct ((0 <? n_records (logpack_header_sector p)) &&
              (has_flag (bi_rw (biow_bio biow)) REQ_FLUSH ||
               is_pack_size_too_large K (logpack_header_sector p)
                 (physical_bs wp) max_pb biow));
      [apply writepack_newpack_tiles; assumption|].
    pose proof (law (logpack_header_sector p) (biow_bio biow)
                  (physical_bs wp) ring_size) as Ll.
    destruct (negb (fst (walb_logpack_header_add_bio K (logpack_header_sector p)
                           (biow_bio biow) (physical_bs wp) ring_size))).
    + apply writepack_newpack_tiles; [assumption|].
      intros q Hq. injection Hq as <-. cbn. rewrite Ll. auto.
    + cbn [snd]. destruct Hb as [T1 T2 T3].
      apply writepack_fin_tiles; try assumption. cbn. now rewrite Ll.
  - apply writepack_newpack_tiles; [assumption|]. intros q Hq. discriminate.
Qed.

Lemma pack_bio_wrappers_tiles (lo : Z) (wp : walb_params) (now : Z)
      (l : list bio_wrapper) :
  forall b, builder_tiles lo b -> builder_tiles lo (pack_bio_wrappers K wp now l b).
Proof.
  unfold pack_bio_wrappers. induction l as [|w l IH]; simpl; intros b Hb; [exact Hb|].
  apply IH. apply writepack_add_bio_wrapper_tiles. exact Hb.
Qed.

Lemma packed_tiles (wdev : walb_dev) (l : list bio_wrapper) (now : Z) :
  let b := packed K wdev l now in
  tiles (latest (lsids wdev)) (latest_lsidp b) (wpack_list b) /\
  Forall (fun p => biow_list p <> []) (wpack_list b).
Proof.
  unfold packed.
  set (b0 := mk_builder [] None (latest (lsids wdev)) (flush (lsids wdev))
                        (log_flush_jiffies (iocored wdev))).
  assert (H0 : builder_tiles (latest (lsids wdev)) b0).
  { constructor; simpl; [constructor|constructor|discriminate]. }
  pose proof (@pack_bio_wrappers_tiles _ (par wdev) now l b0 H0) as Hb.
  set (b1 := pack_bio_wrappers K (par wdev) now l b0) in *. clearbody b1.
  unfold close_last_pack.
  destruct (wpackp b1) as [p|] eqn:Hp; [|cbv zeta; destruct Hb; auto].
  destruct (til_cur Hb Hp) as [Hl Hne]. destruct Hb as [T1 T2 _].
  destruct (check_and_set_flush_fields p) as (Cl & Ch & _).
  cbv zeta.
  match goal with |- context [if ?c then _ else _] => destruct c end;
    cbn [wpack_list latest_lsidp]; (split;
    [match goal with |- tiles _ _ (_ ++ [?q]) =>
       replace (get_next_lsid_unsafe (logpack_header_sector p)) with (next_of q)
         by (unfold next_of; cbn; now rewrite Ch);
       apply tiles_snoc with (mid := latest_lsidp b1); [exact T1|];
       cbn; now rewrite Ch
     end
    |apply Forall_app; split; [exact T2|]; repeat constructor; cbn;
     now rewrite Cl]).
Qed.

End BuilderTiles.

(** X20. When [create_logpack_list] succeeds, with a header routine that
    leaves the logpack lsid of a header alone, the packs it returns fill
    the log without a gap: the first starts at the [latest] lsid the
    device had, each following one starts at the lsid the one before ends
    at, and the last ends at the new [latest]. No pack is empty, and the
    packs hold the bios of the batch in the order of the batch, each
    once; no bio is completed. *)
Theorem create_logpack_list_tiles (wdev : walb_dev) (l : list bio_wrapper)
        (now : Z) :
  (forall h b pbs rs,
     logpack_lsid (snd (walb_logpack_header_add_bio K h b pbs rs)) =
     logpack_lsid h) ->
  let r := create_logpack_list K mp wdev l now in
  let packs := snd (fst (fst r)) in
  let wdev' := snd (fst r) in
  fst (fst (fst r)) = true ->
  tiles (latest (lsids wdev)) (latest (lsids wdev')) packs /\
  Forall (fun p => biow_list p <> []) packs /\
  flat_map (fun p => map biow_bio (biow_list p)) packs = map biow_bio l /\
  bio_endios (snd r) = [] /\
  oldest (lsids wdev') = oldest (lsids wdev) /\
  written (lsids wdev') = written (lsids wdev) /\
  completed (lsids wdev') = completed (lsids wdev).
Proof.
  intros law. cbv zeta. unfold create_logpack_list. cbv zeta.
  destruct (@packed_tiles law wdev l now) as [T1 T2]. cbv zeta in T1, T2.
  pose proof (packed_bios wdev l now) as Hb.
  destruct (is_error_before_overflow_ mp && _); [discriminate|].
  intros _.
  assert (Hq : bio_endios (invoke_userland_exec K mp (par wdev) "overflow") = []).
  { unfold invoke_userland_exec. cbv zeta. destruct (_ || _); reflexivity. }
  destruct (flush (set_latest (lsids wdev) _) <? _);
    destruct (wrap64 _ >? ring_buffer_size (par wdev));
    cbn [iocored set_iocored set_lsids flags set_log_flush_jiffies];
    try destruct (IOCORE_STATE_LOG_OVERFLOW (flags (iocored wdev))) eqn:Ho;
    cbn [fst snd lsids set_lsids set_iocored];
    unfold set_flush, set_latest; cbn [latest oldest written completed];
    repeat split; auto.
Qed.

(** *** A repeated insertion into the pending index *)

(** Once the queue is throttled, or while the write fits under the
    limit, no attempt asks for the queue to be stopped. *)
Lemma insert_pending_settled (wp : walb_params) (biow : bio_wrapper) (now : Z)
      (n : nat) :
  st_discard biow = false ->
  forall d,
    0 <= pending_sectors d < 2 ^ 32 ->
    is_under_throttling d = true \/
    (wrap32 (pending_sectors d + len biow) >? max_pending_sectors wp) = false ->
    let r := insert_pending n wp d biow now in
    fst r = false /\ is_under_throttling (snd r) = is_under_throttling d /\
    n_stoppers (snd r) = n_stoppers d.
Proof.
  intros Hd. induction n as [|k IH]; intros d Hp Hst; cbn [insert_pending];
    assert (Hs : should_stop_queue wp d biow now = (false, d))
      by (unfold should_stop_queue; destruct Hst as [-> | Hst];
          [reflexivity|destruct (is_under_throttling d); [reflexivity|];
           cbv zeta; now rewrite Hst]);
    rewrite Hs, Hd.
  - cbn. auto.
  - match goal with |- context [insert_pending k wp ?d1 biow now] =>
      destruct (IH d1) as (I1 & I2 & I3) end.
    + cbn [pending_sectors set_pending_sectors]. unfold wrap32.
      apply Z.mod_pos_bound. lia.
    + cbn [pending_sectors set_pending_sectors is_under_throttling].
      rewrite wrap32_sub_l.
      replace (pending_sectors d + len biow - len biow) with (pending_sectors d)
        by lia.
      unfold wrap32 at 2. rewrite (Z.mod_small (pending_sectors d)) by lia.
      exact Hst.
    + cbv zeta in *. rewrite I1, I2, I3. cbn. auto.
Qed.

Lemma insert_pending_retried (wp : walb_params) (biow : bio_wrapper) (now : Z)
      (k : nat) (d : iocore_data) :
  st_discard biow = false ->
  0 <= pending_sectors d < 2 ^ 32 ->
  let r := insert_pending (S k) wp d biow now in
  fst r = false /\
  is_under_throttling (snd r) =
    (is_under_throttling d ||
     (wrap32 (pending_sectors d + len biow) >? max_pending_sectors wp)) /\
  n_stoppers (snd r) = n_stoppers d.
Proof.
  intros Hd Hp.
  destruct (is_under_throttling d) eqn:Ht.
  { destruct (@insert_pending_settled wp biow now (S k) Hd d Hp (or_introl Ht))
      as (I1 & I2 & I3).
    cbv zeta in *. rewrite I1, I2, I3, Ht. auto. }
  destruct (wrap32 (pending_sectors d + len biow) >? max_pending_sectors wp) eqn:Ho.
  2:{ destruct (@insert_pending_settled wp biow now (S k) Hd d Hp (or_intror Ho))
        as (I1 & I2 & I3).
      cbv zeta in *. rewrite I1, I2, I3, Ht. auto. }
  cbn [insert_pending]. unfold should_stop_queue. rewrite Ht. cbv zeta.
  rewrite Ho, Hd.
  match goal with |- context [insert_pending k wp ?d1 biow now] =>
    destruct (@insert_pending_settled wp biow now k Hd d1) as (I1 & I2 & I3) end.
  - cbn [pending_sectors set_pending_sectors]. unfold wrap32.
    apply Z.mod_pos_bound. lia.
  - left. reflexivity.
  - cbv zeta in *. rewrite I1, I2, I3. cbn. auto.
Qed.

(** X21. When the insertion of a write that is not a discard into the
    pending index fails at least once, the log wait takes no stopper for
    it, whatever [pending_sectors] is: the attempt that succeeds
    overwrites [is_stop_queue], and by then the queue either is marked as
    throttled or was under the limit. The mark is set all the same when
    the write goes over [max_pending_sectors]. *)
Theorem retried_insertion_no_stopper
        (done : bio -> Z) (n_fail : bio_wrapper -> nat) (now : Z)
        (st : waitlog_state) (biow : bio_wrapper) :
  let d := iocored (wl_dev st) in
  let wp := par (wl_dev st) in
  wl_failed st = false ->
  error (wait_for_bio_wrapper done biow true) = 0 -> len biow <> 0 ->
  st_discard biow = false -> (0 < n_fail biow)%nat ->
  0 <= pending_sectors d < 2 ^ 32 ->
  let d' := iocored (wl_dev (waitlog_one K done n_fail now st biow)) in
  n_stoppers d' = n_stoppers d /\
  is_under_throttling d' =
    (is_under_throttling d ||
     (wrap32 (pending_sectors d + len biow) >? max_pending_sectors wp)).
Proof.
  cbv zeta. intros Hf He Hl Hd Hn Hp.
  destruct (wait_for_bio_wrapper_fields done biow true) as (Wl & Wd & _).
  unfold waitlog_one. cbv zeta. rewrite Hf, He, Wl, Wd, Hd. cbn [orb negb Z.eqb].
  destruct (Z.eqb_spec (len biow) 0) as [|_]; [contradiction|].
  destruct (clone_for_ddev_fields (par (wl_dev st))
              (wait_for_bio_wrapper done biow true)) as (Cl & Cd).
  set (b1 := clone_for_ddev K (par (wl_dev st))
               (wait_for_bio_wrapper done biow true)) in *.
  rewrite Wl in Cl. rewrite Wd, Hd in Cd. clearbody b1.
  destruct (n_fail biow) as [|k]; [lia|].
  destruct (@insert_pending_retried (par (wl_dev st)) b1 now k
              (iocored (wl_dev st)) Cd Hp) as (I1 & I2 & I3).
  cbv zeta in *.
  destruct (insert_pending (S k) (par (wl_dev st)) (iocored (wl_dev st)) b1 now)
    as [stop d1].
  cbn [fst snd] in *. subst stop.
  cbn [wl_dev iocored set_iocored n_stoppers is_under_throttling
       set_datapack_submit_queue].
  rewrite I2, I3, Cl. auto.
Qed.

(** *** The completions of the log wait *)

(** What a list of events holds when all it does to bios is to complete
    those of [bios], one after the other, each with 0 or [-EIO]. *)
Lemma acks_app (e1 e2 : list event) (b1 b2 : list bio) :
  (map fst (bio_endios e1) = b1 /\
   Forall (fun e => snd e = 0 \/ snd e = - EIO) (bio_endios e1) /\
   submitted_bios e1 = [] /\ helper_calls e1 = []) ->
  (map fst (bio_endios e2) = b2 /\
   Forall (fun e => snd e = 0 \/ snd e = - EIO) (bio_endios e2) /\
   submitted_bios e2 = [] /\ helper_calls e2 = []) ->
  map fst (bio_endios (e1 ++ e2)) = b1 ++ b2 /\
  Forall (fun e => snd e = 0 \/ snd e = - EIO) (bio_endios (e1 ++ e2)) /\
  submitted_bios (e1 ++ e2) = [] /\ helper_calls (e1 ++ e2) = [].
Proof.
  intros (A1 & A2 & A3 & A4) (B1 & B2 & B3 & B4).
  rewrite bio_endios_app, submitted_bios_app, helper_calls_app, map_app.
  rewrite A1, B1, A3, B3, A4, B4.
  repeat split; auto. apply Forall_app. auto.
Qed.

Lemma notify_if_quiet (b : bool) :
  map fst (bio_endios (notify_if b)) = [] /\
  Forall (fun e => snd e = 0 \/ snd e = - EIO) (bio_endios (notify_if b)) /\
  submitted_bios (notify_if b) = [] /\ helper_calls (notify_if b) = [].
Proof. destruct b; cbn; repeat split; constructor. Qed.

Lemma waitlog_fold_acks (done : bio -> Z) (n_fail : bio_wrapper -> nat) (now : Z)
      (l : list bio_wrapper) :
  forall st,
    exists evs,
      wl_events (fold_left (waitlog_one K done n_fail now) l st) =
        wl_events st ++ evs /\
      map fst (bio_endios evs) = map biow_bio l /\
      Forall (fun e => snd e = 0 \/ snd e = - EIO) (bio_endios evs) /\
      submitted_bios evs = [] /\ helper_calls evs = [].
Proof.
  induction l as [|w l IH]; intros st; cbn [fold_left].
  - exists []. rewrite app_nil_r. cbn. repeat split; constructor.
  - destruct (IH (waitlog_one K done n_fail now st w)) as (evs & E & A).
    destruct (wait_for_bio_wrapper_fields done w true) as (_ & _ & Hb).
    assert (H1 : exists c, (c = 0 \/ c = - EIO) /\
                wl_events (waitlog_one K done n_fail now st w) =
                wl_events st ++ [Ev_bio_endio (biow_bio w) c]).
    { unfold waitlog_one. cbv zeta. rewrite Hb.
      destruct (wl_failed st || _); [exists (- EIO); cbn; auto|].
      destruct (len _ =? 0); [exists 0; cbn; auto|].
      destruct (insert_pending _ _ _ _ _) as [stop d1].
      exists 0; cbn; auto. }
    destruct H1 as (c & Hc & E1).
    exists (Ev_bio_endio (biow_bio w) c :: evs).
    split; [rewrite E, E1, <- app_assoc; reflexivity|].
    change (Ev_bio_endio (biow_bio w) c :: evs)
      with ([Ev_bio_endio (biow_bio w) c] ++ evs).
    change (map biow_bio (w :: l)) with ([biow_bio w] ++ map biow_bio l).
    apply acks_app; [|exact A].
    cbn. repeat split; auto.
Qed.

Lemma wait_for_logpack_acks (done : bio -> Z) (n_fail : bio_wrapper -> nat)
      (now : Z) (wdev : walb_dev) (p : pack) :
  let r := wait_for_logpack_and_submit_datapack K done n_fail now wdev p in
  (map fst (bio_endios (snd r)) = map biow_bio (biow_list p) /\
   Forall (fun e => snd e = 0 \/ snd e = - EIO) (bio_endios (snd r)) /\
   submitted_bios (snd r) = [] /\ helper_calls (snd r) = []) /\
  logpack_gc_queue (iocored (fst (fst r))) = logpack_gc_queue (iocored wdev) /\
  logpack_wait_queue (iocored (fst (fst r))) = logpack_wait_queue (iocored wdev) /\
  logpack_header_sector (snd (fst r)) = logpack_header_sector p /\
  header_bioe (snd (fst r)) = None.
Proof.
  unfold wait_for_logpack_and_submit_datapack. cbv zeta.
  match goal with |- context [match ?x with (_, _) => _ end] => set (r1 := x) end.
  assert (R : iocored (fst r1) = iocored wdev /\ exists b, snd r1 = notify_if b).
  { subst r1. destruct (negb _ && is_flush_header p); [|split; [auto|now exists false]].
    destruct (permanent (lsids wdev) <? logpack_lsid (logpack_header_sector p));
      [|split; [auto|now exists false]].
    split; [reflexivity|]. eexists. reflexivity. }
  clearbody r1. destruct r1 as [wdev1 ev1]. cbn [fst snd] in R.
  destruct R as (R1 & b1 & ->).
  match goal with |- context [fold_left ?f ?l ?s] =>
    destruct (waitlog_fold_acks done n_fail now l s) as (evs & E & A);
    destruct (waitlog_fold_same done n_fail now l s) as (_ & _ & S3 & S4);
    set (st := fold_left f l s) in * end.
  cbn [wl_dev wl_events] in *. rewrite R1 in S3, S4. clearbody st.
  assert (A' : map fst (bio_endios (wl_events st)) = [] ++ map biow_bio (biow_list p) /\
               Forall (fun e => snd e = 0 \/ snd e = - EIO) (bio_endios (wl_events st)) /\
               submitted_bios (wl_events st) = [] /\ helper_calls (wl_events st) = []).
  { rewrite E. apply acks_app; [apply notify_if_quiet|exact A]. }
  destruct (wl_failed st); [cbn [fst snd]; repeat split; tauto|].
  destruct (is_flush_contained p && _);
    destruct (negb (has_flag (flush_flags (par (wl_dev st))) REQ_FLUSH));
    cbn [fst snd set_lsids iocored logpack_header_sector header_bioe
         set_header_bioe set_biow_list];
    (split; [|repeat split; assumption]);
    rewrite <- (app_nil_r (map biow_bio (biow_list p)));
    (apply acks_app; [exact A'|apply notify_if_quiet]).
Qed.

Lemma wait_for_logpacks_acks (done : bio -> Z) (n_fail : bio_wrapper -> nat)
      (now : Z) (l : list pack) :
  forall wdev,
    let r := wait_for_logpacks K done n_fail now wdev l in
    (map fst (bio_endios (snd r)) =
       flat_map (fun p => map biow_bio (biow_list p)) l /\
     Forall (fun e => snd e = 0 \/ snd e = - EIO) (bio_endios (snd r)) /\
     submitted_bios (snd r) = [] /\ helper_calls (snd r) = []) /\
    logpack_gc_queue (iocored (fst (fst r))) = logpack_gc_queue (iocored wdev) /\
    logpack_wait_queue (iocored (fst (fst r))) = logpack_wait_queue (iocored wdev) /\
    map logpack_header_sector (snd (fst r)) = map logpack_header_sector l /\
    Forall (fun p => header_bioe p = None) (snd (fst r)).
Proof.
  induction l as [|p l IH]; intros wdev; cbn [wait_for_logpacks].
  - cbn. repeat split; constructor.
  - pose proof (wait_for_logpack_acks done n_fail now wdev p) as H1.
    destruct (wait_for_logpack_and_submit_datapack K done n_fail now wdev p)
      as [[wdev1 p'] ev].
    pose proof (IH wdev1) as H2.
    destruct (wait_for_logpacks K done n_fail now wdev1 l) as [[wdev2 l'] ev'].
    cbv zeta in *. cbn [fst snd flat_map map] in *.
    destruct H1 as (A1 & A2 & A3 & A4 & A5), H2 as (B1 & B2 & B3 & B4 & B5).
    split; [apply acks_app; assumption|].
    split; [congruence|]. split; [congruence|].
    split; [congruence|]. constructor; assumption.
Qed.

(** X22. One round of [task_wait_for_logpack_list] completes the bio of
    every wrapper of every pack it takes from the wait queue exactly
    once, in the order of the packs, with 0 or [-EIO], whatever the
    outcome of the log IO; it submits nothing and runs no helper. Every
    pack taken goes on to the queue of the garbage collector, in order,
    with its header as it was and its header bio gone. *)
Theorem task_wait_for_logpack_list_acks (done : bio -> Z)
        (n_fail : bio_wrapper -> nat) (now : Z) (wdev : walb_dev) :
  let n := Z.to_nat (Z.max 1 (n_pack_bulk (par wdev))) in
  let taken := firstn n (logpack_wait_queue (iocored wdev)) in
  let r := task_wait_for_logpack_list K done n_fail now wdev in
  map fst (bio_endios (snd r)) =
    flat_map (fun p => map biow_bio (biow_list p)) taken /\
  Forall (fun e => snd e = 0 \/ snd e = - EIO) (bio_endios (snd r)) /\
  submitted_bios (snd r) = [] /\ helper_calls (snd r) = [] /\
  logpack_wait_queue (iocored (fst r)) =
    skipn n (logpack_wait_queue (iocored wdev)) /\
  exists packs,
    logpack_gc_queue (iocored (fst r)) = logpack_gc_queue (iocored wdev) ++ packs /\
    map logpack_header_sector packs = map logpack_header_sector taken /\
    Forall (fun p => header_bioe p = None) packs.
Proof.
  cbv zeta. unfold task_wait_for_logpack_list. cbv zeta.
  destruct (logpack_wait_queue (iocored wdev)) as [|p0 q0] eqn:Hq0.
  { rewrite firstn_nil, skipn_nil.
    cbn [fst snd iocored set_iocored clear_working_flag set_flags
         logpack_gc_queue logpack_wait_queue bio_endios submitted_bios
         helper_calls flat_map map].
    rewrite Hq0. repeat split; try constructor.
    exists []. rewrite app_nil_r. repeat split; constructor. }
  rewrite <- Hq0. clear p0 q0 Hq0. unfold dequeue_bulk. cbv zeta.
  match goal with |- context [wait_for_logpacks K done n_fail now ?w ?l] =>
    pose proof (wait_for_logpacks_acks done n_fail now l w) as H1;
    destruct (wait_for_logpacks K done n_fail now w l) as [[wdev2 packs] ev] end.
  cbv zeta in H1. cbn [fst snd iocored set_iocored logpack_gc_queue
                       logpack_wait_queue set_logpack_wait_queue
                       set_logpack_gc_queue set_flags
                       enqueue_submit_data_task_if_necessary
                       enqueue_task_if_necessary] in *.
  destruct H1 as ((A1 & A2 & A3 & A4) & B1 & B2 & B3 & B4).
  repeat split; try assumption.
  exists packs. rewrite B1. repeat split; assumption.
Qed.


(** *** What the log submitter does with the writes it takes *)

Lemma bio_endios_requests (l : list bio) :
  bio_endios (map Ev_generic_make_request l) = [].
Proof. induction l as [|b l IH]; [reflexivity|exact IH]. Qed.

Lemma submit_logpack_loop_bios (logh : walb_logpack_header)
      (pbs ldev0 ring_off ring_size chunk_sectors : Z) (l : list bio_wrapper) :
  forall i,
    let r := submit_logpack_loop K logh l i pbs ldev0 ring_off ring_size
                                 chunk_sectors in
    map biow_bio (fst r) = map biow_bio l /\ bio_endios (snd r) = [].
Proof.
  induction l as [|w l IH]; intros i; cbn [submit_logpack_loop];
    [split; reflexivity|].
  cbv zeta.
  match goal with |- context [submit_logpack_loop K logh l ?j] =>
    pose proof (IH j) as H1;
    destruct (submit_logpack_loop K logh l j pbs ldev0 ring_off ring_size
                chunk_sectors) as [tl' ev'] end.
  cbv zeta in H1. cbn [fst snd] in H1. destruct H1 as [H1 H2].
  match goal with |- context [if rec_discard ?r then ?a else ?b] =>
    set (x := if rec_discard r then a else b) end.
  assert (Hx : biow_bio (fst x) = biow_bio w /\ bio_endios (snd x) = []).
  { subst x. destruct (rec_discard _); [split; reflexivity|].
    destruct (len w =? 0); [split; reflexivity|].
    split; [reflexivity|]. apply bio_endios_requests. }
  clearbody x. destruct x as [w' ev]. cbn [fst snd] in *. destruct Hx as [X1 X2].
  cbn [map]. rewrite bio_endios_app, X1, X2, H1, H2. split; reflexivity.
Qed.

Lemma submit_one_logpack_bios (wp : walb_params) (p : pack) :
  let r := submit_one_logpack K wp p in
  map biow_bio (biow_list (fst r)) = map biow_bio (biow_list p) /\
  bio_endios (snd r) = [] /\ header_bioe (fst r) <> None.
Proof.
  unfold submit_one_logpack. cbv zeta.
  destruct (is_zero_flush_only p); [cbn; repeat split; discriminate|].
  unfold submit_logpack. cbv zeta.
  destruct (logpack_submit_header K _ _ _ _ _ _) as [bioe ev] eqn:Hh.
  assert (He : bio_endios ev = []).
  { unfold logpack_submit_header in Hh. injection Hh as _ <-. reflexivity. }
  match goal with |- context [submit_logpack_loop K ?h ?l ?i ?a ?b ?c ?d ?e] =>
    pose proof (submit_logpack_loop_bios h a b c d e l i) as H1;
    destruct (submit_logpack_loop K h l i a b c d e) as [l' ev'] end.
  cbv zeta in H1. cbn [fst snd] in *. destruct H1 as [H1 H2].
  cbn [biow_list set_header_bioe set_biow_list header_bioe].
  rewrite bio_endios_app, He, H2. repeat split; [exact H1|discriminate].
Qed.

Lemma submit_logpack_list_bios (wp : walb_params) (l : list pack) :
  let r := submit_logpack_list K wp l in
  flat_map (fun p => map biow_bio (biow_list p)) (fst r) =
    flat_map (fun p => map biow_bio (biow_list p)) l /\
  bio_endios (snd r) = [] /\
  Forall (fun p => header_bioe p <> None) (fst r).
Proof.
  induction l as [|p l IH]; cbn [submit_logpack_list];
    [cbn; repeat split; constructor|].
  pose proof (submit_one_logpack_bios wp p) as H1.
  destruct (submit_one_logpack K wp p) as [p' ev].
  destruct (submit_logpack_list K wp l) as [l' ev'].
  cbv zeta in *. cbn [fst snd flat_map] in *.
  destruct H1 as (A1 & A2 & A3), IH as (B1 & B2 & B3).
  rewrite bio_endios_app, A1, A2, B1, B2. repeat split. constructor; assumption.
Qed.

Lemma create_logpack_list_queues (wdev : walb_dev) (l : list bio_wrapper) (now : Z) :
  let r := create_logpack_list K mp wdev l now in
  logpack_submit_queue (iocored (snd (fst r))) = logpack_submit_queue (iocored wdev) /\
  logpack_wait_queue (iocored (snd (fst r))) = logpack_wait_queue (iocored wdev).
Proof.
  unfold create_logpack_list. cbv zeta.
  destruct (is_error_before_overflow_ mp && _); [split; reflexivity|].
  destruct (flush (set_latest (lsids wdev) _) <? _);
    destruct (wrap64 _ >? ring_buffer_size (par wdev));
    cbn [iocored set_iocored set_lsids flags set_log_flush_jiffies];
    try destruct (IOCORE_STATE_LOG_OVERFLOW (flags (iocored wdev))) eqn:Ho;
    split; reflexivity.
Qed.

Lemma create_logpack_list_outcome (wdev : walb_dev) (l : list bio_wrapper) (now : Z) :
  let r := create_logpack_list K mp wdev l now in
  if fst (fst (fst r)) then
    bio_endios (snd r) = [] /\
    flat_map (fun p => map biow_bio (biow_list p)) (snd (fst (fst r))) =
      map biow_bio l
  else
    bio_endios (snd r) = map (fun w => (biow_bio w, - EIO)) l.
Proof.
  unfold create_logpack_list. cbv zeta.
  pose proof (packed_bios wdev l now) as Hb.
  destruct (is_error_before_overflow_ mp && _).
  - cbn [fst snd]. rewrite <- (map_map biow_bio (fun b => (b, - EIO))), <- Hb.
    clear Hb. induction (wpack_list (packed K wdev l now)) as [|p ps IH]; [reflexivity|].
    cbn [flat_map]. rewrite !bio_endios_app, IH, map_app.
    destruct (fail_and_destroy_observed (biow_list p)) as (-> & _).
    cbn. rewrite app_nil_r. reflexivity.
  - assert (Hq : bio_endios (invoke_userland_exec K mp (par wdev) "overflow") = []).
    { unfold invoke_userland_exec. cbv zeta. destruct (_ || _); reflexivity. }
    destruct (flush (set_latest (lsids wdev) _) <? _);
      destruct (wrap64 _ >? ring_buffer_size (par wdev));
      cbn [iocored set_iocored set_lsids flags set_log_flush_jiffies];
      try destruct (IOCORE_STATE_LOG_OVERFLOW (flags (iocored wdev))) eqn:Ho;
      cbn [fst snd]; split; auto.
Qed.

(** X23. One round of the log submitter loses no write and answers none
    twice. The wrappers it takes leave the submit queue; either the bio
    of each of them is completed with [-EIO], in queue order, and no pack
    is queued (the device is read-only, or the batch would overflow the
    ring buffer with [is_error_before_overflow] set), or no bio is
    completed and the packs appended to the wait queue hold the bios of
    the batch in queue order, each pack with the bio of its header or
    flush in flight. *)
Theorem task_submit_logpack_list_conserves (wdev : walb_dev) (now : Z) :
  let q := logpack_submit_queue (iocored wdev) in
  let n := Z.to_nat (Z.max 1 (n_io_bulk (par wdev))) in
  let taken := firstn n q in
  let r := task_submit_logpack_list K mp wdev now in
  logpack_submit_queue (iocored (fst r)) = skipn n q /\
  exists packs,
    logpack_wait_queue (iocored (fst r)) =
      logpack_wait_queue (iocored wdev) ++ packs /\
    Forall (fun p => header_bioe p <> None) packs /\
    ((bio_endios (snd r) = map (fun w => (biow_bio w, - EIO)) taken /\
      packs = []) \/
     (bio_endios (snd r) = [] /\
      flat_map (fun p => map biow_bio (biow_list p)) packs = map biow_bio taken)).
Proof.
  cbv zeta. unfold task_submit_logpack_list, dequeue_bulk. cbv zeta.
  destruct (logpack_submit_queue (iocored wdev)) as [|w0 q] eqn:Hq.
  { rewrite skipn_nil, firstn_nil. cbn [fst snd]. split; [exact Hq|].
    exists []. rewrite app_nil_r. split; [reflexivity|]. split; [constructor|].
    left. split; reflexivity. }
  set (n := Z.to_nat (Z.max 1 (n_io_bulk (par wdev)))).
  set (taken := firstn n (w0 :: q)). set (rest := skipn n (w0 :: q)).
  assert (Hst : map biow_bio (map bio_wrapper_state_set_started taken) =
                map biow_bio taken)
    by (rewrite map_map; reflexivity).
  destruct (IOCORE_STATE_READ_ONLY (flags (iocored wdev))).
  { cbn [fst snd iocored set_iocored logpack_submit_queue logpack_wait_queue
         set_logpack_submit_queue].
    split; [reflexivity|]. exists []. rewrite app_nil_r.
    split; [reflexivity|]. split; [constructor|]. left. split; [|reflexivity].
    destruct (fail_and_destroy_observed (map bio_wrapper_state_set_started taken))
      as (-> & _).
    rewrite Hst, map_map. reflexivity. }
  match goal with |- context [create_logpack_list K mp ?w ?l now] =>
    pose proof (create_logpack_list_queues w l now) as Hc;
    pose proof (create_logpack_list_outcome w l now) as Ho;
    destruct (create_logpack_list K mp w l now) as [[[ret packs] wdev2] ev] end.
  cbv zeta in Hc, Ho.
  cbn [fst snd iocored set_iocored logpack_submit_queue logpack_wait_queue
       set_logpack_submit_queue] in Hc, Ho.
  destruct Hc as [C1 C2].
  destruct ret; cbn [negb].
  - pose proof (submit_logpack_list_bios (par wdev2) packs) as Hs.
    destruct (submit_logpack_list K (par wdev2) packs) as [packs' ev'].
    cbv zeta in Hs. cbn [fst snd] in Hs. destruct Hs as (S1 & S2 & S3).
    destruct Ho as [O1 O2].
    cbn [fst snd iocored set_iocored logpack_submit_queue logpack_wait_queue
         set_logpack_wait_queue].
    split; [exact C1|]. exists packs'. rewrite C2.
    split; [reflexivity|]. split; [exact S3|]. right.
    rewrite bio_endios_app, O1, S2, S1, O2, Hst. split; reflexivity.
  - cbn [fst snd]. split; [exact C1|]. exists []. rewrite app_nil_r.
    split; [exact C2|]. split; [constructor|]. left. split; [|reflexivity].
    rewrite Ho, map_map. reflexivity.
Qed.

(** *** The task-working bits *)

Lemma stages_scheduled_view (d d' : iocore_data) :
  sched_view d' = sched_view d -> stages_scheduled d -> stages_scheduled d'.
Proof.
  unfold sched_view, stage_bits, stages_scheduled.
  intros Hv. injection Hv as -> -> -> -> -> ->. auto.
Qed.

Lemma create_logpack_list_view (wdev : walb_dev) (l : list bio_wrapper) (now : Z) :
  sched_view (iocored (snd (fst (create_logpack_list K mp wdev l now)))) =
  sched_view (iocored wdev).
Proof.
  unfold create_logpack_list. cbv zeta.
  destruct (is_error_before_overflow_ mp && _); [reflexivity|].
  destruct (flush (set_latest (lsids wdev) _) <? _);
    destruct (wrap64 _ >? ring_buffer_size (par wdev));
    cbn [iocored set_iocored set_lsids flags set_log_flush_jiffies];
    try destruct (IOCORE_STATE_LOG_OVERFLOW (flags (iocored wdev))) eqn:Ho;
    reflexivity.
Qed.

Lemma insert_pending_rest (n_fail : nat) (wp : walb_params) (biow : bio_wrapper)
      (now : Z) :
  forall d, sched_rest (snd (insert_pending n_fail wp d biow now)) = sched_rest d.
Proof.
  assert (Hs : forall d, sched_rest (snd (should_stop_queue wp d biow now)) =
                         sched_rest d).
  { intros d. unfold should_stop_queue.
    destruct (is_under_throttling d); [reflexivity|].
    destruct (wrap32 (pending_sectors d + len biow) >? max_pending_sectors wp);
      reflexivity. }
  induction n_fail as [|k IH]; intros d; simpl;
    pose proof (Hs d) as H1;
    destruct (should_stop_queue wp d biow now) as [st d1];
    simpl in H1; destruct (st_discard biow); simpl; auto.
  rewrite IH. exact H1.
Qed.

Lemma waitlog_one_rest (done : bio -> Z) (n_fail : bio_wrapper -> nat) (now : Z)
      (st : waitlog_state) (biow : bio_wrapper) :
  sched_rest (iocored (wl_dev (waitlog_one K done n_fail now st biow))) =
  sched_rest (iocored (wl_dev st)).
Proof.
  unfold waitlog_one. cbv zeta.
  destruct (wl_failed st || negb (error (wait_for_bio_wrapper done biow true) =? 0));
    [reflexivity|].
  destruct (len (wait_for_bio_wrapper done biow true) =? 0); [reflexivity|].
  match goal with |- context [insert_pending ?n ?wp ?d ?b ?t] =>
    pose proof (insert_pending_rest n wp b t d) as J;
    destruct (insert_pending n wp d b t) as [stop d1] end.
  simpl in J. destruct stop; exact J.
Qed.

Lemma waitlog_fold_rest (done : bio -> Z) (n_fail : bio_wrapper -> nat) (now : Z)
      (l : list bio_wrapper) :
  forall st,
    sched_rest (iocored (wl_dev (fold_left (waitlog_one K done n_fail now) l st))) =
    sched_rest (iocored (wl_dev st)).
Proof.
  induction l as [|w l IH]; intros st; simpl; [reflexivity|].
  rewrite IH. apply waitlog_one_rest.
Qed.

Lemma wait_for_logpack_rest (done : bio -> Z) (n_fail : bio_wrapper -> nat)
      (now : Z) (wdev : walb_dev) (p : pack) :
  sched_rest (iocored (fst (fst (wait_for_logpack_and_submit_datapack
                                   K done n_fail now wdev p)))) =
  sched_rest (iocored wdev).
Proof.
  unfold wait_for_logpack_and_submit_datapack. cbv zeta.
  match goal with |- context [match ?x with (_, _) => _ end] => set (r1 := x) end.
  assert (R : iocored (fst r1) = iocored wdev).
  { subst r1. destruct (negb _ && is_flush_header p); [|auto].
    destruct (permanent (lsids wdev) <? logpack_lsid (logpack_header_sector p));
      auto. }
  clearbody r1. destruct r1 as [wdev1 ev1]. cbn [fst] in R.
  match goal with |- context [fold_left ?f ?l ?s] =>
    pose proof (waitlog_fold_rest done n_fail now l s) as Hf;
    set (st := fold_left f l s) in * end.
  cbn [wl_dev] in Hf. rewrite R in Hf. clearbody st.
  destruct (wl_failed st); [exact Hf|].
  destruct (is_flush_contained p && _);
    destruct (negb (has_flag (flush_flags (par (wl_dev st))) REQ_FLUSH));
    exact Hf.
Qed.

Lemma wait_for_logpacks_rest (done : bio -> Z) (n_fail : bio_wrapper -> nat)
      (now : Z) (l : list pack) :
  forall wdev,
    sched_rest (iocored (fst (fst (wait_for_logpacks K done n_fail now wdev l)))) =
    sched_rest (iocored wdev).
Proof.
  induction l as [|p l IH]; intros wdev; simpl; [reflexivity|].
  pose proof (wait_for_logpack_rest done n_fail now wdev p) as H1.
  destruct (wait_for_logpack_and_submit_datapack K done n_fail now wdev p)
    as [[wdev1 p'] ev].
  pose proof (IH wdev1) as H2.
  destruct (wait_for_logpacks K done n_fail now wdev1 l) as [[wdev2 l'] ev'].
  cbn [fst] in *. congruence.
Qed.

Lemma force_log_flush_view (wdev : walb_dev) (now flush_err : Z) :
  sched_view (iocored (fst (force_log_flush wdev now flush_err))) =
  sched_view (iocored wdev).
Proof.
  unfold force_log_flush. cbv zeta.
  destruct (flush (lsids wdev) <? latest (lsids wdev));
    destruct (negb (flush_err =? 0)); cbn [lsids set_iocored set_lsids];
    match goal with |- context [permanent ?l <? ?x] =>
      destruct (permanent l <? x) end;
    reflexivity.
Qed.

Lemma wait_for_log_permanent_view (fuel : nat) (wdev wdev' : walb_dev)
      (lsid0 now tick flush_err : Z) (ev : list event) :
  wait_for_log_permanent fuel wdev lsid0 now tick flush_err = Some (wdev', ev) ->
  sched_view (iocored wdev') = sched_view (iocored wdev).
Proof.
  unfold wait_for_log_permanent. intros Hw.
  destruct (log_flush_interval_jiffies (par wdev) =? 0).
  - injection Hw as <- _. reflexivity.
  - apply wait_loop_result in Hw. destruct Hw as [-> | [now' ->]];
      [reflexivity|apply force_log_flush_view].
Qed.

Lemma wait_for_write_bio_wrapper_view (done : bio -> Z)
      (released : bio_wrapper -> list bio_wrapper) (now : Z)
      (wdev : walb_dev) (biow : bio_wrapper) :
  sched_view (iocored (fst (fst (wait_for_write_bio_wrapper done released now
                                   wdev biow)))) =
  sched_view (iocored wdev).
Proof.
  unfold wait_for_write_bio_wrapper, should_start_queue, iocore_melt. cbv zeta.
  destruct (negb (is_under_throttling (iocored wdev))).
  - destruct (st_discard _); reflexivity.
  - match goal with |- context [if ?c || ?c' then _ else _] =>
      destruct (c || c') end;
      destruct (st_discard _);
      try match goal with |- context [?c =? 0] => destruct (c =? 0) end;
      reflexivity.
Qed.

Lemma wait_for_write_bio_wrappers_view (done : bio -> Z)
      (released : bio_wrapper -> list bio_wrapper) (now : Z)
      (l : list bio_wrapper) :
  forall wdev,
    sched_view (iocored (fst (wait_for_write_bio_wrappers done released now
                                wdev l))) =
    sched_view (iocored wdev).
Proof.
  induction l as [|w l IH]; intros wdev; simpl; [reflexivity|].
  pose proof (wait_for_write_bio_wrapper_view done released now wdev w) as H1.
  destruct (wait_for_write_bio_wrapper done released now wdev w) as [[wdev1 w'] ev].
  pose proof (IH wdev1) as H2.
  destruct (wait_for_write_bio_wrappers done released now wdev1 l) as [wdev2 ev'].
  cbn [fst] in *. congruence.
Qed.

Lemma read_only_fold_view (data_error : bio_wrapper -> Z) (l : list bio_wrapper) :
  forall d,
    sched_view (fold_left (fun d biow => if negb (data_error biow =? 0)
                                         then set_read_only_mode d else d) l d) =
    sched_view d.
Proof.
  induction l as [|w l IH]; intros d; simpl; [reflexivity|].
  rewrite IH. destruct (negb (data_error w =? 0)); reflexivity.
Qed.

Lemma gc_logpack_loop_view (data_error : bio_wrapper -> Z) (l : list pack) :
  forall d w,
    sched_view (fst (fst (gc_logpack_loop data_error d w l))) = sched_view d.
Proof.
  induction l as [|p l IH]; intros d w; [reflexivity|].
  cbn [gc_logpack_loop].
  match goal with |- context [gc_logpack_loop data_error ?d1 ?w1 l] =>
    pose proof (IH d1 w1) as H1;
    destruct (gc_logpack_loop data_error d1 w1 l) as [[d2 w2] ev] end.
  cbn [fst snd] in *. rewrite H1. apply read_only_fold_view.
Qed.

(** Every step keeps the three stages scheduled. *)
Lemma step_stages_scheduled (wdev wdev' : walb_dev) :
  step K mp wdev wdev' ->
  stages_scheduled (iocored wdev) -> stages_scheduled (iocored wdev').
Proof.
  intros Hstep Hs.
  destruct Hstep as [wdev b allocated Hw|wdev now|wdev done n_fail now
                    |wdev fuel now tick flush_err delayed wdev' ev Hr
                    |wdev done released now|wdev data_error].
  - unfold iocore_make_request. cbv zeta. rewrite Hw.
    destruct (IOCORE_STATE_FAILURE _ || _); [exact Hs|].
    destruct allocated; [|exact Hs].
    destruct (n_stoppers (iocored wdev) =? 0); exact Hs.
  - unfold task_submit_logpack_list. cbv zeta.
    destruct (logpack_submit_queue (iocored wdev)) as [|w0 q]; [exact Hs|].
    destruct (dequeue_bulk (n_io_bulk (par wdev)) (w0 :: q)) as [taken rest].
    destruct (IOCORE_STATE_READ_ONLY (flags (iocored wdev))); [exact Hs|].
    match goal with |- context [create_logpack_list K mp ?w ?l now] =>
      pose proof (create_logpack_list_view w l now) as Hc;
      destruct (create_logpack_list K mp w l now) as [[[ret packs] wdev2] ev] end.
    cbn [fst snd] in Hc.
    assert (H2 : stages_scheduled (iocored wdev2))
      by (apply (stages_scheduled_view Hc); exact Hs).
    destruct ret; cbn [negb fst]; [|exact H2].
    destruct (submit_logpack_list K (par wdev2) packs) as [packs' ev'].
    destruct H2 as (_ & S2 & S3).
    split; [intros _; reflexivity|]. split; [exact S2|exact S3].
  - unfold task_wait_for_logpack_list. cbv zeta.
    destruct (logpack_wait_queue (iocored wdev)) as [|p0 q0] eqn:Hq0.
    { destruct Hs as (_ & S2 & S3).
      split; [|split; [exact S2|exact S3]].
      cbn [fst iocored set_iocored clear_working_flag set_flags logpack_wait_queue].
      rewrite Hq0. intros Hne. now elim Hne. }
    assert (Hbit : IOCORE_STATE_WAIT_LOG_TASK_WORKING (flags (iocored wdev)) = true).
    { apply (proj1 Hs). rewrite Hq0. discriminate. }
    destruct (dequeue_bulk _ _) as [taken rest].
    match goal with |- context [wait_for_logpacks K done n_fail now ?w ?l] =>
      pose proof (wait_for_logpacks_rest done n_fail now l w) as H1;
      destruct (wait_for_logpacks K done n_fail now w l) as [[wdev2 packs] ev] end.
    cbn [fst] in H1. unfold sched_rest, stage_bits in H1.
    cbn [iocored set_iocored flags logpack_wait_queue datapack_wait_queue
         set_logpack_wait_queue] in H1.
    injection H1 as _ R2 R3 _ R5.
    destruct Hs as (_ & _ & S3).
    split; [intros _; cbn; rewrite R3; exact Hbit|].
    split; [intros _; reflexivity|].
    cbn. rewrite R2, R5. exact S3.
  - revert Hr. unfold task_submit_bio_wrapper_list. cbv zeta.
    destruct (datapack_submit_queue (iocored wdev)) as [|w0 q] eqn:Hq0.
    { intros Hx. injection Hx as <- _. destruct Hs as (S1 & _ & S3).
      split; [exact S1|]. split; [|exact S3].
      cbn [iocored set_iocored clear_working_flag set_flags datapack_submit_queue].
      rewrite Hq0. intros Hne. now elim Hne. }
    assert (Hbit : IOCORE_STATE_SUBMIT_DATA_TASK_WORKING (flags (iocored wdev)) =
                   true).
    { apply (proj1 (proj2 Hs)). rewrite Hq0. discriminate. }
    destruct (dequeue_bulk (n_io_bulk (par wdev)) (w0 :: q)) as [taken rest].
    destruct (wait_for_log_permanent fuel _ _ now tick flush_err)
      as [[wdev2 ev2]|] eqn:Hw; [|discriminate].
    apply wait_for_log_permanent_view in Hw.
    unfold sched_view, stage_bits in Hw.
    cbn [iocored set_iocored flags logpack_wait_queue datapack_submit_queue
         datapack_wait_queue set_datapack_submit_queue] in Hw.
    injection Hw as V1 _ _ V4 V5 _.
    intros Hx. injection Hx as <- _. destruct Hs as (S1 & _ & _).
    split; [cbn; rewrite V1, V4; exact S1|].
    split; [intros _; cbn; rewrite V5; exact Hbit|intros _; reflexivity].
  - unfold task_wait_for_bio_wrapper_list. cbv zeta.
    destruct (datapack_wait_queue (iocored wdev)) as [|w0 q0] eqn:Hq0.
    { destruct Hs as (S1 & S2 & _).
      split; [exact S1|]. split; [exact S2|].
      cbn [fst iocored set_iocored clear_working_flag set_flags datapack_wait_queue].
      rewrite Hq0. intros Hne. now elim Hne. }
    assert (Hbit : IOCORE_STATE_WAIT_DATA_TASK_WORKING (flags (iocored wdev)) = true).
    { apply (proj2 (proj2 Hs)). rewrite Hq0. discriminate. }
    destruct (dequeue_bulk _ _) as [taken rest].
    match goal with |- context [wait_for_write_bio_wrappers done released now ?w ?l] =>
      pose proof (wait_for_write_bio_wrappers_view done released now l w) as H1 end.
    unfold sched_view, stage_bits in H1.
    cbn [iocored set_iocored flags logpack_wait_queue datapack_submit_queue
         datapack_wait_queue set_datapack_wait_queue] in H1.
    injection H1 as V1 V2 _ V4 V5 V6.
    destruct Hs as (S1 & S2 & _).
    split; [rewrite V1, V4; exact S1|].
    split; [rewrite V2, V5; exact S2|intros _; rewrite V6; exact Hbit].
  - unfold dequeue_and_gc_logpack_list. cbv zeta.
    destruct (logpack_gc_queue (iocored wdev)) as [|p0 q]; [exact Hs|].
    destruct (dequeue_bulk _ _) as [taken rest]. unfold gc_logpack_list.
    match goal with |- context [gc_logpack_loop data_error ?d ?w ?l] =>
      pose proof (gc_logpack_loop_view data_error l d w) as H1;
      destruct (gc_logpack_loop data_error d w l) as [[d2 w2] ev] end.
    cbn [fst snd iocored set_iocored set_lsids] in *.
    apply (stages_scheduled_view H1). exact Hs.
Qed.

(** X25. The task-working bits keep the stages scheduled. If no stage
    after the log submitter (log wait, data submit, data wait) has work
    on its queue while its task-working bit is clear, then this holds at
    every state the pipeline reaches: a round that queues work for the
    next stage sets the bit of that stage, and a round clears its own
    bit only when it finds its queue empty. *)
Theorem stages_stay_scheduled (wdev wdev' : walb_dev) :
  reachable K mp wdev wdev' ->
  stages_scheduled (iocored wdev) -> stages_scheduled (iocored wdev').
Proof.
  induction 1 as [|w1 w2 Hr IH Hs]; intros Hb; [exact Hb|].
  eapply step_stages_scheduled; [exact Hs|]. apply IH. exact Hb.
Qed.

End WithKernel.

(** *** The facts at concrete inputs *)

Section Examples.
Import Example.

Lemma writepack_add_bio_wrapper_seals_witness :
  let biow := init_bio_wrapper (write8 8) in
  let r := writepack_add_bio_wrapper K builder1 biow 1024 1 params0 0 true in
  wpackp builder1 = Some pack1 /\ biow_list pack1 <> [] /\
  0 <= n_records (logpack_header_sector pack1) /\
  (1 <> 0 /\
   wrap32 (wrap32 (Io.capacity_pb K (physical_bs params0) (len biow)) +
           total_io_size (logpack_header_sector pack1)) > 1) /\
  fst r = true /\
  exists sealed fresh,
    wpack_list (snd r) = wpack_list builder1 ++ [sealed] /\
    biow_list sealed = biow_list pack1 /\
    latest_lsidp (snd r) = get_next_lsid_unsafe (logpack_header_sector sealed) /\
    wpackp (snd r) = Some fresh /\
    map biow_bio (biow_list fresh) = [biow_bio biow].
Proof.
  intros biow r.
  assert (H1 : wpackp builder1 = Some pack1) by reflexivity.
  assert (H2 : biow_list pack1 <> []) by discriminate.
  assert (H3 : 0 <= n_records (logpack_header_sector pack1)) by (vm_compute; discriminate).
  assert (H4 : 1 <> 0 /\
               wrap32 (wrap32 (Io.capacity_pb K (physical_bs params0) (len biow)) +
                       total_io_size (logpack_header_sector pack1)) > 1)
    by (split; [discriminate|vm_compute; reflexivity]).
  split; [exact H1|]. split; [exact H2|]. split; [exact H3|]. split; [exact H4|].
  destruct (@writepack_add_bio_wrapper_seals K builder1 pack1 biow 1024 1 params0 0
              H1 H2 H3) as (Hr & Hseal & _).
  split; [exact Hr|].
  destruct (Hseal (or_intror (or_intror (or_introl H4))))
    as (sealed & fresh & S1 & S2 & _ & S4 & S5 & _ & S7).
  exists sealed, fresh. repeat split; assumption.
Defined.

Lemma create_logpack_list_error_before_overflow_witness :
  is_error_before_overflow_ mp_strict = true /\
  ring_buffer_size (par wdev_full) <
    wrap64 (latest_lsidp (packed K wdev_full [init_bio_wrapper (write8 0)] 0)
            - oldest (lsids wdev_full)) /\
  let '(ret, packs, wdev', ev) :=
    create_logpack_list K mp_strict wdev_full [init_bio_wrapper (write8 0)] 0 in
  ret = false /\ packs = [] /\
  lsids wdev' = lsids wdev_full /\
  flags (iocored wdev') = flags (iocored wdev_full) /\
  bio_endios ev = map (fun w => (biow_bio w, - EIO)) [init_bio_wrapper (write8 0)] /\
  destroyed_packs ev =
    map (fun p => logpack_lsid (logpack_header_sector p))
        (wpack_list (packed K wdev_full [init_bio_wrapper (write8 0)] 0)) /\
  helper_calls ev = [].
Proof.
  assert (H1 : is_error_before_overflow_ mp_strict = true) by reflexivity.
  assert (H2 : ring_buffer_size (par wdev_full) <
               wrap64 (latest_lsidp (packed K wdev_full [init_bio_wrapper (write8 0)] 0)
                       - oldest (lsids wdev_full))) by (vm_compute; reflexivity).
  split; [exact H1|]. split; [exact H2|].
  exact (@create_logpack_list_error_before_overflow K mp_strict wdev_full
           [init_bio_wrapper (write8 0)] 0 H1 H2).
Defined.

(** C4 as stated does not hold: with [is_error_before_overflow] set
    and a batch that would overflow the ring buffer, the batch is failed
    and [LOG_OVERFLOW] is still clear afterwards. *)
Lemma error_before_overflow_flag_not_set :
  is_error_before_overflow_ mp_strict = true /\
  ring_buffer_size (par wdev_full) <
    wrap64 (latest_lsidp (packed K wdev_full [init_bio_wrapper (write8 0)] 0)
            - oldest (lsids wdev_full)) /\
  let '(ret, packs, wdev', ev) :=
    create_logpack_list K mp_strict wdev_full [init_bio_wrapper (write8 0)] 0 in
  ret = false /\
  IOCORE_STATE_LOG_OVERFLOW (flags (iocored wdev')) = false.
Proof. vm_compute. repeat split; reflexivity. Qed.

(** C8, the code at an overflowing batch: with the hook path
    [/usr/sbin/walb_alert] and the device 253:0, the batch that takes
    [latest - oldest] past the ring buffer size sets [LOG_OVERFLOW] and
    runs the hook with the three arguments [253], [0] and [overflow],
    where the documentation of the driver gives two, the minor id and
    the event. *)
Theorem overflow_hook_invocation :
  let '(ret, packs, wdev', ev) :=
    create_logpack_list K mp wdev_full [init_bio_wrapper (write8 0)] 0 in
  ret = true /\
  IOCORE_STATE_LOG_OVERFLOW (flags (iocored wdev')) = true /\
  helper_calls ev =
    [("/usr/sbin/walb_alert"%string,
      ["/usr/sbin/walb_alert"; "253"; "0"; "overflow"]%string)].
Proof. vm_compute. repeat split; reflexivity. Qed.

(** Once [LOG_OVERFLOW] is set, a further overflowing batch does not run
    the hook again. *)
Lemma overflow_hook_only_once :
  let '(_, _, wdev', _) :=
    create_logpack_list K mp wdev_full [init_bio_wrapper (write8 0)] 0 in
  let '(ret, _, wdev'', ev) :=
    create_logpack_list K mp wdev' [init_bio_wrapper (write8 8)] 0 in
  ret = true /\
  IOCORE_STATE_LOG_OVERFLOW (flags (iocored wdev'')) = true /\
  helper_calls ev = [].
Proof. vm_compute. repeat split; reflexivity. Qed.

Lemma example_add_bio_zero (lsid0 : Z) (bio0 : bio) :
  bi_sectors bio0 = 0 ->
  walb_logpack_header_add_bio K (mk_logpack_header lsid0 0 0 0 0 []) bio0
    (physical_bs (par wdev0)) (ring_buffer_size (par wdev0)) =
  (true, mk_logpack_header lsid0 0 0 0 0 []).
Proof.
  intros H. simpl. unfold add_bio. simpl. rewrite H. reflexivity.
Qed.

Lemma zero_flush_pack_lifecycle_witness :
  (forall lsid0 bio0, bi_sectors bio0 = 0 ->
     walb_logpack_header_add_bio K (mk_logpack_header lsid0 0 0 0 0 []) bio0
       (physical_bs (par wdev0)) (ring_buffer_size (par wdev0)) =
     (true, mk_logpack_header lsid0 0 0 0 0 [])) /\
  (forall p0, wpackp builder1 = Some p0 ->
     biow_list p0 <> [] /\ 0 <= n_records (logpack_header_sector p0)) /\
  bi_sectors (biow_bio (init_bio_wrapper zero_flush)) = 0 /\
  len (init_bio_wrapper zero_flush) = 0 /\
  has_flag (bi_rw (biow_bio (init_bio_wrapper zero_flush))) REQ_FLUSH = true /\
  cloned_bioe (init_bio_wrapper zero_flush) = None /\
  error (init_bio_wrapper zero_flush) = 0 /\
  (fun _ : bio => 0) (mk_bio (ldev (par wdev0)) WRITE_FLUSH 0 0) = 0 /\
  wpackp (snd (writepack_add_bio_wrapper K builder1 (init_bio_wrapper zero_flush)
                 (ring_buffer_size (par wdev0)) (max_logpack_pb (par wdev0))
                 (par wdev0) 0 true)) =
  Some (mk_pack [init_bio_wrapper zero_flush] (mk_logpack_header 2 0 0 0 0 [])
                None false true false false).
Proof.
  assert (H2 : forall p0, wpackp builder1 = Some p0 ->
             biow_list p0 <> [] /\ 0 <= n_records (logpack_header_sector p0)).
  { intros p0 [= <-]. split; [discriminate|]. vm_compute. discriminate. }
  split; [exact example_add_bio_zero|]. split; [exact H2|].
  repeat (split; [reflexivity|]).
  exact (proj1 (@zero_flush_pack_lifecycle K builder1 (init_bio_wrapper zero_flush)
                  wdev0 0 (fun _ => 0) (fun _ => O) example_add_bio_zero H2
                  eq_refl eq_refl eq_refl eq_refl eq_refl eq_refl)).
Defined.

Lemma submit_logpack_positions_witness :
  paired (record (logpack_header_sector pack1)) (biow_list pack1) /\
  Forall (fun w => len w <> 0 /\ cloned_bioe w = None) (biow_list pack1) /\
  let '(bioe, l', ev) :=
    submit_logpack K (logpack_header_sector pack1) (biow_list pack1) 4096 false
                   1 8 1024 0 in
  bi_bdev (bioe_bio bioe) = 1 /\
  bi_sector (bioe_bio bioe) =
    Io.addr_lb K 4096 (ring_position 8 1024 (logpack_lsid (logpack_header_sector pack1))) /\
  map cloned_sector l' =
    map (fun r => if rec_discard r then None
                  else Some (wrap64 (Io.addr_lb K 4096
                               (ring_position 8 1024 (rec_lsid r)))))
        (write_records (logpack_header_sector pack1)) /\
  Forall (fun w => match cloned_bioe w with
                   | Some e => bi_bdev (bioe_bio e) = 1
                   | None => True
                   end) l' /\
  submitted_bios ev =
    bioe_bio bioe ::
    flat_map (fun w => match cloned_bioe w with
                       | Some e => split_bio_for_chunk K (bioe_bio e) 0
                       | None => []
                       end) l'.
Proof.
  assert (H1 : paired (record (logpack_header_sector pack1)) (biow_list pack1)).
  { apply paired_plain; [reflexivity|apply paired_nil]. }
  assert (H2 : Forall (fun w => len w <> 0 /\ cloned_bioe w = None) (biow_list pack1)).
  { constructor; [split; [discriminate|reflexivity]|constructor]. }
  split; [exact H1|]. split; [exact H2|].
  exact (@submit_logpack_positions K (logpack_header_sector pack1) (biow_list pack1)
           4096 false 1 8 1024 0 H1 H2).
Defined.

(** C7 as stated does not hold: for the pack at lsid 0 that holds one
    write of one physical block, the header goes to sector 64, which is
    block [0 mod 1024 + 8], and the payload of the record goes to sector
    72, which is block [1 mod 1024 + 8]: the position of the record's own
    lsid, not of [logpack_lsid]. *)
Lemma payload_not_at_logpack_lsid :
  let logh := logpack_header_sector pack1 in
  let '(bioe, l', ev) :=
    submit_logpack K logh (biow_list pack1) 4096 false 1 8 1024 0 in
  logpack_lsid logh = 0 /\
  Io.addr_lb K 4096 (wrap64 (logpack_lsid logh mod 1024 + 8)) = 64 /\
  bi_sector (bioe_bio bioe) = 64 /\
  map cloned_sector l' = [Some 72] /\
  map bi_sector (submitted_bios ev) = [64; 72].
Proof. vm_compute. repeat split; reflexivity. Qed.

Lemma wait_for_log_permanent_spec_witness :
  0 <= log_flush_interval_jiffies (par wdev0) < 2 ^ 63 /\
  0 < 1 < 2 ^ 63 /\
  log_flush_interval_jiffies (par wdev0) < Z.of_nat 101 /\
  exists wdev' ev, wait_for_log_permanent 101 wdev0 0 0 1 0 = Some (wdev', ev).
Proof.
  assert (H1 : 0 <= log_flush_interval_jiffies (par wdev0) < 2 ^ 63) by (simpl; lia).
  assert (H2 : 0 < 1 < 2 ^ 63) by lia.
  assert (H3 : log_flush_interval_jiffies (par wdev0) < Z.of_nat 101) by (simpl; lia).
  split; [exact H1|]. split; [exact H2|]. split; [exact H3|].
  destruct (@wait_for_log_permanent_spec 101 wdev0 0 0 1 0 H1 H2 H3)
    as (wdev' & ev & Heq & _).
  exists wdev', ev. exact Heq.
Defined.



(** The same slip of the stoppers on the other side: when the first
    attempt to insert into the pending index fails, the second attempt
    finds the queue already marked as throttled, so the stopper is not
    taken although the mark stays. *)
Lemma retried_insertion_takes_no_stopper :
  let wdev := mk_walb_dev params0 (mk_lsid_set 0 0 0 0 0 0 0)
                (mk_iocore_data flags0 0 [] [] [] [] [] 0 65536 0 false) in
  let st := mk_waitlog_state wdev false [] [] in
  let d' := iocored (wl_dev (waitlog_one K (fun _ => 0) (fun _ => 1%nat) 0 st
                               (init_bio_wrapper (write8 0)))) in
  is_under_throttling d' = true /\ n_stoppers d' = 0.
Proof. vm_compute. split; reflexivity. Qed.

(** The stand-ins for the kernel side keep the laws the builder relies
    on. *)
Lemma example_kern_laws : kern_laws K.
Proof.
  assert (Hcap : forall pbs lb, 0 <= capacity_pb pbs lb).
  { intros pbs lb. unfold capacity_pb, n_lb_in_pb, wrap32.
    pose proof (Z.mod_pos_bound pbs (2 ^ 32) ltac:(lia)) as Hp.
    pose proof (Z.mod_pos_bound lb (2 ^ 32) ltac:(lia)) as Hl.
    assert (Hn : 0 <= pbs mod 2 ^ 32 / 512) by (apply Z.div_pos; lia).
    destruct (Z.eq_dec (pbs mod 2 ^ 32 / 512) 0) as [->|Hne].
    - rewrite Z.div_0_r. lia.
    - apply Z.div_pos; lia. }
  constructor; intros h b pbs rs; cbn [K walb_logpack_header_add_bio];
    unfold add_bio;
    destruct (n_records h >=? max_n_log_record_in_sector pbs);
    cbn [snd]; try reflexivity; try (intros; assumption);
    destruct (bi_sectors b =? 0); cbn [snd logpack_lsid total_io_size];
    try reflexivity; try (intros; assumption).
  intros Hs. pose proof (Hcap pbs (bi_sectors b)).
  destruct (has_flag (bi_rw b) REQ_DISCARD); lia.
Qed.

Lemma example_run_reachable : reachable K mp wdev0 run5.
Proof.
  apply reach_step with run4; [|exact (step_submit_log K mp run4 0)].
  apply reach_step with run3;
    [|exact (@step_make_request K mp run3 (write8 8) true eq_refl)].
  apply reach_step with run2;
    [|exact (step_wait_log K mp run2 (fun _ => 0) (fun _ => O) 0)].
  apply reach_step with run1; [|exact (step_submit_log K mp run1 0)].
  apply reach_step with wdev0;
    [apply reach_init|exact (@step_make_request K mp wdev0 (write8 0) true eq_refl)].
Qed.

Lemma example_run_step : step K mp run5 run6.
Proof.
  apply (@step_submit_data K mp run5 1%nat 0 1 0 (fun _ => false) run6
           (match task_submit_bio_wrapper_list mp 1 0 1 0 (fun _ => false) run5 with
            | Some (_, ev) => ev
            | None => []
            end)).
  vm_compute. reflexivity.
Qed.

Lemma watermarks_along_pipeline_witness :
  kern_laws K /\ fresh_device wdev0 /\ reachable K mp wdev0 run5 /\
  (oldest (lsids run5) <= written (lsids run5) /\
   written (lsids run5) <= latest (lsids run5) /\
   permanent (lsids run5) <= latest (lsids run5) /\
   completed (lsids run5) <= latest (lsids run5)) /\
  forall wdev',
    step K mp run5 wdev' ->
    latest (lsids run5) <= latest (lsids wdev') /\
    completed (lsids run5) <= completed (lsids wdev') /\
    written (lsids run5) <= written (lsids wdev') /\
    oldest (lsids run5) <= oldest (lsids wdev') /\
    (has_flag (flush_flags (par wdev0)) REQ_FLUSH = true ->
     flush (lsids run5) <= flush (lsids wdev') /\
     permanent (lsids run5) <= permanent (lsids wdev')).
Proof.
  assert (H1 : kern_laws K) by exact example_kern_laws.
  assert (H2 : fresh_device wdev0).
  { unfold fresh_device, lsid_chain. simpl. repeat split; lia. }
  assert (H3 : reachable K mp wdev0 run5) by exact example_run_reachable.
  split; [exact H1|]. split; [exact H2|]. split; [exact H3|].
  exact (@watermarks_along_pipeline K mp wdev0 run5 H1 H2 H3).
Defined.

(** C1. The chain oldest <= written <= permanent <= completed <= latest
    is broken at a state the pipeline reaches from the fresh device: two
    writes have their packs created, the log of the first is waited for,
    and the data submitter runs while the pack that starts at lsid 2 is
    still on the log wait queue. The forced flush of
    [wait_for_log_permanent] raises [permanent] to [latest], 4, over a
    pack whose log nobody has waited for, and [completed] is still 2. *)
Lemma forced_flush_passes_completed :
  reachable K mp wdev0 run6 /\
  map (fun p => logpack_lsid (logpack_header_sector p))
      (logpack_wait_queue (iocored run6)) = [2] /\
  latest (lsids run6) = 4 /\
  completed (lsids run6) = 2 /\ permanent (lsids run6) = 4 /\
  ~ lsid_chain (lsids run6).
Proof.
  split; [exact (reach_step example_run_reachable example_run_step)|].
  split; [vm_compute; reflexivity|]. split; [vm_compute; reflexivity|].
  split; [vm_compute; reflexivity|]. split; [vm_compute; reflexivity|].
  unfold lsid_chain. intros (_ & _ & Hpc & _). vm_compute in Hpc.
  apply Hpc. reflexivity.
Qed.


(** *** The further facts at concrete inputs *)

Lemma read_only_is_permanent_witness :
  reachable K mp wdev_ro wdev_ro1 /\
  iocore_is_readonly wdev_ro1 = true /\
  latest (lsids wdev_ro1) = latest (lsids wdev_ro).
Proof.
  assert (H1 : reachable K mp wdev_ro wdev_ro1).
  { apply reach_step with wdev_ro;
      [apply reach_init|exact (step_submit_log K mp wdev_ro 0)]. }
  split; [exact H1|].
  split.
  - exact (proj1 (proj1 (proj2 (@read_only_is_permanent K mp wdev_ro wdev_ro1 H1))
                    eq_refl)).
  - exact (proj1 (proj2 (proj1 (proj2
             (@read_only_is_permanent K mp wdev_ro wdev_ro1 H1)) eq_refl))).
Defined.


Lemma task_submit_logpack_list_read_only_witness :
  iocore_is_readonly wdev_ro = true /\
  bio_endios (snd (task_submit_logpack_list K mp wdev_ro 0)) =
    [(write8 0, - EIO)] /\
  submitted_bios (snd (task_submit_logpack_list K mp wdev_ro 0)) = [].
Proof.
  assert (H1 : iocore_is_readonly wdev_ro = true) by reflexivity.
  split; [exact H1|]. split.
  - exact (proj1 (@task_submit_logpack_list_read_only K mp wdev_ro 0 H1)).
  - exact (proj1 (proj2 (@task_submit_logpack_list_read_only K mp wdev_ro 0 H1))).
Defined.

Lemma logpack_header_failure_witness :
  let e := mk_bio_entry (mk_bio 1 1 64 8) 0 in
  let done := fun _ : bio => - EIO in
  header_bioe pack_waiting = Some e /\ done (bioe_bio e) <> 0 /\
  bio_endios (snd (wait_for_logpack_and_submit_datapack K done (fun _ => O) 0
                     run2 pack_waiting)) = [(write8 0, - EIO)].
Proof.
  intros e done.
  assert (H1 : header_bioe pack_waiting = Some e) by reflexivity.
  assert (H2 : done (bioe_bio e) <> 0) by discriminate.
  split; [exact H1|]. split; [exact H2|].
  exact (proj1 (@logpack_header_failure K done (fun _ => O) 0 run2 pack_waiting
                  e H1 H2)).
Defined.

Lemma logpack_success_witness :
  let done := fun _ : bio => 0 in
  match header_bioe pack_waiting with
  | Some e => done (bioe_bio e) = 0
  | None => True
  end /\
  Forall (fun w => error (wait_for_bio_wrapper done w true) = 0)
         (biow_list pack_waiting) /\
  bio_endios (snd (wait_for_logpack_and_submit_datapack K done (fun _ => O) 0
                     run2 pack_waiting)) = [(write8 0, 0)].
Proof.
  intros done.
  assert (H1 : match header_bioe pack_waiting with
               | Some e => done (bioe_bio e) = 0
               | None => True
               end) by reflexivity.
  assert (H2 : Forall (fun w => error (wait_for_bio_wrapper done w true) = 0)
                      (biow_list pack_waiting))
    by (repeat constructor).
  split; [exact H1|]. split; [exact H2|].
  exact (proj1 (@logpack_success K done (fun _ => O) 0 run2 pack_waiting H1 H2)).
Defined.

Lemma pending_sectors_account_witness :
  reachable K mp wdev0 run5 /\ pending_balanced (iocored wdev0) /\
  pending_balanced (iocored run5).
Proof.
  assert (H1 : reachable K mp wdev0 run5) by exact example_run_reachable.
  assert (H2 : pending_balanced (iocored wdev0)) by reflexivity.
  split; [exact H1|]. split; [exact H2|].
  exact (@pending_sectors_account K mp wdev0 run5 H1 H2).
Defined.

Lemma insert_to_sorted_by_pos_spec_witness :
  let l := [init_bio_wrapper (write8 0); init_bio_wrapper (write8 16)] in
  let biow := init_bio_wrapper (write8 8) in
  StronglySorted Z.le (map pos l) /\
  StronglySorted Z.le (map pos (insert_to_sorted_bio_wrapper_list_by_pos biow l)).
Proof.
  intros l biow.
  assert (H1 : StronglySorted Z.le (map pos l))
    by (repeat constructor; cbn; lia).
  split; [exact H1|].
  exact (proj1 (@insert_to_sorted_by_pos_spec biow l H1)).
Defined.

Lemma task_submit_bio_wrapper_list_order_witness :
  0 <= log_flush_interval_jiffies (par run5) < 2 ^ 63 /\ 0 < 1 < 2 ^ 63 /\
  log_flush_interval_jiffies (par run5) < Z.of_nat 101 /\
  exists wdev' ev sorted,
    task_submit_bio_wrapper_list mp 101 0 1 0 (fun _ => false) run5 =
      Some (wdev', ev) /\
    StronglySorted Z.le (map pos sorted) /\
    submitted_bios ev = flat_map cloned_bio_list sorted.
Proof.
  assert (H1 : 0 <= log_flush_interval_jiffies (par run5) < 2 ^ 63)
    by (vm_compute; split; [discriminate|reflexivity]).
  assert (H2 : 0 < 1 < 2 ^ 63) by lia.
  assert (H3 : log_flush_interval_jiffies (par run5) < Z.of_nat 101)
    by (vm_compute; reflexivity).
  split; [exact H1|]. split; [exact H2|]. split; [exact H3|].
  destruct (@task_submit_bio_wrapper_list_order mp 101%nat 0 1 0 (fun _ => false)
              run5 H1 H2 H3)
    as (wdev' & ev & sorted & S0 & _ & S2 & S3 & _).
  exists wdev', ev, sorted. split; [exact S0|]. split; [exact S2|exact S3].
Defined.

Lemma create_logpack_list_tiles_witness :
  let l := [init_bio_wrapper (write8 0); init_bio_wrapper (write8 8)] in
  let r := create_logpack_list K mp wdev0 l 0 in
  (forall h b pbs rs,
     logpack_lsid (snd (walb_logpack_header_add_bio K h b pbs rs)) =
     logpack_lsid h) /\
  fst (fst (fst r)) = true /\
  tiles 0 (latest (lsids (snd (fst r)))) (snd (fst (fst r))).
Proof.
  intros l r.
  assert (H1 : forall h b pbs rs,
             logpack_lsid (snd (walb_logpack_header_add_bio K h b pbs rs)) =
             logpack_lsid h) by exact (law_lsid example_kern_laws).
  assert (H2 : fst (fst (fst r)) = true) by reflexivity.
  split; [exact H1|]. split; [exact H2|].
  exact (proj1 (@create_logpack_list_tiles K mp wdev0 l 0 H1 H2)).
Defined.

Lemma retried_insertion_no_stopper_witness :
  let st := mk_waitlog_state wdev_at_limit false [] [] in
  let biow := init_bio_wrapper (write8 0) in
  let done := fun _ : bio => 0 in
  let n_fail := fun _ : bio_wrapper => 1%nat in
  wl_failed st = false /\
  error (wait_for_bio_wrapper done biow true) = 0 /\
  len biow <> 0 /\ st_discard biow = false /\ (0 < n_fail biow)%nat /\
  0 <= pending_sectors (iocored (wl_dev st)) < 2 ^ 32 /\
  n_stoppers (iocored (wl_dev (waitlog_one K done n_fail 0 st biow))) = 0 /\
  is_under_throttling (iocored (wl_dev (waitlog_one K done n_fail 0 st biow))) =
    true.
Proof.
  intros st biow done n_fail.
  assert (H1 : wl_failed st = false) by reflexivity.
  assert (H2 : error (wait_for_bio_wrapper done biow true) = 0) by reflexivity.
  assert (H3 : len biow <> 0) by discriminate.
  assert (H4 : st_discard biow = false) by reflexivity.
  assert (H5 : (0 < n_fail biow)%nat) by (unfold n_fail; lia).
  assert (H6 : 0 <= pending_sectors (iocored (wl_dev st)) < 2 ^ 32)
    by (cbn; lia).
  split; [exact H1|]. split; [exact H2|]. split; [exact H3|].
  split; [exact H4|]. split; [exact H5|]. split; [exact H6|].
  exact (@retried_insertion_no_stopper K done n_fail 0 st biow H1 H2 H3 H4 H5 H6).
Defined.

Lemma stages_stay_scheduled_witness :
  reachable K mp wdev0 run5 /\ stages_scheduled (iocored wdev0) /\
  stages_scheduled (iocored run5) /\
  logpack_wait_queue (iocored run5) <> [] /\
  IOCORE_STATE_WAIT_LOG_TASK_WORKING (flags (iocored run5)) = true.
Proof.
  assert (H1 : reachable K mp wdev0 run5) by exact example_run_reachable.
  assert (H2 : stages_scheduled (iocored wdev0)).
  { unfold stages_scheduled. cbn. repeat split; intros Hne; now elim Hne. }
  pose proof (@stages_stay_scheduled K mp wdev0 run5 H1 H2) as H3.
  assert (H4 : logpack_wait_queue (iocored run5) <> [])
    by (vm_compute; discriminate).
  split; [exact H1|]. split; [exact H2|]. split; [exact H3|].
  split; [exact H4|]. exact (proj1 H3 H4).
Defined.

End Examples.

End IoFacts.
